(** * Wikilon runtime core: value words, arena, constructors and readers

    A shallow embedding of [wikilon-runtime/wikrt.h] and
    [wikilon-runtime/wikrt.c].  Value words are 32-bit unsigned integers
    carried in [Z] with the wrap-around written out; the context memory is a
    byte-addressed arena read and written through little-endian word
    accessors; the free-list allocator, which the header only declares, is an
    interface with its laws. *)

From Stdlib Require Import ZArith List Bool Lia.
Import ListNotations.
Local Open Scope Z_scope.

(** ** Machine integers *)

Definition u32 (z : Z) : Z := z mod 2^32.
Definition u64 (z : Z) : Z := z mod 2^64.

Definition i32 (z : Z) : Z :=
  let u := u32 z in if u <? 2^31 then u else u - 2^32.
Definition i64 (z : Z) : Z :=
  let u := u64 z in if u <? 2^63 then u else u - 2^64.

Definition INT32_MAX : Z := 2147483647.
Definition INT32_MIN : Z := -2147483648.
Definition INT64_MAX : Z := 9223372036854775807.
Definition INT64_MIN : Z := -9223372036854775808.

(** C's [/] and [%] truncate toward zero. *)
Definition cdiv (a b : Z) : Z := Z.quot a b.
Definition cmod (a b : Z) : Z := Z.rem a b.

(** ** Value words (wikrt.h) *)

Definition wikrt_val := Z.
Definition wikrt_addr := Z.
Definition wikrt_tag := Z.
Definition wikrt_size := Z.

Definition WIKRT_CELLSIZE : Z := 8.
Definition WIKRT_PAGESIZE : Z := Z.shiftl 1 14.

Definition WIKRT_LNBUFF_POW2 (sz ln : Z) : Z :=
  Z.land (sz + (ln - 1)) (Z.lnot (ln - 1)).
Definition WIKRT_CELLBUFF (sz : Z) : Z := u32 (WIKRT_LNBUFF_POW2 sz WIKRT_CELLSIZE).
Definition WIKRT_PAGEBUFF (sz : Z) : Z := u32 (WIKRT_LNBUFF_POW2 sz WIKRT_PAGESIZE).

Definition WIKRT_O : Z := 1.
Definition WIKRT_P : Z := 3.
Definition WIKRT_PL : Z := 5.
Definition WIKRT_PR : Z := 7.

Definition WIKRT_VOID : Z := WIKRT_O.
Definition WIKRT_UNIT : Z := WIKRT_P.
Definition WIKRT_UNIT_INL : Z := WIKRT_PL.
Definition WIKRT_UNIT_INR : Z := WIKRT_PR.

Definition WIKRT_MASK_TAG : Z := 7.
Definition WIKRT_MASK_ADDR : Z := u32 (Z.lnot WIKRT_MASK_TAG).

Definition wikrt_vaddr (v : wikrt_val) : wikrt_addr := Z.land v WIKRT_MASK_ADDR.
Definition wikrt_vtag (v : wikrt_val) : wikrt_tag := Z.land v WIKRT_MASK_TAG.
Definition wikrt_tag_addr (t : wikrt_tag) (a : wikrt_addr) : wikrt_val := Z.lor t a.

Definition WIKRT_SMALLINT_MAX : Z := Z.shiftl 1 30 - 1.
Definition WIKRT_SMALLINT_MIN : Z := - WIKRT_SMALLINT_MAX.

Definition wikrt_i2v (n : Z) : wikrt_val := u32 (Z.shiftl n 1).
Definition wikrt_v2i (v : wikrt_val) : Z := Z.shiftr (i32 v) 1.
Definition wikrt_i (v : wikrt_val) : bool := Z.land v 1 =? 0.

Definition WIKRT_OTAG_BIGINT : Z := 78.
Definition WIKRT_OTAG_DEEPSUM : Z := 83.
Definition WIKRT_OTAG_BLOCK : Z := 91.
Definition WIKRT_OTAG_OPVAL : Z := 39.
Definition WIKRT_OTAG_SEAL : Z := 36.
Definition WIKRT_OTAG_SEAL_SM : Z := 58.
Definition WIKRT_OTAG_ARRAY : Z := 86.
Definition WIKRT_OTAG_BINARY : Z := 56.
Definition WIKRT_OTAG_TEXT : Z := 34.
Definition WIKRT_OTAG_STOWAGE : Z := 64.
Definition LOBYTE (v : Z) : Z := Z.land v 255.

Definition WIKRT_DEEPSUMR : Z := 3.
Definition WIKRT_DEEPSUML : Z := 2.

Definition WIKRT_BIGINT_DIGIT : Z := 1000000000.

Definition WIKRT_BLOCK_RELEVANT : Z := Z.shiftl 1 8.
Definition WIKRT_BLOCK_AFFINE : Z := Z.shiftl 1 9.
Definition WIKRT_OPVAL_LAZYKF : Z := Z.shiftl 1 8.

Definition wikrt_otag_bigint (v : Z) : bool := WIKRT_OTAG_BIGINT =? LOBYTE v.
Definition wikrt_otag_deepsum (v : Z) : bool := WIKRT_OTAG_DEEPSUM =? LOBYTE v.
Definition wikrt_otag_block (v : Z) : bool := WIKRT_OTAG_BLOCK =? LOBYTE v.
Definition wikrt_otag_seal (v : Z) : bool := WIKRT_OTAG_SEAL =? LOBYTE v.
Definition wikrt_otag_seal_sm (v : Z) : bool := WIKRT_OTAG_SEAL_SM =? LOBYTE v.
Definition wikrt_otag_array (v : Z) : bool := WIKRT_OTAG_ARRAY =? LOBYTE v.

Definition wikrt_block_rel (v : Z) : bool := negb (0 =? Z.land WIKRT_BLOCK_RELEVANT v).
Definition wikrt_block_aff (v : Z) : bool := negb (0 =? Z.land WIKRT_BLOCK_AFFINE v).

Definition wikrt_mkotag_bigint (positive : bool) (nDigits : Z) : wikrt_val :=
  u32 (Z.lor (Z.shiftl (Z.lor (Z.shiftl nDigits 1) (if positive then 0 else 1)) 8)
             WIKRT_OTAG_BIGINT).

Definition wikrt_copy_shallow (v : wikrt_val) : bool :=
  wikrt_i v || (0 =? wikrt_vaddr v).

(** Error codes of the public header, an enumeration. *)
Inductive wikrt_err : Set :=
| WIKRT_OK
| WIKRT_INVAL
| WIKRT_IMPL
| WIKRT_TYPE_ERROR
| WIKRT_CXFULL
| WIKRT_BUFFSZ.

(** ** The arena: bytes, and words stored little-endian *)

Definition arena := Z -> Z.

Definition load8 (m : arena) (a : Z) : Z := (m a) mod 256.
Definition store8 (m : arena) (a b : Z) : arena :=
  fun x => if x =? a then b mod 256 else m x.

Definition load32 (m : arena) (a : Z) : Z :=
  load8 m a + 2^8 * load8 m (a + 1) + 2^16 * load8 m (a + 2) + 2^24 * load8 m (a + 3).
Definition store32 (m : arena) (a v : Z) : arena :=
  store8 (store8 (store8 (store8 m a v) (a + 1) (v / 2^8)) (a + 2) (v / 2^16))
         (a + 3) (v / 2^24).

(** [memcpy(dst, src, n)] for regions that do not overlap. *)
Fixpoint memcpy_bytes (m : arena) (dst : Z) (bs : list Z) : arena :=
  match bs with
  | [] => m
  | b :: bs' => memcpy_bytes (store8 m dst b) (dst + 1) bs'
  end.

Fixpoint load_bytes (m : arena) (a : Z) (n : nat) : list Z :=
  match n with
  | O => []
  | S n' => load8 m a :: load_bytes m (a + 1) n'
  end.

Definition memcpy (m : arena) (dst src n : Z) : arena :=
  memcpy_bytes m dst (load_bytes m src (Z.to_nat n)).

(** ** Free lists (wikrt.h declares them; their bodies are elsewhere)

    The allocator is used through [wikrt_fl_alloc], [wikrt_fl_free],
    [wikrt_fl_coalesce] and [wikrt_fl_merge].  [fl_owns f x] says that byte
    [x] of the arena lies in a free block of [f]; the laws say that a block
    handed out was free and is no longer, that blocks are cell-aligned and
    inside the 32-bit arena, and that freeing, merging and coalescing create
    no free byte out of nothing.

    In C the four functions also take the arena ([void* mem]): the lists
    are stacks threaded through the free blocks themselves.  The class keeps
    the set of free bytes only, so what the arena holds at a free byte is
    not modelled; the theorems of this file about the arena speak of the
    bytes in use, of the values read back from them and of the counters. *)
Class wikrt_flist : Type := {
  wikrt_fl : Type;
  wikrt_fl_zero : wikrt_fl;
  wikrt_fl_alloc : wikrt_fl -> Z -> option (Z * wikrt_fl);
  wikrt_fl_free : wikrt_fl -> Z -> Z -> wikrt_fl;
  wikrt_fl_coalesce : wikrt_fl -> wikrt_fl;
  wikrt_fl_merge : wikrt_fl -> wikrt_fl -> wikrt_fl;
  fl_ok : wikrt_fl -> Prop;
  fl_owns : wikrt_fl -> Z -> Prop;
  fl_zero_ok : fl_ok wikrt_fl_zero;
  fl_zero_owns : forall x, ~ fl_owns wikrt_fl_zero x;
  fl_alloc_ok : forall f sz a f',
      fl_ok f -> 0 < sz -> sz mod 8 = 0 ->
      wikrt_fl_alloc f sz = Some (a, f') ->
      fl_ok f' /\ 0 < a /\ a mod 8 = 0 /\ a + sz <= 2^32 /\
      (forall x, a <= x < a + sz -> fl_owns f x) /\
      (forall x, fl_owns f' x -> fl_owns f x /\ ~ (a <= x < a + sz));
  fl_free_ok : forall f sz a,
      fl_ok f -> 0 < sz -> sz mod 8 = 0 -> 0 < a -> a mod 8 = 0 ->
      a + sz <= 2^32 ->
      (forall x, a <= x < a + sz -> ~ fl_owns f x) ->
      fl_ok (wikrt_fl_free f sz a) /\
      (forall x, fl_owns (wikrt_fl_free f sz a) x ->
                 fl_owns f x \/ a <= x < a + sz);
  fl_coalesce_ok : forall f,
      fl_ok f ->
      fl_ok (wikrt_fl_coalesce f) /\
      (forall x, fl_owns (wikrt_fl_coalesce f) x -> fl_owns f x);
  fl_merge_ok : forall src dst,
      fl_ok src -> fl_ok dst ->
      (forall x, ~ (fl_owns src x /\ fl_owns dst x)) ->
      fl_ok (wikrt_fl_merge src dst) /\
      (forall x, fl_owns (wikrt_fl_merge src dst) x ->
                 fl_owns src x \/ fl_owns dst x)
}.

(** ** Contexts and the allocation API (wikrt.c) *)

(** Where a [wikrt_val*] points: the caller's variable, a word of the
    arena, or nowhere. *)
Inductive val_ptr : Set :=
| PtrOut
| PtrMem (a : Z)
| PtrNull.

Record wikrt_cx {FL : wikrt_flist} : Type := mk_cx {
  memory : arena;
  fl : wikrt_fl;
  cxm_fl : wikrt_fl;
  ct_bytes_freed : Z;
  ct_bytes_alloc : Z
}.
Arguments mk_cx {FL} _ _ _ _ _.

Section Alloc.
Context {FL : wikrt_flist}.

Definition set_memory (cx : wikrt_cx) (m : arena) : wikrt_cx :=
  mk_cx m (fl cx) (cxm_fl cx) (ct_bytes_freed cx) (ct_bytes_alloc cx).

(** [wikrt_pval(cx, addr)[i]], read and written. *)
Definition pval_get (cx : wikrt_cx) (addr i : Z) : Z :=
  load32 (memory cx) (addr + 4 * i).
Definition pval_set (cx : wikrt_cx) (addr i v : Z) : wikrt_cx :=
  set_memory cx (store32 (memory cx) (addr + 4 * i) v).

Definition wikrt_alloc_local (cx : wikrt_cx) (sz : Z) : option wikrt_addr * wikrt_cx :=
  match wikrt_fl_alloc (fl cx) sz with
  | Some (addr, fl') =>
      (Some addr,
       mk_cx (memory cx) fl' (cxm_fl cx) (ct_bytes_freed cx) (u64 (ct_bytes_alloc cx + sz)))
  | None => (None, cx)
  end.

Definition wikrt_acquire_shm (cx : wikrt_cx) (sz : Z) : bool * wikrt_cx :=
  match wikrt_fl_alloc (cxm_fl cx) sz with
  | Some (block, cxm') =>
      (true, mk_cx (memory cx) (wikrt_fl_free (fl cx) sz block) cxm'
                   (ct_bytes_freed cx) (ct_bytes_alloc cx))
  | None => (false, cx)
  end.

Definition wikrt_acquire_shared_memory (cx : wikrt_cx) (sz : Z) : wikrt_cx :=
  let '(ok, cx1) := wikrt_acquire_shm cx sz in
  if ok then cx1 else
    let cxm1 := wikrt_fl_coalesce (wikrt_fl_merge (fl cx1) (cxm_fl cx1)) in
    let cx2 := mk_cx (memory cx1) wikrt_fl_zero cxm1
                     (ct_bytes_freed cx1) (ct_bytes_alloc cx1) in
    let '(ok2, cx3) := wikrt_acquire_shm cx2 sz in
    if ok2 then cx3 else
      mk_cx (memory cx3) (wikrt_fl_merge (cxm_fl cx3) (fl cx3)) wikrt_fl_zero
            (ct_bytes_freed cx3) (ct_bytes_alloc cx3).

Definition wikrt_alloc (cx : wikrt_cx) (sz : Z) : option wikrt_addr * wikrt_cx :=
  let sz := WIKRT_CELLBUFF sz in
  match wikrt_alloc_local cx sz with
  | (Some addr, cx1) => (Some addr, cx1)
  | (None, cx1) =>
      wikrt_alloc_local (wikrt_acquire_shared_memory cx1 (WIKRT_PAGEBUFF sz)) sz
  end.

Definition wikrt_free (cx : wikrt_cx) (sz : Z) (addr : wikrt_addr) : wikrt_cx :=
  let sz := WIKRT_CELLBUFF sz in
  mk_cx (memory cx) (wikrt_fl_free (fl cx) sz addr) (cxm_fl cx)
        (u64 (ct_bytes_freed cx + sz)) (ct_bytes_alloc cx).

(** [*p] read and written, [out] being the caller's variable. *)
Definition ptr_read (cx : wikrt_cx) (out : wikrt_val) (p : val_ptr) : wikrt_val :=
  match p with
  | PtrOut => out
  | PtrMem a => load32 (memory cx) a
  | PtrNull => 0
  end.

Definition ptr_write (cx : wikrt_cx) (out : wikrt_val) (p : val_ptr) (v : wikrt_val)
  : wikrt_val * wikrt_cx :=
  match p with
  | PtrOut => (v, cx)
  | PtrMem a => (out, set_memory cx (store32 (memory cx) a v))
  | PtrNull => (out, cx)
  end.

(** [wikrt_alloc_cellval(cx, dst, tag, v0, v1)]: on success the new value
    word is stored through [dst], then the cell is filled.  Result: the C
    boolean, the caller's variable, the context. *)
Definition wikrt_alloc_cellval (cx : wikrt_cx) (out : wikrt_val) (dst : val_ptr)
           (tag : wikrt_tag) (v0 v1 : wikrt_val) : bool * wikrt_val * wikrt_cx :=
  match wikrt_alloc cx WIKRT_CELLSIZE with
  | (None, cx1) => (false, out, cx1)
  | (Some addr, cx1) =>
      let '(out1, cx2) := ptr_write cx1 out dst (wikrt_tag_addr tag addr) in
      (true, out1, pval_set (pval_set cx2 addr 0 v0) addr 1 v1)
  end.

Definition wikrt_alloc_dcellval (cx : wikrt_cx) (out : wikrt_val) (dst : val_ptr)
           (v0 v1 v2 v3 : wikrt_val) : bool * wikrt_val * wikrt_cx :=
  match wikrt_alloc cx (2 * WIKRT_CELLSIZE) with
  | (None, cx1) => (false, out, cx1)
  | (Some addr, cx1) =>
      let '(out1, cx2) := ptr_write cx1 out dst (wikrt_tag_addr WIKRT_O addr) in
      (true, out1,
       pval_set (pval_set (pval_set (pval_set cx2 addr 0 v0) addr 1 v1) addr 2 v2) addr 3 v3)
  end.

(** ** Integers (wikrt.c) *)

(** [sizeof(wikrt_val) + nDigits * sizeof(uint32_t)] *)
Definition bigint_size (nDigits : Z) : Z := u32 (4 + nDigits * 4).

Definition wikrt_alloc_medint (cx : wikrt_cx) (v : wikrt_val)
           (positive : bool) (d0 d1 d2 : Z) : wikrt_err * wikrt_val * wikrt_cx :=
  if d2 =? 0 then
    let nDigits := 2 in
    match wikrt_alloc cx (bigint_size nDigits) with
    | (None, cx1) => (WIKRT_CXFULL, v, cx1)
    | (Some addr, cx1) =>
        let cx2 := pval_set cx1 addr 0 (wikrt_mkotag_bigint positive nDigits) in
        let cx3 := pval_set cx2 addr 1 d0 in
        let cx4 := pval_set cx3 addr 2 d1 in
        (WIKRT_OK, wikrt_tag_addr WIKRT_O addr, cx4)
    end
  else
    let nDigits := 3 in
    match wikrt_alloc cx (bigint_size nDigits) with
    | (None, cx1) => (WIKRT_CXFULL, v, cx1)
    | (Some addr, cx1) =>
        let cx2 := pval_set cx1 addr 0 (wikrt_mkotag_bigint positive nDigits) in
        let cx3 := pval_set cx2 addr 1 d0 in
        let cx4 := pval_set cx3 addr 2 d1 in
        let cx5 := pval_set cx4 addr 3 d2 in
        (WIKRT_OK, wikrt_tag_addr WIKRT_O addr, cx5)
    end.

(** Result of [wikrt_peek_medint]: status, sign and the three digits. *)
Definition wikrt_peek_medint (cx : wikrt_cx) (v : wikrt_val)
  : wikrt_err * bool * Z * Z * Z :=
  if wikrt_i v then
    let n := wikrt_v2i v in
    let positive := 0 <=? n in
    let n := if positive then n else i32 (- n) in
    (WIKRT_OK, positive,
     u32 (cmod n WIKRT_BIGINT_DIGIT), u32 (cdiv n WIKRT_BIGINT_DIGIT), 0)
  else
    let tag := wikrt_vtag v in
    let addr := wikrt_vaddr v in
    let isBigInt := negb (0 =? addr) && (WIKRT_O =? tag)
                    && wikrt_otag_bigint (pval_get cx addr 0) in
    if negb isBigInt then (WIKRT_TYPE_ERROR, false, 0, 0, 0)
    else
      let pv0 := pval_get cx addr 0 in
      let nDigits := Z.shiftr pv0 9 in
      let positive := 0 =? Z.land (Z.shiftl 1 8) pv0 in
      let d0 := pval_get cx addr 1 in
      let d1 := pval_get cx addr 2 in
      let d2 := if 2 <? nDigits then pval_get cx addr 3 else 0 in
      (if 3 <? nDigits then WIKRT_BUFFSZ else WIKRT_OK, positive, d0, d1, d2).

Definition in_smallint (n : Z) : bool :=
  (WIKRT_SMALLINT_MIN <=? n) && (n <=? WIKRT_SMALLINT_MAX).

Definition _wikrt_alloc_i32 (cx : wikrt_cx) (v : wikrt_val) (n : Z)
  : wikrt_err * wikrt_val * wikrt_cx :=
  if in_smallint n then (WIKRT_OK, wikrt_i2v n, cx)
  else if negb (n =? INT32_MIN) then
    let positive := 0 <=? n in
    let n := if positive then n else i32 (- n) in
    let d0 := u32 (cmod n WIKRT_BIGINT_DIGIT) in
    let d1 := u32 (cdiv n WIKRT_BIGINT_DIGIT) in
    wikrt_alloc_medint cx v positive d0 d1 0
  else
    wikrt_alloc_medint cx v false 147483648 2 0.

Definition _wikrt_alloc_i64 (cx : wikrt_cx) (v : wikrt_val) (n : Z)
  : wikrt_err * wikrt_val * wikrt_cx :=
  if in_smallint n then (WIKRT_OK, wikrt_i2v (i32 n), cx)
  else if negb (n =? INT64_MIN) then
    let positive := 0 <=? n in
    let n := if positive then n else i64 (- n) in
    let d0 := u32 (cmod n WIKRT_BIGINT_DIGIT) in
    let n := cdiv n WIKRT_BIGINT_DIGIT in
    let d1 := u32 (cmod n WIKRT_BIGINT_DIGIT) in
    let d2 := u32 (cdiv n WIKRT_BIGINT_DIGIT) in
    wikrt_alloc_medint cx v positive d0 d1 d2
  else
    wikrt_alloc_medint cx v false 854775808 223372036 9.

Definition _wikrt_peek_i32 (cx : wikrt_cx) (v : wikrt_val) : wikrt_err * Z * wikrt_cx :=
  if wikrt_i v then (WIKRT_OK, wikrt_v2i v, cx)
  else
    let '(st, positive, d0, d1, d2) := wikrt_peek_medint cx v in
    match st with
    | WIKRT_OK =>
        let digit := WIKRT_BIGINT_DIGIT in
        if positive then
          let d1m := 2 in
          let d0m := 147483647 in
          let overflow := negb (d2 =? 0) || (d1m <? d1) || ((d1 =? d1m) && (d0m <? d0)) in
          if overflow then (WIKRT_BUFFSZ, INT32_MAX, cx)
          else (WIKRT_OK, i32 (u32 (u32 (d1 * u32 digit) + d0)), cx)
        else
          let d1m := 2 in
          let d0m := 147483648 in
          let underflow := negb (d2 =? 0) || (d1m <? d1) || ((d1 =? d1m) && (d0m <? d0)) in
          if underflow then (WIKRT_BUFFSZ, INT32_MIN, cx)
          else (WIKRT_OK, i32 (i32 (0 - i32 (i32 d1 * digit)) - i32 d0), cx)
    | _ => (st, if positive then INT32_MAX else INT32_MIN, cx)
    end.

Definition _wikrt_peek_i64 (cx : wikrt_cx) (v : wikrt_val) : wikrt_err * Z * wikrt_cx :=
  if wikrt_i v then (WIKRT_OK, wikrt_v2i v, cx)
  else
    let '(st, positive, d0, d1, d2) := wikrt_peek_medint cx v in
    match st with
    | WIKRT_OK =>
        let digit := WIKRT_BIGINT_DIGIT in
        if d2 =? 0 then
          let iAbs := i64 (i64 (d1 * digit) + d0) in
          (WIKRT_OK, if positive then iAbs else i64 (- iAbs), cx)
        else if positive then
          let d2m := 9 in
          let d1m := 223372036 in
          let d0m := 854775807 in
          let overflow :=
            (d2m <? d2) ||
            ((d2 =? d2m) && ((d1m <? d1) || ((d1 =? d1m) && (d0m <? d0)))) in
          if overflow then (WIKRT_BUFFSZ, INT64_MAX, cx)
          else (WIKRT_OK,
                i64 (i64 (i64 (d2 * i64 (digit * digit)) + i64 (d1 * digit)) + d0), cx)
        else
          let d2m := 9 in
          let d1m := 223372036 in
          let d0m := 854775808 in
          let underflow :=
            (d2m <? d2) ||
            ((d2 =? d2m) && ((d1m <? d1) || ((d1 =? d1m) && (d0m <? d0)))) in
          if underflow then (WIKRT_BUFFSZ, INT64_MIN, cx)
          else (WIKRT_OK,
                i64 (i64 (i64 (0 - i64 (d2 * i64 (digit * digit))) - i64 (d1 * digit)) - d0), cx)
    | _ => (st, if positive then INT64_MAX else INT64_MIN, cx)
    end.

(** [_wikrt_alloc_istr]: the body stores [WIKRT_VOID] and reports the
    operation as not implemented. *)
Definition _wikrt_alloc_istr (cx : wikrt_cx) (v : wikrt_val) (istr : list Z) (strlen : Z)
  : wikrt_err * wikrt_val * wikrt_cx :=
  (WIKRT_IMPL, WIKRT_VOID, cx).

End Alloc.

(** ** Sums (wikrt.c) *)

Section Sums.
Context {FL : wikrt_flist}.

(** [c] is the content of the caller's cell before the call; it is what
    the caller still sees when the function returns without storing. *)
Definition _wikrt_alloc_sum (cx : wikrt_cx) (c : wikrt_val) (inRight : bool) (v : wikrt_val)
  : wikrt_err * wikrt_val * wikrt_cx :=
  let vtag := wikrt_vtag v in
  let vaddr := wikrt_vaddr v in
  if WIKRT_P =? vtag then
    let newtag := if inRight then WIKRT_PR else WIKRT_PL in
    (WIKRT_OK, wikrt_tag_addr newtag vaddr, cx)
  else if (WIKRT_O =? vtag) && wikrt_otag_deepsum (pval_get cx vaddr 0)
          && (pval_get cx vaddr 0 <? Z.shiftl 1 30) then
    let s0 := Z.shiftr (pval_get cx vaddr 0) 8 in
    let sf := u32 (Z.lor (u32 (Z.shiftl s0 2))
                         (if inRight then WIKRT_DEEPSUMR else WIKRT_DEEPSUML)) in
    let otag := u32 (Z.lor (u32 (Z.shiftl sf 8)) WIKRT_OTAG_DEEPSUM) in
    (WIKRT_OK, v, pval_set cx vaddr 0 otag)
  else
    let sf := if inRight then WIKRT_DEEPSUMR else WIKRT_DEEPSUML in
    let otag := u32 (Z.lor (u32 (Z.shiftl sf 8)) WIKRT_OTAG_DEEPSUM) in
    match wikrt_alloc_cellval cx c PtrOut WIKRT_O otag v with
    | (false, c', cx1) => (WIKRT_CXFULL, c', cx1)
    | (true, c', cx1) => (WIKRT_OK, c', cx1)
    end.

(** Result: status, [*inRight], [*v], context. *)
Definition _wikrt_split_sum (cx : wikrt_cx) (c : wikrt_val)
  : wikrt_err * bool * wikrt_val * wikrt_cx :=
  let tag := wikrt_vtag c in
  let addr := wikrt_vaddr c in
  if WIKRT_PL =? tag then (WIKRT_OK, false, wikrt_tag_addr WIKRT_P addr, cx)
  else if WIKRT_PR =? tag then (WIKRT_OK, true, wikrt_tag_addr WIKRT_P addr, cx)
  else if WIKRT_O =? tag then
    let otag := pval_get cx addr 0 in
    if wikrt_otag_deepsum otag then
      let s0 := Z.shiftr otag 8 in
      let inRight := 3 =? Z.land 3 s0 in
      let sf := Z.shiftr s0 2 in
      if 0 =? sf then
        (WIKRT_OK, inRight, pval_get cx addr 1, wikrt_free cx WIKRT_CELLSIZE addr)
      else
        (WIKRT_OK, inRight, c,
         pval_set cx addr 0 (u32 (Z.lor (u32 (Z.shiftl sf 8)) WIKRT_OTAG_DEEPSUM)))
    else if wikrt_otag_array otag then (WIKRT_IMPL, false, WIKRT_VOID, cx)
    else (WIKRT_TYPE_ERROR, false, WIKRT_VOID, cx)
  else (WIKRT_TYPE_ERROR, false, WIKRT_VOID, cx).

(** [n] successive wraps in one direction, and [n] successive unwraps that
    collect the directions read, as the test suite builds and dismantles a
    deep sum. *)
Fixpoint wrap_sum_n (n : nat) (cx : wikrt_cx) (inRight : bool) (v : wikrt_val)
  : wikrt_err * wikrt_val * wikrt_cx :=
  match n with
  | O => (WIKRT_OK, v, cx)
  | S n' =>
      match _wikrt_alloc_sum cx v inRight v with
      | (WIKRT_OK, c, cx1) => wrap_sum_n n' cx1 inRight c
      | r => r
      end
  end.

Fixpoint unwrap_sum_n (n : nat) (cx : wikrt_cx) (c : wikrt_val)
  : wikrt_err * list bool * wikrt_val * wikrt_cx :=
  match n with
  | O => (WIKRT_OK, [], c, cx)
  | S n' =>
      match _wikrt_split_sum cx c with
      | (WIKRT_OK, d, v, cx1) =>
          let '(st, ds, v', cx2) := unwrap_sum_n n' cx1 v in (st, d :: ds, v', cx2)
      | (st, d, v, cx1) => (st, [d], v, cx1)
      end
  end.

End Sums.

(** ** Sealed values (wikrt.c) *)

(** A token is a C string: a list of [char] values.  Whether plain [char]
    is signed is the platform's choice; [char_signed] records it, and
    [to_char] is the conversion of a value in 0..255 to [char]. *)
Definition to_char (char_signed : bool) (b : Z) : Z :=
  if char_signed && (128 <=? b) then b - 256 else b.

Definition char_ok (char_signed : bool) (c : Z) : Prop :=
  if char_signed then -128 <= c <= 127 else 0 <= c <= 255.

(** [s[N]] *)
Definition str_at (s : list Z) (N : Z) : Z := nth (Z.to_nat N) s 0.

(** Store character [c] at index [i] of a buffer. *)
Fixpoint buf_set (b : list Z) (i : nat) (c : Z) : list Z :=
  match b, i with
  | [], _ => []
  | _ :: r, O => c :: r
  | x :: r, S i' => x :: buf_set r i' c
  end.

Fixpoint buf_write (b : list Z) (i : nat) (cs : list Z) : list Z :=
  match cs with
  | [] => b
  | c :: cs' => buf_write (buf_set b i c) (S i) cs'
  end.

(** The C string held by a buffer: the characters before the first NUL. *)
Fixpoint cstr (b : list Z) : list Z :=
  match b with
  | [] => []
  | c :: r => if c =? 0 then [] else c :: cstr r
  end.

Definition WIKRT_TOK_BUFFSZ : Z := 64.

Section Seals.
Context {FL : wikrt_flist}.
Variable char_signed : bool.

Definition seal_TAG (s : list Z) (len : Z) (N : Z) : Z :=
  if N <? len then u32 (Z.shiftl (u32 (str_at s N)) (8 * N)) else 0.

Definition _wikrt_alloc_seal (cx : wikrt_cx) (sv : wikrt_val)
           (s : list Z) (len : Z) (v : wikrt_val)
  : wikrt_err * wikrt_val * wikrt_cx :=
  let validLen := (0 <? len) && (len <? 64) in
  if negb validLen then (WIKRT_INVAL, WIKRT_VOID, cx)
  else if (58 =? str_at s 0) && (len <=? 4) then
    let tag := Z.lor (Z.lor (Z.lor (seal_TAG s len 3) (seal_TAG s len 2))
                            (seal_TAG s len 1)) WIKRT_OTAG_SEAL_SM in
    match wikrt_alloc_cellval cx sv PtrOut WIKRT_O tag v with
    | (false, sv', cx1) => (WIKRT_CXFULL, sv', cx1)
    | (true, sv', cx1) => (WIKRT_OK, sv', cx1)
    end
  else
    let szTotal := u32 (WIKRT_CELLSIZE + u32 len) in
    match wikrt_alloc cx szTotal with
    | (None, cx1) => (WIKRT_CXFULL, WIKRT_VOID, cx1)
    | (Some dst, cx1) =>
        let cx2 := pval_set cx1 dst 0 (u32 (Z.lor (Z.shiftl len 8) WIKRT_OTAG_SEAL)) in
        let cx3 := pval_set cx2 dst 1 v in
        let cx4 := set_memory cx3
                     (memcpy_bytes (memory cx3) (dst + 8) (firstn (Z.to_nat len) s)) in
        (WIKRT_OK, wikrt_tag_addr WIKRT_O dst, cx4)
    end.

(** Result: status, the token buffer, [*v], context. *)
Definition _wikrt_split_seal (cx : wikrt_cx) (sv : wikrt_val) (buff : list Z)
  : wikrt_err * list Z * wikrt_val * wikrt_cx :=
  let buff := buf_set buff 0 0 in
  let addr := wikrt_vaddr sv in
  let tag := wikrt_vtag sv in
  if negb (WIKRT_O =? tag) || (0 =? addr) then (WIKRT_TYPE_ERROR, buff, WIKRT_VOID, cx)
  else
    let otag := pval_get cx addr 0 in
    if wikrt_otag_seal_sm otag then
      let v := pval_get cx addr 1 in
      let buff := buf_set buff 0 58 in
      let buff := buf_set buff 1 (to_char char_signed (Z.land (Z.shiftr otag 8) 255)) in
      let buff := buf_set buff 2 (to_char char_signed (Z.land (Z.shiftr otag 16) 255)) in
      let buff := buf_set buff 3 (to_char char_signed (Z.land (Z.shiftr otag 24) 255)) in
      let buff := buf_set buff 4 0 in
      (WIKRT_OK, buff, v, wikrt_free cx WIKRT_CELLSIZE addr)
    else if wikrt_otag_seal otag then
      let len := Z.land (Z.shiftr otag 8) 63 in
      let allocSz := WIKRT_CELLSIZE + len in
      let buff := buf_write buff 0
                    (map (to_char char_signed)
                         (load_bytes (memory cx) (addr + 8) (Z.to_nat len))) in
      let buff := buf_set buff (Z.to_nat len) 0 in
      let v := pval_get cx addr 1 in
      (WIKRT_OK, buff, v, wikrt_free cx allocSz addr)
    else (WIKRT_TYPE_ERROR, buff, WIKRT_VOID, cx).

End Seals.

(** ** Text (wikrt.c, with the decoder of utf8.h) *)

(** Modelled from the spec: [isControlChar] and [isReplacementChar] of
    utf8.h, which is not among the sources.  The spec forbids U+0000..U+001F
    and U+007F as control characters and U+FFFD as the replacement
    character. *)
Definition isControlChar (c : Z) : bool := (c <=? 31) || (c =? 127).
Definition isReplacementChar (c : Z) : bool := c =? 65533.

Definition wikrt_token_char (c : Z) : bool :=
  let bInvalidChar :=
    (123 =? c) || (125 =? c) || isControlChar c || isReplacementChar c in
  negb bInvalidChar.

Definition wikrt_text_char (c : Z) : bool :=
  let bInvalidChar :=
    (isControlChar c && negb (c =? 10)) || isReplacementChar c in
  negb bInvalidChar.

Definition utf8_cont (b : Z) : bool := (128 <=? b) && (b <? 192).

(** Modelled from the spec: [utf8_step] of utf8.h, which is not among the
    sources.  It reads one codepoint from at most [len] bytes and advances;
    it returns false only when nothing is left to read.  The spec has text
    introduction fail with INVAL on a partial sequence at the size limit, and
    the only INVAL of [_wikrt_alloc_text] is a codepoint refused by
    [wikrt_text_char]: so a malformed or truncated sequence is decoded as the
    replacement character U+FFFD, one byte being consumed.
    Result: success, remaining bytes, remaining length, codepoint. *)
Definition utf8_step (s : list Z) (len : Z) : bool * list Z * Z * Z :=
  if len <=? 0 then (false, s, len, 0)
  else
    match s with
    | [] => (false, s, len, 0)
    | b0 :: r =>
        let bad := (true, r, len - 1, 65533) in
        if b0 <? 128 then (true, r, len - 1, b0)
        else if (192 <=? b0) && (b0 <? 224) then
          match r with
          | b1 :: r1 =>
              if (2 <=? len) && utf8_cont b1
              then (true, r1, len - 2, (b0 - 192) * 64 + (b1 - 128))
              else bad
          | _ => bad
          end
        else if (224 <=? b0) && (b0 <? 240) then
          match r with
          | b1 :: b2 :: r2 =>
              if (3 <=? len) && utf8_cont b1 && utf8_cont b2
              then (true, r2, len - 3,
                    (b0 - 224) * 4096 + (b1 - 128) * 64 + (b2 - 128))
              else bad
          | _ => bad
          end
        else if (240 <=? b0) && (b0 <? 248) then
          match r with
          | b1 :: b2 :: b3 :: r3 =>
              if (4 <=? len) && utf8_cont b1 && utf8_cont b2 && utf8_cont b3
              then (true, r3, len - 4,
                    (b0 - 240) * 262144 + (b1 - 128) * 4096
                    + (b2 - 128) * 64 + (b3 - 128))
              else bad
          | _ => bad
          end
        else bad
    end.

(** The outcome of a loop run with a bound on its iterations: a result, a
    call of [abort()], or the bound reached. *)
Inductive run (A : Type) : Type :=
| Ret (a : A)
| Aborted
| OutOfFuel.
Arguments Ret {A} a.
Arguments Aborted {A}.
Arguments OutOfFuel {A}.

Section Text.
Context {FL : wikrt_flist}.

Fixpoint alloc_text_loop (fuel : nat) (cx : wikrt_cx) (txt : wikrt_val) (tl : val_ptr)
         (s : list Z) (len : Z) : run (wikrt_err * wikrt_val * wikrt_cx) :=
  match fuel with
  | O => OutOfFuel
  | S fuel' =>
      let finish :=
        let '(txt', cx') := ptr_write cx txt tl WIKRT_UNIT_INR in
        Ret (WIKRT_OK, txt', cx') in
      if len =? 0 then finish
      else
        let '(ok, s', len', cp) := utf8_step s len in
        if negb ok then finish
        else if negb (wikrt_text_char cp) then Ret (WIKRT_INVAL, txt, cx)
        else
          match wikrt_alloc_cellval cx txt tl WIKRT_PL (wikrt_i2v (i32 cp)) WIKRT_VOID with
          | (false, txt1, cx1) => Ret (WIKRT_CXFULL, txt1, cx1)
          | (true, txt1, cx1) =>
              alloc_text_loop fuel' cx1 txt1
                (PtrMem (wikrt_vaddr (ptr_read cx1 txt1 tl) + 4)) s' len'
          end
  end.

(** Every iteration consumes a byte of [s], so [length s + 1] iterations
    are enough. *)
Definition _wikrt_alloc_text (cx : wikrt_cx) (txt : wikrt_val) (cstr : list Z) (len : Z)
  : run (wikrt_err * wikrt_val * wikrt_cx) :=
  alloc_text_loop (S (length cstr)) cx WIKRT_VOID PtrOut cstr len.

(** The codepoints [utf8_step] reads from [len] bytes of [s]. *)
Fixpoint text_codepoints (fuel : nat) (s : list Z) (len : Z) : list Z :=
  match fuel with
  | O => []
  | S fuel' =>
      if len =? 0 then []
      else
        let '(ok, s', len', cp) := utf8_step s len in
        if ok then cp :: text_codepoints fuel' s' len' else []
  end.

End Text.

(** ** Deep copy and deep drop (wikrt.c)

    Both loops keep their work list inside the arena.  They are run with a
    bound on the number of iterations; [spine_length] follows right-hand
    pointers and is bounded the same way. *)

Section CopyDrop.
Context {FL : wikrt_flist}.

Fixpoint wikrt_spine_length (fuel : nat) (cx : wikrt_cx) (v : wikrt_val) (ct : Z)
  : option Z :=
  match fuel with
  | O => None
  | S fuel' =>
      if negb (WIKRT_O =? wikrt_vtag v) && negb (0 =? wikrt_vaddr v) then
        wikrt_spine_length fuel' cx (pval_get cx (wikrt_vaddr v) 1) (u32 (ct + 1))
      else Some ct
  end.

(** Result: the context, the work list and the next destination. *)
Definition wikrt_copy_step_next (cx : wikrt_cx) (lcpy : wikrt_val)
  : run (wikrt_cx * wikrt_val * val_ptr) :=
  let addr := wikrt_vaddr lcpy in
  let tag := wikrt_vtag lcpy in
  if 0 =? addr then Ret (cx, lcpy, PtrNull)
  else if WIKRT_PL =? tag then
    Ret (wikrt_free cx WIKRT_CELLSIZE addr, pval_get cx addr 1,
         PtrMem (pval_get cx addr 0))
  else if WIKRT_O =? tag then
    let dst := PtrMem (pval_get cx addr 0) in
    let cx1 := pval_set cx addr 2 (u32 (pval_get cx addr 2 - 1)) in
    let cx2 := pval_set cx1 addr 0 (u32 (pval_get cx1 addr 0 + pval_get cx1 addr 1)) in
    if 0 =? pval_get cx2 addr 2 then
      Ret (wikrt_free cx2 (2 * WIKRT_CELLSIZE) addr, pval_get cx2 addr 3, dst)
    else Ret (cx2, lcpy, dst)
  else Aborted.

(** Result: the C boolean, the work list, the context. *)
Definition wikrt_copy_add_task (cx : wikrt_cx) (lcpy : wikrt_val) (a : wikrt_addr)
  : bool * wikrt_val * wikrt_cx :=
  wikrt_alloc_cellval cx lcpy PtrOut WIKRT_PL a lcpy.

Definition wikrt_copy_add_arraytask (cx : wikrt_cx) (lcpy : wikrt_val)
           (a : wikrt_addr) (step ct : Z) : bool * wikrt_val * wikrt_cx :=
  if 1 =? ct then wikrt_copy_add_task cx lcpy a
  else wikrt_alloc_dcellval cx lcpy PtrOut a step ct lcpy.

(** The [for] loop of the pair case: fill the spine cells but the last.
    Result: the context, [hd] and [intraSpine]. *)
Fixpoint copy_spine_fill (n : nat) (cx : wikrt_cx) (hd intraSpine : Z)
  : wikrt_cx * Z * Z :=
  match n with
  | O => (cx, hd, intraSpine)
  | S n' =>
      let p := intraSpine in
      let intraSpine := u32 (intraSpine + WIKRT_CELLSIZE) in
      let cx1 := pval_set cx p 0 (pval_get cx hd 0) in
      let cx2 := pval_set cx1 p 1
                   (wikrt_tag_addr (wikrt_vtag (pval_get cx1 hd 1)) intraSpine) in
      copy_spine_fill n' cx2 (wikrt_vaddr (pval_get cx2 hd 1)) intraSpine
  end.

(** The [do ... while(NULL != dst)] loop of [_wikrt_copy].  [out] is the
    caller's variable that [dst] first points to. *)
Fixpoint copy_loop (fuel : nat) (bCopyAff : bool) (cx : wikrt_cx) (out : wikrt_val)
         (dst : val_ptr) (lcpy : wikrt_val) : run (wikrt_err * wikrt_val * wikrt_cx) :=
  match fuel with
  | O => OutOfFuel
  | S fuel' =>
      let continue (cx : wikrt_cx) (out : wikrt_val) (dst : val_ptr) (lcpy : wikrt_val) :=
        match dst with
        | PtrNull =>
            if WIKRT_UNIT_INR =? lcpy then Ret (WIKRT_OK, out, cx) else Aborted
        | _ => copy_loop fuel' bCopyAff cx out dst lcpy
        end in
      let step_next (cx : wikrt_cx) (out : wikrt_val) (lcpy : wikrt_val) :=
        match wikrt_copy_step_next cx lcpy with
        | Ret (cx1, lcpy1, dst1) => continue cx1 out dst1 lcpy1
        | Aborted => Aborted
        | OutOfFuel => OutOfFuel
        end in
      let cell_then_content (cx : wikrt_cx) (pv0 pv1 : wikrt_val) :=
        match wikrt_alloc_cellval cx out dst WIKRT_O pv0 pv1 with
        | (false, out1, cx1) => Ret (WIKRT_CXFULL, out1, cx1)
        | (true, out1, cx1) =>
            continue cx1 out1 (PtrMem (wikrt_vaddr (ptr_read cx1 out1 dst) + 4)) lcpy
        end in
      let v0 := ptr_read cx out dst in
      if wikrt_copy_shallow v0 then step_next cx out lcpy
      else
        let tag := wikrt_vtag v0 in
        let addr := wikrt_vaddr v0 in
        if negb (WIKRT_O =? tag) then
          match wikrt_spine_length fuel' cx (pval_get cx addr 1) 0 with
          | None => OutOfFuel
          | Some n =>
              let cellCt := u32 (1 + n) in
              match wikrt_alloc cx (u32 (WIKRT_CELLSIZE * cellCt)) with
              | (None, cx1) => Ret (WIKRT_CXFULL, out, cx1)
              | (Some spine, cx1) =>
                  match wikrt_copy_add_arraytask cx1 lcpy spine WIKRT_CELLSIZE cellCt with
                  | (false, _, cx2) => Ret (WIKRT_CXFULL, out, cx2)
                  | (true, lcpy1, cx2) =>
                      let '(out1, cx3) :=
                        ptr_write cx2 out dst (wikrt_tag_addr tag spine) in
                      let '(cx4, hd, intraSpine) :=
                        copy_spine_fill (Z.to_nat (cellCt - 1)) cx3 addr spine in
                      let cx5 := pval_set cx4 intraSpine 0 (pval_get cx4 hd 0) in
                      let cx6 := pval_set cx5 intraSpine 1 (pval_get cx5 hd 1) in
                      continue cx6 out1 (PtrMem (intraSpine + 4)) lcpy1
                  end
              end
          end
        else
          let pv0 := pval_get cx addr 0 in
          let pv1 := pval_get cx addr 1 in
          let otag := LOBYTE pv0 in
          if (otag =? WIKRT_OTAG_SEAL_SM) || (otag =? WIKRT_OTAG_DEEPSUM) then
            cell_then_content cx pv0 pv1
          else if otag =? WIKRT_OTAG_BLOCK then
            let bPerformCopy := negb (wikrt_block_aff pv0) || bCopyAff in
            if negb bPerformCopy then Ret (WIKRT_TYPE_ERROR, out, cx)
            else cell_then_content cx pv0 pv1
          else if otag =? WIKRT_OTAG_OPVAL then
            let latentAff := negb (0 =? Z.land WIKRT_OPVAL_LAZYKF pv0) in
            if latentAff || bCopyAff then cell_then_content cx pv0 pv1
            else
              match copy_loop fuel' true cx out dst WIKRT_UNIT_INR with
              | Ret (WIKRT_OK, out1, cx1) => step_next cx1 out1 lcpy
              | r => r
              end
          else if otag =? WIKRT_OTAG_ARRAY then Ret (WIKRT_IMPL, out, cx)
          else if otag =? WIKRT_OTAG_BIGINT then
            let nDigits := Z.shiftr pv0 9 in
            let szAlloc := u32 (4 + u32 (nDigits * 4)) in
            match wikrt_alloc cx szAlloc with
            | (None, cx1) => Ret (WIKRT_CXFULL, out, cx1)
            | (Some copy, cx1) =>
                let cx2 := set_memory cx1 (memcpy (memory cx1) copy addr szAlloc) in
                let '(out1, cx3) := ptr_write cx2 out dst (wikrt_tag_addr WIKRT_O copy) in
                step_next cx3 out1 lcpy
            end
          else if otag =? WIKRT_OTAG_SEAL then
            let len := Z.land (Z.shiftr pv0 8) 63 in
            let szAlloc := WIKRT_CELLSIZE + len in
            match wikrt_alloc cx szAlloc with
            | (None, cx1) => Ret (WIKRT_CXFULL, out, cx1)
            | (Some copy, cx1) =>
                let cx2 := set_memory cx1 (memcpy (memory cx1) copy addr szAlloc) in
                let '(out1, cx3) := ptr_write cx2 out dst (wikrt_tag_addr WIKRT_O copy) in
                continue cx3 out1 (PtrMem (copy + 4)) lcpy
            end
          else Ret (WIKRT_IMPL, out, cx)
  end.

(** [_wikrt_copy(cx, dst, origin, bCopyAff)] with [dst] the caller's
    variable. *)
Definition _wikrt_copy (fuel : nat) (cx : wikrt_cx) (origin : wikrt_val) (bCopyAff : bool)
  : run (wikrt_err * wikrt_val * wikrt_cx) :=
  copy_loop fuel bCopyAff cx origin PtrOut WIKRT_UNIT_INR.

(** Result: the context, the work list and the next value to drop. *)
Definition wikrt_drop_step_next (cx : wikrt_cx) (ldrop : wikrt_val)
  : run (wikrt_cx * wikrt_val * wikrt_val) :=
  let tag := wikrt_vtag ldrop in
  let addr := wikrt_vaddr ldrop in
  if 0 =? addr then Ret (cx, ldrop, WIKRT_VOID)
  else if WIKRT_PL =? tag then
    Ret (wikrt_free cx WIKRT_CELLSIZE addr, pval_get cx addr 1, pval_get cx addr 0)
  else Aborted.

(** The [do ... while(true)] loop of [_wikrt_drop]. *)
Fixpoint drop_loop (fuel : nat) (bDropRel : bool) (cx : wikrt_cx) (v : wikrt_val)
         (ldrop : wikrt_val) : run (wikrt_err * wikrt_cx) :=
  match fuel with
  | O => OutOfFuel
  | S fuel' =>
      let step_next (cx : wikrt_cx) (ldrop : wikrt_val) :=
        match wikrt_drop_step_next cx ldrop with
        | Ret (cx1, ldrop1, v1) => drop_loop fuel' bDropRel cx1 v1 ldrop1
        | Aborted => Aborted
        | OutOfFuel => OutOfFuel
        end in
      if wikrt_copy_shallow v then
        if WIKRT_UNIT_INR =? ldrop then Ret (WIKRT_OK, cx)
        else step_next cx ldrop
      else
        let tag := wikrt_vtag v in
        let addr := wikrt_vaddr v in
        if negb (WIKRT_O =? tag) then
          let v1 := pval_get cx addr 1 in
          let cx1 := pval_set cx addr 1 ldrop in
          drop_loop fuel' bDropRel cx1 v1 (wikrt_tag_addr WIKRT_PL addr)
        else
          let pv0 := pval_get cx addr 0 in
          let pv1 := pval_get cx addr 1 in
          let otag := LOBYTE pv0 in
          if (otag =? WIKRT_OTAG_SEAL_SM) || (otag =? WIKRT_OTAG_DEEPSUM) then
            drop_loop fuel' bDropRel (wikrt_free cx WIKRT_CELLSIZE addr) pv1 ldrop
          else if otag =? WIKRT_OTAG_BLOCK then
            let bPerformDrop := negb (wikrt_block_rel pv0) || bDropRel in
            if negb bPerformDrop then Ret (WIKRT_TYPE_ERROR, cx)
            else drop_loop fuel' bDropRel (wikrt_free cx WIKRT_CELLSIZE addr) pv1 ldrop
          else if otag =? WIKRT_OTAG_OPVAL then
            let latentRel := negb (0 =? Z.land WIKRT_OPVAL_LAZYKF pv0) in
            if latentRel || bDropRel then
              drop_loop fuel' bDropRel (wikrt_free cx WIKRT_CELLSIZE addr) pv1 ldrop
            else
              match drop_loop fuel' true cx v WIKRT_UNIT_INR with
              | Ret (WIKRT_OK, cx1) => step_next cx1 ldrop
              | r => r
              end
          else if otag =? WIKRT_OTAG_ARRAY then Ret (WIKRT_IMPL, cx)
          else if otag =? WIKRT_OTAG_BIGINT then
            let nDigits := Z.shiftr pv0 9 in
            let szAlloc := u32 (4 + u32 (nDigits * 4)) in
            step_next (wikrt_free cx szAlloc addr) ldrop
          else if otag =? WIKRT_OTAG_SEAL then
            let len := Z.land (Z.shiftr pv0 8) 63 in
            let szAlloc := WIKRT_CELLSIZE + len in
            drop_loop fuel' bDropRel (wikrt_free cx szAlloc addr) pv1 ldrop
          else Ret (WIKRT_IMPL, cx)
  end.

Definition _wikrt_drop (fuel : nat) (cx : wikrt_cx) (v : wikrt_val) (bDropRel : bool)
  : run (wikrt_err * wikrt_cx) :=
  drop_loop fuel bDropRel cx v WIKRT_UNIT_INR.

End CopyDrop.

(** * Properties *)

(** ** Words and tags *)

Lemma u32_range z : 0 <= u32 z < 2^32.
Proof. unfold u32. apply Z.mod_pos_bound. lia. Qed.

Lemma u32_small z : 0 <= z < 2^32 -> u32 z = z.
Proof. intros. unfold u32. apply Z.mod_small. assumption. Qed.

Lemma u64_small z : 0 <= z < 2^64 -> u64 z = z.
Proof. intros. unfold u64. apply Z.mod_small. assumption. Qed.

Lemma i32_small z : - 2^31 <= z < 2^31 -> i32 z = z.
Proof.
  intros H. unfold i32, u32.
  destruct (Z.ltb_spec (z mod 2^32) (2^31)) as [L|L];
    revert L; Z.div_mod_to_equations; lia.
Qed.

Lemma i64_small z : - 2^63 <= z < 2^63 -> i64 z = z.
Proof.
  intros H. unfold i64, u64.
  destruct (Z.ltb_spec (z mod 2^64) (2^63)) as [L|L];
    revert L; Z.div_mod_to_equations; lia.
Qed.

Lemma testbit_high v k n : 0 <= v < 2^k -> 0 <= k <= n -> Z.testbit v n = false.
Proof.
  intros Hv Hk. rewrite <- (Z.mod_small v (2^k)) by assumption.
  apply Z.mod_pow2_bits_high. assumption.
Qed.

Lemma vtag_mod v : wikrt_vtag v = v mod 8.
Proof.
  unfold wikrt_vtag, WIKRT_MASK_TAG. change 7 with (Z.ones 3).
  rewrite Z.land_ones by lia. reflexivity.
Qed.

Lemma LOBYTE_mod v : LOBYTE v = v mod 256.
Proof.
  unfold LOBYTE. change 255 with (Z.ones 8).
  rewrite Z.land_ones by lia. reflexivity.
Qed.

Lemma land1_mod v : Z.land v 1 = v mod 2.
Proof. change 1 with (Z.ones 1). rewrite Z.land_ones by lia. reflexivity. Qed.

Lemma vaddr_spec v : 0 <= v < 2^32 -> wikrt_vaddr v = v - v mod 8.
Proof.
  intros Hv. unfold wikrt_vaddr.
  replace (v - v mod 8) with (Z.shiftl (Z.shiftr v 3) 3).
  2:{ rewrite Z.shiftl_mul_pow2, Z.shiftr_div_pow2 by lia.
      change (2^3) with 8. Z.div_mod_to_equations. lia. }
  change WIKRT_MASK_ADDR with (Z.shiftl (Z.ones 29) 3).
  apply Z.bits_inj'. intros n Hn.
  rewrite Z.land_spec.
  destruct (Z.ltb_spec n 3) as [L|L].
  - rewrite !Z.shiftl_spec_low by assumption. apply andb_false_r.
  - rewrite !Z.shiftl_spec by assumption.
    rewrite Z.shiftr_spec by lia. replace (n - 3 + 3) with n by lia.
    destruct (Z.ltb_spec n 32) as [M|M].
    + rewrite Z.ones_spec_low by lia. apply andb_true_r.
    + rewrite (testbit_high v 32 n) by lia. reflexivity.
Qed.

Lemma tag_addr_spec t a :
  0 <= t < 8 -> 0 <= a -> a mod 8 = 0 -> wikrt_tag_addr t a = a + t.
Proof.
  intros Ht Ha Hm. unfold wikrt_tag_addr.
  assert (Z.land t a = 0) as E.
  { apply Z.bits_inj'. intros n Hn. rewrite Z.land_spec, Z.bits_0.
    destruct (Z.ltb_spec n 3) as [L|L].
    - rewrite <- (Z.mod_pow2_bits_low a 3 n) by assumption.
      change (2^3) with 8. rewrite Hm, Z.bits_0. apply andb_false_r.
    - rewrite (testbit_high t 3 n) by (change (2^3) with 8; lia). reflexivity. }
  pose proof (Z.add_lor_land t a) as H. rewrite E in H. lia.
Qed.

Definition ptr_tag (t : Z) : Prop := t = WIKRT_O \/ t = WIKRT_P \/ t = WIKRT_PL \/ t = WIKRT_PR.

Definition valid_addr (a : Z) : Prop := 0 < a /\ a mod 8 = 0 /\ a + 8 <= 2^32.

Lemma ptr_tag_range t : ptr_tag t -> 0 <= t < 8 /\ t mod 2 = 1.
Proof.
  unfold ptr_tag, WIKRT_O, WIKRT_P, WIKRT_PL, WIKRT_PR.
  intros [H|[H|[H|H]]]; subst t; split; try lia; reflexivity.
Qed.

Lemma vtag_tag_addr t a :
  ptr_tag t -> valid_addr a -> wikrt_vtag (wikrt_tag_addr t a) = t.
Proof.
  intros Ht (Ha & Hm & Hb). destruct (ptr_tag_range t Ht) as [R _].
  rewrite tag_addr_spec by lia. rewrite vtag_mod.
  revert Hm. Z.div_mod_to_equations. lia.
Qed.

Lemma vaddr_tag_addr t a :
  ptr_tag t -> valid_addr a -> wikrt_vaddr (wikrt_tag_addr t a) = a.
Proof.
  intros Ht (Ha & Hm & Hb). destruct (ptr_tag_range t Ht) as [R _].
  rewrite tag_addr_spec by lia. rewrite vaddr_spec by lia.
  revert Hm. Z.div_mod_to_equations. lia.
Qed.

Lemma wikrt_i_tag_addr t a :
  ptr_tag t -> valid_addr a -> wikrt_i (wikrt_tag_addr t a) = false.
Proof.
  intros Ht (Ha & Hm & Hb). destruct (ptr_tag_range t Ht) as [R O].
  rewrite tag_addr_spec by lia. unfold wikrt_i. rewrite land1_mod.
  apply Z.eqb_neq. revert Hm O. Z.div_mod_to_equations. lia.
Qed.

Lemma tag_addr_range t a :
  ptr_tag t -> valid_addr a -> 0 <= wikrt_tag_addr t a < 2^32.
Proof.
  intros Ht (Ha & Hm & Hb). destruct (ptr_tag_range t Ht) as [R O].
  rewrite tag_addr_spec by lia. lia.
Qed.

(** ** Loads and stores *)

Lemma load8_range m a : 0 <= load8 m a < 256.
Proof. unfold load8. apply Z.mod_pos_bound. lia. Qed.

Lemma load32_range m a : 0 <= load32 m a < 2^32.
Proof.
  unfold load32.
  pose proof (load8_range m a). pose proof (load8_range m (a + 1)).
  pose proof (load8_range m (a + 2)). pose proof (load8_range m (a + 3)).
  lia.
Qed.

Lemma load8_store8_same m a b : load8 (store8 m a b) a = b mod 256.
Proof. unfold load8, store8. rewrite Z.eqb_refl. apply Z.mod_mod. lia. Qed.

Lemma load8_store8_other m a b x : x <> a -> load8 (store8 m a b) x = load8 m x.
Proof.
  intros H. unfold load8, store8.
  destruct (Z.eqb_spec x a); [contradiction | reflexivity].
Qed.

Lemma load8_store32_other m a v x :
  x < a \/ a + 4 <= x -> load8 (store32 m a v) x = load8 m x.
Proof.
  intros H. unfold store32. rewrite !load8_store8_other by lia. reflexivity.
Qed.

Lemma load8_store32_in m a v k :
  0 <= k < 4 -> load8 (store32 m a v) (a + k) = (v / 2^(8 * k)) mod 256.
Proof.
  intros H. unfold store32.
  assert (k = 0 \/ k = 1 \/ k = 2 \/ k = 3) as [E|[E|[E|E]]] by lia; subst k.
  - rewrite !load8_store8_other by lia. rewrite Z.add_0_r, load8_store8_same.
    rewrite Z.div_1_r. reflexivity.
  - rewrite !load8_store8_other by lia. rewrite load8_store8_same. reflexivity.
  - rewrite !load8_store8_other by lia. rewrite load8_store8_same. reflexivity.
  - rewrite load8_store8_same. reflexivity.
Qed.

Lemma load32_store32_same m a v : load32 (store32 m a v) a = u32 v.
Proof.
  unfold load32.
  rewrite <- (Z.add_0_r a) at 2.
  rewrite !load8_store32_in by lia.
  unfold u32. change (8 * 0) with 0. change (8 * 1) with 8.
  change (8 * 2) with 16. change (8 * 3) with 24.
  Z.div_mod_to_equations. lia.
Qed.

Lemma load32_store32_other m a v x :
  x + 4 <= a \/ a + 4 <= x -> load32 (store32 m a v) x = load32 m x.
Proof.
  intros H. unfold load32. rewrite !load8_store32_other by lia. reflexivity.
Qed.

Lemma lnbuff_pow2_spec sz k :
  0 <= k -> WIKRT_LNBUFF_POW2 sz (2^k) = 2^k * ((sz + (2^k - 1)) / 2^k).
Proof.
  intros Hk. unfold WIKRT_LNBUFF_POW2.
  replace (2^k - 1) with (Z.ones k) by (rewrite Z.ones_equiv; lia).
  rewrite <- Z.ldiff_land, Z.ldiff_ones_r by assumption.
  rewrite Z.shiftl_mul_pow2, Z.shiftr_div_pow2 by assumption. lia.
Qed.

Lemma cellbuff_spec sz :
  0 <= sz < 2^31 -> WIKRT_CELLBUFF sz = 8 * ((sz + 7) / 8).
Proof.
  intros H. unfold WIKRT_CELLBUFF. change WIKRT_CELLSIZE with (2^3).
  rewrite lnbuff_pow2_spec by lia. change (2^3) with 8. change (8 - 1) with 7.
  apply u32_small. Z.div_mod_to_equations. lia.
Qed.

Lemma pagebuff_spec sz :
  0 <= sz < 2^31 -> WIKRT_PAGEBUFF sz = 16384 * ((sz + 16383) / 16384).
Proof.
  intros H. unfold WIKRT_PAGEBUFF. change WIKRT_PAGESIZE with (2^14).
  rewrite lnbuff_pow2_spec by lia. change (2^14) with 16384.
  change (16384 - 1) with 16383.
  apply u32_small. Z.div_mod_to_equations. lia.
Qed.

(** ** The allocation API keeps the free lists sound *)

Section AllocProps.
Context {FL : wikrt_flist}.

(** Byte [x] is free in the context: on its own list or on the shared one. *)
Definition cx_free (cx : wikrt_cx) (x : Z) : Prop :=
  fl_owns (fl cx) x \/ fl_owns (cxm_fl cx) x.

(** Both lists are sound and no byte is on both. *)
Definition cx_wf (cx : wikrt_cx) : Prop :=
  fl_ok (fl cx) /\ fl_ok (cxm_fl cx) /\
  forall x, ~ (fl_owns (fl cx) x /\ fl_owns (cxm_fl cx) x).

(** What a call leaves alone: arena contents and the free counter. *)
Definition same_store (cx cx' : wikrt_cx) : Prop :=
  memory cx' = memory cx /\ ct_bytes_freed cx' = ct_bytes_freed cx.

Lemma alloc_local_some cx sz a cx' :
  cx_wf cx -> 0 < sz -> sz mod 8 = 0 ->
  wikrt_alloc_local cx sz = (Some a, cx') ->
  cx_wf cx' /\ same_store cx cx' /\
  ct_bytes_alloc cx' = u64 (ct_bytes_alloc cx + sz) /\
  0 < a /\ a mod 8 = 0 /\ a + sz <= 2^32 /\
  (forall x, a <= x < a + sz -> cx_free cx x /\ ~ cx_free cx' x) /\
  (forall x, cx_free cx' x -> cx_free cx x).
Proof.
  intros (Hl & Hs & Hd) Hsz Hm. unfold wikrt_alloc_local.
  destruct (wikrt_fl_alloc (fl cx) sz) as [[a0 f']|] eqn:E; [|discriminate].
  intros H. inversion H; subst a0 cx'; clear H.
  destruct (fl_alloc_ok _ _ _ _ Hl Hsz Hm E) as (Hf' & Ha & Hma & Hb & Hin & Hout).
  unfold cx_wf, cx_free, same_store; cbn.
  repeat split; auto.
  - intros x [Hx Hy]. apply (Hd x). split; [apply Hout|]; assumption.
  - intros [Hx|Hx].
    + apply Hout in Hx. tauto.
    + apply (Hd x). split; [apply Hin|]; assumption.
  - intros x [Hx|Hx]; [left; apply Hout|right]; assumption.
Qed.

Lemma alloc_local_none cx sz cx' :
  wikrt_alloc_local cx sz = (None, cx') -> cx' = cx.
Proof.
  unfold wikrt_alloc_local.
  destruct (wikrt_fl_alloc (fl cx) sz) as [[a0 f']|]; [discriminate|].
  intros H. inversion H. reflexivity.
Qed.

Lemma acquire_shm_ok cx sz b cx' :
  cx_wf cx -> 0 < sz -> sz mod 8 = 0 ->
  wikrt_acquire_shm cx sz = (b, cx') ->
  cx_wf cx' /\ same_store cx cx' /\ ct_bytes_alloc cx' = ct_bytes_alloc cx /\
  (forall x, cx_free cx' x -> cx_free cx x).
Proof.
  intros (Hl & Hs & Hd) Hsz Hm. unfold wikrt_acquire_shm.
  destruct (wikrt_fl_alloc (cxm_fl cx) sz) as [[blk cxm']|] eqn:E.
  - intros H. inversion H; subst b cx'; clear H.
    destruct (fl_alloc_ok _ _ _ _ Hs Hsz Hm E) as (Hc' & Ha & Hma & Hb & Hin & Hout).
    assert (forall x, blk <= x < blk + sz -> ~ fl_owns (fl cx) x) as Hnot.
    { intros x Hx Ho. apply (Hd x). split; [|apply Hin]; assumption. }
    destruct (fl_free_ok _ _ _ Hl Hsz Hm Ha Hma Hb Hnot) as (Hf' & Hfo).
    unfold cx_wf, cx_free, same_store; cbn. repeat split; auto.
    + intros x [Hx Hy]. apply Hout in Hy. destruct Hy as [Hy Hn].
      apply Hfo in Hx. destruct Hx as [Hx|Hx]; [apply (Hd x)|]; tauto.
    + intros x [Hx|Hx].
      * apply Hfo in Hx. destruct Hx as [Hx|Hx]; [left|right; apply Hin]; assumption.
      * right. apply Hout. assumption.
  - intros H. inversion H; subst b cx'; clear H.
    unfold cx_wf, same_store. repeat split; auto.
Qed.

Lemma acquire_shared_memory_ok cx sz :
  cx_wf cx -> 0 < sz -> sz mod 8 = 0 ->
  let cx' := wikrt_acquire_shared_memory cx sz in
  cx_wf cx' /\ same_store cx cx' /\ ct_bytes_alloc cx' = ct_bytes_alloc cx /\
  (forall x, cx_free cx' x -> cx_free cx x).
Proof.
  intros Hwf Hsz Hm. unfold wikrt_acquire_shared_memory.
  destruct (wikrt_acquire_shm cx sz) as [ok cx1] eqn:E1.
  destruct (acquire_shm_ok _ _ _ _ Hwf Hsz Hm E1) as (W1 & (M1 & F1) & A1 & S1).
  destruct ok; [unfold same_store; auto|].
  destruct W1 as (Hl & Hs & Hd).
  destruct (fl_merge_ok _ _ Hl Hs Hd) as (Hmk & Hmo).
  destruct (fl_coalesce_ok _ Hmk) as (Hck & Hco).
  set (cx2 := mk_cx (memory cx1) wikrt_fl_zero
                    (wikrt_fl_coalesce (wikrt_fl_merge (fl cx1) (cxm_fl cx1)))
                    (ct_bytes_freed cx1) (ct_bytes_alloc cx1)).
  assert (cx_wf cx2) as W2.
  { unfold cx_wf, cx2; cbn. repeat split; auto using fl_zero_ok.
    intros x [Hx _]. exact (fl_zero_owns x Hx). }
  assert (forall x, cx_free cx2 x -> cx_free cx1 x) as S2.
  { unfold cx_free, cx2; cbn. intros x [Hx|Hx].
    - destruct (fl_zero_owns x Hx).
    - apply Hmo. apply Hco. assumption. }
  destruct (wikrt_acquire_shm cx2 sz) as [ok2 cx3] eqn:E3.
  destruct (acquire_shm_ok _ _ _ _ W2 Hsz Hm E3) as (W3 & (M3 & F3) & A3 & S3).
  destruct ok2.
  - unfold same_store. rewrite M3, F3, A3. unfold cx2; cbn. auto 10.
  - destruct W3 as (Hl3 & Hs3 & Hd3).
    assert (forall x, ~ (fl_owns (cxm_fl cx3) x /\ fl_owns (fl cx3) x)) as Hd3'.
    { intros x [Hx Hy]. apply (Hd3 x). tauto. }
    destruct (fl_merge_ok _ _ Hs3 Hl3 Hd3') as (Hk4 & Ho4).
    unfold cx_wf, cx_free, same_store; cbn. rewrite M3, F3, A3. unfold cx2; cbn.
    repeat split; auto using fl_zero_ok.
    + intros x [_ Hx]. exact (fl_zero_owns x Hx).
    + intros x [Hx|Hx]; [|destruct (fl_zero_owns x Hx)].
      apply S1, S2, S3. apply Ho4 in Hx. unfold cx_free. tauto.
Qed.

(** [wikrt_alloc]: a block that is handed out is cell-aligned, inside the
    arena, was free and is free no longer; nothing becomes free; the arena
    contents are untouched and the allocation counter grows by the buffered
    size. *)
Lemma wikrt_alloc_some cx sz a cx' :
  cx_wf cx -> 0 < sz < 2^30 ->
  wikrt_alloc cx sz = (Some a, cx') ->
  cx_wf cx' /\ same_store cx cx' /\
  ct_bytes_alloc cx' = u64 (ct_bytes_alloc cx + WIKRT_CELLBUFF sz) /\
  0 < a /\ a mod 8 = 0 /\ a + WIKRT_CELLBUFF sz <= 2^32 /\
  (forall x, a <= x < a + WIKRT_CELLBUFF sz -> cx_free cx x /\ ~ cx_free cx' x) /\
  (forall x, cx_free cx' x -> cx_free cx x).
Proof.
  intros Hwf Hsz. unfold wikrt_alloc.
  assert (0 < WIKRT_CELLBUFF sz < 2^31 /\ WIKRT_CELLBUFF sz mod 8 = 0) as (Hc & Hcm).
  { rewrite cellbuff_spec by lia. Z.div_mod_to_equations. lia. }
  destruct (wikrt_alloc_local cx (WIKRT_CELLBUFF sz)) as [[a0|] cx1] eqn:E1.
  - intros H. inversion H; subst a0 cx1; clear H.
    apply alloc_local_some; auto; lia.
  - apply alloc_local_none in E1. subst cx1.
    assert (0 < WIKRT_PAGEBUFF (WIKRT_CELLBUFF sz) /\
            WIKRT_PAGEBUFF (WIKRT_CELLBUFF sz) mod 8 = 0) as (Hp & Hpm).
    { rewrite pagebuff_spec by lia. Z.div_mod_to_equations. lia. }
    destruct (acquire_shared_memory_ok cx _ Hwf Hp Hpm) as (W & (M & F) & A & S).
    intros H.
    destruct (alloc_local_some _ _ _ _ W (proj1 Hc) Hcm H)
      as (W' & (M' & F') & A' & Ha & Hma & Hb & Hin & Hout).
    split; [exact W'|].
    split; [split; [rewrite M'; exact M | rewrite F'; exact F]|].
    split; [rewrite A', A; reflexivity|].
    split; [exact Ha|]. split; [exact Hma|]. split; [exact Hb|].
    split.
    + intros x Hx. destruct (Hin x Hx). split; [apply S|]; assumption.
    + intros x Hx. apply S, Hout, Hx.
Qed.

Lemma wikrt_alloc_none cx sz cx' :
  cx_wf cx -> 0 < sz < 2^30 ->
  wikrt_alloc cx sz = (None, cx') ->
  cx_wf cx' /\ same_store cx cx' /\ ct_bytes_alloc cx' = ct_bytes_alloc cx /\
  (forall x, cx_free cx' x -> cx_free cx x).
Proof.
  intros Hwf Hsz. unfold wikrt_alloc.
  assert (0 < WIKRT_CELLBUFF sz < 2^31 /\ WIKRT_CELLBUFF sz mod 8 = 0) as (Hc & Hcm).
  { rewrite cellbuff_spec by lia. Z.div_mod_to_equations. lia. }
  destruct (wikrt_alloc_local cx (WIKRT_CELLBUFF sz)) as [[a0|] cx1] eqn:E1;
    [discriminate|].
  apply alloc_local_none in E1. subst cx1.
  assert (0 < WIKRT_PAGEBUFF (WIKRT_CELLBUFF sz) /\
          WIKRT_PAGEBUFF (WIKRT_CELLBUFF sz) mod 8 = 0) as (Hp & Hpm).
  { rewrite pagebuff_spec by lia. Z.div_mod_to_equations. lia. }
  destruct (acquire_shared_memory_ok cx _ Hwf Hp Hpm) as (W & (M & F) & A & S).
  intros H. apply alloc_local_none in H. subst cx'.
  split; [exact W|]. split; [split; assumption|]. split; assumption.
Qed.

End AllocProps.

(** ** A free list that satisfies the interface

    Blocks [(address, size)] kept in a list, first fit with the remainder of
    a split block left in place.  It shows the interface laws can be met and
    gives the contexts on which the operations are run below. *)

Definition lfl_in (b : Z * Z) (x : Z) : Prop := fst b <= x < fst b + snd b.

Definition lfl_valid (b : Z * Z) : Prop :=
  0 < fst b /\ fst b mod 8 = 0 /\ 0 < snd b /\ snd b mod 8 = 0 /\
  fst b + snd b <= 2^32.

Definition lfl_owns (f : list (Z * Z)) (x : Z) : Prop :=
  exists b, In b f /\ lfl_in b x.

Fixpoint lfl_ok (f : list (Z * Z)) : Prop :=
  match f with
  | [] => True
  | b :: r => lfl_valid b /\ (forall x, lfl_in b x -> ~ lfl_owns r x) /\ lfl_ok r
  end.

Fixpoint lfl_alloc (f : list (Z * Z)) (sz : Z) : option (Z * list (Z * Z)) :=
  match f with
  | [] => None
  | (a, s) :: r =>
      if sz <=? s then
        Some (a, if sz =? s then r else (a + sz, s - sz) :: r)
      else
        match lfl_alloc r sz with
        | Some (x, r') => Some (x, (a, s) :: r')
        | None => None
        end
  end.

Definition lfl_free (f : list (Z * Z)) (sz a : Z) : list (Z * Z) := (a, sz) :: f.

Lemma lfl_owns_cons b r x : lfl_owns (b :: r) x <-> lfl_in b x \/ lfl_owns r x.
Proof.
  unfold lfl_owns. split.
  - intros (c & [E|I] & H); [subst c; left; assumption | right; exists c; auto].
  - intros [H|(c & I & H)]; [exists b | exists c]; simpl; auto.
Qed.

Lemma lfl_owns_app f g x : lfl_owns (f ++ g) x <-> lfl_owns f x \/ lfl_owns g x.
Proof.
  unfold lfl_owns. split.
  - intros (c & I & H). apply in_app_or in I. destruct I; [left|right]; exists c; auto.
  - intros [(c & I & H)|(c & I & H)]; exists c; split; auto using in_or_app.
Qed.

Lemma lfl_alloc_ok f : forall sz a f',
  lfl_ok f -> 0 < sz -> sz mod 8 = 0 ->
  lfl_alloc f sz = Some (a, f') ->
  lfl_ok f' /\ 0 < a /\ a mod 8 = 0 /\ a + sz <= 2^32 /\
  (forall x, a <= x < a + sz -> lfl_owns f x) /\
  (forall x, lfl_owns f' x -> lfl_owns f x /\ ~ (a <= x < a + sz)).
Proof.
  induction f as [|[b s] r IH]; intros sz a f' Hok Hsz Hm; [discriminate|].
  destruct Hok as ((Hb & Hbm & Hs & Hsm & Hbd) & Hdis & Hr).
  cbn [fst snd] in Hb, Hbm, Hs, Hsm, Hbd.
  assert (forall x, b <= x < b + s -> ~ lfl_owns r x) as Hdis'.
  { intros x Hx. apply Hdis. exact Hx. }
  cbn [lfl_alloc].
  destruct (Z.leb_spec sz s) as [L|L].
  - intros H. inversion H; subst a f'; clear H.
    split; [|split; [exact Hb|split; [exact Hbm|split; [lia|split]]]].
    + destruct (Z.eqb_spec sz s) as [E|E]; [exact Hr|].
      split; [|split; [|exact Hr]].
      * unfold lfl_valid; cbn [fst snd].
        split; [lia|]. split; [revert Hbm Hm; Z.div_mod_to_equations; lia|].
        split; [lia|]. split; [revert Hsm Hm; Z.div_mod_to_equations; lia|lia].
      * intros x Hx. apply Hdis'. revert Hx. unfold lfl_in; cbn [fst snd]. lia.
    + intros x Hx. apply lfl_owns_cons. left. unfold lfl_in; cbn [fst snd]. lia.
    + intros x Hx. destruct (Z.eqb_spec sz s) as [E|E].
      * subst s. split; [apply lfl_owns_cons; right; exact Hx|].
        intros Hi. exact (Hdis' x Hi Hx).
      * apply lfl_owns_cons in Hx. destruct Hx as [Hx|Hx].
        -- unfold lfl_in in Hx; cbn [fst snd] in Hx.
           split; [|lia]. apply lfl_owns_cons. left. unfold lfl_in; cbn [fst snd]. lia.
        -- split; [apply lfl_owns_cons; right; exact Hx|].
           intros Hi. apply (Hdis' x); [lia | exact Hx].
  - destruct (lfl_alloc r sz) as [[y r']|] eqn:E; [|discriminate].
    intros H. inversion H; subst a f'; clear H.
    destruct (IH _ _ _ Hr Hsz Hm E) as (Hr' & Hy & Hym & Hyb & Hin & Hout).
    split; [|split; [exact Hy|split; [exact Hym|split; [exact Hyb|split]]]].
    + split; [unfold lfl_valid; cbn [fst snd]; auto|]. split; [|exact Hr'].
      intros x Hx Ho. apply (Hdis x Hx). apply Hout. exact Ho.
    + intros x Hx. apply lfl_owns_cons. right. apply Hin. exact Hx.
    + intros x Hx. apply lfl_owns_cons in Hx. destruct Hx as [Hx|Hx].
      * split; [apply lfl_owns_cons; left; exact Hx|].
        intros Hi. apply (Hdis x Hx). apply Hin. exact Hi.
      * destruct (Hout x Hx) as [Ho Hn].
        split; [apply lfl_owns_cons; right; exact Ho | exact Hn].
Qed.

Lemma lfl_free_ok f sz a :
  lfl_ok f -> 0 < sz -> sz mod 8 = 0 -> 0 < a -> a mod 8 = 0 ->
  a + sz <= 2^32 ->
  (forall x, a <= x < a + sz -> ~ lfl_owns f x) ->
  lfl_ok (lfl_free f sz a) /\
  (forall x, lfl_owns (lfl_free f sz a) x -> lfl_owns f x \/ a <= x < a + sz).
Proof.
  intros Hok Hsz Hm Ha Ham Hb Hn. unfold lfl_free. split.
  - simpl. unfold lfl_valid; simpl. repeat split; auto.
  - intros x H. apply lfl_owns_cons in H. unfold lfl_in in H; simpl in H. tauto.
Qed.

Lemma lfl_merge_ok src : forall dst,
  lfl_ok src -> lfl_ok dst ->
  (forall x, ~ (lfl_owns src x /\ lfl_owns dst x)) ->
  lfl_ok (src ++ dst) /\
  (forall x, lfl_owns (src ++ dst) x -> lfl_owns src x \/ lfl_owns dst x).
Proof.
  intros dst Hs Hd Hdis. split; [|intros x; apply lfl_owns_app].
  induction src as [|b r IH]; simpl; [assumption|].
  destruct Hs as (Hv & Hb & Hr). split; [assumption|]. split.
  - intros x Hx Ho. apply lfl_owns_app in Ho. destruct Ho as [Ho|Ho].
    + exact (Hb x Hx Ho).
    + apply (Hdis x). split; [apply lfl_owns_cons; left|]; assumption.
  - apply IH; [assumption|]. intros x [Hx Hy]. apply (Hdis x).
    split; [apply lfl_owns_cons; right|]; assumption.
Qed.

#[refine] Instance list_flist : wikrt_flist := {|
  wikrt_fl := list (Z * Z);
  wikrt_fl_zero := [];
  wikrt_fl_alloc := lfl_alloc;
  wikrt_fl_free := lfl_free;
  wikrt_fl_coalesce := fun f => f;
  wikrt_fl_merge := fun src dst => src ++ dst;
  fl_ok := lfl_ok;
  fl_owns := lfl_owns
|}.
Proof.
  - exact I.
  - intros x (b & [] & _).
  - intros f sz a f'. apply lfl_alloc_ok.
  - apply lfl_free_ok.
  - intros f H. split; auto.
  - intros src dst. apply lfl_merge_ok.
Defined.

(** A context with one free block of 64 KiB at address 8, an empty shared
    pool and a zeroed arena. *)
Definition cx0 : wikrt_cx :=
  mk_cx (FL := list_flist) (fun _ => 0) [(8, 65536)] [] 0 0.

(** A context whose free lists are both empty: every allocation fails. *)
Definition cx_full : wikrt_cx :=
  mk_cx (FL := list_flist) (fun _ => 0) [] [] 0 0.

Lemma lfl_owns_nil x : ~ lfl_owns [] x.
Proof. intros (b & [] & _). Qed.

Lemma cx0_wf : cx_wf cx0.
Proof.
  split; [|split].
  - split; [|split; [|exact I]].
    + unfold lfl_valid; cbn [fst snd]. repeat split; try lia; reflexivity.
    + intros x _. apply lfl_owns_nil.
  - exact I.
  - intros x [_ H]. exact (lfl_owns_nil x H).
Qed.

Lemma cx_full_wf : cx_wf cx_full.
Proof.
  split; [exact I|split; [exact I|]].
  intros x [H _]. exact (lfl_owns_nil x H).
Qed.

(** ** Reading back what was stored *)

Section StoreProps.
Context {FL : wikrt_flist}.

Lemma pval_get_range cx a i : 0 <= pval_get cx a i < 2^32.
Proof. apply load32_range. Qed.

Lemma pval_get_set_same cx a i v : pval_get (pval_set cx a i v) a i = u32 v.
Proof. unfold pval_get, pval_set, set_memory; cbn [memory]. apply load32_store32_same. Qed.

Lemma pval_get_set_other cx a i v b j :
  b + 4 * j + 4 <= a + 4 * i \/ a + 4 * i + 4 <= b + 4 * j ->
  pval_get (pval_set cx a i v) b j = pval_get cx b j.
Proof.
  intros H. unfold pval_get, pval_set, set_memory; cbn [memory].
  apply load32_store32_other. lia.
Qed.

Lemma pval_set_fl cx a i v :
  fl (pval_set cx a i v) = fl cx /\ cxm_fl (pval_set cx a i v) = cxm_fl cx /\
  ct_bytes_alloc (pval_set cx a i v) = ct_bytes_alloc cx /\
  ct_bytes_freed (pval_set cx a i v) = ct_bytes_freed cx.
Proof. unfold pval_set, set_memory; cbn. auto. Qed.

Lemma pval_set_wf cx a i v : cx_wf cx -> cx_wf (pval_set cx a i v).
Proof. intros H. exact H. Qed.

Lemma pval_set_free cx a i v x : cx_free (pval_set cx a i v) x <-> cx_free cx x.
Proof. reflexivity. Qed.

End StoreProps.

(** ** Small integers *)

Lemma smallint_range n :
  in_smallint n = true <-> - (2^30 - 1) <= n <= 2^30 - 1.
Proof.
  unfold in_smallint, WIKRT_SMALLINT_MIN, WIKRT_SMALLINT_MAX.
  change (Z.shiftl 1 30) with (2^30).
  rewrite andb_true_iff, !Z.leb_le. lia.
Qed.

Lemma i2v_spec n : - 2^30 <= n < 2^30 -> wikrt_i2v n = (2 * n) mod 2^32.
Proof. intros H. unfold wikrt_i2v, u32. rewrite Z.shiftl_mul_pow2 by lia. f_equal. lia. Qed.

Lemma i2v_range n : 0 <= wikrt_i2v n < 2^32.
Proof. apply u32_range. Qed.

Lemma wikrt_i_i2v n : - 2^30 <= n < 2^30 -> wikrt_i (wikrt_i2v n) = true.
Proof.
  intros H. unfold wikrt_i. rewrite land1_mod, i2v_spec by assumption.
  apply Z.eqb_eq. Z.div_mod_to_equations. lia.
Qed.

Lemma v2i_i2v n : - 2^30 <= n < 2^30 -> wikrt_v2i (wikrt_i2v n) = n.
Proof.
  intros H. unfold wikrt_v2i. rewrite i2v_spec by assumption.
  assert (i32 ((2 * n) mod 2^32) = 2 * n) as E.
  { unfold i32, u32. rewrite Z.mod_mod by lia.
    destruct (Z.ltb_spec ((2 * n) mod 2^32) (2^31)) as [L|L];
      revert L; Z.div_mod_to_equations; lia. }
  rewrite E, Z.shiftr_div_pow2 by lia. Z.div_mod_to_equations. lia.
Qed.

(** A small integer is a shallow value: the word is the whole value. *)
Lemma copy_shallow_i2v n : - 2^30 <= n < 2^30 -> wikrt_copy_shallow (wikrt_i2v n) = true.
Proof. intros H. unfold wikrt_copy_shallow. rewrite wikrt_i_i2v by assumption. reflexivity. Qed.

Lemma v2i_range v : 0 <= v < 2^32 -> - 2^30 <= wikrt_v2i v < 2^30.
Proof.
  intros H. unfold wikrt_v2i, i32. rewrite u32_small by assumption.
  rewrite Z.shiftr_div_pow2 by lia.
  destruct (Z.ltb_spec v (2^31)); Z.div_mod_to_equations; lia.
Qed.

(** ** Big integers as the header lays them out

    Tag word: low byte [WIKRT_OTAG_BIGINT], bit 8 the sign, bits 9.. the
    number of digits; the digits follow, least significant first, each in
    0..999999999. *)

Fixpoint le_value (ds : list Z) : Z :=
  match ds with
  | [] => 0
  | d :: r => d + WIKRT_BIGINT_DIGIT * le_value r
  end.

Section Bigints.
Context {FL : wikrt_flist}.

Definition bigint_nDigits (cx : wikrt_cx) (v : wikrt_val) : Z :=
  Z.shiftr (pval_get cx (wikrt_vaddr v) 0) 9.

Definition bigint_positive (cx : wikrt_cx) (v : wikrt_val) : bool :=
  0 =? Z.land (Z.shiftl 1 8) (pval_get cx (wikrt_vaddr v) 0).

Definition bigint_digits (cx : wikrt_cx) (v : wikrt_val) : list Z :=
  map (fun i => pval_get cx (wikrt_vaddr v) (1 + Z.of_nat i))
      (seq 0 (Z.to_nat (bigint_nDigits cx v))).

Definition is_bigint (cx : wikrt_cx) (v : wikrt_val) : bool :=
  negb (wikrt_i v) && (WIKRT_O =? wikrt_vtag v) && negb (0 =? wikrt_vaddr v)
  && wikrt_otag_bigint (pval_get cx (wikrt_vaddr v) 0).

(** The integer a value word stands for, if it is an integer. *)
Definition int_value (cx : wikrt_cx) (v : wikrt_val) : option Z :=
  if wikrt_i v then Some (wikrt_v2i v)
  else if is_bigint cx v then
    Some (if bigint_positive cx v then le_value (bigint_digits cx v)
          else - le_value (bigint_digits cx v))
  else None.

(** At least two digits, every digit below 10^9. *)
Definition bigint_ok (cx : wikrt_cx) (v : wikrt_val) : Prop :=
  2 <= bigint_nDigits cx v /\
  Forall (fun d => d < WIKRT_BIGINT_DIGIT) (bigint_digits cx v).

Lemma le_value_nonneg ds : Forall (fun d => 0 <= d) ds -> 0 <= le_value ds.
Proof.
  induction 1 as [|d r Hd Hr IH]; cbn [le_value]; [lia|].
  unfold WIKRT_BIGINT_DIGIT. lia.
Qed.

Lemma bigint_digits_nonneg cx v : Forall (fun d => 0 <= d) (bigint_digits cx v).
Proof.
  unfold bigint_digits. apply Forall_forall. intros d Hd.
  apply in_map_iff in Hd. destruct Hd as (i & E & _). subst d.
  apply pval_get_range.
Qed.

Lemma bigint_digits_cons cx v n :
  bigint_nDigits cx v = n -> 3 <= n ->
  exists r, bigint_digits cx v =
            pval_get cx (wikrt_vaddr v) 1 :: pval_get cx (wikrt_vaddr v) 2
            :: pval_get cx (wikrt_vaddr v) 3 :: r
            /\ Forall (fun d => 0 <= d) r.
Proof.
  intros E Hn. pose proof (bigint_digits_nonneg cx v) as Hnn.
  unfold bigint_digits in *. rewrite E in *.
  replace (Z.to_nat n) with (S (S (S (Z.to_nat (n - 3))))) in * by lia.
  cbn [seq map] in *. eexists. split; [reflexivity|].
  inversion Hnn as [|? ? _ H1]; subst. inversion H1 as [|? ? _ H2]; subst.
  inversion H2 as [|? ? _ H3]; subst. exact H3.
Qed.

Lemma bigint_digits_two cx v :
  bigint_nDigits cx v = 2 ->
  bigint_digits cx v =
  [pval_get cx (wikrt_vaddr v) 1; pval_get cx (wikrt_vaddr v) 2].
Proof. intros E. unfold bigint_digits. rewrite E. reflexivity. Qed.

Lemma peek_medint_bigint cx v :
  is_bigint cx v = true ->
  wikrt_peek_medint cx v =
  (if 3 <? bigint_nDigits cx v then WIKRT_BUFFSZ else WIKRT_OK,
   bigint_positive cx v,
   pval_get cx (wikrt_vaddr v) 1, pval_get cx (wikrt_vaddr v) 2,
   if 2 <? bigint_nDigits cx v then pval_get cx (wikrt_vaddr v) 3 else 0).
Proof.
  unfold is_bigint. rewrite !andb_true_iff, negb_true_iff.
  intros [[[Hi Ht] Ha] Ho]. unfold wikrt_peek_medint.
  rewrite Hi, Ht, Ha, Ho. reflexivity.
Qed.

(** The digit comparisons of the readers decide the range tests. *)
Lemma check32_pos d0 d1 d2 :
  0 <= d0 < WIKRT_BIGINT_DIGIT -> 0 <= d1 < WIKRT_BIGINT_DIGIT -> 0 <= d2 ->
  negb (d2 =? 0) || (2 <? d1) || ((d1 =? 2) && (147483647 <? d0))
  = negb (le_value [d0; d1; d2] <=? INT32_MAX).
Proof.
  unfold WIKRT_BIGINT_DIGIT, INT32_MAX; cbn [le_value]. intros H0 H1 H2.
  unfold WIKRT_BIGINT_DIGIT.
  destruct (Z.eqb_spec d2 0), (Z.ltb_spec 2 d1), (Z.eqb_spec d1 2),
    (Z.ltb_spec 147483647 d0),
    (Z.leb_spec (d0 + 1000000000 * (d1 + 1000000000 * (d2 + 1000000000 * 0))) 2147483647);
    cbn; try reflexivity; lia.
Qed.

Lemma check32_neg d0 d1 d2 :
  0 <= d0 < WIKRT_BIGINT_DIGIT -> 0 <= d1 < WIKRT_BIGINT_DIGIT -> 0 <= d2 ->
  negb (d2 =? 0) || (2 <? d1) || ((d1 =? 2) && (147483648 <? d0))
  = negb (INT32_MIN <=? - le_value [d0; d1; d2]).
Proof.
  unfold WIKRT_BIGINT_DIGIT, INT32_MIN; cbn [le_value]. intros H0 H1 H2.
  unfold WIKRT_BIGINT_DIGIT.
  destruct (Z.eqb_spec d2 0), (Z.ltb_spec 2 d1), (Z.eqb_spec d1 2),
    (Z.ltb_spec 147483648 d0),
    (Z.leb_spec (-2147483648)
       (- (d0 + 1000000000 * (d1 + 1000000000 * (d2 + 1000000000 * 0)))));
    cbn; try reflexivity; lia.
Qed.

Lemma check64_pos d0 d1 d2 :
  0 <= d0 < WIKRT_BIGINT_DIGIT -> 0 <= d1 < WIKRT_BIGINT_DIGIT -> 0 <= d2 ->
  (9 <? d2) || ((d2 =? 9) && ((223372036 <? d1) || ((d1 =? 223372036) && (854775807 <? d0))))
  = negb (le_value [d0; d1; d2] <=? INT64_MAX).
Proof.
  unfold WIKRT_BIGINT_DIGIT, INT64_MAX; cbn [le_value]. intros H0 H1 H2.
  unfold WIKRT_BIGINT_DIGIT.
  destruct (Z.ltb_spec 9 d2), (Z.eqb_spec d2 9), (Z.ltb_spec 223372036 d1),
    (Z.eqb_spec d1 223372036), (Z.ltb_spec 854775807 d0),
    (Z.leb_spec (d0 + 1000000000 * (d1 + 1000000000 * (d2 + 1000000000 * 0)))
                9223372036854775807);
    cbn; try reflexivity; lia.
Qed.

Lemma check64_neg d0 d1 d2 :
  0 <= d0 < WIKRT_BIGINT_DIGIT -> 0 <= d1 < WIKRT_BIGINT_DIGIT -> 0 <= d2 ->
  (9 <? d2) || ((d2 =? 9) && ((223372036 <? d1) || ((d1 =? 223372036) && (854775808 <? d0))))
  = negb (INT64_MIN <=? - le_value [d0; d1; d2]).
Proof.
  unfold WIKRT_BIGINT_DIGIT, INT64_MIN; cbn [le_value]. intros H0 H1 H2.
  unfold WIKRT_BIGINT_DIGIT.
  destruct (Z.ltb_spec 9 d2), (Z.eqb_spec d2 9), (Z.ltb_spec 223372036 d1),
    (Z.eqb_spec d1 223372036), (Z.ltb_spec 854775808 d0),
    (Z.leb_spec (-9223372036854775808)
       (- (d0 + 1000000000 * (d1 + 1000000000 * (d2 + 1000000000 * 0)))));
    cbn; try reflexivity; lia.
Qed.

End Bigints.

Section PeekProps.
Context {FL : wikrt_flist}.

(** The signed value of a big integer. *)
Definition bigint_value (cx : wikrt_cx) (v : wikrt_val) : Z :=
  if bigint_positive cx v then le_value (bigint_digits cx v)
  else - le_value (bigint_digits cx v).

Lemma is_bigint_not_i cx v : is_bigint cx v = true -> wikrt_i v = false.
Proof.
  unfold is_bigint. rewrite !andb_true_iff, negb_true_iff. tauto.
Qed.

Lemma int_value_bigint cx v :
  is_bigint cx v = true -> int_value cx v = Some (bigint_value cx v).
Proof.
  intros H. unfold int_value. rewrite (is_bigint_not_i _ _ H), H. reflexivity.
Qed.

(** The three low digits of a well-formed big integer, [d2] being 0 when
    there are two digits only. *)
Lemma bigint_low_digits cx v :
  bigint_ok cx v ->
  let d0 := pval_get cx (wikrt_vaddr v) 1 in
  let d1 := pval_get cx (wikrt_vaddr v) 2 in
  let d2 := if 2 <? bigint_nDigits cx v then pval_get cx (wikrt_vaddr v) 3 else 0 in
  0 <= d0 < WIKRT_BIGINT_DIGIT /\ 0 <= d1 < WIKRT_BIGINT_DIGIT /\ 0 <= d2 /\
  (bigint_nDigits cx v <= 3 -> le_value (bigint_digits cx v) = le_value [d0; d1; d2]) /\
  (3 < bigint_nDigits cx v -> le_value [d0; d1; d2] <= le_value (bigint_digits cx v)).
Proof.
  intros [Hn Hd]. cbv zeta.
  pose proof (pval_get_range cx (wikrt_vaddr v) 1) as R1.
  pose proof (pval_get_range cx (wikrt_vaddr v) 2) as R2.
  pose proof (pval_get_range cx (wikrt_vaddr v) 3) as R3.
  destruct (Z.ltb_spec 2 (bigint_nDigits cx v)) as [L|L].
  - destruct (bigint_digits_cons cx v _ eq_refl ltac:(lia)) as (r & E & Hr).
    rewrite E in *.
    inversion Hd as [|? ? D0 Hd1]; subst. inversion Hd1 as [|? ? D1 Hd2]; subst.
    split; [lia|]. split; [lia|]. split; [lia|].
    pose proof (le_value_nonneg r Hr) as Hnn.
    split; intros Hc.
    + assert (bigint_nDigits cx v = 3) as E3 by lia.
      unfold bigint_digits in E. rewrite E3 in E. cbn in E.
      inversion E; subst r. reflexivity.
    + cbn [le_value]. unfold WIKRT_BIGINT_DIGIT. lia.
  - assert (bigint_nDigits cx v = 2) as E2 by lia.
    rewrite (bigint_digits_two cx v E2) in *.
    inversion Hd as [|? ? D0 Hd1]; subst. inversion Hd1 as [|? ? D1 Hd2]; subst.
    split; [lia|]. split; [lia|]. split; [lia|].
    split; intros Hc; [|lia].
    cbn [le_value]. lia.
Qed.

(** [_wikrt_peek_i32] on a well-formed big integer: the value when it has
    at most three digits and fits, else BUFFSZ with the bound of its sign. *)
Lemma peek_i32_bigint cx v :
  is_bigint cx v = true -> bigint_ok cx v ->
  _wikrt_peek_i32 cx v =
  if (bigint_nDigits cx v <=? 3) && (INT32_MIN <=? bigint_value cx v)
     && (bigint_value cx v <=? INT32_MAX)
  then (WIKRT_OK, bigint_value cx v, cx)
  else (WIKRT_BUFFSZ, if bigint_positive cx v then INT32_MAX else INT32_MIN, cx).
Proof.
  intros Hb Hok. unfold _wikrt_peek_i32.
  rewrite (is_bigint_not_i _ _ Hb), (peek_medint_bigint _ _ Hb).
  destruct (bigint_low_digits cx v Hok) as (R0 & R1 & R2 & Hle & _).
  set (d0 := pval_get cx (wikrt_vaddr v) 1) in *.
  set (d1 := pval_get cx (wikrt_vaddr v) 2) in *.
  set (d2 := if 2 <? bigint_nDigits cx v then pval_get cx (wikrt_vaddr v) 3 else 0) in *.
  destruct (Z.ltb_spec 3 (bigint_nDigits cx v)) as [L|L].
  - destruct (Z.leb_spec (bigint_nDigits cx v) 3); [lia|]. reflexivity.
  - destruct (Z.leb_spec (bigint_nDigits cx v) 3); [|lia]. cbn [andb].
    unfold bigint_value. rewrite (Hle L).
    destruct (bigint_positive cx v).
    + rewrite (check32_pos d0 d1 d2 R0 R1 R2).
      assert (0 <= le_value [d0; d1; d2]) as Hnn
        by (cbn [le_value]; unfold WIKRT_BIGINT_DIGIT in *; lia).
      destruct (Z.leb_spec INT32_MIN (le_value [d0; d1; d2])) as [_|C];
        [|unfold INT32_MIN in C; lia].
      destruct (Z.leb_spec (le_value [d0; d1; d2]) INT32_MAX) as [M|M]; cbn [negb andb];
        [|reflexivity].
      f_equal. f_equal. revert M. cbn [le_value].
      unfold WIKRT_BIGINT_DIGIT in *. unfold INT32_MAX. intros M.
      assert (d2 = 0) by lia. subst d2.
      rewrite (u32_small 1000000000) by lia.
      rewrite (u32_small (d1 * 1000000000)) by lia.
      rewrite (u32_small (d1 * 1000000000 + d0)) by lia.
      rewrite i32_small by lia. lia.
    + rewrite (check32_neg d0 d1 d2 R0 R1 R2).
      assert (0 <= le_value [d0; d1; d2]) as Hnn
        by (cbn [le_value]; unfold WIKRT_BIGINT_DIGIT in *; lia).
      destruct (Z.leb_spec (- le_value [d0; d1; d2]) INT32_MAX) as [_|C];
        [|unfold INT32_MAX in C; lia].
      rewrite andb_true_r.
      destruct (Z.leb_spec INT32_MIN (- le_value [d0; d1; d2])) as [M|M]; cbn [negb];
        [|reflexivity].
      f_equal. f_equal. revert M. cbn [le_value].
      unfold WIKRT_BIGINT_DIGIT in *. unfold INT32_MIN. intros M.
      assert (d2 = 0) by lia. subst d2.
      rewrite (i32_small d1) by lia.
      rewrite (i32_small (d1 * 1000000000)) by lia.
      rewrite (i32_small (0 - d1 * 1000000000)) by lia.
      rewrite (i32_small d0) by lia.
      rewrite i32_small by lia. lia.
Qed.

(** [_wikrt_peek_i64], likewise. *)
Lemma peek_i64_bigint cx v :
  is_bigint cx v = true -> bigint_ok cx v ->
  _wikrt_peek_i64 cx v =
  if (bigint_nDigits cx v <=? 3) && (INT64_MIN <=? bigint_value cx v)
     && (bigint_value cx v <=? INT64_MAX)
  then (WIKRT_OK, bigint_value cx v, cx)
  else (WIKRT_BUFFSZ, if bigint_positive cx v then INT64_MAX else INT64_MIN, cx).
Proof.
  intros Hb Hok. unfold _wikrt_peek_i64.
  rewrite (is_bigint_not_i _ _ Hb), (peek_medint_bigint _ _ Hb).
  destruct (bigint_low_digits cx v Hok) as (R0 & R1 & R2 & Hle & _).
  set (d0 := pval_get cx (wikrt_vaddr v) 1) in *.
  set (d1 := pval_get cx (wikrt_vaddr v) 2) in *.
  set (d2 := if 2 <? bigint_nDigits cx v then pval_get cx (wikrt_vaddr v) 3 else 0) in *.
  destruct (Z.ltb_spec 3 (bigint_nDigits cx v)) as [L|L].
  - destruct (Z.leb_spec (bigint_nDigits cx v) 3); [lia|]. reflexivity.
  - destruct (Z.leb_spec (bigint_nDigits cx v) 3); [|lia]. cbn [andb].
    unfold bigint_value. rewrite (Hle L).
    assert (0 <= le_value [d0; d1; d2]) as Hnn
      by (cbn [le_value]; unfold WIKRT_BIGINT_DIGIT in *; lia).
    destruct (Z.eqb_spec d2 0) as [Z2|Z2].
    + assert (le_value [d0; d1; d2] = d1 * 1000000000 + d0) as EV
        by (cbn [le_value]; unfold WIKRT_BIGINT_DIGIT; lia).
      assert (i64 (i64 (d1 * WIKRT_BIGINT_DIGIT) + d0) = d1 * 1000000000 + d0) as EA.
      { unfold WIKRT_BIGINT_DIGIT in *.
        rewrite (i64_small (d1 * 1000000000)) by lia. apply i64_small. lia. }
      rewrite EA, EV. unfold WIKRT_BIGINT_DIGIT, INT64_MIN, INT64_MAX in *.
      destruct (bigint_positive cx v).
      * destruct (Z.leb_spec (-9223372036854775808) (d1 * 1000000000 + d0)); [|lia].
        destruct (Z.leb_spec (d1 * 1000000000 + d0) 9223372036854775807); [|lia].
        reflexivity.
      * destruct (Z.leb_spec (-9223372036854775808) (- (d1 * 1000000000 + d0))); [|lia].
        destruct (Z.leb_spec (- (d1 * 1000000000 + d0)) 9223372036854775807); [|lia].
        cbn [andb]. rewrite i64_small by lia. reflexivity.
    + destruct (bigint_positive cx v).
      * rewrite (check64_pos d0 d1 d2 R0 R1 R2).
        destruct (Z.leb_spec INT64_MIN (le_value [d0; d1; d2])) as [_|C];
          [|unfold INT64_MIN in C; lia].
        destruct (Z.leb_spec (le_value [d0; d1; d2]) INT64_MAX) as [M|M]; cbn [negb andb];
          [|reflexivity].
        f_equal. f_equal. revert M. cbn [le_value].
        unfold WIKRT_BIGINT_DIGIT in *. unfold INT64_MAX. intros M.
        rewrite (i64_small (1000000000 * 1000000000)) by lia.
        rewrite (i64_small (d2 * _)) by lia.
        rewrite (i64_small (d1 * 1000000000)) by lia.
        rewrite (i64_small (d2 * _ + _)) by lia.
        rewrite i64_small by lia. lia.
      * rewrite (check64_neg d0 d1 d2 R0 R1 R2).
        destruct (Z.leb_spec (- le_value [d0; d1; d2]) INT64_MAX) as [_|C];
          [|unfold INT64_MAX in C; lia].
        rewrite andb_true_r.
        destruct (Z.leb_spec INT64_MIN (- le_value [d0; d1; d2])) as [M|M]; cbn [negb];
          [|reflexivity].
        f_equal. f_equal. revert M. cbn [le_value].
        unfold WIKRT_BIGINT_DIGIT in *. unfold INT64_MIN. intros M.
        rewrite (i64_small (1000000000 * 1000000000)) by lia.
        rewrite (i64_small (d2 * _)) by lia.
        rewrite (i64_small (d1 * 1000000000)) by lia.
        rewrite (i64_small (0 - _)) by lia.
        rewrite (i64_small (0 - _ - _)) by lia.
        rewrite i64_small by lia. lia.
Qed.

End PeekProps.

(** ** Introducing integers *)

Lemma triple_inj {A B C : Type} (a a' : A) (b b' : B) (c c' : C) :
  (a, b, c) = (a', b', c') -> a = a' /\ b = b' /\ c = c'.
Proof. intros H. split; [|split]; congruence. Qed.

Section IntroProps.
Context {FL : wikrt_flist}.

(** What [wikrt_alloc_medint] leaves when it succeeds: a fresh object of
    two cells holding a well-formed big integer with the digits given. *)
Definition medint_made (cx : wikrt_cx) (positive : bool) (d0 d1 d2 : Z)
           (v' : wikrt_val) (cx' : wikrt_cx) : Prop :=
  cx_wf cx' /\
  ct_bytes_alloc cx' = u64 (ct_bytes_alloc cx + 16) /\
  ct_bytes_freed cx' = ct_bytes_freed cx /\
  0 <= v' < 2^32 /\
  wikrt_copy_shallow v' = false /\
  is_bigint cx' v' = true /\ bigint_ok cx' v' /\
  bigint_nDigits cx' v' = (if d2 =? 0 then 2 else 3) /\
  bigint_positive cx' v' = positive /\
  le_value (bigint_digits cx' v') = le_value [d0; d1; d2].

Lemma alloc_medint_spec cx v positive d0 d1 d2 st v' cx' :
  cx_wf cx ->
  0 <= d0 < WIKRT_BIGINT_DIGIT -> 0 <= d1 < WIKRT_BIGINT_DIGIT ->
  0 <= d2 < WIKRT_BIGINT_DIGIT ->
  wikrt_alloc_medint cx v positive d0 d1 d2 = (st, v', cx') ->
  (st = WIKRT_CXFULL /\ v' = v /\ cx_wf cx' /\ same_store cx cx' /\
   ct_bytes_alloc cx' = ct_bytes_alloc cx)
  \/ (st = WIKRT_OK /\ medint_made cx positive d0 d1 d2 v' cx').
Proof.
  intros Hwf R0 R1 R2. unfold wikrt_alloc_medint, WIKRT_BIGINT_DIGIT in *.
  assert (0 < bigint_size 2 < 2^30) as S2 by (vm_compute; split; reflexivity).
  assert (0 < bigint_size 3 < 2^30) as S3 by (vm_compute; split; reflexivity).
  destruct (Z.eqb_spec d2 0) as [Z2|Z2].
  - destruct (wikrt_alloc cx (bigint_size 2)) as [[a|] cx1] eqn:E; intros H;
      apply triple_inj in H; destruct H as (<- & <- & <-).
    2:{ left. destruct (wikrt_alloc_none _ _ _ Hwf S2 E)
          as (W & S & A & _). auto. }
    right. split; [reflexivity|].
    destruct (wikrt_alloc_some _ _ _ _ Hwf S2 E)
      as (W & (M & F) & A & Ha & Hma & Hb & _ & _).
    change (WIKRT_CELLBUFF (bigint_size 2)) with 16 in *.
    assert (valid_addr a) as Va by (unfold valid_addr; lia).
    assert (ptr_tag WIKRT_O) as PO by (left; reflexivity).
    set (cxf := pval_set _ a 2 d1).
    assert (pval_get cxf a 0 = wikrt_mkotag_bigint positive 2) as G0.
    { unfold cxf. rewrite !pval_get_set_other by lia. rewrite pval_get_set_same.
      apply u32_small. destruct positive; vm_compute; split; congruence. }
    assert (pval_get cxf a 1 = d0) as G1.
    { unfold cxf. rewrite !pval_get_set_other by lia. rewrite pval_get_set_same.
      apply u32_small. lia. }
    assert (pval_get cxf a 2 = d1) as G2.
    { unfold cxf. rewrite pval_get_set_same. apply u32_small. lia. }
    assert (bigint_nDigits cxf (wikrt_tag_addr WIKRT_O a) = 2) as N.
    { unfold bigint_nDigits. rewrite vaddr_tag_addr, G0 by assumption.
      destruct positive; reflexivity. }
    assert (bigint_digits cxf (wikrt_tag_addr WIKRT_O a) = [d0; d1]) as D.
    { rewrite (bigint_digits_two _ _ N), vaddr_tag_addr, G1, G2 by assumption.
      reflexivity. }
    unfold medint_made.
    split; [exact W|]. split; [exact A|]. split; [exact F|].
    split; [apply tag_addr_range; assumption|].
    split.
    { unfold wikrt_copy_shallow.
      rewrite wikrt_i_tag_addr, vaddr_tag_addr by assumption. cbn [orb].
      apply Z.eqb_neq. lia. }
    split.
    { unfold is_bigint.
      rewrite wikrt_i_tag_addr, vtag_tag_addr, vaddr_tag_addr, G0 by assumption.
      replace (0 =? a) with false by (symmetry; apply Z.eqb_neq; lia).
      destruct positive; reflexivity. }
    split.
    { split; [lia|]. rewrite D.
      repeat (apply Forall_cons; [unfold WIKRT_BIGINT_DIGIT; lia|]). apply Forall_nil. }
    split; [subst d2; exact N|]. split.
    { unfold bigint_positive. rewrite vaddr_tag_addr, G0 by assumption.
      destruct positive; reflexivity. }
    rewrite D. subst d2. cbn [le_value]. lia.
  - destruct (wikrt_alloc cx (bigint_size 3)) as [[a|] cx1] eqn:E; intros H;
      apply triple_inj in H; destruct H as (<- & <- & <-).
    2:{ left. destruct (wikrt_alloc_none _ _ _ Hwf S3 E)
          as (W & S & A & _). auto. }
    right. split; [reflexivity|].
    destruct (wikrt_alloc_some _ _ _ _ Hwf S3 E)
      as (W & (M & F) & A & Ha & Hma & Hb & _ & _).
    change (WIKRT_CELLBUFF (bigint_size 3)) with 16 in *.
    assert (valid_addr a) as Va by (unfold valid_addr; lia).
    assert (ptr_tag WIKRT_O) as PO by (left; reflexivity).
    set (cxf := pval_set _ a 3 d2).
    assert (pval_get cxf a 0 = wikrt_mkotag_bigint positive 3) as G0.
    { unfold cxf. rewrite !pval_get_set_other by lia. rewrite pval_get_set_same.
      apply u32_small. destruct positive; vm_compute; split; congruence. }
    assert (pval_get cxf a 1 = d0) as G1.
    { unfold cxf. rewrite !pval_get_set_other by lia. rewrite pval_get_set_same.
      apply u32_small. lia. }
    assert (pval_get cxf a 2 = d1) as G2.
    { unfold cxf. rewrite !pval_get_set_other by lia. rewrite pval_get_set_same.
      apply u32_small. lia. }
    assert (pval_get cxf a 3 = d2) as G3.
    { unfold cxf. rewrite pval_get_set_same. apply u32_small. lia. }
    assert (bigint_nDigits cxf (wikrt_tag_addr WIKRT_O a) = 3) as N.
    { unfold bigint_nDigits. rewrite vaddr_tag_addr, G0 by assumption.
      destruct positive; reflexivity. }
    assert (bigint_digits cxf (wikrt_tag_addr WIKRT_O a) = [d0; d1; d2]) as D.
    { unfold bigint_digits. rewrite N, vaddr_tag_addr by assumption.
      change (Z.to_nat 3) with 3%nat. cbn [seq map].
      change (1 + Z.of_nat 0) with 1. change (1 + Z.of_nat 1) with 2.
      change (1 + Z.of_nat 2) with 3.
      rewrite G1, G2, G3. reflexivity. }
    unfold medint_made.
    split; [exact W|]. split; [exact A|]. split; [exact F|].
    split; [apply tag_addr_range; assumption|].
    split.
    { unfold wikrt_copy_shallow.
      rewrite wikrt_i_tag_addr, vaddr_tag_addr by assumption. cbn [orb].
      apply Z.eqb_neq. lia. }
    split.
    { unfold is_bigint.
      rewrite wikrt_i_tag_addr, vtag_tag_addr, vaddr_tag_addr, G0 by assumption.
      replace (0 =? a) with false by (symmetry; apply Z.eqb_neq; lia).
      destruct positive; reflexivity. }
    split.
    { split; [lia|]. rewrite D.
      repeat (apply Forall_cons; [unfold WIKRT_BIGINT_DIGIT; lia|]). apply Forall_nil. }
    split; [destruct (Z.eqb_spec d2 0); [contradiction|exact N]|]. split.
    { unfold bigint_positive. rewrite vaddr_tag_addr, G0 by assumption.
      destruct positive; reflexivity. }
    rewrite D. reflexivity.
Qed.

End IntroProps.

Lemma digits64 N :
  0 <= N < 2^63 ->
  let d0 := u32 (cmod N WIKRT_BIGINT_DIGIT) in
  let n1 := cdiv N WIKRT_BIGINT_DIGIT in
  let d1 := u32 (cmod n1 WIKRT_BIGINT_DIGIT) in
  let d2 := u32 (cdiv n1 WIKRT_BIGINT_DIGIT) in
  0 <= d0 < WIKRT_BIGINT_DIGIT /\ 0 <= d1 < WIKRT_BIGINT_DIGIT /\
  0 <= d2 < WIKRT_BIGINT_DIGIT /\ le_value [d0; d1; d2] = N.
Proof.
  intros H. cbv zeta. unfold cmod, cdiv, WIKRT_BIGINT_DIGIT.
  rewrite (Z.rem_mod_nonneg N), (Z.quot_div_nonneg N) by lia.
  assert (0 <= N / 1000000000 < 2^63) as H1 by (Z.div_mod_to_equations; lia).
  rewrite (Z.rem_mod_nonneg (N / 1000000000)),
          (Z.quot_div_nonneg (N / 1000000000)) by lia.
  rewrite !u32_small by (Z.div_mod_to_equations; lia).
  cbn [le_value]. unfold WIKRT_BIGINT_DIGIT. Z.div_mod_to_equations. lia.
Qed.

Lemma digits32 N :
  0 <= N < 2^31 ->
  let d0 := u32 (cmod N WIKRT_BIGINT_DIGIT) in
  let d1 := u32 (cdiv N WIKRT_BIGINT_DIGIT) in
  0 <= d0 < WIKRT_BIGINT_DIGIT /\ 0 <= d1 < WIKRT_BIGINT_DIGIT /\
  le_value [d0; d1; 0] = N.
Proof.
  intros H. cbv zeta. unfold cmod, cdiv, WIKRT_BIGINT_DIGIT.
  rewrite (Z.rem_mod_nonneg N), (Z.quot_div_nonneg N) by lia.
  rewrite !u32_small by (Z.div_mod_to_equations; lia).
  cbn [le_value]. unfold WIKRT_BIGINT_DIGIT. Z.div_mod_to_equations. lia.
Qed.

Section IntroPeek.
Context {FL : wikrt_flist}.

(** What an integer constructor leaves when it does not fail for lack of
    memory: either a small integer, with the context untouched, or a fresh
    two-cell big integer of at most three digits. *)
Definition int_made (cx : wikrt_cx) (n : Z) (v' : wikrt_val) (cx' : wikrt_cx) : Prop :=
  (in_smallint n = true /\ v' = wikrt_i2v n /\ cx' = cx)
  \/ (in_smallint n = false /\
      cx_wf cx' /\ ct_bytes_alloc cx' = u64 (ct_bytes_alloc cx + 16) /\
      ct_bytes_freed cx' = ct_bytes_freed cx /\
      0 <= v' < 2^32 /\ wikrt_copy_shallow v' = false /\
      is_bigint cx' v' = true /\ bigint_ok cx' v' /\
      2 <= bigint_nDigits cx' v' <= 3 /\ bigint_value cx' v' = n).

Lemma medint_made_int cx positive d0 d1 d2 v' cx' n :
  in_smallint n = false ->
  medint_made cx positive d0 d1 d2 v' cx' ->
  (if positive then le_value [d0; d1; d2] else - le_value [d0; d1; d2]) = n ->
  int_made cx n v' cx'.
Proof.
  intros Hs (W & A & F & R & S & B & K & N & P & V) E. right.
  split; [exact Hs|]. split; [exact W|]. split; [exact A|]. split; [exact F|].
  split; [exact R|]. split; [exact S|]. split; [exact B|]. split; [exact K|].
  split; [rewrite N; destruct (d2 =? 0); lia|].
  unfold bigint_value. rewrite P, V. exact E.
Qed.

Lemma alloc_i64_spec cx v n st v' cx' :
  cx_wf cx -> INT64_MIN <= n <= INT64_MAX ->
  _wikrt_alloc_i64 cx v n = (st, v', cx') ->
  (st = WIKRT_CXFULL /\ in_smallint n = false /\ v' = v /\ cx_wf cx' /\
   same_store cx cx' /\ ct_bytes_alloc cx' = ct_bytes_alloc cx)
  \/ (st = WIKRT_OK /\ int_made cx n v' cx').
Proof.
  intros Hwf Hn. unfold _wikrt_alloc_i64.
  destruct (in_smallint n) eqn:Hs.
  - intros H. apply triple_inj in H. destruct H as (<- & <- & <-).
    right. split; [reflexivity|]. left.
    pose proof (proj1 (smallint_range n) Hs) as Hr.
    rewrite i32_small by lia. auto.
  - assert (~ (- (2^30 - 1) <= n <= 2^30 - 1)) as Hout.
    { intros C. apply smallint_range in C. congruence. }
    unfold INT64_MIN, INT64_MAX in Hn.
    destruct (Z.eqb_spec n INT64_MIN) as [Em|Em]; cbn [negb].
    + intros H.
      assert (forall d, 0 <= d < 1000000000 -> 0 <= d < WIKRT_BIGINT_DIGIT) as RD
        by (unfold WIKRT_BIGINT_DIGIT; auto).
      destruct (alloc_medint_spec cx v false 854775808 223372036 9 _ _ _ Hwf
                  (RD 854775808 ltac:(lia)) (RD 223372036 ltac:(lia))
                  (RD 9 ltac:(lia)) H)
        as [(-> & -> & W & S & A)|(-> & M)]; [left; auto 10|].
      right. split; [reflexivity|].
      apply (medint_made_int _ _ _ _ _ _ _ n Hs M). subst n. reflexivity.
    + unfold INT64_MIN in Em.
      set (N := if 0 <=? n then n else i64 (- n)).
      assert (0 <= N < 2^63 /\ (if 0 <=? n then N else - N) = n) as (RN & EN).
      { unfold N. destruct (Z.leb_spec 0 n); [lia|].
        rewrite i64_small by lia. lia. }
      destruct (digits64 N RN) as (R0 & R1 & R2 & EV).
      intros H.
      destruct (alloc_medint_spec _ _ _ _ _ _ _ _ _ Hwf R0 R1 R2 H)
        as [(-> & -> & W & S & A)|(-> & M)]; [left; auto 10|].
      right. split; [reflexivity|].
      apply (medint_made_int _ _ _ _ _ _ _ n Hs M). rewrite EV. exact EN.
Qed.

Lemma alloc_i32_spec cx v n st v' cx' :
  cx_wf cx -> INT32_MIN <= n <= INT32_MAX ->
  _wikrt_alloc_i32 cx v n = (st, v', cx') ->
  (st = WIKRT_CXFULL /\ in_smallint n = false /\ v' = v /\ cx_wf cx' /\
   same_store cx cx' /\ ct_bytes_alloc cx' = ct_bytes_alloc cx)
  \/ (st = WIKRT_OK /\ int_made cx n v' cx').
Proof.
  intros Hwf Hn. unfold _wikrt_alloc_i32.
  destruct (in_smallint n) eqn:Hs.
  - intros H. apply triple_inj in H. destruct H as (<- & <- & <-).
    right. split; [reflexivity|]. left. auto.
  - assert (~ (- (2^30 - 1) <= n <= 2^30 - 1)) as Hout.
    { intros C. apply smallint_range in C. congruence. }
    unfold INT32_MIN, INT32_MAX in Hn.
    destruct (Z.eqb_spec n INT32_MIN) as [Em|Em]; cbn [negb].
    + intros H.
      assert (forall d, 0 <= d < 1000000000 -> 0 <= d < WIKRT_BIGINT_DIGIT) as RD
        by (unfold WIKRT_BIGINT_DIGIT; auto).
      destruct (alloc_medint_spec cx v false 147483648 2 0 _ _ _ Hwf
                  (RD 147483648 ltac:(lia)) (RD 2 ltac:(lia))
                  (RD 0 ltac:(lia)) H)
        as [(-> & -> & W & S & A)|(-> & M)]; [left; auto 10|].
      right. split; [reflexivity|].
      apply (medint_made_int _ _ _ _ _ _ _ n Hs M). subst n. reflexivity.
    + unfold INT32_MIN in Em.
      set (N := if 0 <=? n then n else i32 (- n)).
      assert (0 <= N < 2^31 /\ (if 0 <=? n then N else - N) = n) as (RN & EN).
      { unfold N. destruct (Z.leb_spec 0 n); [lia|].
        rewrite i32_small by lia. lia. }
      destruct (digits32 N RN) as (R0 & R1 & EV).
      intros H.
      assert (0 <= 0 < WIKRT_BIGINT_DIGIT) as R2 by (unfold WIKRT_BIGINT_DIGIT; lia).
      destruct (alloc_medint_spec _ _ _ _ _ _ _ _ _ Hwf R0 R1 R2 H)
        as [(-> & -> & W & S & A)|(-> & M)]; [left; auto 10|].
      right. split; [reflexivity|].
      apply (medint_made_int _ _ _ _ _ _ _ n Hs M). rewrite EV. exact EN.
Qed.

(** Reading back: an integer made by a constructor is read exactly by
    [_wikrt_peek_i64], and by [_wikrt_peek_i32] when it is in 32-bit
    range; neither reader changes the context. *)
Lemma int_made_peek_i64 cx n v' cx' :
  INT64_MIN <= n <= INT64_MAX -> int_made cx n v' cx' ->
  _wikrt_peek_i64 cx' v' = (WIKRT_OK, n, cx').
Proof.
  intros Hn [(Hs & -> & ->)|(Hs & W & A & F & R & S & B & K & N & V)].
  - apply smallint_range in Hs. unfold _wikrt_peek_i64.
    rewrite wikrt_i_i2v, v2i_i2v by lia. reflexivity.
  - rewrite (peek_i64_bigint _ _ B K), V.
    destruct (Z.leb_spec (bigint_nDigits cx' v') 3); [|lia].
    destruct (Z.leb_spec INT64_MIN n); [|lia].
    destruct (Z.leb_spec n INT64_MAX); [|lia]. reflexivity.
Qed.

Lemma int_made_peek_i32 cx n v' cx' :
  INT32_MIN <= n <= INT32_MAX -> int_made cx n v' cx' ->
  _wikrt_peek_i32 cx' v' = (WIKRT_OK, n, cx').
Proof.
  intros Hn [(Hs & -> & ->)|(Hs & W & A & F & R & S & B & K & N & V)].
  - apply smallint_range in Hs. unfold _wikrt_peek_i32.
    rewrite wikrt_i_i2v, v2i_i2v by lia. reflexivity.
  - rewrite (peek_i32_bigint _ _ B K), V.
    destruct (Z.leb_spec (bigint_nDigits cx' v') 3); [|lia].
    destruct (Z.leb_spec INT32_MIN n); [|lia].
    destruct (Z.leb_spec n INT32_MAX); [|lia]. reflexivity.
Qed.

End IntroPeek.

Section IntegerClaims.
Context {FL : wikrt_flist}.

Lemma alloc_i32_big cx v n :
  INT32_MIN <= n <= INT32_MAX -> in_smallint n = false ->
  exists positive d0 d1,
    0 <= d0 < WIKRT_BIGINT_DIGIT /\ 0 <= d1 < WIKRT_BIGINT_DIGIT /\
    _wikrt_alloc_i32 cx v n = wikrt_alloc_medint cx v positive d0 d1 0.
Proof.
  intros Hn Hs. unfold _wikrt_alloc_i32. rewrite Hs.
  unfold INT32_MIN, INT32_MAX in Hn.
  destruct (Z.eqb_spec n INT32_MIN) as [Em|Em]; cbn [negb].
  - exists false, 147483648, 2. unfold WIKRT_BIGINT_DIGIT. repeat split; lia.
  - unfold INT32_MIN in Em.
    set (N := if 0 <=? n then n else i32 (- n)).
    assert (0 <= N < 2^31) as RN.
    { unfold N. destruct (Z.leb_spec 0 n); [lia|]. rewrite i32_small by lia. lia. }
    destruct (digits32 N RN) as (R0 & R1 & _).
    eexists _, _, _. split; [exact R0|]. split; [exact R1|]. reflexivity.
Qed.

Lemma int_value_peek_small cx v :
  wikrt_i v = true ->
  _wikrt_peek_i32 cx v = (WIKRT_OK, wikrt_v2i v, cx) /\
  _wikrt_peek_i64 cx v = (WIKRT_OK, wikrt_v2i v, cx).
Proof.
  intros H. unfold _wikrt_peek_i32, _wikrt_peek_i64. rewrite H. auto.
Qed.

(** C7.  [_wikrt_alloc_i32] returns a shallow small integer, with no
    allocation and the context untouched, exactly when [n] is within
    +/-(2^30 - 1); outside that range it allocates one two-cell object holding
    a two-digit big integer; in both cases [_wikrt_peek_i32] reads [n] back.
    The only failure is CXFULL, and only outside the small range. *)
Theorem C7_intro_i32_small_iff_in_range cx v n st v' cx' :
  cx_wf cx -> INT32_MIN <= n <= INT32_MAX ->
  _wikrt_alloc_i32 cx v n = (st, v', cx') ->
  (st = WIKRT_OK \/ (st = WIKRT_CXFULL /\ ~ (- (2^30 - 1) <= n <= 2^30 - 1))) /\
  (st = WIKRT_OK ->
   (wikrt_copy_shallow v' = true <-> - (2^30 - 1) <= n <= 2^30 - 1) /\
   (- (2^30 - 1) <= n <= 2^30 - 1 ->
    wikrt_i v' = true /\ v' = wikrt_i2v n /\ cx' = cx) /\
   (~ (- (2^30 - 1) <= n <= 2^30 - 1) ->
    is_bigint cx' v' = true /\ bigint_nDigits cx' v' = 2 /\
    ct_bytes_alloc cx' = u64 (ct_bytes_alloc cx + 2 * WIKRT_CELLSIZE)) /\
   _wikrt_peek_i32 cx' v' = (WIKRT_OK, n, cx')).
Proof.
  intros Hwf Hn E.
  pose proof (smallint_range n) as SR.
  destruct (alloc_i32_spec _ _ _ _ _ _ Hwf Hn E)
    as [(-> & Hs & _)|(-> & M)].
  - split; [|discriminate]. right. split; [reflexivity|].
    intros C. apply SR in C. congruence.
  - split; [left; reflexivity|]. intros _.
    pose proof (int_made_peek_i32 _ _ _ _ Hn M) as P.
    destruct M as [(Hs & -> & ->)|(Hs & W & A & F & R & S & B & K & N & V)].
    + pose proof (proj1 SR Hs) as Hr.
      split; [split; [auto|intros _; apply copy_shallow_i2v; lia]|].
      split; [intros _; split; [apply wikrt_i_i2v; lia|auto]|].
      split; [intros C; contradiction|exact P].
    + assert (~ (- (2^30 - 1) <= n <= 2^30 - 1)) as Hout.
      { intros C. apply SR in C. congruence. }
      split; [split; [rewrite S; discriminate|intros C; contradiction]|].
      split; [intros C; contradiction|].
      split; [|exact P]. intros _.
      split; [exact B|]. split; [|exact A].
      destruct (alloc_i32_big cx v n Hn Hs) as (p & d0 & d1 & R0 & R1 & E').
      rewrite E' in E.
      assert (0 <= 0 < WIKRT_BIGINT_DIGIT) as R2 by (unfold WIKRT_BIGINT_DIGIT; lia).
      destruct (alloc_medint_spec _ _ _ _ _ _ _ _ _ Hwf R0 R1 R2 E)
        as [(C & _)|(_ & (_ & _ & _ & _ & _ & _ & _ & N2 & _))]; [discriminate|].
      exact N2.
Qed.

(** C1.  [_wikrt_alloc_i64] followed by [_wikrt_peek_i64] returns [n] for
    every 64-bit [n] (the constructor failing only with CXFULL), but
    [_wikrt_alloc_istr] builds nothing: for every string it stores
    [WIKRT_VOID] and returns IMPL, and reading that back is a type error. *)
Theorem C1_i64_round_trip_istr_stub cx v n :
  cx_wf cx -> INT64_MIN <= n <= INT64_MAX ->
  (forall st v' cx',
      _wikrt_alloc_i64 cx v n = (st, v', cx') ->
      (st = WIKRT_OK \/ st = WIKRT_CXFULL) /\
      (st = WIKRT_OK -> _wikrt_peek_i64 cx' v' = (WIKRT_OK, n, cx'))) /\
  (forall istr strlen,
      _wikrt_alloc_istr cx v istr strlen = (WIKRT_IMPL, WIKRT_VOID, cx) /\
      _wikrt_peek_i64 cx WIKRT_VOID = (WIKRT_TYPE_ERROR, INT64_MIN, cx)).
Proof.
  intros Hwf Hn. split.
  - intros st v' cx' E.
    destruct (alloc_i64_spec _ _ _ _ _ _ Hwf Hn E) as [(-> & _)|(-> & M)].
    + split; [right; reflexivity|discriminate].
    + split; [left; reflexivity|]. intros _.
      exact (int_made_peek_i64 _ _ _ _ Hn M).
  - intros istr strlen. split; reflexivity.
Qed.

(** C10.  When the integer a value word stands for does not fit the width
    asked for, [_wikrt_peek_i32] returns BUFFSZ and stores INT32_MAX for a
    positive value and INT32_MIN for a negative one, [_wikrt_peek_i64]
    likewise with the 64-bit bounds; the context comes back as it was. *)
Theorem C10_peek_saturates_on_overflow cx v V :
  int_value cx v = Some V ->
  (wikrt_i v = false -> bigint_ok cx v) ->
  0 <= v < 2^32 ->
  (~ (INT32_MIN <= V <= INT32_MAX) ->
   _wikrt_peek_i32 cx v =
   (WIKRT_BUFFSZ, if 0 <? V then INT32_MAX else INT32_MIN, cx)) /\
  (~ (INT64_MIN <= V <= INT64_MAX) ->
   _wikrt_peek_i64 cx v =
   (WIKRT_BUFFSZ, if 0 <? V then INT64_MAX else INT64_MIN, cx)).
Proof.
  unfold int_value. intros HV Hok Hr.
  destruct (wikrt_i v) eqn:Hi.
  - injection HV as <-. pose proof (v2i_range v Hr) as R.
    unfold INT32_MIN, INT32_MAX, INT64_MIN, INT64_MAX. split; intros C; lia.
  - destruct (is_bigint cx v) eqn:Hb; [|discriminate].
    injection HV as <-. specialize (Hok eq_refl).
    fold (bigint_value cx v).
    pose proof (le_value_nonneg _ (bigint_digits_nonneg cx v)) as Hnn.
    assert (forall lo hi : Z, lo < 0 < hi -> ~ (lo <= bigint_value cx v <= hi) ->
            (0 <? bigint_value cx v) = bigint_positive cx v) as Sg.
    { intros lo hi Hb0 C. unfold bigint_value in *.
      destruct (bigint_positive cx v).
      - apply Z.ltb_lt. lia.
      - apply Z.ltb_ge. lia. }
    split; intros C.
    + rewrite (peek_i32_bigint _ _ Hb Hok).
      rewrite (Sg INT32_MIN INT32_MAX ltac:(unfold INT32_MIN, INT32_MAX; lia) C).
      destruct (Z.leb_spec INT32_MIN (bigint_value cx v)),
               (Z.leb_spec (bigint_value cx v) INT32_MAX);
        rewrite ?andb_false_r; cbn [andb]; try reflexivity; lia.
    + rewrite (peek_i64_bigint _ _ Hb Hok).
      rewrite (Sg INT64_MIN INT64_MAX ltac:(unfold INT64_MIN, INT64_MAX; lia) C).
      destruct (Z.leb_spec INT64_MIN (bigint_value cx v)),
               (Z.leb_spec (bigint_value cx v) INT64_MAX);
        rewrite ?andb_false_r; cbn [andb]; try reflexivity; lia.
Qed.

End IntegerClaims.

(** ** The integer claims on a concrete context *)

(** The context and the value word after [_wikrt_alloc_i64] of 2^31 and of
    -(2^63) on [cx0]. *)
Definition cx_2p31 : wikrt_cx := snd (_wikrt_alloc_i64 cx0 WIKRT_VOID 2147483648).
Definition v_2p31 : wikrt_val := snd (fst (_wikrt_alloc_i64 cx0 WIKRT_VOID 2147483648)).

Lemma C7_witness :
  exists st v' cx',
    _wikrt_alloc_i32 cx0 WIKRT_VOID 1073741824 = (st, v', cx') /\
    wikrt_copy_shallow v' = false /\ bigint_nDigits cx' v' = 2 /\
    ct_bytes_alloc cx' = 16 /\
    _wikrt_peek_i32 cx' v' = (WIKRT_OK, 1073741824, cx').
Proof.
  destruct (_wikrt_alloc_i32 cx0 WIKRT_VOID 1073741824) as [[st v'] cx'] eqn:E.
  exists st, v', cx'. split; [reflexivity|].
  assert (st = WIKRT_OK) as Hst.
  { apply (f_equal (fun r => fst (fst r))) in E. vm_compute in E. congruence. }
  assert (INT32_MIN <= 1073741824 <= INT32_MAX) as Hn
    by (unfold INT32_MIN, INT32_MAX; lia).
  destruct (C7_intro_i32_small_iff_in_range cx0 WIKRT_VOID 1073741824 st v' cx'
              cx0_wf Hn E) as (_ & H).
  destruct (H Hst) as ((S1 & S2) & _ & Hbig & Hpeek).
  assert (~ (- (2^30 - 1) <= 1073741824 <= 2^30 - 1)) as Hout by lia.
  destruct (Hbig Hout) as (_ & N & A).
  split.
  - destruct (wikrt_copy_shallow v'); [exfalso; apply Hout, S1; reflexivity|reflexivity].
  - split; [exact N|]. split; [exact A|exact Hpeek].
Defined.

Lemma C1_witness :
  (forall st v' cx',
      _wikrt_alloc_i64 cx0 WIKRT_VOID (-9223372036854775808) = (st, v', cx') ->
      (st = WIKRT_OK \/ st = WIKRT_CXFULL) /\
      (st = WIKRT_OK ->
       _wikrt_peek_i64 cx' v' = (WIKRT_OK, -9223372036854775808, cx'))) /\
  (forall istr strlen,
      _wikrt_alloc_istr cx0 WIKRT_VOID istr strlen = (WIKRT_IMPL, WIKRT_VOID, cx0) /\
      _wikrt_peek_i64 cx0 WIKRT_VOID = (WIKRT_TYPE_ERROR, INT64_MIN, cx0)).
Proof.
  apply (C1_i64_round_trip_istr_stub cx0 WIKRT_VOID (-9223372036854775808) cx0_wf).
  unfold INT64_MIN, INT64_MAX. lia.
Defined.

Lemma C10_witness :
  _wikrt_peek_i32 cx_2p31 v_2p31 = (WIKRT_BUFFSZ, INT32_MAX, cx_2p31).
Proof.
  assert (int_value cx_2p31 v_2p31 = Some 2147483648) as HV by (vm_compute; reflexivity).
  assert (wikrt_i v_2p31 = false -> bigint_ok cx_2p31 v_2p31) as Hok.
  { intros _. split; [vm_compute; congruence|].
    assert (bigint_digits cx_2p31 v_2p31 = [147483648; 2]) as D
      by (vm_compute; reflexivity).
    rewrite D.
    repeat (apply Forall_cons; [unfold WIKRT_BIGINT_DIGIT; lia|]). apply Forall_nil. }
  assert (0 <= v_2p31 < 2^32) as Hr by (vm_compute; split; congruence).
  destruct (C10_peek_saturates_on_overflow cx_2p31 v_2p31 2147483648 HV Hok Hr)
    as (H32 & _).
  apply H32. unfold INT32_MIN, INT32_MAX. lia.
Defined.

(** ** Cells: allocation, release, and tags on aligned addresses *)

(** An address a tagged word can carry: aligned to a cell and inside the
    32-bit arena; zero is the address of the constants. *)
Definition aligned_addr (a : Z) : Prop := 0 <= a /\ a mod 8 = 0 /\ a + 8 <= 2^32.

Lemma valid_aligned a : valid_addr a -> aligned_addr a.
Proof. unfold valid_addr, aligned_addr. lia. Qed.

Lemma vtag_tag_addr_al t a :
  ptr_tag t -> aligned_addr a -> wikrt_vtag (wikrt_tag_addr t a) = t.
Proof.
  intros Ht (Ha & Hm & Hb). destruct (ptr_tag_range t Ht) as [R _].
  rewrite tag_addr_spec by lia. rewrite vtag_mod.
  revert Hm. Z.div_mod_to_equations. lia.
Qed.

Lemma vaddr_tag_addr_al t a :
  ptr_tag t -> aligned_addr a -> wikrt_vaddr (wikrt_tag_addr t a) = a.
Proof.
  intros Ht (Ha & Hm & Hb). destruct (ptr_tag_range t Ht) as [R _].
  rewrite tag_addr_spec by lia. rewrite vaddr_spec by lia.
  revert Hm. Z.div_mod_to_equations. lia.
Qed.

Lemma vaddr_aligned v : 0 <= v < 2^32 -> aligned_addr (wikrt_vaddr v).
Proof.
  intros H. rewrite vaddr_spec by assumption. unfold aligned_addr.
  Z.div_mod_to_equations. lia.
Qed.

(** A word is its address with its tag. *)
Lemma tag_addr_vaddr v :
  0 <= v < 2^32 -> wikrt_tag_addr (wikrt_vtag v) (wikrt_vaddr v) = v.
Proof.
  intros H. destruct (vaddr_aligned v H) as (Ha & Hm & Hb).
  rewrite tag_addr_spec; rewrite ?vtag_mod; try assumption.
  - rewrite vaddr_spec by assumption. lia.
  - Z.div_mod_to_equations. lia.
Qed.

Lemma load8_store32_self m a x : load8 (store32 m a (load32 m a)) x = load8 m x.
Proof.
  destruct (Z_lt_dec x a) as [L|L]; [apply load8_store32_other; lia|].
  destruct (Z_le_dec (a + 4) x) as [G|G]; [apply load8_store32_other; lia|].
  replace x with (a + (x - a)) by lia.
  rewrite load8_store32_in by lia. unfold load32.
  pose proof (load8_range m a). pose proof (load8_range m (a + 1)).
  pose proof (load8_range m (a + 2)). pose proof (load8_range m (a + 3)).
  assert (x - a = 0 \/ x - a = 1 \/ x - a = 2 \/ x - a = 3) as [E|[E|[E|E]]] by lia;
    rewrite E; rewrite ?Z.add_0_r;
    [change (8 * 0) with 0|change (8 * 1) with 8|change (8 * 2) with 16
     |change (8 * 3) with 24];
    Z.div_mod_to_equations; lia.
Qed.

Section CellProps.
Context {FL : wikrt_flist}.

(** What [wikrt_alloc_cellval] through the caller's variable leaves on
    success: a fresh cell at [a] holding the two words. *)
Definition cell_made (cx : wikrt_cx) (tag v0 v1 : Z) (out' : wikrt_val)
           (cx' : wikrt_cx) (a : Z) : Prop :=
  valid_addr a /\ out' = wikrt_tag_addr tag a /\ cx_wf cx' /\
  ct_bytes_alloc cx' = u64 (ct_bytes_alloc cx + WIKRT_CELLSIZE) /\
  ct_bytes_freed cx' = ct_bytes_freed cx /\
  pval_get cx' a 0 = u32 v0 /\ pval_get cx' a 1 = u32 v1 /\
  (forall x, a <= x < a + 8 -> cx_free cx x /\ ~ cx_free cx' x) /\
  (forall x, cx_free cx' x -> cx_free cx x) /\
  (forall x, ~ (a <= x < a + 8) -> load8 (memory cx') x = load8 (memory cx) x).

Lemma alloc_cellval_spec cx out tag v0 v1 b out' cx' :
  cx_wf cx ->
  wikrt_alloc_cellval cx out PtrOut tag v0 v1 = (b, out', cx') ->
  (b = false /\ out' = out /\ cx_wf cx' /\ same_store cx cx' /\
   ct_bytes_alloc cx' = ct_bytes_alloc cx)
  \/ (b = true /\ exists a, cell_made cx tag v0 v1 out' cx' a).
Proof.
  intros Hwf. unfold wikrt_alloc_cellval.
  assert (0 < WIKRT_CELLSIZE < 2^30) as S8 by (unfold WIKRT_CELLSIZE; lia).
  destruct (wikrt_alloc cx WIKRT_CELLSIZE) as [[a|] cx1] eqn:E; intros H;
    apply triple_inj in H; destruct H as (<- & <- & <-).
  - right. split; [reflexivity|]. exists a.
    destruct (wikrt_alloc_some _ _ _ _ Hwf S8 E)
      as (W & (M & F) & A & Ha & Hma & Hb & Hin & Hout).
    change (WIKRT_CELLBUFF WIKRT_CELLSIZE) with 8 in *.
    unfold cell_made. split; [unfold valid_addr; lia|]. split; [reflexivity|].
    split; [exact W|]. split; [exact A|]. split; [exact F|].
    split; [rewrite pval_get_set_other by lia; apply pval_get_set_same|].
    split; [apply pval_get_set_same|].
    split; [exact Hin|]. split; [exact Hout|].
    intros x Hx. unfold pval_set, set_memory, ptr_write; cbn [memory].
    rewrite !load8_store32_other by lia. rewrite M. reflexivity.
  - left. destruct (wikrt_alloc_none _ _ _ Hwf S8 E) as (W & S & A & _). auto.
Qed.

(** Releasing a cell that is not free: the free lists stay sound, the
    arena contents stay, and only that cell becomes free. *)
Lemma wikrt_free_cell cx a :
  cx_wf cx -> valid_addr a -> (forall x, a <= x < a + 8 -> ~ cx_free cx x) ->
  let cx' := wikrt_free cx WIKRT_CELLSIZE a in
  cx_wf cx' /\ memory cx' = memory cx /\
  ct_bytes_alloc cx' = ct_bytes_alloc cx /\
  ct_bytes_freed cx' = u64 (ct_bytes_freed cx + WIKRT_CELLSIZE) /\
  (forall x, cx_free cx' x -> cx_free cx x \/ a <= x < a + 8).
Proof.
  intros (Hl & Hs & Hd) (Ha & Hm & Hb) Hn. cbv zeta. unfold wikrt_free.
  change (WIKRT_CELLBUFF WIKRT_CELLSIZE) with 8.
  assert (forall x, a <= x < a + 8 -> ~ fl_owns (fl cx) x) as Hn'.
  { intros x Hx Ho. apply (Hn x Hx). left. exact Ho. }
  destruct (fl_free_ok (fl cx) 8 a Hl ltac:(lia) eq_refl Ha Hm Hb Hn') as (Hk & Ho).
  split.
  - split; [exact Hk|]. split; [exact Hs|]. cbn [fl cxm_fl].
    intros x [Hx Hy]. apply Ho in Hx. destruct Hx as [Hx|Hx].
    + apply (Hd x). tauto.
    + apply (Hn x Hx). right. exact Hy.
  - split; [reflexivity|]. split; [reflexivity|]. split; [reflexivity|].
    intros x [Hx|Hx]; [|left; right; exact Hx].
    apply Ho in Hx. destruct Hx as [Hx|Hx]; [left; left; exact Hx|right; exact Hx].
Qed.

End CellProps.

(** ** Sums *)

Lemma lor_add_low k a t :
  0 <= k -> 0 <= a -> a mod 2^k = 0 -> 0 <= t < 2^k -> Z.lor a t = a + t.
Proof.
  intros Hk Ha Hm Ht.
  assert (Z.land a t = 0) as E.
  { apply Z.bits_inj'. intros n Hn. rewrite Z.land_spec, Z.bits_0.
    destruct (Z.ltb_spec n k) as [L|L].
    - rewrite <- (Z.mod_pow2_bits_low a k n) by assumption.
      rewrite Hm, Z.bits_0. reflexivity.
    - rewrite (testbit_high t k n) by lia. apply andb_false_r. }
  pose proof (Z.add_lor_land a t) as H. rewrite E in H. lia.
Qed.

(** The tag word of a deep sum after one more direction is pushed, and
    what the low byte and the data bits of a tag word are. *)
Definition deepsum_push (T : Z) (inRight : bool) : Z :=
  256 * (4 * (T / 256) + (if inRight then 3 else 2)) + 83.

Definition deepsum_one (inRight : bool) : Z :=
  256 * (if inRight then 3 else 2) + 83.

Lemma otag_deepsum_iff T : wikrt_otag_deepsum T = true <-> T mod 256 = 83.
Proof.
  unfold wikrt_otag_deepsum, WIKRT_OTAG_DEEPSUM. rewrite LOBYTE_mod, Z.eqb_eq. lia.
Qed.

Lemma deepsum_tag_word sf :
  0 <= sf < 2^24 ->
  u32 (Z.lor (u32 (Z.shiftl sf 8)) WIKRT_OTAG_DEEPSUM) = 256 * sf + 83.
Proof.
  intros H. rewrite Z.shiftl_mul_pow2 by lia. change (2^8) with 256.
  rewrite (u32_small (sf * 256)) by lia.
  rewrite (lor_add_low 8) by (unfold WIKRT_OTAG_DEEPSUM; try lia;
                              change (2^8) with 256; Z.div_mod_to_equations; lia).
  unfold WIKRT_OTAG_DEEPSUM. rewrite u32_small by lia. lia.
Qed.

Lemma deepsum_push_word (T : Z) (r : bool) :
  0 <= T < 2^30 ->
  let s0 := Z.shiftr T 8 in
  let sf := u32 (Z.lor (u32 (Z.shiftl s0 2))
                       (if r then WIKRT_DEEPSUMR else WIKRT_DEEPSUML)) in
  u32 (Z.lor (u32 (Z.shiftl sf 8)) WIKRT_OTAG_DEEPSUM) = deepsum_push T r.
Proof.
  intros H. cbv zeta. rewrite Z.shiftr_div_pow2 by lia. change (2^8) with 256.
  assert (0 <= T / 256 < 2^22) as Hs by (Z.div_mod_to_equations; lia).
  assert (u32 (Z.shiftl (T / 256) 2) = 4 * (T / 256)) as E0.
  { rewrite Z.shiftl_mul_pow2 by lia. change (2^2) with 4.
    rewrite u32_small by lia. lia. }
  rewrite E0.
  assert (Z.lor (4 * (T / 256)) (if r then WIKRT_DEEPSUMR else WIKRT_DEEPSUML)
          = 4 * (T / 256) + (if r then 3 else 2)) as E.
  { rewrite (lor_add_low 2); try lia.
    - destruct r; reflexivity.
    - change (2^2) with 4. Z.div_mod_to_equations. lia.
    - change (2^2) with 4. destruct r; unfold WIKRT_DEEPSUMR, WIKRT_DEEPSUML; lia. }
  rewrite E. rewrite (u32_small (4 * (T / 256) + _)) by (destruct r; lia).
  rewrite deepsum_tag_word by (destruct r; lia). reflexivity.
Qed.

Lemma deepsum_one_word (r : bool) :
  u32 (Z.lor (u32 (Z.shiftl (if r then WIKRT_DEEPSUMR else WIKRT_DEEPSUML) 8))
             WIKRT_OTAG_DEEPSUM) = deepsum_one r.
Proof. destruct r; reflexivity. Qed.

Section SumProps.
Context {FL : wikrt_flist}.

Lemma alloc_sum_inplace cx c r v T :
  wikrt_vtag v = WIKRT_O -> pval_get cx (wikrt_vaddr v) 0 = T ->
  T mod 256 = 83 -> T < 2^30 ->
  _wikrt_alloc_sum cx c r v =
  (WIKRT_OK, v, pval_set cx (wikrt_vaddr v) 0 (deepsum_push T r)).
Proof.
  intros Ht ET H83 Hs. unfold _wikrt_alloc_sum. rewrite Ht, ET.
  change (WIKRT_P =? WIKRT_O) with false. change (WIKRT_O =? WIKRT_O) with true.
  rewrite (proj2 (otag_deepsum_iff T) H83).
  change (Z.shiftl 1 30) with (2^30).
  destruct (Z.ltb_spec T (2^30)); [|lia]. cbn [andb].
  pose proof (pval_get_range cx (wikrt_vaddr v) 0) as R. rewrite ET in R.
  rewrite (deepsum_push_word T r) by lia. reflexivity.
Qed.

Lemma split_sum_deep cx c T :
  wikrt_vtag c = WIKRT_O -> pval_get cx (wikrt_vaddr c) 0 = T -> T mod 256 = 83 ->
  _wikrt_split_sum cx c =
  if 0 =? T / 256 / 4
  then (WIKRT_OK, (T / 256) mod 4 =? 3, pval_get cx (wikrt_vaddr c) 1,
        wikrt_free cx WIKRT_CELLSIZE (wikrt_vaddr c))
  else (WIKRT_OK, (T / 256) mod 4 =? 3, c,
        pval_set cx (wikrt_vaddr c) 0 (256 * (T / 256 / 4) + 83)).
Proof.
  intros Ht ET H83. unfold _wikrt_split_sum. rewrite Ht, ET.
  change (WIKRT_PL =? WIKRT_O) with false. change (WIKRT_PR =? WIKRT_O) with false.
  change (WIKRT_O =? WIKRT_O) with true. cbv iota.
  rewrite (proj2 (otag_deepsum_iff T) H83).
  pose proof (pval_get_range cx (wikrt_vaddr c) 0) as R. rewrite ET in R.
  rewrite !Z.shiftr_div_pow2 by lia. change (2^8) with 256. change (2^2) with 4.
  assert (0 <= T / 256 / 4 < 2^24) as Hs by (Z.div_mod_to_equations; lia).
  rewrite deepsum_tag_word by assumption.
  assert ((3 =? Z.land 3 (T / 256)) = ((T / 256) mod 4 =? 3)) as E.
  { rewrite Z.land_comm. change 3 with (Z.ones 2) at 2.
    rewrite Z.land_ones by lia. change (2^2) with 4. apply Z.eqb_sym. }
  rewrite E. reflexivity.
Qed.

Lemma deepsum_push_pop (T : Z) (r : bool) :
  0 <= T -> T mod 256 = 83 -> 256 <= T ->
  deepsum_push T r mod 256 = 83 /\
  deepsum_push T r / 256 / 4 = T / 256 /\ T / 256 <> 0 /\
  ((deepsum_push T r / 256) mod 4 =? 3) = r /\
  256 * (T / 256) + 83 = T.
Proof.
  intros H0 H83 H256. unfold deepsum_push.
  assert ((256 * (4 * (T / 256) + (if r then 3 else 2)) + 83) / 256
          = 4 * (T / 256) + (if r then 3 else 2)) as E
    by (Z.div_mod_to_equations; lia).
  rewrite E. split; [Z.div_mod_to_equations; lia|].
  split; [destruct r; Z.div_mod_to_equations; lia|].
  split; [Z.div_mod_to_equations; lia|].
  split; [|Z.div_mod_to_equations; lia].
  destruct r; [apply Z.eqb_eq|apply Z.eqb_neq]; Z.div_mod_to_equations; lia.
Qed.

End SumProps.

Lemma load8_store32_twice m a w v x :
  load8 (store32 (store32 m a w) a v) x = load8 (store32 m a v) x.
Proof.
  destruct (Z_lt_dec x a) as [L|L]; [rewrite !load8_store32_other by lia; reflexivity|].
  destruct (Z_le_dec (a + 4) x) as [G|G];
    [rewrite !load8_store32_other by lia; reflexivity|].
  replace x with (a + (x - a)) by lia.
  rewrite !load8_store32_in by lia. reflexivity.
Qed.

Section SumClaims.
Context {FL : wikrt_flist}.

(** A deep-sum tag word with room for a direction holds at least one: the
    constructors never leave a deep sum without directions. *)
Definition sum_wrappable (cx : wikrt_cx) (v : wikrt_val) : Prop :=
  wikrt_vtag v = WIKRT_O ->
  wikrt_otag_deepsum (pval_get cx (wikrt_vaddr v) 0) = true ->
  pval_get cx (wikrt_vaddr v) 0 < 2^30 ->
  256 <= pval_get cx (wikrt_vaddr v) 0.

(** The outcome of wrap-then-unwrap: the direction and the word come back,
    the free lists stay sound, no byte that was in use has changed and no
    byte that was in use has become free. *)
Definition sum_restored (cx : wikrt_cx) (r : bool) (v : wikrt_val)
           (cx1 : wikrt_cx) (c' : wikrt_val) : Prop :=
  exists cx2,
    _wikrt_split_sum cx1 c' = (WIKRT_OK, r, v, cx2) /\ cx_wf cx2 /\
    (forall x, ~ cx_free cx x -> load8 (memory cx2) x = load8 (memory cx) x) /\
    (forall x, cx_free cx2 x -> cx_free cx x).

Lemma sum_round_trip cx c r v st c' cx1 :
  cx_wf cx -> 0 <= v < 2^32 -> sum_wrappable cx v ->
  _wikrt_alloc_sum cx c r v = (st, c', cx1) ->
  (st = WIKRT_OK \/ st = WIKRT_CXFULL) /\
  (st = WIKRT_OK -> sum_restored cx r v cx1 c').
Proof.
  intros Hwf Hv Hw.
  pose proof (vaddr_aligned v Hv) as Al.
  destruct (Z.eqb_spec WIKRT_P (wikrt_vtag v)) as [HP|HP].
  - (* a product: the pointer is re-tagged *)
    unfold _wikrt_alloc_sum. rewrite <- HP. change (WIKRT_P =? WIKRT_P) with true.
    cbv iota. intros H. apply triple_inj in H. destruct H as (<- & <- & <-).
    split; [left; reflexivity|]. intros _. exists cx.
    split; [|split; [exact Hwf|split; auto]].
    assert (wikrt_tag_addr WIKRT_P (wikrt_vaddr v) = v) as Ev
      by (rewrite HP; apply tag_addr_vaddr; exact Hv).
    unfold _wikrt_split_sum. destruct r.
    + rewrite vtag_tag_addr_al, vaddr_tag_addr_al
        by (try assumption; right; right; right; reflexivity).
      change (WIKRT_PL =? WIKRT_PR) with false. change (WIKRT_PR =? WIKRT_PR) with true.
      cbv iota. rewrite Ev. reflexivity.
    + rewrite vtag_tag_addr_al, vaddr_tag_addr_al
        by (try assumption; right; right; left; reflexivity).
      change (WIKRT_PL =? WIKRT_PL) with true. cbv iota. rewrite Ev. reflexivity.
  - set (T := pval_get cx (wikrt_vaddr v) 0) in *.
    pose proof (pval_get_range cx (wikrt_vaddr v) 0) as RT. fold T in RT.
    destruct ((WIKRT_O =? wikrt_vtag v) && wikrt_otag_deepsum T && (T <? Z.shiftl 1 30))
      eqn:Hc.
    + (* a deep sum with room: the direction is pushed in place *)
      apply andb_true_iff in Hc. destruct Hc as [Hc Hlt].
      apply andb_true_iff in Hc. destruct Hc as [HO Hds].
      apply Z.eqb_eq in HO. symmetry in HO. apply Z.ltb_lt in Hlt.
      change (Z.shiftl 1 30) with (2^30) in Hlt.
      pose proof (proj1 (otag_deepsum_iff T) Hds) as H83.
      pose proof (Hw HO Hds Hlt) as H256. fold T in H256.
      rewrite (alloc_sum_inplace cx c r v T HO eq_refl H83 Hlt).
      intros H. apply triple_inj in H. destruct H as (<- & <- & <-).
      split; [left; reflexivity|]. intros _.
      destruct (deepsum_push_pop T r ltac:(lia) H83 H256) as (P83 & Ppop & Pnz & Pr & PT).
      assert (0 <= deepsum_push T r < 2^32) as RP.
      { unfold deepsum_push. destruct r; Z.div_mod_to_equations; lia. }
      eexists. split.
      * rewrite (split_sum_deep _ v (deepsum_push T r) HO);
          [|rewrite pval_get_set_same; apply u32_small; exact RP|exact P83].
        rewrite Ppop. destruct (Z.eqb_spec 0 (T / 256)) as [C|_]; [congruence|].
        rewrite Pr, PT. reflexivity.
      * split; [exact Hwf|]. split; [|auto].
        intros x _. unfold pval_set, set_memory; cbn [memory].
        rewrite Z.mul_0_r, Z.add_0_r, load8_store32_twice.
        unfold T, pval_get. rewrite Z.mul_0_r, Z.add_0_r. apply load8_store32_self.
    + (* anything else: a fresh deep-sum cell *)
      unfold _wikrt_alloc_sum. fold T. rewrite Hc.
      destruct (Z.eqb_spec WIKRT_P (wikrt_vtag v)) as [C|_]; [contradiction|].
      rewrite deepsum_one_word.
      destruct (wikrt_alloc_cellval cx c PtrOut WIKRT_O (deepsum_one r) v)
        as [[b out'] cxa] eqn:E.
      destruct (alloc_cellval_spec _ _ _ _ _ _ _ _ Hwf E)
        as [(-> & -> & W & S & A)|(-> & a & Va & -> & W & A & F & G0 & G1 & Hin & Hout & Hmem)];
        intros H; apply triple_inj in H; destruct H as (<- & <- & <-).
      * split; [right; reflexivity|discriminate].
      * split; [left; reflexivity|]. intros _.
        assert (ptr_tag WIKRT_O) as PO by (left; reflexivity).
        assert (wikrt_vtag (wikrt_tag_addr WIKRT_O a) = WIKRT_O) as HO
          by (apply vtag_tag_addr; assumption).
        assert (wikrt_vaddr (wikrt_tag_addr WIKRT_O a) = a) as HA
          by (apply vaddr_tag_addr; assumption).
        assert (u32 (deepsum_one r) = deepsum_one r) as U1 by (destruct r; reflexivity).
        destruct (wikrt_free_cell cxa a W Va (fun x Hx => proj2 (Hin x Hx)))
          as (W2 & M2 & _ & _ & Fr2).
        eexists. split.
        -- rewrite (split_sum_deep _ _ (deepsum_one r) HO);
             [|rewrite HA, G0; exact U1|destruct r; reflexivity].
           rewrite HA, G1, (u32_small v) by exact Hv.
           destruct r; reflexivity.
        -- split; [exact W2|]. split.
           ++ intros x Hx. rewrite M2. apply Hmem. intros Hi.
              apply Hx. apply (Hin x Hi).
           ++ intros x Hx. apply Fr2 in Hx. destruct Hx as [Hx|Hx];
                [apply Hout; exact Hx|apply (Hin x Hx)].
Qed.

(** Unwrapping what is neither an in-left or in-right pair pointer nor a
    deep-sum object: IMPL for an array object, TYPE_ERROR otherwise; the
    outputs are cleared and the context is untouched. *)
Lemma split_sum_not_sum cx c :
  wikrt_vtag c <> WIKRT_PL -> wikrt_vtag c <> WIKRT_PR ->
  (wikrt_vtag c = WIKRT_O ->
   wikrt_otag_deepsum (pval_get cx (wikrt_vaddr c) 0) = false) ->
  _wikrt_split_sum cx c =
  (if (WIKRT_O =? wikrt_vtag c) && wikrt_otag_array (pval_get cx (wikrt_vaddr c) 0)
   then WIKRT_IMPL else WIKRT_TYPE_ERROR, false, WIKRT_VOID, cx).
Proof.
  intros HL HR HD. unfold _wikrt_split_sum.
  destruct (Z.eqb_spec WIKRT_PL (wikrt_vtag c)) as [C|_]; [congruence|].
  destruct (Z.eqb_spec WIKRT_PR (wikrt_vtag c)) as [C|_]; [congruence|].
  destruct (Z.eqb_spec WIKRT_O (wikrt_vtag c)) as [HO|_]; [|reflexivity].
  rewrite (HD (eq_sym HO)). cbn [andb].
  destruct (wikrt_otag_array (pval_get cx (wikrt_vaddr c) 0)); reflexivity.
Qed.

(** C3, amended.  For both directions and every value word whose deep-sum
    tag, if it is one with room, holds a direction: [_wikrt_alloc_sum]
    succeeds or fails with CXFULL, and after a success [_wikrt_split_sum]
    succeeds and returns the direction and the word, with every byte in use
    as it was.  [_wikrt_split_sum] on a word that is neither in-left nor
    in-right tagged nor a deep-sum object changes nothing and fails with
    TYPE_ERROR, except on an array object, where it fails with IMPL. *)
Theorem C3_wrap_unwrap_sum cx :
  cx_wf cx ->
  (forall c r v st c' cx1,
      0 <= v < 2^32 -> sum_wrappable cx v ->
      _wikrt_alloc_sum cx c r v = (st, c', cx1) ->
      (st = WIKRT_OK \/ st = WIKRT_CXFULL) /\
      (st = WIKRT_OK -> sum_restored cx r v cx1 c')) /\
  (forall c,
      wikrt_vtag c <> WIKRT_PL -> wikrt_vtag c <> WIKRT_PR ->
      (wikrt_vtag c = WIKRT_O ->
       wikrt_otag_deepsum (pval_get cx (wikrt_vaddr c) 0) = false) ->
      _wikrt_split_sum cx c =
      (if (WIKRT_O =? wikrt_vtag c)
          && wikrt_otag_array (pval_get cx (wikrt_vaddr c) 0)
       then WIKRT_IMPL else WIKRT_TYPE_ERROR, false, WIKRT_VOID, cx)).
Proof.
  intros Hwf. split.
  - intros c r v st c' cx1 Hv Hw E. exact (sum_round_trip _ _ _ _ _ _ _ Hwf Hv Hw E).
  - intros c. apply split_sum_not_sum.
Qed.

End SumClaims.

(** ** The sum claim on concrete contexts *)

(** [cx0] with the tag word of an array object stored at address 131072,
    outside the free block, and the object reference to it. *)
Definition cx_array : wikrt_cx := pval_set cx0 131072 0 WIKRT_OTAG_ARRAY.
Definition v_array : wikrt_val := wikrt_tag_addr WIKRT_O 131072.

(** Unwrapping an array object, which is neither in-left nor in-right
    tagged nor a deep-sum object, does not fail with TYPE_ERROR. *)
Lemma C3_counterexample :
  ~ (forall (cx : @wikrt_cx list_flist) (c : wikrt_val),
        wikrt_vtag c <> WIKRT_PL -> wikrt_vtag c <> WIKRT_PR ->
        wikrt_otag_deepsum (pval_get cx (wikrt_vaddr c) 0) = false ->
        fst (fst (fst (_wikrt_split_sum cx c))) = WIKRT_TYPE_ERROR).
Proof.
  intros H.
  assert (fst (fst (fst (_wikrt_split_sum cx_array v_array))) = WIKRT_TYPE_ERROR) as C.
  { apply H; vm_compute; congruence. }
  vm_compute in C. discriminate C.
Qed.

Lemma C3_witness :
  exists c' cx1 cx2,
    _wikrt_alloc_sum cx0 WIKRT_VOID true (wikrt_i2v 42) = (WIKRT_OK, c', cx1) /\
    _wikrt_split_sum cx1 c' = (WIKRT_OK, true, wikrt_i2v 42, cx2).
Proof.
  destruct (C3_wrap_unwrap_sum cx0 cx0_wf) as [H _].
  destruct (_wikrt_alloc_sum cx0 WIKRT_VOID true (wikrt_i2v 42)) as [[st c'] cx1] eqn:E.
  assert (st = WIKRT_OK) as Hst.
  { apply (f_equal (fun r => fst (fst r))) in E. vm_compute in E. congruence. }
  assert (0 <= wikrt_i2v 42 < 2^32) as Hv by apply i2v_range.
  assert (sum_wrappable cx0 (wikrt_i2v 42)) as Hw.
  { intros C. vm_compute in C. discriminate C. }
  destruct (H WIKRT_VOID true (wikrt_i2v 42) st c' cx1 Hv Hw E) as (_ & R).
  destruct (R Hst) as (cx2 & S & _).
  exists c', cx1, cx2. subst st. split; [reflexivity|exact S].
Defined.

(** ** Fourteen lefts around unit *)

Section DeepSum14.
Context {FL : wikrt_flist}.

Lemma pval_get_ext cx cx' a i :
  (forall x, a + 4 * i <= x < a + 4 * i + 4 ->
             load8 (memory cx') x = load8 (memory cx) x) ->
  pval_get cx' a i = pval_get cx a i.
Proof.
  intros H. unfold pval_get, load32. rewrite !H by lia. reflexivity.
Qed.

Lemma alloc_sum_fresh cx c r v T :
  wikrt_vtag v = WIKRT_O -> pval_get cx (wikrt_vaddr v) 0 = T -> 2^30 <= T ->
  _wikrt_alloc_sum cx c r v =
  match wikrt_alloc_cellval cx c PtrOut WIKRT_O (deepsum_one r) v with
  | (false, c', cx1) => (WIKRT_CXFULL, c', cx1)
  | (true, c', cx1) => (WIKRT_OK, c', cx1)
  end.
Proof.
  intros HO ET Hge. unfold _wikrt_alloc_sum. rewrite HO, ET.
  change (WIKRT_P =? WIKRT_O) with false. change (Z.shiftl 1 30) with (2^30).
  destruct (Z.ltb_spec T (2^30)); [lia|]. rewrite andb_false_r.
  rewrite deepsum_one_word. reflexivity.
Qed.

Lemma alloc_sum_tagged cx c r v :
  wikrt_vtag v = WIKRT_PL ->
  _wikrt_alloc_sum cx c r v =
  match wikrt_alloc_cellval cx c PtrOut WIKRT_O (deepsum_one r) v with
  | (false, c', cx1) => (WIKRT_CXFULL, c', cx1)
  | (true, c', cx1) => (WIKRT_OK, c', cx1)
  end.
Proof.
  intros HL. unfold _wikrt_alloc_sum. rewrite HL.
  change (WIKRT_P =? WIKRT_PL) with false. change (WIKRT_O =? WIKRT_PL) with false.
  cbn [andb]. rewrite deepsum_one_word. reflexivity.
Qed.

Lemma split_sum_tagged_unit cx :
  _wikrt_split_sum cx WIKRT_UNIT_INL = (WIKRT_OK, false, WIKRT_UNIT, cx).
Proof. reflexivity. Qed.

Ltac push_left T Ga0 HO HA :=
  match goal with
  | |- context [_wikrt_alloc_sum ?cx ?v false ?v] =>
      let ET := fresh "ET" in
      assert (pval_get cx (wikrt_vaddr v) 0 = T) as ET
          by (rewrite HA; first [exact Ga0 | rewrite pval_get_set_same; reflexivity]);
      rewrite (alloc_sum_inplace cx v false v T HO ET eq_refl eq_refl);
      clear ET; cbv iota;
      let T' := eval vm_compute in (deepsum_push T false) in
      change (deepsum_push T false) with T';
      rewrite ?HA
  end.

Ltac push_left_again Ga0 HO HA :=
  match goal with
  | |- context [_wikrt_alloc_sum (pval_set _ _ 0 ?T) _ false _] =>
      push_left T Ga0 HO HA
  end.

(** The context after the eleven in-place pushes that follow the
    allocation of the first deep-sum cell at [a]. *)
Definition twelve_lefts (cxa : wikrt_cx) (a : Z) : wikrt_cx :=
  pval_set (pval_set (pval_set (pval_set (pval_set (pval_set (pval_set (pval_set
  (pval_set (pval_set (pval_set cxa a 0 2643) a 0 10835) a 0 43603) a 0 174675)
  a 0 698963) a 0 2796115) a 0 11184723) a 0 44739155) a 0 178956883)
  a 0 715827795) a 0 2863311443.

Lemma C8_wrap cx c cxf :
  cx_wf cx ->
  wrap_sum_n 14 cx false WIKRT_UNIT = (WIKRT_OK, c, cxf) ->
  exists a1 cxa a2,
    cell_made cx WIKRT_O 595 WIKRT_UNIT_INL (wikrt_tag_addr WIKRT_O a1) cxa a1 /\
    cell_made (twelve_lefts cxa a1) WIKRT_O 595 (wikrt_tag_addr WIKRT_O a1) c cxf a2.
Proof.
  intros Hwf.
  cbn [wrap_sum_n].
  change (_wikrt_alloc_sum cx WIKRT_UNIT false WIKRT_UNIT)
    with (WIKRT_OK, WIKRT_UNIT_INL, cx). cbv iota.
  rewrite (alloc_sum_tagged cx WIKRT_UNIT_INL false WIKRT_UNIT_INL eq_refl).
  change (deepsum_one false) with 595.
  destruct (wikrt_alloc_cellval cx WIKRT_UNIT_INL PtrOut WIKRT_O 595
              WIKRT_UNIT_INL) as [[b c1] cxa] eqn:E1.
  destruct (alloc_cellval_spec _ _ _ _ _ _ _ _ Hwf E1)
    as [(-> & _)|(-> & a1 & M1)]; [discriminate|]. cbv iota.
  pose proof M1 as (Va1 & -> & Wa & Aa & Fa & Ga0 & Ga1 & Hin1 & Hout1 & Hmem1).
  assert (ptr_tag WIKRT_O) as PO by (left; reflexivity).
  pose proof (vtag_tag_addr _ _ PO Va1) as HO1.
  pose proof (vaddr_tag_addr _ _ PO Va1) as HA1.
  change (u32 595) with 595 in Ga0.
  push_left 595 Ga0 HO1 HA1.
  do 10 push_left_again Ga0 HO1 HA1.
  fold (twelve_lefts cxa a1).
  rewrite (alloc_sum_fresh (twelve_lefts cxa a1) _ false _ 2863311443 HO1);
    [|rewrite HA1; unfold twelve_lefts; rewrite pval_get_set_same; reflexivity|lia].
  change (deepsum_one false) with 595.
  destruct (wikrt_alloc_cellval (twelve_lefts cxa a1) (wikrt_tag_addr WIKRT_O a1)
              PtrOut WIKRT_O 595 (wikrt_tag_addr WIKRT_O a1)) as [[b c2] cxb] eqn:E2.
  assert (cx_wf (twelve_lefts cxa a1)) as W12 by exact Wa.
  destruct (alloc_cellval_spec _ _ _ _ _ _ _ _ W12 E2)
    as [(-> & _)|(-> & a2 & M2)]; [discriminate|]. cbv iota.
  intros H. apply triple_inj in H. destruct H as (_ & <- & <-).
  exists a1, cxa, a2. split; [exact M1|exact M2].
Qed.

(** The data bits of a deep-sum tag word holding the directions [ds], the
    outermost first: two bits each, [10] for left and [11] for right. *)
Fixpoint deepsum_dirs (ds : list bool) : Z :=
  match ds with
  | [] => 0
  | d :: r => 4 * deepsum_dirs r + (if d then 3 else 2)
  end.

Definition deepsum_tag (ds : list bool) : Z := 256 * deepsum_dirs ds + 83.

Ltac pop_left HO HA :=
  match goal with
  | |- context [_wikrt_split_sum (pval_set ?cx0 ?a 0 ?T) ?c] =>
      let ET := fresh "ET" in
      assert (pval_get (pval_set cx0 a 0 T) (wikrt_vaddr c) 0 = T) as ET
          by (rewrite HA; rewrite pval_get_set_same; reflexivity);
      rewrite (split_sum_deep (pval_set cx0 a 0 T) c T HO ET eq_refl);
      clear ET;
      let b := eval vm_compute in (0 =? T / 256 / 4) in
      change (0 =? T / 256 / 4) with b; cbv iota;
      let d := eval vm_compute in ((T / 256) mod 4 =? 3) in
      change ((T / 256) mod 4 =? 3) with d;
      let T' := eval vm_compute in (256 * (T / 256 / 4) + 83) in
      change (256 * (T / 256 / 4) + 83) with T';
      rewrite ?HA
  end.

Lemma aligned_cells_apart a1 a2 :
  valid_addr a1 -> valid_addr a2 -> a1 <> a2 -> a1 + 8 <= a2 \/ a2 + 8 <= a1.
Proof.
  unfold valid_addr. intros (_ & M1 & _) (_ & M2 & _) N.
  revert M1 M2. Z.div_mod_to_equations. lia.
Qed.

(** C8.  Fourteen successive left wraps of unit allocate exactly two cells
    (the allocation counter grows by two cell sizes): a deep-sum cell whose
    tag word is full with twelve lefts around unit-in-left, and a second
    deep-sum cell with one left around the first.  Fourteen successive
    unwraps then return left each time and end at unit, releasing both
    cells. *)
Theorem C8_fourteen_lefts cx c cxf :
  cx_wf cx ->
  wrap_sum_n 14 cx false WIKRT_UNIT = (WIKRT_OK, c, cxf) ->
  ct_bytes_alloc cxf =
    u64 (u64 (ct_bytes_alloc cx + WIKRT_CELLSIZE) + WIKRT_CELLSIZE) /\
  (exists a1 a2,
      valid_addr a1 /\ valid_addr a2 /\ a1 <> a2 /\
      c = wikrt_tag_addr WIKRT_O a2 /\
      pval_get cxf a2 0 = deepsum_tag [false] /\
      pval_get cxf a2 1 = wikrt_tag_addr WIKRT_O a1 /\
      pval_get cxf a1 0 = deepsum_tag (repeat false 12) /\
      2^30 <= pval_get cxf a1 0 /\
      pval_get cxf a1 1 = WIKRT_UNIT_INL) /\
  (exists cx2,
      unwrap_sum_n 14 cxf c = (WIKRT_OK, repeat false 14, WIKRT_UNIT, cx2) /\
      ct_bytes_freed cx2 =
        u64 (u64 (ct_bytes_freed cx + WIKRT_CELLSIZE) + WIKRT_CELLSIZE) /\
      ct_bytes_alloc cx2 = ct_bytes_alloc cxf).
Proof.
  intros Hwf E.
  destruct (C8_wrap cx c cxf Hwf E) as (a1 & cxa & a2 & M1 & M2).
  destruct M1 as (Va1 & _ & Wa & Aa & Fa & Ga0 & Ga1 & Hin1 & Hout1 & Hmem1).
  destruct M2 as (Va2 & -> & Wb & Ab & Fb & Gb0 & Gb1 & Hin2 & Hout2 & Hmem2).
  assert (ptr_tag WIKRT_O) as PO by (left; reflexivity).
  pose proof (vtag_tag_addr _ _ PO Va1) as HO1.
  pose proof (vaddr_tag_addr _ _ PO Va1) as HA1.
  pose proof (vtag_tag_addr _ _ PO Va2) as HO2.
  pose proof (vaddr_tag_addr _ _ PO Va2) as HA2.
  assert (a1 <> a2) as Hne.
  { intros ->. destruct Va2 as (P2 & _).
    destruct (Hin1 a2 ltac:(lia)) as [_ N1].
    destruct (Hin2 a2 ltac:(lia)) as [F2 _]. exact (N1 F2). }
  pose proof (aligned_cells_apart a1 a2 Va1 Va2 Hne) as Hap.
  assert (pval_get cxf a1 0 = 2863311443) as G10.
  { rewrite (pval_get_ext (twelve_lefts cxa a1) cxf) by (intros x Hx; apply Hmem2; lia).
    unfold twelve_lefts. rewrite pval_get_set_same. reflexivity. }
  assert (pval_get cxf a1 1 = 5) as G11.
  { rewrite (pval_get_ext (twelve_lefts cxa a1) cxf) by (intros x Hx; apply Hmem2; lia).
    unfold twelve_lefts. rewrite !pval_get_set_other by lia. exact Ga1. }
  change (u32 595) with 595 in Gb0.
  rewrite (u32_small (wikrt_tag_addr WIKRT_O a1)) in Gb1
    by (apply tag_addr_range; assumption).
  split.
  { rewrite Ab. change (ct_bytes_alloc (twelve_lefts cxa a1)) with (ct_bytes_alloc cxa).
    rewrite Aa. reflexivity. }
  split.
  { exists a1, a2. repeat (split; [assumption|]).
    split; [reflexivity|]. split; [exact Gb0|]. split; [exact Gb1|].
    split; [exact G10|]. split; [rewrite G10; lia|exact G11]. }
  cbn [unwrap_sum_n].
  rewrite (split_sum_deep cxf _ 595 HO2) by (rewrite ?HA2; try exact Gb0; reflexivity).
  change (0 =? 595 / 256 / 4) with true. cbv iota.
  change ((595 / 256) mod 4 =? 3) with false.
  rewrite HA2, Gb1.
  set (cxu := wikrt_free cxf WIKRT_CELLSIZE a2).
  assert (pval_get cxu a1 0 = 2863311443) as U0 by exact G10.
  assert (pval_get cxu a1 1 = 5) as U1 by exact G11.
  rewrite (split_sum_deep cxu _ 2863311443 HO1) by (rewrite ?HA1; try exact U0; reflexivity).
  change (0 =? 2863311443 / 256 / 4) with false. cbv iota.
  change ((2863311443 / 256) mod 4 =? 3) with false.
  change (256 * (2863311443 / 256 / 4) + 83) with 715827795.
  rewrite HA1.
  do 10 pop_left HO1 HA1.
  match goal with
  | |- context [_wikrt_split_sum ?cxv _] =>
      assert (pval_get cxv a1 0 = 595) as V0
          by (rewrite pval_get_set_same; reflexivity);
      assert (pval_get cxv a1 1 = 5) as V1
          by (rewrite !pval_get_set_other by lia; exact U1);
      rewrite (split_sum_deep cxv _ 595 HO1)
        by (rewrite ?HA1; try exact V0; reflexivity)
  end.
  change (0 =? 595 / 256 / 4) with true. cbv iota.
  change ((595 / 256) mod 4 =? 3) with false.
  rewrite HA1, V1.
  change 5 with WIKRT_UNIT_INL. rewrite split_sum_tagged_unit.
  eexists. split; [reflexivity|].
  split; [|reflexivity].
  cbn [ct_bytes_freed wikrt_free pval_set set_memory].
  change (WIKRT_CELLBUFF WIKRT_CELLSIZE) with WIKRT_CELLSIZE.
  unfold cxu. cbn [ct_bytes_freed wikrt_free].
  change (WIKRT_CELLBUFF WIKRT_CELLSIZE) with WIKRT_CELLSIZE.
  rewrite Fb. change (ct_bytes_freed (twelve_lefts cxa a1)) with (ct_bytes_freed cxa).
  rewrite Fa. reflexivity.
Qed.

End DeepSum14.

Lemma C8_witness :
  exists c cxf cx2,
    wrap_sum_n 14 cx0 false WIKRT_UNIT = (WIKRT_OK, c, cxf) /\
    ct_bytes_alloc cxf = 16 /\
    unwrap_sum_n 14 cxf c = (WIKRT_OK, repeat false 14, WIKRT_UNIT, cx2).
Proof.
  destruct (wrap_sum_n 14 cx0 false WIKRT_UNIT) as [[st c] cxf] eqn:E.
  assert (st = WIKRT_OK) as Hst.
  { apply (f_equal (fun r => fst (fst r))) in E. vm_compute in E. congruence. }
  subst st.
  destruct (C8_fourteen_lefts cx0 c cxf cx0_wf E) as (A & _ & cx2 & U & _).
  exists c, cxf, cx2. split; [reflexivity|]. split; [exact A|exact U].
Defined.

(** ** Buffers, C strings and byte copies *)

Lemma buf_write_app cs : forall b,
  (length cs <= length b)%nat ->
  buf_write b 0 cs = cs ++ skipn (length cs) b.
Proof.
  assert (forall cs pre b,
             (length cs <= length b)%nat ->
             buf_write (pre ++ b) (length pre) cs = pre ++ cs ++ skipn (length cs) b) as G.
  { clear cs. induction cs as [|c r IH]; intros pre b Hl; cbn [buf_write].
    - reflexivity.
    - destruct b as [|x b']; [cbn in Hl; lia|].
      assert (buf_set (pre ++ x :: b') (length pre) c = (pre ++ [c]) ++ b') as E.
      { clear. induction pre as [|p pre IHp]; cbn; [reflexivity|]. rewrite IHp. reflexivity. }
      rewrite E. replace (S (length pre)) with (length (pre ++ [c]))
        by (rewrite length_app; cbn; lia).
      rewrite (IH (pre ++ [c]) b') by (cbn in Hl; lia).
      rewrite <- app_assoc. reflexivity. }
  intros b Hl. exact (G cs [] b Hl).
Qed.

Lemma buf_set_app cs x r c : buf_set (cs ++ x :: r) (length cs) c = cs ++ c :: r.
Proof. induction cs as [|y cs IH]; cbn; [reflexivity|]. rewrite IH. reflexivity. Qed.

Lemma cstr_app_nul cs r :
  Forall (fun c => c <> 0) cs -> cstr (cs ++ 0 :: r) = cs.
Proof.
  induction 1 as [|c cs Hc _ IH]; cbn [cstr app]; [reflexivity|].
  destruct (Z.eqb_spec c 0); [contradiction|]. rewrite IH. reflexivity.
Qed.

Lemma load8_memcpy_bytes_other bs : forall m d x,
  x < d \/ d + Z.of_nat (length bs) <= x ->
  load8 (memcpy_bytes m d bs) x = load8 m x.
Proof.
  induction bs as [|b r IH]; intros m d x Hx; cbn [memcpy_bytes]; [reflexivity|].
  cbn [length] in Hx. rewrite IH by lia. apply load8_store8_other. lia.
Qed.

Lemma load_bytes_memcpy_bytes bs : forall m d,
  load_bytes (memcpy_bytes m d bs) d (length bs) = map (fun b => b mod 256) bs.
Proof.
  induction bs as [|b r IH]; intros m d; cbn [memcpy_bytes load_bytes length map];
    [reflexivity|].
  rewrite load8_memcpy_bytes_other by lia. rewrite load8_store8_same.
  rewrite IH. reflexivity.
Qed.

Lemma to_char_byte cs c : char_ok cs c -> to_char cs (c mod 256) = c.
Proof.
  unfold char_ok, to_char. destruct cs; intros H.
  - cbn [andb]. destruct (Z.leb_spec 128 (c mod 256)) as [L|L];
      revert L; Z.div_mod_to_equations; lia.
  - cbn [andb]. apply Z.mod_small. lia.
Qed.

Lemma map_to_char_bytes cs tok :
  Forall (char_ok cs) tok -> map (to_char cs) (map (fun b => b mod 256) tok) = tok.
Proof.
  induction 1 as [|c r Hc _ IH]; cbn [map]; [reflexivity|].
  rewrite to_char_byte by assumption. rewrite IH. reflexivity.
Qed.

Lemma buf_set_length b : forall i c, length (buf_set b i c) = length b.
Proof.
  induction b as [|x r IH]; intros i c; [reflexivity|].
  destruct i; cbn; [reflexivity|]. rewrite IH. reflexivity.
Qed.

Lemma skipn_cons_ex {A} (l : list A) n :
  (n < length l)%nat -> exists x r, skipn n l = x :: r.
Proof.
  revert n. induction l as [|y l IH]; intros n H; [cbn in H; lia|].
  destruct n; [exists y, l; reflexivity|]. cbn in H. apply IH. lia.
Qed.

(** ** Sealed values *)

Section SealProps.
Context {FL : wikrt_flist}.
Variable char_signed : bool.

(** A token as the callers pass it: a C string of 1..63 characters, with
    its length. *)
Definition token_ok (tok : list Z) : Prop :=
  1 <= Z.of_nat (length tok) <= 63 /\
  Forall (char_ok char_signed) tok /\ Forall (fun c => c <> 0) tok.

(** The test of [_wikrt_alloc_seal] for the small representation. *)
Definition seal_small (tok : list Z) : bool :=
  (58 =? str_at tok 0) && (Z.of_nat (length tok) <=? 4).

(** The outcome of seal-then-unseal: the token is in the buffer as a C
    string and the sealed word comes back. *)
Definition seal_restored (tok : list Z) (v : wikrt_val) (buff : list Z)
           (cx1 : wikrt_cx) (sv' : wikrt_val) : Prop :=
  exists buff' cx2,
    _wikrt_split_seal char_signed cx1 sv' buff = (WIKRT_OK, buff', v, cx2) /\
    cstr buff' = tok.

Lemma seal_large_round_trip cx sv tok v buff st sv' cx1 :
  cx_wf cx -> 0 <= v < 2^32 -> token_ok tok -> length buff = 64%nat ->
  seal_small tok = false ->
  _wikrt_alloc_seal cx sv tok (Z.of_nat (length tok)) v = (st, sv', cx1) ->
  (st = WIKRT_OK \/ st = WIKRT_CXFULL) /\
  (st = WIKRT_OK ->
   seal_restored tok v buff cx1 sv' /\
   ct_bytes_alloc cx1 =
     u64 (ct_bytes_alloc cx + WIKRT_CELLBUFF (WIKRT_CELLSIZE + Z.of_nat (length tok)))).
Proof.
  intros Hwf Hv (Hlen & Hch & Hnz) Hb Hsm.
  set (len := Z.of_nat (length tok)) in *.
  unfold _wikrt_alloc_seal. fold len. unfold seal_small in Hsm. fold len in Hsm.
  destruct (Z.ltb_spec 0 len); [|lia]. destruct (Z.ltb_spec len 64); [|lia].
  cbn [andb negb]. rewrite Hsm.
  rewrite (u32_small len) by lia.
  unfold WIKRT_CELLSIZE. rewrite (u32_small (8 + len)) by lia.
  destruct (wikrt_alloc cx (8 + len)) as [[a|] cxa] eqn:E; intros HH;
    apply triple_inj in HH; destruct HH as (<- & <- & <-).
  2:{ split; [right; reflexivity|discriminate]. }
  split; [left; reflexivity|]. intros _.
  assert (0 < 8 + len < 2^30) as Hs8 by lia.
  destruct (wikrt_alloc_some _ _ _ _ Hwf Hs8 E)
    as (W & (M & F) & A & Ha & Hma & Hbd & Hin & Hout).
  assert (8 + len <= WIKRT_CELLBUFF (8 + len)) as Hcb
    by (rewrite cellbuff_spec by lia; Z.div_mod_to_equations; lia).
  assert (valid_addr a) as Va by (unfold valid_addr; lia).
  assert (ptr_tag WIKRT_O) as PO by (left; reflexivity).
  assert (u32 (Z.lor (Z.shiftl len 8) WIKRT_OTAG_SEAL) = 256 * len + 36) as Etag.
  { rewrite Z.shiftl_mul_pow2 by lia. change (2^8) with 256.
    rewrite (lor_add_low 8) by (unfold WIKRT_OTAG_SEAL; try lia;
                                change (2^8) with 256; Z.div_mod_to_equations; lia).
    unfold WIKRT_OTAG_SEAL. rewrite u32_small by lia. lia. }
  rewrite Etag.
  assert (firstn (Z.to_nat len) tok = tok) as Efn.
  { unfold len. rewrite Nat2Z.id. apply firstn_all. }
  rewrite Efn.
  set (cx3 := pval_set (pval_set cxa a 0 (256 * len + 36)) a 1 v).
  set (cx4 := set_memory cx3 (memcpy_bytes (memory cx3) (a + 8) tok)).
  assert (forall i, 0 <= i <= 1 -> pval_get cx4 a i = pval_get cx3 a i) as G4.
  { intros i Hi. apply pval_get_ext. intros x Hx. unfold cx4, set_memory; cbn [memory].
    apply load8_memcpy_bytes_other. lia. }
  assert (pval_get cx4 a 0 = 256 * len + 36) as G0.
  { rewrite G4 by lia. unfold cx3. rewrite pval_get_set_other by lia.
    rewrite pval_get_set_same. apply u32_small. lia. }
  assert (pval_get cx4 a 1 = v) as G1.
  { rewrite G4 by lia. unfold cx3. rewrite pval_get_set_same.
    apply u32_small. exact Hv. }
  split; [|exact A].
  unfold seal_restored, _wikrt_split_seal.
  rewrite vtag_tag_addr, vaddr_tag_addr by assumption.
  change (WIKRT_O =? WIKRT_O) with true. cbn [negb orb].
  destruct (Z.eqb_spec 0 a); [lia|].
  rewrite G0, G1.
  assert (wikrt_otag_seal_sm (256 * len + 36) = false) as Nsm.
  { unfold wikrt_otag_seal_sm, WIKRT_OTAG_SEAL_SM. rewrite LOBYTE_mod.
    apply Z.eqb_neq. Z.div_mod_to_equations. lia. }
  assert (wikrt_otag_seal (256 * len + 36) = true) as Ysl.
  { unfold wikrt_otag_seal, WIKRT_OTAG_SEAL. rewrite LOBYTE_mod.
    apply Z.eqb_eq. Z.div_mod_to_equations. lia. }
  rewrite Nsm, Ysl.
  assert (Z.land (Z.shiftr (256 * len + 36) 8) 63 = len) as El.
  { rewrite Z.shiftr_div_pow2 by lia. change 63 with (Z.ones 6).
    rewrite Z.land_ones by lia. change (2^8) with 256. change (2^6) with 64.
    Z.div_mod_to_equations. lia. }
  rewrite El.
  assert (Z.to_nat len = length tok) as Enat by (unfold len; apply Nat2Z.id).
  rewrite Enat.
  assert (load_bytes (memory cx4) (a + 8) (length tok)
          = map (fun b => b mod 256) tok) as Elb.
  { unfold cx4, set_memory; cbn [memory]. apply load_bytes_memcpy_bytes. }
  rewrite Elb, (map_to_char_bytes _ _ Hch).
  rewrite buf_write_app by (rewrite buf_set_length; lia).
  destruct (skipn_cons_ex (buf_set buff 0 0) (length tok)
              ltac:(rewrite buf_set_length; lia)) as (x & r & Esk).
  rewrite Esk, buf_set_app.
  eexists _, _. split; [reflexivity|]. apply cstr_app_nul. exact Hnz.
Qed.

Lemma byte_field c N :
  0 <= c <= 255 -> 1 <= N <= 3 ->
  u32 (Z.shiftl (u32 c) (8 * N)) = c * 2^(8 * N).
Proof.
  intros Hc HN. rewrite (u32_small c) by lia.
  rewrite Z.shiftl_mul_pow2 by lia. apply u32_small.
  assert (N = 1 \/ N = 2 \/ N = 3) as [-> | [-> | ->]] by lia;
    [change (2^(8*1)) with 256|change (2^(8*2)) with 65536
     |change (2^(8*3)) with 16777216]; lia.
Qed.

Lemma small_tag_word c1 c2 c3 :
  0 <= c1 <= 255 -> 0 <= c2 <= 255 -> 0 <= c3 <= 255 ->
  Z.lor (Z.lor (Z.lor (c3 * 2^(8 * 3)) (c2 * 2^(8 * 2))) (c1 * 2^(8 * 1)))
        WIKRT_OTAG_SEAL_SM
  = 58 + 256 * c1 + 65536 * c2 + 16777216 * c3.
Proof.
  intros H1 H2 H3. change (2^(8*1)) with 256. change (2^(8*2)) with 65536.
  change (2^(8*3)) with 16777216. unfold WIKRT_OTAG_SEAL_SM.
  rewrite (lor_add_low 24 (c3 * 16777216) (c2 * 65536))
    by (try lia; change (2^24) with 16777216; Z.div_mod_to_equations; lia).
  rewrite (lor_add_low 16 (c3 * 16777216 + c2 * 65536) (c1 * 256))
    by (try lia; change (2^16) with 65536; Z.div_mod_to_equations; lia).
  rewrite (lor_add_low 8)
    by (try lia; change (2^8) with 256; Z.div_mod_to_equations; lia).
  lia.
Qed.

Lemma nth_Forall (P : Z -> Prop) (l : list Z) (i : nat) :
  Forall P l -> P 0 -> P (nth i l 0).
Proof.
  intros Hl H0. revert i. induction Hl as [|x l Hx _ IH]; intros i.
  - destruct i; exact H0.
  - destruct i; [exact Hx|apply IH].
Qed.

Lemma char_byte_range c :
  char_ok char_signed c -> (char_signed = true -> 0 <= c) ->
  0 <= c <= 255 /\ to_char char_signed c = c.
Proof.
  unfold char_ok, to_char. destruct char_signed; intros H Hs.
  - specialize (Hs eq_refl). split; [lia|]. cbn [andb].
    destruct (Z.leb_spec 128 c); [lia|reflexivity].
  - split; [lia|reflexivity].
Qed.

Lemma seal_small_round_trip cx sv tok v buff st sv' cx1 :
  cx_wf cx -> 0 <= v < 2^32 -> token_ok tok -> length buff = 64%nat ->
  seal_small tok = true ->
  (char_signed = true -> Forall (fun c => 0 <= c) tok) ->
  _wikrt_alloc_seal cx sv tok (Z.of_nat (length tok)) v = (st, sv', cx1) ->
  (st = WIKRT_OK \/ st = WIKRT_CXFULL) /\
  (st = WIKRT_OK ->
   seal_restored tok v buff cx1 sv' /\
   ct_bytes_alloc cx1 = u64 (ct_bytes_alloc cx + WIKRT_CELLSIZE)).
Proof.
  intros Hwf Hv (Hlen & Hch & Hnz) Hb Hsm Hsg.
  set (len := Z.of_nat (length tok)) in *.
  unfold _wikrt_alloc_seal. fold len. pose proof Hsm as Hsm'.
  unfold seal_small in Hsm'. fold len in Hsm'. rewrite Hsm'.
  apply andb_true_iff in Hsm'. destruct Hsm' as [H58 Hle4].
  apply Z.eqb_eq in H58. apply Z.leb_le in Hle4.
  destruct (Z.ltb_spec 0 len); [|lia]. destruct (Z.ltb_spec len 64); [|lia].
  cbn [andb negb].
  (* the three characters after the colon, zero past the end *)
  assert (forall i, 0 <= str_at tok i <= 255 /\
                    to_char char_signed (str_at tok i) = str_at tok i) as Hc.
  { intros i. unfold str_at.
    apply (nth_Forall (fun c => 0 <= c <= 255 /\ to_char char_signed c = c)).
    - apply Forall_forall. intros c Hin. apply char_byte_range.
      + exact (proj1 (Forall_forall _ _) Hch c Hin).
      + intros Es. exact (proj1 (Forall_forall _ _) (Hsg Es) c Hin).
    - split; [lia|]. unfold to_char. rewrite andb_false_r. reflexivity. }
  assert (forall N, 1 <= N <= 3 ->
                    seal_TAG tok len N = str_at tok N * 2^(8 * N)) as HT.
  { intros N HN. unfold seal_TAG. destruct (Z.ltb_spec N len) as [L|L].
    - apply byte_field; [apply Hc|exact HN].
    - unfold str_at. rewrite nth_overflow by (unfold len in L; lia). reflexivity. }
  rewrite (HT 1), (HT 2), (HT 3) by lia.
  rewrite small_tag_word by apply Hc.
  set (c1 := str_at tok 1) in *. set (c2 := str_at tok 2) in *.
  set (c3 := str_at tok 3) in *.
  pose proof (Hc 1) as (R1 & K1). pose proof (Hc 2) as (R2 & K2).
  pose proof (Hc 3) as (R3 & K3). fold c1 in R1, K1. fold c2 in R2, K2.
  fold c3 in R3, K3.
  set (tag := 58 + 256 * c1 + 65536 * c2 + 16777216 * c3).
  assert (0 <= tag < 2^32) as Rtag by (unfold tag; lia).
  destruct (wikrt_alloc_cellval cx sv PtrOut WIKRT_O tag v) as [[b out'] cxa] eqn:E.
  destruct (alloc_cellval_spec _ _ _ _ _ _ _ _ Hwf E)
    as [(-> & -> & W & S & A)|(-> & a & Va & -> & W & A & F & G0 & G1 & Hin & Hout & Hmem)];
    intros HH; apply triple_inj in HH; destruct HH as (<- & <- & <-).
  { split; [right; reflexivity|discriminate]. }
  split; [left; reflexivity|]. intros _. split; [|exact A].
  rewrite (u32_small tag) in G0 by exact Rtag.
  rewrite (u32_small v) in G1 by exact Hv.
  assert (ptr_tag WIKRT_O) as PO by (left; reflexivity).
  unfold seal_restored, _wikrt_split_seal.
  rewrite vtag_tag_addr, vaddr_tag_addr by assumption.
  change (WIKRT_O =? WIKRT_O) with true. cbn [negb orb].
  destruct Va as (Ha & Hma & Hbd). destruct (Z.eqb_spec 0 a); [lia|].
  rewrite G0, G1.
  assert (wikrt_otag_seal_sm tag = true) as Ysm.
  { unfold wikrt_otag_seal_sm, WIKRT_OTAG_SEAL_SM. rewrite LOBYTE_mod.
    apply Z.eqb_eq. unfold tag. Z.div_mod_to_equations. lia. }
  rewrite Ysm.
  assert (Z.land (Z.shiftr tag 8) 255 = c1 /\ Z.land (Z.shiftr tag 16) 255 = c2 /\
          Z.land (Z.shiftr tag 24) 255 = c3) as (B1 & B2 & B3).
  { change 255 with (Z.ones 8). rewrite !Z.land_ones, !Z.shiftr_div_pow2 by lia.
    change (2^8) with 256. change (2^16) with 65536. change (2^24) with 16777216.
    unfold tag. repeat split; Z.div_mod_to_equations; lia. }
  rewrite B1, B2, B3, K1, K2, K3.
  destruct buff as [|b0 [|b1 [|b2 [|b3 [|b4 rest]]]]]; try (cbn in Hb; lia).
  cbn [buf_set].
  eexists _, _. split; [reflexivity|].
  (* the buffer read as a C string is the token *)
  destruct tok as [|t0 tl]; [cbn in Hlen; lia|].
  unfold str_at in H58; cbn in H58. subst t0.
  inversion Hnz as [|? ? _ Hnz1]; subst.
  unfold c1, c2, c3, str_at.
  change (Z.to_nat 1) with 1%nat. change (Z.to_nat 2) with 2%nat.
  change (Z.to_nat 3) with 3%nat. cbn [nth cstr].
  change (58 =? 0) with false. cbv iota.
  destruct tl as [|x1 [|x2 [|x3 [|x4 tl']]]];
    try (unfold len in Hle4; cbn [length] in Hle4; lia);
    repeat match goal with
           | H : Forall _ (_ :: _) |- _ => inversion H; subst; clear H
           end;
    cbn [nth cstr]; change (0 =? 0) with true;
    repeat match goal with
           | |- context [?x =? 0] =>
               destruct (Z.eqb_spec x 0); [contradiction|]
           end; reflexivity.
Qed.

End SealProps.

Section SealClaims.
Context {FL : wikrt_flist}.

Lemma seal_small_one_cell cx sv tok v st sv' cx1 :
  cx_wf cx -> seal_small tok = true -> 1 <= Z.of_nat (length tok) ->
  _wikrt_alloc_seal cx sv tok (Z.of_nat (length tok)) v = (st, sv', cx1) ->
  st = WIKRT_OK ->
  ct_bytes_alloc cx1 = u64 (ct_bytes_alloc cx + WIKRT_CELLSIZE).
Proof.
  intros Hwf Hsm Hlen. unfold _wikrt_alloc_seal. pose proof Hsm as Hsm'.
  unfold seal_small in Hsm'. rewrite Hsm'.
  apply andb_true_iff in Hsm'. destruct Hsm' as [_ Hle4]. apply Z.leb_le in Hle4.
  destruct (Z.ltb_spec 0 (Z.of_nat (length tok))); [|lia].
  destruct (Z.ltb_spec (Z.of_nat (length tok)) 64); [|lia]. cbn [andb negb].
  match goal with
  | |- context [wikrt_alloc_cellval cx sv PtrOut WIKRT_O ?t v] =>
      destruct (wikrt_alloc_cellval cx sv PtrOut WIKRT_O t v) as [[b out'] cxa] eqn:E
  end.
  destruct (alloc_cellval_spec _ _ _ _ _ _ _ _ Hwf E)
    as [(-> & _)|(-> & a & _ & _ & _ & A & _)];
    intros HH; apply triple_inj in HH; destruct HH as (<- & <- & <-).
  - discriminate.
  - intros _. exact A.
Qed.

Lemma alloc_seal_status cx sv s len v st sv' cx1 :
  1 <= len <= 63 ->
  _wikrt_alloc_seal cx sv s len v = (st, sv', cx1) ->
  st = WIKRT_OK \/ st = WIKRT_CXFULL.
Proof.
  intros Hlen. unfold _wikrt_alloc_seal.
  destruct (Z.ltb_spec 0 len); [|lia]. destruct (Z.ltb_spec len 64); [|lia].
  cbn [andb negb].
  destruct ((58 =? str_at s 0) && (len <=? 4)).
  - match goal with
    | |- context [wikrt_alloc_cellval cx sv PtrOut WIKRT_O ?t v] =>
        destruct (wikrt_alloc_cellval cx sv PtrOut WIKRT_O t v) as [[b out'] cxa]
    end.
    destruct b; intros HH; apply triple_inj in HH; destruct HH as (<- & _); auto.
  - match goal with
    | |- context [wikrt_alloc cx ?z] => destruct (wikrt_alloc cx z) as [[a|] cxa]
    end; intros HH; apply triple_inj in HH; destruct HH as (<- & _); auto.
Qed.

(** The token [":é"] as a C string where plain [char] is signed: the colon
    and the two bytes 0xC3, 0xA9 of U+00E9. *)
Definition tok_colon_e_acute : list Z := [58; -61; -87].

(** With signed [char], [(wikrt_val)s[N]] sign-extends a byte above 127
    and the bits shifted in spill into the higher token bytes of the tag
    word: [":é"] comes back followed by two bytes 0xFF. *)
Lemma seal_small_signed_smear cx sv v buff st sv' cx1 :
  cx_wf cx -> 0 <= v < 2^32 -> length buff = 64%nat ->
  _wikrt_alloc_seal cx sv tok_colon_e_acute 3 v = (st, sv', cx1) ->
  st = WIKRT_OK ->
  exists buff' cx2,
    _wikrt_split_seal true cx1 sv' buff = (WIKRT_OK, buff', v, cx2) /\
    cstr buff' = [58; -61; -1; -1].
Proof.
  intros Hwf Hv Hb. unfold _wikrt_alloc_seal.
  change ((0 <? 3) && (3 <? 64)) with true.
  change ((58 =? str_at tok_colon_e_acute 0) && (3 <=? 4)) with true. cbn [negb].
  change (Z.lor (Z.lor (Z.lor (seal_TAG tok_colon_e_acute 3 3)
                              (seal_TAG tok_colon_e_acute 3 2))
                       (seal_TAG tok_colon_e_acute 3 1)) WIKRT_OTAG_SEAL_SM)
    with 4294951738.
  destruct (wikrt_alloc_cellval cx sv PtrOut WIKRT_O 4294951738 v)
    as [[b out'] cxa] eqn:E.
  destruct (alloc_cellval_spec _ _ _ _ _ _ _ _ Hwf E)
    as [(-> & _)|(-> & a & Va & -> & W & A & F & G0 & G1 & Hin & Hout & Hmem)];
    intros HH; apply triple_inj in HH; destruct HH as (<- & <- & <-).
  - discriminate.
  - intros _. change (u32 4294951738) with 4294951738 in G0.
    rewrite (u32_small v) in G1 by exact Hv.
    assert (ptr_tag WIKRT_O) as PO by (left; reflexivity).
    unfold _wikrt_split_seal.
    rewrite vtag_tag_addr, vaddr_tag_addr by assumption.
    change (WIKRT_O =? WIKRT_O) with true. cbn [negb orb].
    destruct Va as (Ha & Hma & Hbd). destruct (Z.eqb_spec 0 a); [lia|].
    rewrite G0, G1.
    change (wikrt_otag_seal_sm 4294951738) with true. cbv iota.
    change (to_char true (Z.land (Z.shiftr 4294951738 8) 255)) with (-61).
    change (to_char true (Z.land (Z.shiftr 4294951738 16) 255)) with (-1).
    change (to_char true (Z.land (Z.shiftr 4294951738 24) 255)) with (-1).
    destruct buff as [|b0 [|b1 [|b2 [|b3 [|b4 rest]]]]]; try (cbn in Hb; lia).
    cbn [buf_set]. eexists _, _. split; reflexivity.
Qed.

(** C4.  For a token of 1..63 characters, [_wikrt_alloc_seal] succeeds or
    fails with CXFULL; a token that begins with a colon and has at most four
    characters costs exactly one cell; after a success [_wikrt_split_seal]
    returns the token and the sealed word, for the large representation
    always, and for the small one when plain [char] is unsigned or no
    character of the token is above 127.  Where plain [char] is signed
    and a small token has a character above 127 the token that comes back
    is a different one: [":é"] comes back as four bytes. *)
Theorem C4_seal_round_trip char_signed cx sv tok v st sv' cx1 :
  cx_wf cx -> 0 <= v < 2^32 -> token_ok char_signed tok ->
  _wikrt_alloc_seal cx sv tok (Z.of_nat (length tok)) v = (st, sv', cx1) ->
  (st = WIKRT_OK \/ st = WIKRT_CXFULL) /\
  (st = WIKRT_OK -> seal_small tok = true ->
   ct_bytes_alloc cx1 = u64 (ct_bytes_alloc cx + WIKRT_CELLSIZE)) /\
  (st = WIKRT_OK ->
   (seal_small tok = true -> char_signed = true -> Forall (fun c => 0 <= c) tok) ->
   forall buff, length buff = 64%nat ->
                seal_restored char_signed tok v buff cx1 sv') /\
  (forall buff st2 sv2 cx2,
      length buff = 64%nat ->
      _wikrt_alloc_seal cx sv tok_colon_e_acute 3 v = (st2, sv2, cx2) ->
      st2 = WIKRT_OK ->
      exists buff' cx3,
        _wikrt_split_seal true cx2 sv2 buff = (WIKRT_OK, buff', v, cx3) /\
        cstr buff' = [58; -61; -1; -1] /\ cstr buff' <> tok_colon_e_acute).
Proof.
  intros Hwf Hv Htok E.
  assert (exists b64 : list Z, length b64 = 64%nat) as (b64 & Hb64)
    by (exists (repeat 0 64); apply repeat_length).
  destruct (seal_small tok) eqn:Hsm.
  - split; [|split; [|split]].
    + exact (alloc_seal_status _ _ _ _ _ _ _ _ (proj1 Htok) E).
    + intros Hst _. destruct Htok as (Hl & _).
      exact (seal_small_one_cell _ _ _ _ _ _ _ Hwf Hsm (proj1 Hl) E Hst).
    + intros Hst Hc buff Hb.
      destruct (seal_small_round_trip char_signed cx sv tok v buff st sv' cx1
                  Hwf Hv Htok Hb Hsm (Hc eq_refl) E) as (_ & R).
      exact (proj1 (R Hst)).
    + intros buff st2 sv2 cx2 Hb E2 Hst2.
      destruct (seal_small_signed_smear cx sv v buff st2 sv2 cx2 Hwf Hv Hb E2 Hst2)
        as (buff' & cx3 & S & C).
      exists buff', cx3. split; [exact S|]. split; [exact C|].
      rewrite C. discriminate.
  - destruct (seal_large_round_trip char_signed cx sv tok v b64 st sv' cx1
                Hwf Hv Htok Hb64 Hsm E) as (S & _).
    split; [exact S|]. split; [intros _ C; discriminate C|]. split.
    + intros Hst _ buff Hb.
      destruct (seal_large_round_trip char_signed cx sv tok v buff st sv' cx1
                  Hwf Hv Htok Hb Hsm E) as (_ & R).
      exact (proj1 (R Hst)).
    + intros buff st2 sv2 cx2 Hb E2 Hst2.
      destruct (seal_small_signed_smear cx sv v buff st2 sv2 cx2 Hwf Hv Hb E2 Hst2)
        as (buff' & cx3 & S' & C).
      exists buff', cx3. split; [exact S'|]. split; [exact C|].
      rewrite C. discriminate.
Qed.

End SealClaims.

Lemma C4_witness :
  exists sv' cx1 buff' cx2,
    _wikrt_alloc_seal cx0 WIKRT_VOID [58; 109] 2 WIKRT_UNIT = (WIKRT_OK, sv', cx1) /\
    ct_bytes_alloc cx1 = 8 /\
    _wikrt_split_seal true cx1 sv' (repeat 0 64) = (WIKRT_OK, buff', WIKRT_UNIT, cx2) /\
    cstr buff' = [58; 109].
Proof.
  destruct (_wikrt_alloc_seal cx0 WIKRT_VOID [58; 109] 2 WIKRT_UNIT)
    as [[st sv'] cx1] eqn:E.
  assert (st = WIKRT_OK) as Hst.
  { apply (f_equal (fun r => fst (fst r))) in E. vm_compute in E. congruence. }
  assert (0 <= WIKRT_UNIT < 2^32) as Hv by (unfold WIKRT_UNIT, WIKRT_P; lia).
  assert (token_ok true [58; 109]) as Htok.
  { split; [cbn; lia|]. split.
    - repeat (apply Forall_cons; [unfold char_ok; lia|]). apply Forall_nil.
    - repeat (apply Forall_cons; [lia|]). apply Forall_nil. }
  destruct (C4_seal_round_trip true cx0 WIKRT_VOID [58; 109] WIKRT_UNIT st sv' cx1
              cx0_wf Hv Htok E) as (_ & Hone & Hrt & _).
  assert (Forall (fun c => 0 <= c) [58; 109]) as Hpos
    by (repeat (apply Forall_cons; [lia|]); apply Forall_nil).
  destruct (Hrt Hst (fun _ _ => Hpos) (repeat 0 64) (repeat_length 0 64))
    as (buff' & cx2 & S & C).
  exists sv', cx1, buff', cx2. subst st.
  split; [reflexivity|]. split; [exact (Hone eq_refl eq_refl)|].
  split; [exact S|exact C].
Defined.

(** ** Token validation and the public sealer *)

(** Modelled from the spec: [wikrt_valid_token] of the public API, whose
    body is not among the sources.  The spec asks for 1..63 bytes of UTF-8
    in which every codepoint passes the token-character test of wikrt.h.
    [s] is the C string, its characters taken as bytes for decoding. *)
Definition wikrt_valid_token (s : list Z) : bool :=
  let len := Z.of_nat (length s) in
  (0 <? len) && (len <? WIKRT_TOK_BUFFSZ)
  && forallb wikrt_token_char
       (text_codepoints (S (length s)) (map (fun c => c mod 256) s) len).

Section WrapSeal.
Context {FL : wikrt_flist}.

(** Modelled from the spec: [wikrt_wrap_seal] of the public API, whose
    body is not among the sources: an invalid token is refused with INVAL,
    a valid one is handed to [_wikrt_alloc_seal] with its length. *)
Definition wikrt_wrap_seal (cx : wikrt_cx) (sv : wikrt_val) (s : list Z) (v : wikrt_val)
  : wikrt_err * wikrt_val * wikrt_cx :=
  if negb (wikrt_valid_token s) then (WIKRT_INVAL, sv, cx)
  else _wikrt_alloc_seal cx sv s (Z.of_nat (length s)) v.

Lemma alloc_seal_bad_length cx sv s len v :
  len <= 0 \/ 64 <= len ->
  _wikrt_alloc_seal cx sv s len v = (WIKRT_INVAL, WIKRT_VOID, cx).
Proof.
  intros H. unfold _wikrt_alloc_seal.
  destruct (Z.ltb_spec 0 len), (Z.ltb_spec len 64); cbn [andb negb];
    try reflexivity; lia.
Qed.

Lemma token_char_spec c :
  wikrt_token_char c = false <->
  c = 123 \/ c = 125 \/ isControlChar c = true \/ isReplacementChar c = true.
Proof.
  unfold wikrt_token_char. rewrite negb_false_iff, !orb_true_iff, !Z.eqb_eq.
  intuition congruence.
Qed.

(** C9.  [_wikrt_alloc_seal] refuses a length of zero or above 63 with
    INVAL, storing [WIKRT_VOID] and leaving the context alone; the
    token-character test is false exactly on the braces, the control
    characters and the replacement character; the public sealer, which
    validates the token first, returns INVAL for a token that is empty,
    longer than 63 bytes or holds a codepoint the test refuses, and accepts
    only tokens of 1..63 bytes whose codepoints all pass the test. *)
Theorem C9_wrap_seal_rejects_bad_tokens cx sv s v :
  let len := Z.of_nat (length s) in
  let cps := text_codepoints (S (length s)) (map (fun c => c mod 256) s) len in
  (len = 0 \/ 63 < len ->
   _wikrt_alloc_seal cx sv s len v = (WIKRT_INVAL, WIKRT_VOID, cx) /\
   wikrt_wrap_seal cx sv s v = (WIKRT_INVAL, sv, cx)) /\
  ((exists c, In c cps /\
              (c = 123 \/ c = 125 \/ isControlChar c = true \/
               isReplacementChar c = true)) ->
   wikrt_wrap_seal cx sv s v = (WIKRT_INVAL, sv, cx)) /\
  (fst (fst (wikrt_wrap_seal cx sv s v)) = WIKRT_OK ->
   1 <= len <= 63 /\ Forall (fun c => wikrt_token_char c = true) cps).
Proof.
  cbv zeta. split; [|split].
  - intros H. split; [apply alloc_seal_bad_length; lia|].
    unfold wikrt_wrap_seal, wikrt_valid_token, WIKRT_TOK_BUFFSZ.
    destruct (Z.ltb_spec 0 (Z.of_nat (length s))),
             (Z.ltb_spec (Z.of_nat (length s)) 64); cbn [andb negb];
      try reflexivity; lia.
  - intros (c & Hin & Hc). apply token_char_spec in Hc.
    unfold wikrt_wrap_seal, wikrt_valid_token.
    assert (forallb wikrt_token_char
              (text_codepoints (S (length s)) (map (fun c => c mod 256) s)
                               (Z.of_nat (length s))) = false) as E.
    { apply not_true_is_false. intros C.
      rewrite forallb_forall in C. specialize (C c Hin). congruence. }
    rewrite E, andb_false_r. reflexivity.
  - unfold wikrt_wrap_seal.
    destruct (wikrt_valid_token s) eqn:Hv; cbn [negb]; [|discriminate].
    intros _. unfold wikrt_valid_token, WIKRT_TOK_BUFFSZ in Hv.
    apply andb_true_iff in Hv. destruct Hv as [Hl Hf].
    apply andb_true_iff in Hl. destruct Hl as [H0 H64].
    apply Z.ltb_lt in H0. apply Z.ltb_lt in H64.
    split; [lia|]. apply Forall_forall. apply forallb_forall. exact Hf.
Qed.

End WrapSeal.

(** The token ["{x"] is refused by the public sealer, and the length test
    alone would have let it through. *)
Lemma C9_witness :
  wikrt_wrap_seal cx0 WIKRT_VOID [123; 120] WIKRT_UNIT = (WIKRT_INVAL, WIKRT_VOID, cx0) /\
  fst (fst (_wikrt_alloc_seal cx0 WIKRT_VOID [123; 120] 2 WIKRT_UNIT)) = WIKRT_OK.
Proof.
  split; [|vm_compute; reflexivity].
  destruct (C9_wrap_seal_rejects_bad_tokens cx0 WIKRT_VOID [123; 120] WIKRT_UNIT)
    as (_ & H & _).
  apply H. exists 123. split; [vm_compute; left; reflexivity|left; reflexivity].
Defined.

(** ** Integer division *)

(** Modelled from the spec: [wikrt_int_div], whose body is not among the
    sources (only its test is).  The spec: quotient and remainder of floor
    division, a zero divisor being a type error.  Result: status, quotient,
    remainder. *)
Definition wikrt_int_div (dividend divisor : Z) : wikrt_err * Z * Z :=
  if divisor =? 0 then (WIKRT_TYPE_ERROR, 0, 0)
  else (WIKRT_OK, Z.div dividend divisor, Z.modulo dividend divisor).

(** C2.  Division by a non-zero divisor succeeds with a quotient [q] and a
    remainder [r] such that [dividend = divisor * q + r], the remainder
    lying between zero and the divisor on the divisor's side; the four
    sign cases of 11 and 3 give (3,2), (-4,1), (-4,-1), (3,-2); a zero
    divisor is a type error. *)
Theorem C2_int_div_floor dividend divisor :
  (divisor <> 0 ->
   exists q r,
     wikrt_int_div dividend divisor = (WIKRT_OK, q, r) /\
     dividend = divisor * q + r /\
     (0 < divisor -> 0 <= r < divisor) /\
     (divisor < 0 -> divisor < r <= 0) /\
     (r = 0 \/ Z.sgn r = Z.sgn divisor)) /\
  wikrt_int_div dividend 0 = (WIKRT_TYPE_ERROR, 0, 0) /\
  wikrt_int_div 11 3 = (WIKRT_OK, 3, 2) /\
  wikrt_int_div (-11) 3 = (WIKRT_OK, -4, 1) /\
  wikrt_int_div 11 (-3) = (WIKRT_OK, -4, -1) /\
  wikrt_int_div (-11) (-3) = (WIKRT_OK, 3, -2).
Proof.
  split; [|repeat split].
  intros Hd. unfold wikrt_int_div.
  destruct (Z.eqb_spec divisor 0) as [C|_]; [contradiction|].
  exists (dividend / divisor), (dividend mod divisor).
  split; [reflexivity|]. split; [apply Z.div_mod; exact Hd|].
  split; [intros Hp; apply Z.mod_pos_bound; exact Hp|].
  split; [intros Hn; apply Z.mod_neg_bound; exact Hn|].
  destruct (Z.eq_dec (dividend mod divisor) 0) as [E|E]; [left; exact E|right].
  destruct (Z.lt_trichotomy divisor 0) as [L|[L|L]]; [|contradiction|].
  - pose proof (Z.mod_neg_bound dividend divisor L). rewrite !Z.sgn_neg by lia. reflexivity.
  - pose proof (Z.mod_pos_bound dividend divisor L). rewrite !Z.sgn_pos by lia. reflexivity.
Qed.

Lemma C2_witness :
  exists q r, wikrt_int_div (-11) 3 = (WIKRT_OK, q, r) /\ -11 = 3 * q + r /\ 0 <= r < 3.
Proof.
  destruct (C2_int_div_floor (-11) 3) as (H & _).
  destruct (H ltac:(lia)) as (q & r & E & D & P & _).
  exists q, r. split; [exact E|]. split; [exact D|]. apply P. lia.
Defined.

(** ** Text introduction *)

Lemma utf8_step_shorter s len s' len' cp :
  utf8_step s len = (true, s', len', cp) -> (length s' < length s)%nat.
Proof.
  unfold utf8_step. destruct (len <=? 0); [discriminate|].
  destruct s as [|b0 r]; [discriminate|].
  repeat match goal with
         | |- context [if ?b then _ else _] => destruct b
         | |- context [match ?l with [] => _ | _ :: _ => _ end] => destruct l
         end;
    intros H; inversion H; subst; cbn [length]; lia.
Qed.

(** A lead byte whose sequence does not fit in the bytes allowed is read
    as the replacement character. *)
Lemma utf8_step_partial b0 r len :
  0 < len ->
  (192 <= b0 < 224 /\ len < 2) \/ (224 <= b0 < 240 /\ len < 3)
  \/ (240 <= b0 < 248 /\ len < 4) ->
  utf8_step (b0 :: r) len = (true, r, len - 1, 65533).
Proof.
  intros Hl H. unfold utf8_step.
  destruct (Z.leb_spec len 0); [lia|].
  destruct (Z.ltb_spec b0 128); [lia|].
  destruct (Z.leb_spec 192 b0), (Z.ltb_spec b0 224), (Z.leb_spec 224 b0),
    (Z.ltb_spec b0 240), (Z.leb_spec 240 b0), (Z.ltb_spec b0 248);
    cbn [andb]; try lia;
    destruct (Z.leb_spec 2 len), (Z.leb_spec 3 len), (Z.leb_spec 4 len);
    try lia; cbn [andb];
    repeat match goal with
           | |- context [match ?l with [] => _ | _ :: _ => _ end] => destruct l
           end; reflexivity.
Qed.

Lemma text_char_spec c :
  wikrt_text_char c = false <->
  (isControlChar c = true /\ c <> 10) \/ isReplacementChar c = true.
Proof.
  unfold wikrt_text_char.
  rewrite negb_false_iff, orb_true_iff, andb_true_iff, negb_true_iff, Z.eqb_neq.
  reflexivity.
Qed.

Section TextProps.
Context {FL : wikrt_flist}.

(** The loop always returns: every iteration consumes a byte. *)
Lemma alloc_text_loop_returns fuel : forall cx txt tl s len,
  (length s < fuel)%nat ->
  exists st v cx', alloc_text_loop fuel cx txt tl s len = Ret (st, v, cx').
Proof.
  induction fuel as [|f IH]; intros cx txt tl s len Hf; [lia|].
  cbn [alloc_text_loop].
  destruct (ptr_write cx txt tl WIKRT_UNIT_INR) as [t1 c1] eqn:Ew.
  destruct (len =? 0); [eauto|].
  destruct (utf8_step s len) as [[[ok s'] len'] cp] eqn:Es.
  destruct ok; cbn [negb]; [|eauto].
  destruct (wikrt_text_char cp); cbn [negb]; [|eauto].
  destruct (wikrt_alloc_cellval cx txt tl WIKRT_PL (wikrt_i2v (i32 cp)) WIKRT_VOID)
    as [[b t2] cx2]. destruct b; [|eauto].
  apply IH. apply utf8_step_shorter in Es. lia.
Qed.

(** A refused codepoint anywhere in the input: the loop never succeeds,
    it returns INVAL, or CXFULL if memory runs out on the way. *)
Lemma alloc_text_loop_forbidden fuel : forall cx txt tl s len,
  (length s < fuel)%nat ->
  existsb (fun c => negb (wikrt_text_char c)) (text_codepoints fuel s len) = true ->
  exists st v cx',
    alloc_text_loop fuel cx txt tl s len = Ret (st, v, cx') /\
    (st = WIKRT_INVAL \/ st = WIKRT_CXFULL).
Proof.
  induction fuel as [|f IH]; intros cx txt tl s len Hf; [lia|].
  cbn [alloc_text_loop text_codepoints].
  destruct (len =? 0); [discriminate|].
  destruct (utf8_step s len) as [[[ok s'] len'] cp] eqn:Es.
  destruct ok; cbn [negb]; [|discriminate].
  cbn [existsb]. destruct (wikrt_text_char cp); cbn [negb orb].
  - intros Hex.
    destruct (wikrt_alloc_cellval cx txt tl WIKRT_PL (wikrt_i2v (i32 cp)) WIKRT_VOID)
      as [[b t2] cx2]. destruct b; [|eauto 6].
    apply IH; [|exact Hex]. apply utf8_step_shorter in Es. lia.
  - intros _. eauto 6.
Qed.

(** C6.  [_wikrt_alloc_text] always returns.  If a codepoint read from the
    input is refused by the text-character test (a control character other
    than LF, or the replacement character, which is also what a sequence cut
    by the size limit is read as) it never succeeds: it returns INVAL, or
    CXFULL when memory runs out before the codepoint is reached; if the
    first codepoint is refused it returns INVAL with nothing allocated.  A
    zero length gives the empty list [WIKRT_UNIT_INR] with the context
    untouched. *)
Theorem C6_intro_text_errors cx txt s len :
  let cps := text_codepoints (S (length s)) s len in
  (exists st v cx', _wikrt_alloc_text cx txt s len = Ret (st, v, cx')) /\
  ((exists c, In c cps /\ wikrt_text_char c = false) ->
   exists st v cx',
     _wikrt_alloc_text cx txt s len = Ret (st, v, cx') /\
     (st = WIKRT_INVAL \/ st = WIKRT_CXFULL)) /\
  ((exists c r, cps = c :: r /\ wikrt_text_char c = false) ->
   _wikrt_alloc_text cx txt s len = Ret (WIKRT_INVAL, WIKRT_VOID, cx)) /\
  (forall b0 r, s = b0 :: r -> 0 < len ->
     (192 <= b0 < 224 /\ len < 2) \/ (224 <= b0 < 240 /\ len < 3)
     \/ (240 <= b0 < 248 /\ len < 4) ->
     _wikrt_alloc_text cx txt s len = Ret (WIKRT_INVAL, WIKRT_VOID, cx)) /\
  (len = 0 -> _wikrt_alloc_text cx txt s len = Ret (WIKRT_OK, WIKRT_UNIT_INR, cx)).
Proof.
  cbv zeta. split; [|split; [|split; [|split]]].
  - apply alloc_text_loop_returns. lia.
  - intros (c & Hin & Hc). apply alloc_text_loop_forbidden; [lia|].
    apply existsb_exists. exists c. split; [exact Hin|]. rewrite Hc. reflexivity.
  - intros (c & r & E & Hc). revert E. unfold _wikrt_alloc_text.
    cbn [alloc_text_loop text_codepoints].
    destruct (len =? 0); [discriminate|].
    destruct (utf8_step s len) as [[[ok s'] len'] cp].
    destruct ok; [|discriminate]. intros E. injection E as -> _.
    cbn [negb]. rewrite Hc. reflexivity.
  - intros b0 r -> Hl Hp. unfold _wikrt_alloc_text.
    cbn [alloc_text_loop length].
    destruct (Z.eqb_spec len 0); [lia|].
    rewrite (utf8_step_partial b0 r len Hl Hp). reflexivity.
  - intros ->. reflexivity.
Qed.

End TextProps.

(** The right arrow U+2192 (bytes E2 86 92) cut to one byte, a bell after a
    letter, and a zero length, on [cx0]. *)
Lemma C6_witness :
  _wikrt_alloc_text cx0 WIKRT_UNIT [226; 134; 146] 1 = Ret (WIKRT_INVAL, WIKRT_VOID, cx0) /\
  (exists v cx',
      _wikrt_alloc_text cx0 WIKRT_UNIT [97; 7] 2 = Ret (WIKRT_INVAL, v, cx')) /\
  _wikrt_alloc_text cx0 WIKRT_UNIT [97; 7] 0 = Ret (WIKRT_OK, WIKRT_UNIT_INR, cx0).
Proof.
  destruct (C6_intro_text_errors cx0 WIKRT_UNIT [226; 134; 146] 1)
    as (_ & _ & _ & Hp & _).
  destruct (C6_intro_text_errors cx0 WIKRT_UNIT [97; 7] 2) as (_ & Hf & _).
  destruct (C6_intro_text_errors cx0 WIKRT_UNIT [97; 7] 0) as (_ & _ & _ & _ & Hz).
  split; [apply (Hp 226 [134; 146] eq_refl); lia|]. split; [|exact (Hz eq_refl)].
  destruct Hf as (st & v & cx' & E & Hst).
  { exists 7. split; [vm_compute; right; left; reflexivity|reflexivity]. }
  exists v, cx'. rewrite E.
  assert (st <> WIKRT_CXFULL) as N.
  { intros ->. apply (f_equal (fun r => match r with
                                         | Ret (st, _, _) => st
                                         | _ => WIKRT_OK
                                         end)) in E.
    vm_compute in E. discriminate E. }
  destruct Hst as [->| ->]; [reflexivity|contradiction].
Defined.

(** ** Copy and drop against the substructural flags *)

Section CopyDropProps.
Context {FL : wikrt_flist}.

(** [v] refers to a block object, and to a quoted value whose lazy-check
    bit is clear. *)
Definition is_block (cx : wikrt_cx) (v : wikrt_val) : Prop :=
  wikrt_copy_shallow v = false /\ wikrt_vtag v = WIKRT_O /\
  LOBYTE (pval_get cx (wikrt_vaddr v) 0) = WIKRT_OTAG_BLOCK.





Lemma drop_block_step fuel b cx v ldrop :
  is_block cx v ->
  wikrt_block_rel (pval_get cx (wikrt_vaddr v) 0) = false \/ b = true ->
  drop_loop (S fuel) b cx v ldrop =
  drop_loop fuel b (wikrt_free cx WIKRT_CELLSIZE (wikrt_vaddr v))
            (pval_get cx (wikrt_vaddr v) 1) ldrop.
Proof.
  intros (Hs & Ht & Hb) Hf. cbn [drop_loop]. cbv zeta.
  rewrite Hs, Ht, Hb.
  change (negb (WIKRT_O =? WIKRT_O)) with false.
  change ((WIKRT_OTAG_BLOCK =? WIKRT_OTAG_SEAL_SM)
          || (WIKRT_OTAG_BLOCK =? WIKRT_OTAG_DEEPSUM)) with false.
  change (WIKRT_OTAG_BLOCK =? WIKRT_OTAG_BLOCK) with true. cbv iota.
  assert (negb (negb (wikrt_block_rel (pval_get cx (wikrt_vaddr v) 0)) || b)
          = false) as E.
  { destruct Hf as [->| ->]; [reflexivity|]. rewrite orb_true_r. reflexivity. }
  rewrite E. reflexivity.
Qed.



End CopyDropProps.

Section CopyDropTop.
Context {FL : wikrt_flist}.

Lemma copy_step_next_done (cx : wikrt_cx) :
  wikrt_copy_step_next cx WIKRT_UNIT_INR = Ret (cx, WIKRT_UNIT_INR, PtrNull).
Proof. reflexivity. Qed.

Lemma drop_step_next_done (cx : wikrt_cx) :
  wikrt_drop_step_next cx WIKRT_UNIT_INR = Ret (cx, WIKRT_UNIT_INR, WIKRT_VOID).
Proof. reflexivity. Qed.


(** Dropping such a block frees its cell and ends. *)
Lemma drop_block_shallow_ops fuel b cx v :
  is_block cx v ->
  wikrt_block_rel (pval_get cx (wikrt_vaddr v) 0) = false \/ b = true ->
  wikrt_copy_shallow (pval_get cx (wikrt_vaddr v) 1) = true ->
  _wikrt_drop (S (S fuel)) cx v b =
  Ret (WIKRT_OK, wikrt_free cx WIKRT_CELLSIZE (wikrt_vaddr v)).
Proof.
  intros Hb Hf Hsh. unfold _wikrt_drop.
  rewrite drop_block_step by assumption.
  cbn [drop_loop]. cbv zeta. rewrite Hsh. reflexivity.
Qed.



End CopyDropTop.

(** *** What a value contains, along the walk of copy and drop *)






(** A block cell at 131080 with header [hdr] and an empty opcode list, and
    a quoted value at 131072, lazy-check bit clear, around a block that is
    both affine and relevant. *)
Definition cx_blk (hdr : Z) : wikrt_cx (FL := list_flist) :=
  pval_set (pval_set cx0 131080 0 hdr) 131080 1 WIKRT_UNIT_INR.
Definition v_blk : wikrt_val := wikrt_tag_addr WIKRT_O 131080.




Section CopyDropClaim.
Context {FL : wikrt_flist}.


End CopyDropClaim.



(** * Further functions of the runtime *)

(** ** Products and type inspection (wikrt.c) *)

(** The enumeration [wikrt_vtype] written by [_wikrt_peek_type]. *)
Inductive wikrt_vtype : Set :=
| WIKRT_VTYPE_UNIT
| WIKRT_VTYPE_PRODUCT
| WIKRT_VTYPE_INTEGER
| WIKRT_VTYPE_SUM
| WIKRT_VTYPE_BLOCK
| WIKRT_VTYPE_SEALED
| WIKRT_VTYPE_STOWED
| WIKRT_VTYPE_PENDING.

Section ProdType.
Context {FL : wikrt_flist}.

(** [p] is the caller's variable before the call. *)
Definition _wikrt_alloc_prod (cx : wikrt_cx) (p : wikrt_val) (fst snd : wikrt_val)
  : wikrt_err * wikrt_val * wikrt_cx :=
  match wikrt_alloc_cellval cx p PtrOut WIKRT_P fst snd with
  | (false, _, cx1) => (WIKRT_CXFULL, WIKRT_VOID, cx1)
  | (true, p1, cx1) => (WIKRT_OK, p1, cx1)
  end.

(** Result: status, [*fst], [*snd], context. *)
Definition _wikrt_split_prod (cx : wikrt_cx) (p : wikrt_val)
  : wikrt_err * wikrt_val * wikrt_val * wikrt_cx :=
  let ptag := wikrt_vtag p in
  let paddr := wikrt_vaddr p in
  if (WIKRT_P =? ptag) && negb (0 =? paddr) then
    (WIKRT_OK, pval_get cx paddr 0, pval_get cx paddr 1,
     wikrt_free cx WIKRT_CELLSIZE paddr)
  else (WIKRT_TYPE_ERROR, WIKRT_VOID, WIKRT_VOID, cx).

(** [out] is the caller's variable before the call: an unrecognised object
    tag returns without storing. *)
Definition _wikrt_peek_type (cx : wikrt_cx) (out : wikrt_vtype) (v : wikrt_val)
  : wikrt_err * wikrt_vtype :=
  if wikrt_i v then (WIKRT_OK, WIKRT_VTYPE_INTEGER)
  else
    let vtag := wikrt_vtag v in
    let vaddr := wikrt_vaddr v in
    if WIKRT_P =? vtag then
      if 0 =? vaddr then (WIKRT_OK, WIKRT_VTYPE_UNIT)
      else (WIKRT_OK, WIKRT_VTYPE_PRODUCT)
    else if (WIKRT_PL =? vtag) || (WIKRT_PR =? vtag) then (WIKRT_OK, WIKRT_VTYPE_SUM)
    else if (WIKRT_O =? vtag) && negb (0 =? vaddr) then
      let otag := LOBYTE (pval_get cx vaddr 0) in
      if otag =? WIKRT_OTAG_BIGINT then (WIKRT_OK, WIKRT_VTYPE_INTEGER)
      else if (otag =? WIKRT_OTAG_ARRAY) || (otag =? WIKRT_OTAG_BINARY)
              || (otag =? WIKRT_OTAG_TEXT) || (otag =? WIKRT_OTAG_DEEPSUM)
      then (WIKRT_OK, WIKRT_VTYPE_SUM)
      else if otag =? WIKRT_OTAG_BLOCK then (WIKRT_OK, WIKRT_VTYPE_BLOCK)
      else if (otag =? WIKRT_OTAG_SEAL_SM) || (otag =? WIKRT_OTAG_SEAL)
      then (WIKRT_OK, WIKRT_VTYPE_SEALED)
      else if otag =? WIKRT_OTAG_STOWAGE then (WIKRT_OK, WIKRT_VTYPE_STOWED)
      else (WIKRT_INVAL, out)
    else (WIKRT_INVAL, WIKRT_VTYPE_PENDING).

(** [_wikrt_alloc_block] and [_wikrt_stow] as they stand. *)
Definition _wikrt_alloc_block (cx : wikrt_cx) (v : wikrt_val) (abc : list Z) (len : Z)
  : wikrt_err * wikrt_val * wikrt_cx :=
  (WIKRT_IMPL, WIKRT_VOID, cx).

Definition _wikrt_stow (cx : wikrt_cx) (out : wikrt_val) : wikrt_err * wikrt_val * wikrt_cx :=
  (WIKRT_OK, out, cx).

Lemma cell_made_word cx tag v0 v1 out' cx' a :
  ptr_tag tag -> cell_made cx tag v0 v1 out' cx' a ->
  0 <= out' < 2^32 /\ wikrt_i out' = false /\
  wikrt_vtag out' = tag /\ wikrt_vaddr out' = a /\ a <> 0.
Proof.
  intros Ht (Ha & -> & _). split; [apply tag_addr_range; assumption|].
  split; [apply wikrt_i_tag_addr; assumption|].
  split; [apply vtag_tag_addr; assumption|].
  split; [apply vaddr_tag_addr; assumption|].
  destruct Ha as (? & _). lia.
Qed.

(** A pair made by [_wikrt_alloc_prod] is taken apart by [_wikrt_split_prod]
    into the same two words.  Building counts one cell as allocated, or
    gives CXFULL and void with the counters as they were; taking apart
    counts the cell as freed.  Every byte that was in use before the pair
    was built is as it was, after either call, and no byte is free
    afterwards that was not free before.  Unit, integers and every word
    not tagged as a pair are a type error for [_wikrt_split_prod], which
    then stores void twice and leaves the context alone. *)
Theorem prod_round_trip cx p a b st p' cx1 :
  cx_wf cx -> 0 <= a < 2^32 -> 0 <= b < 2^32 ->
  _wikrt_alloc_prod cx p a b = (st, p', cx1) ->
  (cx_wf cx1 /\
   (forall x, ~ cx_free cx x -> load8 (memory cx1) x = load8 (memory cx) x) /\
   (forall x, cx_free cx1 x -> cx_free cx x) /\
   ct_bytes_freed cx1 = ct_bytes_freed cx /\
   ((st = WIKRT_CXFULL /\ p' = WIKRT_VOID /\
     ct_bytes_alloc cx1 = ct_bytes_alloc cx) \/
    (st = WIKRT_OK /\
     ct_bytes_alloc cx1 = u64 (ct_bytes_alloc cx + WIKRT_CELLSIZE) /\
     exists cx2,
       _wikrt_split_prod cx1 p' = (WIKRT_OK, a, b, cx2) /\
       cx_wf cx2 /\
       (forall x, ~ cx_free cx x -> load8 (memory cx2) x = load8 (memory cx) x) /\
       (forall x, cx_free cx2 x -> cx_free cx x) /\
       ct_bytes_alloc cx2 = ct_bytes_alloc cx1 /\
       ct_bytes_freed cx2 = u64 (ct_bytes_freed cx + WIKRT_CELLSIZE)))) /\
  (forall q, wikrt_vtag q <> WIKRT_P \/ wikrt_vaddr q = 0 ->
             _wikrt_split_prod cx q = (WIKRT_TYPE_ERROR, WIKRT_VOID, WIKRT_VOID, cx)).
Proof.
  intros Hwf Ha Hb E. split.
  - unfold _wikrt_alloc_prod in E.
    destruct (wikrt_alloc_cellval cx p PtrOut WIKRT_P a b) as [[ok p1] c1] eqn:EA.
    assert (ptr_tag WIKRT_P) as HP by (right; left; reflexivity).
    assert (0 < WIKRT_CELLSIZE < 2^30) as S8 by (unfold WIKRT_CELLSIZE; lia).
    destruct (alloc_cellval_spec _ _ _ _ _ _ _ _ Hwf EA)
      as [(-> & _ & W1 & (M1 & F1) & A1)|(-> & x & Hm)];
      apply triple_inj in E; destruct E as (<- & <- & <-).
    + assert (forall y, cx_free c1 y -> cx_free cx y) as Fr1.
      { unfold wikrt_alloc_cellval in EA.
        destruct (wikrt_alloc cx WIKRT_CELLSIZE) as [[a0|] c0] eqn:E0.
        - cbn [ptr_write] in EA. discriminate EA.
        - apply triple_inj in EA. destruct EA as (_ & _ & <-).
          exact (proj2 (proj2 (proj2 (wikrt_alloc_none _ _ _ Hwf S8 E0)))). }
      split; [exact W1|]. split; [intros y _; rewrite M1; reflexivity|].
      split; [exact Fr1|]. split; [exact F1|]. left. auto.
    + destruct (cell_made_word _ _ _ _ _ _ _ HP Hm) as (_ & _ & Ht & Hx & Hn).
      destruct Hm as (Hv & _ & W1 & A1 & F1 & H0 & H1 & Hin & Fr1 & Fm1).
      assert (forall y, ~ cx_free cx y -> load8 (memory c1) y = load8 (memory cx) y)
        as K1.
      { intros y Hy. apply Fm1. intros C. exact (Hy (proj1 (Hin y C))). }
      split; [exact W1|]. split; [exact K1|]. split; [exact Fr1|].
      split; [exact F1|]. right.
      split; [reflexivity|]. split; [exact A1|].
      exists (wikrt_free c1 WIKRT_CELLSIZE x).
      destruct (wikrt_free_cell c1 x W1 Hv (fun y Hy => proj2 (Hin y Hy)))
        as (W & M & A & F & Fr).
      split.
      * unfold _wikrt_split_prod. rewrite Ht, Hx, H0, H1.
        rewrite !u32_small by assumption.
        change (WIKRT_P =? WIKRT_P) with true.
        destruct (Z.eqb_spec 0 x); [lia|]. reflexivity.
      * split; [exact W|]. split; [intros y Hy; rewrite M; exact (K1 y Hy)|].
        split.
        { intros y C. destruct (Fr y C) as [Y|Y]; [exact (Fr1 y Y)|].
          exact (proj1 (Hin y Y)). }
        split; [exact A|]. rewrite F, F1. reflexivity.
  - intros q Hq. unfold _wikrt_split_prod.
    destruct (Z.eqb_spec WIKRT_P (wikrt_vtag q)) as [Et|_]; [|reflexivity].
    destruct (Z.eqb_spec 0 (wikrt_vaddr q)) as [_|Na]; [reflexivity|].
    destruct Hq as [Hq|Hq]; congruence.
Qed.

End ProdType.

Lemma prod_round_trip_witness :
  exists p' cx1 cx2,
    _wikrt_alloc_prod cx0 WIKRT_VOID (wikrt_i2v 1) (wikrt_i2v 2) = (WIKRT_OK, p', cx1) /\
    _wikrt_split_prod cx1 p' = (WIKRT_OK, wikrt_i2v 1, wikrt_i2v 2, cx2).
Proof.
  destruct (_wikrt_alloc_prod cx0 WIKRT_VOID (wikrt_i2v 1) (wikrt_i2v 2))
    as [[st p'] cx1] eqn:E.
  assert (st = WIKRT_OK) as Hst.
  { apply (f_equal (fun r => fst (fst r))) in E. vm_compute in E. congruence. }
  assert (0 <= wikrt_i2v 1 < 2^32) as H1 by apply i2v_range.
  assert (0 <= wikrt_i2v 2 < 2^32) as H2 by apply i2v_range.
  destruct (prod_round_trip cx0 WIKRT_VOID (wikrt_i2v 1) (wikrt_i2v 2) st p' cx1
              cx0_wf H1 H2 E)
    as ((_ & _ & _ & _ & [(C & _)|(_ & _ & cx2 & S & _)]) & _).
  - rewrite Hst in C. discriminate C.
  - exists p', cx1, cx2. subst st. split; [reflexivity|exact S].
Defined.

Section TypeProps.
Context {FL : wikrt_flist}.

Lemma ptr_tag_not_i v : ptr_tag (wikrt_vtag v) -> wikrt_i v = false.
Proof.
  intros H. apply ptr_tag_range in H. destruct H as (_ & H).
  unfold wikrt_i. rewrite land1_mod. rewrite vtag_mod in H.
  replace (v mod 2) with ((v mod 8) mod 2)
    by (apply Z.mod_mod_divide; exists 4; reflexivity).
  rewrite H. reflexivity.
Qed.

Lemma peek_type_sum_tag cx out v :
  wikrt_vtag v = WIKRT_PL \/ wikrt_vtag v = WIKRT_PR ->
  _wikrt_peek_type cx out v = (WIKRT_OK, WIKRT_VTYPE_SUM).
Proof.
  intros H. unfold _wikrt_peek_type.
  rewrite ptr_tag_not_i by (destruct H as [-> | ->]; vm_compute; tauto).
  destruct H as [-> | ->]; reflexivity.
Qed.

Lemma peek_type_object cx out v :
  wikrt_vtag v = WIKRT_O -> wikrt_vaddr v <> 0 ->
  _wikrt_peek_type cx out v =
  let otag := LOBYTE (pval_get cx (wikrt_vaddr v) 0) in
  if otag =? WIKRT_OTAG_BIGINT then (WIKRT_OK, WIKRT_VTYPE_INTEGER)
  else if (otag =? WIKRT_OTAG_ARRAY) || (otag =? WIKRT_OTAG_BINARY)
          || (otag =? WIKRT_OTAG_TEXT) || (otag =? WIKRT_OTAG_DEEPSUM)
  then (WIKRT_OK, WIKRT_VTYPE_SUM)
  else if otag =? WIKRT_OTAG_BLOCK then (WIKRT_OK, WIKRT_VTYPE_BLOCK)
  else if (otag =? WIKRT_OTAG_SEAL_SM) || (otag =? WIKRT_OTAG_SEAL)
  then (WIKRT_OK, WIKRT_VTYPE_SEALED)
  else if otag =? WIKRT_OTAG_STOWAGE then (WIKRT_OK, WIKRT_VTYPE_STOWED)
  else (WIKRT_INVAL, out).
Proof.
  intros Ht Ha. unfold _wikrt_peek_type.
  rewrite ptr_tag_not_i by (rewrite Ht; left; reflexivity).
  rewrite Ht. change (WIKRT_P =? WIKRT_O) with false.
  change ((WIKRT_PL =? WIKRT_O) || (WIKRT_PR =? WIKRT_O)) with false.
  change (WIKRT_O =? WIKRT_O) with true.
  destruct (Z.eqb_spec 0 (wikrt_vaddr v)); [congruence|]. reflexivity.
Qed.

Lemma lobyte_lor_low a t :
  0 <= a -> a mod 256 = 0 -> 0 <= t < 256 -> LOBYTE (u32 (Z.lor a t)) = t.
Proof.
  intros Ha Hm Ht. rewrite (lor_add_low 8 a t) by (try assumption; lia).
  rewrite LOBYTE_mod. unfold u32.
  rewrite Z.mod_mod_divide by (exists (2^24); reflexivity).
  rewrite Z.add_mod, Hm by lia. rewrite Z.add_0_l, Z.mod_mod, Z.mod_small; lia.
Qed.

(** Every integer made by [_wikrt_alloc_i32] or [_wikrt_alloc_i64], small
    or big, is reported as an integer by [_wikrt_peek_type]. *)
Theorem peek_type_integer cx v n st v' cx' out :
  cx_wf cx -> INT64_MIN <= n <= INT64_MAX ->
  _wikrt_alloc_i64 cx v n = (st, v', cx') \/
  (INT32_MIN <= n <= INT32_MAX /\ _wikrt_alloc_i32 cx v n = (st, v', cx')) ->
  st = WIKRT_OK ->
  _wikrt_peek_type cx' out v' = (WIKRT_OK, WIKRT_VTYPE_INTEGER).
Proof.
  intros Hwf Hn E Hst.
  assert (int_made cx n v' cx') as M.
  { destruct E as [E|(Hn' & E)].
    - destruct (alloc_i64_spec _ _ _ _ _ _ Hwf Hn E) as [(C & _)|(_ & M)];
        [congruence|exact M].
    - destruct (alloc_i32_spec _ _ _ _ _ _ Hwf Hn' E) as [(C & _)|(_ & M)];
        [congruence|exact M]. }
  destruct M as [(Hs & -> & _)|(_ & _ & _ & _ & _ & _ & Hb & _)].
  - apply smallint_range in Hs. unfold _wikrt_peek_type.
    rewrite wikrt_i_i2v by lia. reflexivity.
  - unfold is_bigint in Hb. rewrite !andb_true_iff in Hb.
    destruct Hb as (((_ & Ht) & Ha) & Ho).
    apply Z.eqb_eq in Ht. apply negb_true_iff in Ha. apply Z.eqb_neq in Ha.
    rewrite peek_type_object by auto. cbv zeta.
    unfold wikrt_otag_bigint in Ho. apply Z.eqb_eq in Ho. rewrite <- Ho.
    reflexivity.
Qed.

(** A pair made by [_wikrt_alloc_prod] is reported as a product, and the
    unit value as unit. *)
Theorem peek_type_product cx p a b st p' cx' out :
  cx_wf cx -> _wikrt_alloc_prod cx p a b = (st, p', cx') -> st = WIKRT_OK ->
  _wikrt_peek_type cx' out p' = (WIKRT_OK, WIKRT_VTYPE_PRODUCT) /\
  _wikrt_peek_type cx' out WIKRT_UNIT = (WIKRT_OK, WIKRT_VTYPE_UNIT).
Proof.
  intros Hwf E Hst. split; [|reflexivity].
  unfold _wikrt_alloc_prod in E.
  destruct (wikrt_alloc_cellval cx p PtrOut WIKRT_P a b) as [[ok p1] c1] eqn:EA.
  destruct (alloc_cellval_spec _ _ _ _ _ _ _ _ Hwf EA)
    as [(-> & _)|(-> & x & Hm)];
    apply triple_inj in E; destruct E as (<- & <- & <-); [discriminate|].
  assert (ptr_tag WIKRT_P) as HP by (right; left; reflexivity).
  destruct (cell_made_word _ _ _ _ _ _ _ HP Hm) as (_ & Hi & Ht & Hx & Hn).
  unfold _wikrt_peek_type. rewrite Hi, Ht, Hx.
  change (WIKRT_P =? WIKRT_P) with true.
  destruct (Z.eqb_spec 0 x); [lia|reflexivity].
Qed.

(** Whatever word other than void is wrapped by [_wikrt_alloc_sum], in
    either direction, the result is reported as a sum. *)
Theorem peek_type_sum cx c r v st c' cx' out :
  cx_wf cx -> 0 <= v < 2^32 -> v <> WIKRT_VOID ->
  _wikrt_alloc_sum cx c r v = (st, c', cx') -> st = WIKRT_OK ->
  _wikrt_peek_type cx' out c' = (WIKRT_OK, WIKRT_VTYPE_SUM).
Proof.
  intros Hwf Hv Hnv E Hst. unfold _wikrt_alloc_sum in E.
  pose proof (vaddr_aligned v Hv) as Hal.
  destruct (Z.eqb_spec WIKRT_P (wikrt_vtag v)) as [HP|HP].
  - apply triple_inj in E. destruct E as (_ & <- & _).
    apply peek_type_sum_tag.
    destruct r; [right|left]; apply vtag_tag_addr_al; auto;
      vm_compute; tauto.
  - destruct ((WIKRT_O =? wikrt_vtag v)
              && wikrt_otag_deepsum (pval_get cx (wikrt_vaddr v) 0)
              && (pval_get cx (wikrt_vaddr v) 0 <? Z.shiftl 1 30)) eqn:EI.
    + rewrite !andb_true_iff in EI. destruct EI as ((HO & Hd) & Hlt).
      apply Z.eqb_eq in HO. symmetry in HO.
      apply triple_inj in E. destruct E as (_ & <- & <-).
      assert (wikrt_vaddr v <> 0) as Hna.
      { intros C. apply Hnv. rewrite <- (tag_addr_vaddr v Hv), HO, C. reflexivity. }
      rewrite peek_type_object by assumption. cbv zeta.
      rewrite pval_get_set_same, u32_small by apply u32_range.
      rewrite lobyte_lor_low; [reflexivity| | |vm_compute; split; congruence].
      * apply u32_range.
      * unfold u32. rewrite Z.shiftl_mul_pow2 by lia.
        rewrite Z.mod_mod_divide by (exists (2^24); reflexivity).
        change (2^8) with 256. apply Z.mod_mul. lia.
    + match type of E with
      | context [wikrt_alloc_cellval cx c PtrOut WIKRT_O ?t v] =>
          destruct (wikrt_alloc_cellval cx c PtrOut WIKRT_O t v)
            as [[ok c1] cx1] eqn:EA;
          destruct (alloc_cellval_spec _ _ _ _ _ _ _ _ Hwf EA)
            as [(-> & _)|(-> & x & Hm)]
      end;
        apply triple_inj in E; destruct E as (<- & <- & <-); [discriminate|].
      assert (ptr_tag WIKRT_O) as PO by (left; reflexivity).
      destruct (cell_made_word _ _ _ _ _ _ _ PO Hm) as (_ & _ & Ht & Hx & Hn).
      rewrite peek_type_object by (rewrite ?Hx; assumption). cbv zeta.
      destruct Hm as (_ & _ & _ & _ & _ & H0 & _). rewrite Hx, H0.
      rewrite u32_small by apply u32_range.
      rewrite lobyte_lor_low; [reflexivity| | |vm_compute; split; congruence].
      * apply u32_range.
      * unfold u32. rewrite Z.shiftl_mul_pow2 by lia.
        rewrite Z.mod_mod_divide by (exists (2^24); reflexivity).
        change (2^8) with 256. apply Z.mod_mul. lia.
Qed.

End TypeProps.

Section TypeSeal.
Context {FL : wikrt_flist}.

Lemma lor_low_zero a b :
  0 <= a -> 0 <= b -> a mod 256 = 0 -> b mod 256 = 0 ->
  0 <= Z.lor a b /\ Z.lor a b mod 256 = 0.
Proof.
  intros Ha Hb Ma Mb. split; [apply Z.lor_nonneg; auto|].
  change 256 with (2^8) in *. rewrite <- Z.land_ones in * by lia.
  rewrite Z.land_lor_distr_l, Ma, Mb. reflexivity.
Qed.

Lemma seal_TAG_low s len N :
  1 <= N -> 0 <= seal_TAG s len N /\ seal_TAG s len N mod 256 = 0.
Proof.
  intros HN. unfold seal_TAG. destruct (N <? len); [|split; [lia|reflexivity]].
  split; [apply u32_range|]. unfold u32 at 1.
  rewrite Z.mod_mod_divide by (exists (2^24); reflexivity).
  rewrite Z.shiftl_mul_pow2 by lia.
  replace (8 * N) with (8 + 8 * (N - 1)) by lia.
  rewrite Z.pow_add_r by lia. rewrite Z.mul_assoc, (Z.mul_comm _ (2^8)).
  rewrite <- Z.mul_assoc, Z.mul_comm. apply Z.mod_mul. lia.
Qed.

(** A value sealed by [_wikrt_alloc_seal], with a small or a large token,
    is reported as sealed. *)
Theorem peek_type_sealed cx sv s len v st sv' cx' out :
  cx_wf cx -> 1 <= len <= 63 ->
  _wikrt_alloc_seal cx sv s len v = (st, sv', cx') -> st = WIKRT_OK ->
  _wikrt_peek_type cx' out sv' = (WIKRT_OK, WIKRT_VTYPE_SEALED).
Proof.
  intros Hwf Hl E Hst. unfold _wikrt_alloc_seal in E.
  destruct (Z.ltb_spec 0 len); [|lia]. destruct (Z.ltb_spec len 64); [|lia].
  cbn [andb negb] in E.
  assert (ptr_tag WIKRT_O) as PO by (left; reflexivity).
  destruct ((58 =? str_at s 0) && (len <=? 4)).
  - match type of E with
    | context [wikrt_alloc_cellval cx sv PtrOut WIKRT_O ?t v] =>
        set (T := t) in E;
        destruct (wikrt_alloc_cellval cx sv PtrOut WIKRT_O T v)
          as [[ok c1] cx1] eqn:EA;
        destruct (alloc_cellval_spec _ _ _ _ _ _ _ _ Hwf EA)
          as [(-> & _)|(-> & x & Hm)]
    end;
      apply triple_inj in E; destruct E as (<- & <- & <-); [discriminate|].
    destruct (cell_made_word _ _ _ _ _ _ _ PO Hm) as (_ & _ & Ht & Hx & Hn).
    rewrite peek_type_object by (rewrite ?Hx; assumption). cbv zeta.
    destruct Hm as (_ & _ & _ & _ & _ & Hw0 & _). rewrite Hx, Hw0.
    destruct (seal_TAG_low s len 1) as (P1 & M1); [lia|].
    destruct (seal_TAG_low s len 2) as (P2 & M2); [lia|].
    destruct (seal_TAG_low s len 3) as (P3 & M3); [lia|].
    destruct (lor_low_zero _ _ P3 P2 M3 M2) as (P32 & M32).
    destruct (lor_low_zero _ _ P32 P1 M32 M1) as (P321 & M321).
    subst T. rewrite lobyte_lor_low; [reflexivity|assumption|assumption|].
    vm_compute; split; congruence.
  - assert (u32 (WIKRT_CELLSIZE + u32 len) = 8 + len) as Esz.
    { unfold WIKRT_CELLSIZE. rewrite (u32_small len) by lia. apply u32_small. lia. }
    rewrite Esz in E.
    destruct (wikrt_alloc cx (8 + len)) as [[dst|] cx1] eqn:EA;
      apply triple_inj in E; destruct E as (<- & <- & <-); [|discriminate].
    destruct (wikrt_alloc_some cx (8 + len) dst cx1 Hwf ltac:(lia) EA)
      as (_ & _ & _ & Hp & Hm & Hb & _).
    rewrite cellbuff_spec in Hb by lia.
    assert (16 <= 8 * ((8 + len + 7) / 8)) as Hsz.
    { assert (2 <= (8 + len + 7) / 8) by (apply Z.div_le_lower_bound; lia). lia. }
    assert (valid_addr dst) as Hv by (split; [lia|split; [assumption|lia]]).
    assert (wikrt_vtag (wikrt_tag_addr WIKRT_O dst) = WIKRT_O) as Ht
        by (apply vtag_tag_addr; assumption).
    assert (wikrt_vaddr (wikrt_tag_addr WIKRT_O dst) = dst) as Hx
        by (apply vaddr_tag_addr; assumption).
    rewrite peek_type_object; [|exact Ht|rewrite Hx; lia].
    cbv zeta. rewrite Hx.
    match goal with
    | |- context [pval_get (set_memory ?c ?m) dst 0] =>
        rewrite (pval_get_ext c (set_memory c m) dst 0)
    end.
    + rewrite pval_get_set_other by lia. rewrite pval_get_set_same.
      rewrite u32_small by apply u32_range.
      rewrite lobyte_lor_low; [reflexivity| | |vm_compute; split; congruence].
      * apply Z.shiftl_nonneg. lia.
      * rewrite Z.shiftl_mul_pow2 by lia. change (2^8) with 256.
        apply Z.mod_mul. lia.
    + intros y Hy. unfold set_memory; cbn [memory].
      apply load8_memcpy_bytes_other. lia.
Qed.

End TypeSeal.

Lemma peek_type_integer_witness :
  _wikrt_peek_type cx_2p31 WIKRT_VTYPE_PENDING v_2p31 = (WIKRT_OK, WIKRT_VTYPE_INTEGER).
Proof.
  destruct (_wikrt_alloc_i64 cx0 WIKRT_VOID 2147483648) as [[st v'] cx'] eqn:E.
  assert (st = WIKRT_OK) as Hst.
  { apply (f_equal (fun r => fst (fst r))) in E. vm_compute in E. congruence. }
  assert (INT64_MIN <= 2147483648 <= INT64_MAX) as Hn
      by (vm_compute; split; discriminate).
  assert (cx' = cx_2p31) as <-.
  { unfold cx_2p31. rewrite E. reflexivity. }
  assert (v' = v_2p31) as <-.
  { unfold v_2p31. rewrite E. reflexivity. }
  exact (peek_type_integer cx0 WIKRT_VOID 2147483648 st v' cx' WIKRT_VTYPE_PENDING
           cx0_wf Hn (or_introl E) Hst).
Defined.

Lemma peek_type_product_witness :
  exists p' cx',
    _wikrt_alloc_prod cx0 WIKRT_VOID WIKRT_UNIT WIKRT_UNIT = (WIKRT_OK, p', cx') /\
    _wikrt_peek_type cx' WIKRT_VTYPE_PENDING p' = (WIKRT_OK, WIKRT_VTYPE_PRODUCT).
Proof.
  destruct (_wikrt_alloc_prod cx0 WIKRT_VOID WIKRT_UNIT WIKRT_UNIT)
    as [[st p'] cx'] eqn:E.
  assert (st = WIKRT_OK) as Hst.
  { apply (f_equal (fun r => fst (fst r))) in E. vm_compute in E. congruence. }
  exists p', cx'. subst st. split; [reflexivity|].
  exact (proj1 (peek_type_product cx0 WIKRT_VOID WIKRT_UNIT WIKRT_UNIT WIKRT_OK p' cx'
                  WIKRT_VTYPE_PENDING cx0_wf E eq_refl)).
Defined.

Lemma peek_type_sum_witness :
  exists c' cx',
    _wikrt_alloc_sum cx0 WIKRT_VOID true (wikrt_i2v 42) = (WIKRT_OK, c', cx') /\
    _wikrt_peek_type cx' WIKRT_VTYPE_PENDING c' = (WIKRT_OK, WIKRT_VTYPE_SUM).
Proof.
  destruct (_wikrt_alloc_sum cx0 WIKRT_VOID true (wikrt_i2v 42))
    as [[st c'] cx'] eqn:E.
  assert (st = WIKRT_OK) as Hst.
  { apply (f_equal (fun r => fst (fst r))) in E. vm_compute in E. congruence. }
  assert (0 <= wikrt_i2v 42 < 2^32) as Hv by apply i2v_range.
  assert (wikrt_i2v 42 <> WIKRT_VOID) as Hn by (vm_compute; discriminate).
  exists c', cx'. subst st. split; [reflexivity|].
  exact (peek_type_sum cx0 WIKRT_VOID true (wikrt_i2v 42) WIKRT_OK c' cx'
           WIKRT_VTYPE_PENDING cx0_wf Hv Hn E eq_refl).
Defined.

Lemma peek_type_sealed_witness :
  exists sv' cx',
    _wikrt_alloc_seal cx0 WIKRT_VOID [58; 97] 2 WIKRT_UNIT = (WIKRT_OK, sv', cx') /\
    _wikrt_peek_type cx' WIKRT_VTYPE_PENDING sv' = (WIKRT_OK, WIKRT_VTYPE_SEALED).
Proof.
  destruct (_wikrt_alloc_seal cx0 WIKRT_VOID [58; 97] 2 WIKRT_UNIT)
    as [[st sv'] cx'] eqn:E.
  assert (st = WIKRT_OK) as Hst.
  { apply (f_equal (fun r => fst (fst r))) in E. vm_compute in E. congruence. }
  assert (1 <= 2 <= 63) as Hl by lia.
  exists sv', cx'. subst st. split; [reflexivity|].
  exact (peek_type_sealed cx0 WIKRT_VOID [58; 97] 2 WIKRT_UNIT WIKRT_OK sv' cx'
           WIKRT_VTYPE_PENDING cx0_wf Hl E eq_refl).
Defined.

(** ** Allocation: rounding, disjoint blocks, [wikrt_realloc] (wikrt.c) *)

Section Realloc.
Context {FL : wikrt_flist}.

(** Result: the C boolean, [*addr], the context. *)
Definition wikrt_realloc (cx : wikrt_cx) (sz0 : Z) (addr : wikrt_addr) (szf : Z)
  : bool * wikrt_addr * wikrt_cx :=
  let sz0 := WIKRT_CELLBUFF sz0 in
  let szf := WIKRT_CELLBUFF szf in
  if sz0 =? szf then (true, addr, cx)
  else if szf <? sz0 then
    (true, addr, wikrt_free cx (u32 (sz0 - szf)) (u32 (addr + szf)))
  else
    let src := addr in
    match wikrt_alloc cx szf with
    | (None, cx1) => (false, addr, cx1)
    | (Some dst, cx1) =>
        let cx2 := set_memory cx1 (memcpy (memory cx1) dst src sz0) in
        (true, dst, wikrt_free cx2 sz0 src)
    end.

Lemma cellbuff_multiple sz :
  0 <= sz < 2^31 -> sz mod 8 = 0 -> WIKRT_CELLBUFF sz = sz.
Proof.
  intros H M. rewrite cellbuff_spec by assumption.
  Z.div_mod_to_equations. lia.
Qed.

Lemma cellbuff_bounds sz :
  0 <= sz < 2^31 ->
  WIKRT_CELLBUFF sz mod 8 = 0 /\ sz <= WIKRT_CELLBUFF sz < sz + 8.
Proof.
  intros H. rewrite cellbuff_spec by assumption.
  split; [rewrite Z.mul_comm; apply Z.mod_mul; lia|].
  Z.div_mod_to_equations. lia.
Qed.

Lemma wikrt_free_block cx sz a :
  cx_wf cx -> 0 < sz < 2^31 -> 0 < a -> a mod 8 = 0 ->
  a + WIKRT_CELLBUFF sz <= 2^32 ->
  (forall x, a <= x < a + WIKRT_CELLBUFF sz -> ~ cx_free cx x) ->
  let cx' := wikrt_free cx sz a in
  cx_wf cx' /\ memory cx' = memory cx /\
  ct_bytes_alloc cx' = ct_bytes_alloc cx /\
  ct_bytes_freed cx' = u64 (ct_bytes_freed cx + WIKRT_CELLBUFF sz) /\
  (forall x, cx_free cx' x -> cx_free cx x \/ a <= x < a + WIKRT_CELLBUFF sz).
Proof.
  intros (Hl & Hs & Hd) Hsz Ha Hm Hb Hn. cbv zeta. unfold wikrt_free.
  destruct (cellbuff_bounds sz ltac:(lia)) as (M8 & B8).
  assert (forall x, a <= x < a + WIKRT_CELLBUFF sz -> ~ fl_owns (fl cx) x) as Hn'.
  { intros x Hx Ho. apply (Hn x Hx). left. exact Ho. }
  destruct (fl_free_ok (fl cx) (WIKRT_CELLBUFF sz) a Hl ltac:(lia) M8 Ha Hm Hb Hn')
    as (Hk & Ho).
  split.
  - split; [exact Hk|]. split; [exact Hs|]. cbn [fl cxm_fl].
    intros x [Hx Hy]. apply Ho in Hx. destruct Hx as [Hx|Hx].
    + apply (Hd x). tauto.
    + apply (Hn x Hx). right. exact Hy.
  - split; [reflexivity|]. split; [reflexivity|]. split; [reflexivity|].
    intros x [Hx|Hx]; [|left; right; exact Hx].
    apply Ho in Hx. destruct Hx as [Hx|Hx]; [left; left; exact Hx|right; exact Hx].
Qed.

Lemma load8_idem m x : load8 m x mod 256 = load8 m x.
Proof. unfold load8. apply Z.mod_mod. lia. Qed.

Lemma load8_memcpy_bytes_in bs : forall m d i,
  (i < length bs)%nat ->
  load8 (memcpy_bytes m d bs) (d + Z.of_nat i) = nth i bs 0 mod 256.
Proof.
  induction bs as [|b bs IH]; intros m d i Hi; [cbn in Hi; lia|].
  cbn [memcpy_bytes]. destruct i as [|i].
  - rewrite load8_memcpy_bytes_other by lia.
    replace (d + Z.of_nat 0) with d by lia. apply load8_store8_same.
  - cbn [nth]. cbn [length] in Hi.
    replace (d + Z.of_nat (S i)) with ((d + 1) + Z.of_nat i) by lia.
    apply IH. lia.
Qed.

Lemma nth_load_bytes n : forall m a i,
  (i < n)%nat -> nth i (load_bytes m a n) 0 = load8 m (a + Z.of_nat i).
Proof.
  induction n as [|n IH]; intros m a i Hi; [lia|].
  cbn [load_bytes]. destruct i as [|i]; cbn [nth].
  - f_equal. lia.
  - rewrite IH by lia. f_equal. lia.
Qed.

Lemma load_bytes_length n : forall m a, length (load_bytes m a n) = n.
Proof. induction n; intros; cbn [load_bytes length]; auto. Qed.

Lemma load8_memcpy_in m dst src n i :
  0 <= i < n -> load8 (memcpy m dst src n) (dst + i) = load8 m (src + i).
Proof.
  intros Hi. unfold memcpy.
  replace i with (Z.of_nat (Z.to_nat i)) by lia.
  rewrite load8_memcpy_bytes_in by (rewrite load_bytes_length; lia).
  rewrite nth_load_bytes by lia. apply load8_idem.
Qed.

Lemma load8_memcpy_out m dst src n x :
  0 <= n -> x < dst \/ dst + n <= x ->
  load8 (memcpy m dst src n) x = load8 m x.
Proof.
  intros Hn Hx. unfold memcpy. apply load8_memcpy_bytes_other.
  rewrite load_bytes_length. lia.
Qed.

(** [WIKRT_CELLBUFF] rounds a size up to the next multiple of the cell
    size; within eight bytes of the top of the 32-bit range the result
    wraps to zero. *)
Theorem cellbuff_round_up sz :
  0 <= sz < 2^32 ->
  (sz <= 2^32 - 8 ->
   WIKRT_CELLBUFF sz mod 8 = 0 /\ sz <= WIKRT_CELLBUFF sz < sz + 8) /\
  (2^32 - 8 < sz -> WIKRT_CELLBUFF sz = 0).
Proof.
  intros H. unfold WIKRT_CELLBUFF. change WIKRT_CELLSIZE with (2^3).
  rewrite lnbuff_pow2_spec by lia. change (2^3) with 8. change (8 - 1) with 7.
  split; intros Hs.
  - rewrite u32_small by (Z.div_mod_to_equations; lia).
    split; [rewrite Z.mul_comm; apply Z.mod_mul; lia|].
    Z.div_mod_to_equations. lia.
  - assert ((sz + 7) / 8 = 2^29) as ->.
    { symmetry. apply (Z.div_unique _ _ _ (sz + 7 - 2^32)); lia. }
    reflexivity.
Qed.

Lemma cellbuff_round_up_witness :
  WIKRT_CELLBUFF 13 = 16 /\ WIKRT_CELLBUFF (2^32 - 3) = 0.
Proof.
  assert (0 <= 13 < 2^32) as H1 by lia.
  assert (0 <= 2^32 - 3 < 2^32) as H2 by lia.
  destruct (cellbuff_round_up 13 H1) as (A & _).
  destruct (cellbuff_round_up (2^32 - 3) H2) as (_ & B).
  split; [|apply B; lia].
  destruct (A ltac:(lia)) as (M & L).
  revert M L. generalize (WIKRT_CELLBUFF 13). intros z M L.
  Z.div_mod_to_equations. lia.
Defined.

End Realloc.

Section AllocContract.
Context {FL : wikrt_flist}.

(** [wikrt_realloc] of a block in use: when the buffered sizes agree the
    context is as it was; shrinking keeps the address, leaves every byte in
    use outside the tail as it was, adds the size of the tail to the count
    of bytes freed and makes no byte outside the tail free; growing either
    fails, keeping the address, the bytes in use and the counters, or
    returns a block apart from the old one that holds the old bytes, with
    the bytes in use outside the old block as they were, the size of the
    old block added to the count of bytes freed and no byte outside the old
    block made free. *)
Theorem realloc_contract cx sz0 addr szf ok addr' cx' :
  cx_wf cx -> 0 < sz0 < 2^29 -> 0 < szf < 2^29 ->
  0 < addr -> addr mod 8 = 0 -> addr + WIKRT_CELLBUFF sz0 <= 2^32 ->
  (forall x, addr <= x < addr + WIKRT_CELLBUFF sz0 -> ~ cx_free cx x) ->
  wikrt_realloc cx sz0 addr szf = (ok, addr', cx') ->
  let b0 := WIKRT_CELLBUFF sz0 in
  let bf := WIKRT_CELLBUFF szf in
  cx_wf cx' /\
  (bf = b0 -> ok = true /\ addr' = addr /\ cx' = cx) /\
  (bf < b0 ->
   ok = true /\ addr' = addr /\
   (forall x, ~ cx_free cx x -> x < addr + bf \/ addr + b0 <= x ->
              load8 (memory cx') x = load8 (memory cx) x) /\
   ct_bytes_alloc cx' = ct_bytes_alloc cx /\
   ct_bytes_freed cx' = u64 (ct_bytes_freed cx + (b0 - bf)) /\
   (forall x, cx_free cx' x -> cx_free cx x \/ addr + bf <= x < addr + b0)) /\
  (b0 < bf ->
   (ok = false /\ addr' = addr /\
    (forall x, ~ cx_free cx x -> load8 (memory cx') x = load8 (memory cx) x) /\
    (forall x, cx_free cx' x -> cx_free cx x) /\
    ct_bytes_freed cx' = ct_bytes_freed cx /\
    ct_bytes_alloc cx' = ct_bytes_alloc cx) \/
   (ok = true /\ 0 < addr' /\ addr' mod 8 = 0 /\
    (addr' + bf <= addr \/ addr + b0 <= addr') /\
    (forall x, addr' <= x < addr' + bf -> cx_free cx x) /\
    (forall i, 0 <= i < b0 ->
               load8 (memory cx') (addr' + i) = load8 (memory cx) (addr + i)) /\
    (forall x, ~ cx_free cx x -> x < addr \/ addr + b0 <= x ->
               load8 (memory cx') x = load8 (memory cx) x) /\
    ct_bytes_alloc cx' = u64 (ct_bytes_alloc cx + bf) /\
    ct_bytes_freed cx' = u64 (ct_bytes_freed cx + b0) /\
    (forall x, addr' <= x < addr' + bf -> ~ cx_free cx' x) /\
    (forall x, cx_free cx' x -> cx_free cx x \/ addr <= x < addr + b0))).
Proof.
  intros Hwf H0 Hf Ha Hm Hb Hn E. cbv zeta.
  destruct (cellbuff_bounds sz0 ltac:(lia)) as (M0 & L0).
  destruct (cellbuff_bounds szf ltac:(lia)) as (Mf & Lf).
  unfold wikrt_realloc in E.
  destruct (Z.eqb_spec (WIKRT_CELLBUFF sz0) (WIKRT_CELLBUFF szf)) as [Eq|Ne].
  { apply triple_inj in E. destruct E as (<- & <- & <-).
    split; [exact Hwf|]. split; [auto|]. split; lia. }
  destruct (Z.ltb_spec (WIKRT_CELLBUFF szf) (WIKRT_CELLBUFF sz0)) as [Lt|Ge].
  - apply triple_inj in E. destruct E as (<- & <- & <-).
    set (d := WIKRT_CELLBUFF sz0 - WIKRT_CELLBUFF szf) in *.
    assert (0 < d < 2^31 /\ d mod 8 = 0) as (Hd & Md).
    { subst d. split; [lia|]. revert M0 Mf.
      generalize (WIKRT_CELLBUFF sz0), (WIKRT_CELLBUFF szf). intros.
      Z.div_mod_to_equations. lia. }
    rewrite (u32_small d) by lia.
    rewrite (u32_small (addr + WIKRT_CELLBUFF szf)) by lia.
    assert (WIKRT_CELLBUFF d = d) as Ed by (apply cellbuff_multiple; lia).
    destruct (wikrt_free_block cx d (addr + WIKRT_CELLBUFF szf) Hwf ltac:(lia)
                ltac:(lia)) as (W & M & A & F & Fr).
    + revert Hm Mf. generalize (WIKRT_CELLBUFF szf). intros.
      Z.div_mod_to_equations. lia.
    + rewrite Ed. subst d. lia.
    + intros x Hx. apply Hn. rewrite Ed in Hx. subst d. lia.
    + rewrite Ed in F, Fr. split; [exact W|]. split; [lia|]. split; [|lia].
      intros _. split; [reflexivity|]. split; [reflexivity|].
      split; [intros x _ _; rewrite M; reflexivity|].
      split; [exact A|]. split; [exact F|].
      intros x Hx. destruct (Fr x Hx) as [|R]; [left; assumption|right].
      subst d. lia.
  - assert (WIKRT_CELLBUFF (WIKRT_CELLBUFF szf) = WIKRT_CELLBUFF szf) as Eff
        by (apply cellbuff_multiple; [lia|assumption]).
    assert (WIKRT_CELLBUFF (WIKRT_CELLBUFF sz0) = WIKRT_CELLBUFF sz0) as E00
        by (apply cellbuff_multiple; [lia|assumption]).
    assert (0 < WIKRT_CELLBUFF szf < 2^30) as Rf by lia.
    destruct (wikrt_alloc cx (WIKRT_CELLBUFF szf)) as [[dst|] cx1] eqn:EA;
      apply triple_inj in E; destruct E as (<- & <- & <-).
    + destruct (wikrt_alloc_some _ _ _ _ Hwf Rf EA)
        as (W1 & (M1 & F1) & A1 & P1 & D8 & B1 & In1 & Fr1).
      rewrite Eff in *.
      set (cx2 := set_memory cx1
                    (memcpy (memory cx1) dst addr (WIKRT_CELLBUFF sz0))).
      assert (cx_wf cx2) as W2 by exact W1.
      destruct (wikrt_free_block cx2 (WIKRT_CELLBUFF sz0) addr W2 ltac:(lia) Ha Hm)
        as (W & M & A & F & Fr).
      * rewrite E00. exact Hb.
      * rewrite E00. intros x Hx C. apply (Hn x Hx). apply Fr1. exact C.
      * rewrite E00 in *. split; [exact W|]. split; [lia|]. split; [lia|].
        intros _. right. split; [reflexivity|].
        split; [exact P1|]. split; [exact D8|].
        split.
        { destruct (Z_le_gt_dec (dst + WIKRT_CELLBUFF szf) addr) as [|G1];
            [left; assumption|].
          destruct (Z_le_gt_dec (addr + WIKRT_CELLBUFF sz0) dst) as [|G2];
            [right; assumption|].
          exfalso. destruct (In1 (Z.max dst addr) ltac:(lia)) as (Y & _).
          exact (Hn (Z.max dst addr) ltac:(lia) Y). }
        split; [intros x Hx; exact (proj1 (In1 x Hx))|].
        split.
        { intros i Hi. rewrite M. subst cx2. unfold set_memory; cbn [memory].
          rewrite load8_memcpy_in by lia. rewrite M1. reflexivity. }
        split.
        { intros x Nx Hx. rewrite M. subst cx2. unfold set_memory; cbn [memory].
          rewrite load8_memcpy_out; [rewrite M1; reflexivity|lia|].
          destruct (Z_lt_ge_dec x dst) as [|G1]; [left; assumption|].
          destruct (Z_le_gt_dec (dst + WIKRT_CELLBUFF sz0) x) as [|G2];
            [right; assumption|].
          exfalso. apply Nx. apply (In1 x). lia. }
        split; [rewrite A; exact A1|].
        split; [rewrite F; subst cx2; unfold set_memory; cbn [ct_bytes_freed];
                rewrite F1; reflexivity|].
        split.
        { intros x Hx C. destruct (Fr x C) as [C1|C1].
          - exact (proj2 (In1 x Hx) C1).
          - destruct (In1 x Hx) as (Y & _). exact (Hn x C1 Y). }
        intros x C. destruct (Fr x C) as [C1|C1]; [left|right; exact C1].
        apply Fr1. exact C1.
    + destruct (wikrt_alloc_none _ _ _ Hwf Rf EA) as (W1 & (M1 & F1) & A1 & Fr1).
      split; [exact W1|]. split; [lia|]. split; [lia|].
      intros _. left. split; [reflexivity|]. split; [reflexivity|].
      split; [intros x _; rewrite M1; reflexivity|]. auto.
Qed.

End AllocContract.

Lemma realloc_contract_witness :
  cx_wf (snd (wikrt_realloc (snd (wikrt_alloc cx0 8)) 8 8 24)).
Proof.
  pose proof (surjective_pairing (wikrt_alloc cx0 8)) as EA.
  assert (fst (wikrt_alloc cx0 8) = Some 8) as Ef by (vm_compute; reflexivity).
  rewrite Ef in EA.
  assert (0 < 8 < 2^30) as H1 by lia.
  destruct (wikrt_alloc_some cx0 8 8 _ cx0_wf H1 EA) as (W & _ & _ & _ & _ & B & In & _).
  assert (0 < 8 < 2^29) as R0 by lia.
  assert (0 < 24 < 2^29) as Rf by lia.
  assert (0 < 8) as Pa by lia.
  assert (8 mod 8 = 0) as Ma by reflexivity.
  pose proof (surjective_pairing (wikrt_realloc (snd (wikrt_alloc cx0 8)) 8 8 24)) as ER.
  rewrite (surjective_pairing (fst (wikrt_realloc (snd (wikrt_alloc cx0 8)) 8 8 24)))
    in ER.
  exact (proj1 (realloc_contract (snd (wikrt_alloc cx0 8)) 8 8 24 _ _ _ W R0 Rf Pa Ma B
                  (fun x Hx => proj2 (In x Hx)) ER)).
Defined.

(** ** Binaries as lists (wikrt.c) *)

Section Binary.
Context {FL : wikrt_flist}.

(** The [while(buff != buffEnd)] loop over the bytes read. *)
Fixpoint alloc_binary_loop (cx : wikrt_cx) (v : wikrt_val) (tl : val_ptr)
         (bs : list Z) : wikrt_err * wikrt_val * wikrt_cx :=
  match bs with
  | [] =>
      let '(v', cx') := ptr_write cx v tl WIKRT_UNIT_INR in
      (WIKRT_OK, v', cx')
  | e :: bs' =>
      match wikrt_alloc_cellval cx v tl WIKRT_PL (wikrt_i2v e) WIKRT_VOID with
      | (false, v1, cx1) => (WIKRT_CXFULL, v1, cx1)
      | (true, v1, cx1) =>
          alloc_binary_loop cx1 v1 (PtrMem (wikrt_vaddr (ptr_read cx1 v1 tl) + 4)) bs'
      end
  end.

Definition _wikrt_alloc_binary (cx : wikrt_cx) (v : wikrt_val) (buff : list Z)
           (nBytes : Z) : wikrt_err * wikrt_val * wikrt_cx :=
  alloc_binary_loop cx WIKRT_VOID PtrOut (firstn (Z.to_nat nBytes) buff).

(** The words of a list in the arena: in-left cells ended by unit-in-right. *)
Fixpoint list_at (cx : wikrt_cx) (v : wikrt_val) (es : list wikrt_val) : Prop :=
  match es with
  | [] => v = WIKRT_UNIT_INR
  | e :: r =>
      wikrt_vtag v = WIKRT_PL /\ wikrt_vaddr v <> 0 /\
      pval_get cx (wikrt_vaddr v) 0 = e /\
      list_at cx (pval_get cx (wikrt_vaddr v) 1) r
  end.

(** The destination of a store is the caller's variable or a word in use. *)
Definition tl_ok (cx : wikrt_cx) (tl : val_ptr) : Prop :=
  match tl with
  | PtrOut => True
  | PtrMem d => forall x, d <= x < d + 4 -> ~ cx_free cx x
  | PtrNull => False
  end.

Definition tl_out (tl : val_ptr) (x : Z) : Prop :=
  match tl with
  | PtrMem d => ~ (d <= x < d + 4)
  | _ => True
  end.

Lemma load32_ext m m' a :
  (forall x, a <= x < a + 4 -> load8 m' x = load8 m x) -> load32 m' a = load32 m a.
Proof. intros H. unfold load32. rewrite !H by lia. reflexivity. Qed.

Lemma alloc_cellval_tl cx out tl tag v0 v1 b out' cx' :
  cx_wf cx -> ptr_tag tag -> tl_ok cx tl ->
  wikrt_alloc_cellval cx out tl tag v0 v1 = (b, out', cx') ->
  (b = false /\ out' = out /\ cx_wf cx' /\ same_store cx cx' /\
   ct_bytes_alloc cx' = ct_bytes_alloc cx /\
   (forall x, cx_free cx' x -> cx_free cx x))
  \/ (b = true /\ exists a,
        valid_addr a /\ cx_wf cx' /\
        ct_bytes_alloc cx' = u64 (ct_bytes_alloc cx + 8) /\
        ct_bytes_freed cx' = ct_bytes_freed cx /\
        ptr_read cx' out' tl = wikrt_tag_addr tag a /\
        (tl <> PtrOut -> out' = out) /\
        pval_get cx' a 0 = u32 v0 /\ pval_get cx' a 1 = u32 v1 /\
        (forall x, a <= x < a + 8 -> cx_free cx x /\ ~ cx_free cx' x) /\
        (forall x, cx_free cx' x -> cx_free cx x) /\
        (forall x, ~ (a <= x < a + 8) -> tl_out tl x ->
                   load8 (memory cx') x = load8 (memory cx) x)).
Proof.
  intros Hwf Ht Htl. unfold wikrt_alloc_cellval.
  assert (0 < WIKRT_CELLSIZE < 2^30) as S8 by (unfold WIKRT_CELLSIZE; lia).
  destruct (wikrt_alloc cx WIKRT_CELLSIZE) as [[a|] cx1] eqn:E.
  - destruct (wikrt_alloc_some _ _ _ _ Hwf S8 E)
      as (W & (M & F) & A & Ha & Hma & Hb & Hin & Hout).
    change (WIKRT_CELLBUFF WIKRT_CELLSIZE) with 8 in *.
    assert (valid_addr a) as Va by (unfold valid_addr; lia).
    pose proof (tag_addr_range _ _ Ht Va) as Hr.
    destruct tl as [|d|]; [| |contradiction]; cbn [ptr_write]; intros H;
      apply triple_inj in H; destruct H as (<- & <- & <-);
      right; (split; [reflexivity|]); exists a;
      (split; [exact Va|]); (split; [exact W|]); (split; [exact A|]);
      (split; [exact F|]).
    + split; [reflexivity|]. split; [congruence|].
      split; [rewrite pval_get_set_other by lia; apply pval_get_set_same|].
      split; [apply pval_get_set_same|].
      split; [exact Hin|]. split; [exact Hout|].
      intros x Hx _. unfold pval_set, set_memory; cbn [memory].
      rewrite !load8_store32_other by lia. rewrite M. reflexivity.
    + assert (d + 4 <= a \/ a + 8 <= d) as Hd.
      { cbn [tl_ok] in Htl.
        destruct (Z_le_gt_dec (d + 4) a); [left; assumption|].
        destruct (Z_le_gt_dec (a + 8) d); [right; assumption|]. exfalso.
        destruct (Hin (Z.max a d) ltac:(lia)) as (Y & _).
        exact (Htl (Z.max a d) ltac:(lia) Y). }
      split.
      { cbn [ptr_read]. unfold pval_set, set_memory; cbn [memory].
        rewrite !load32_store32_other by lia.
        rewrite load32_store32_same. apply u32_small. exact Hr. }
      split; [reflexivity|].
      split; [rewrite pval_get_set_other by lia; apply pval_get_set_same|].
      split; [apply pval_get_set_same|].
      split; [exact Hin|]. split; [exact Hout|].
      intros x Hx Hy. cbn [tl_out] in Hy.
      unfold pval_set, set_memory; cbn [memory].
      rewrite !load8_store32_other by lia. rewrite M. reflexivity.
  - intros H. apply triple_inj in H. destruct H as (<- & <- & <-).
    left. destruct (wikrt_alloc_none _ _ _ Hwf S8 E) as (W & S & A & Fr). auto 10.
Qed.

Lemma u64_add_idem a b : u64 (u64 a + b) = u64 (a + b).
Proof. unfold u64. apply Zplus_mod_idemp_l. Qed.

Lemma u64_range z : 0 <= u64 z < 2^64.
Proof. unfold u64. apply Z.mod_pos_bound. lia. Qed.

Lemma alloc_binary_loop_spec bs : forall cx v tl st v' cx',
  cx_wf cx -> tl_ok cx tl -> 0 <= ct_bytes_alloc cx < 2^64 ->
  Forall (fun e => 0 <= e <= 255) bs ->
  alloc_binary_loop cx v tl bs = (st, v', cx') ->
  cx_wf cx' /\ (forall x, cx_free cx' x -> cx_free cx x) /\
  (tl <> PtrOut -> v' = v) /\
  ct_bytes_freed cx' = ct_bytes_freed cx /\
  (st = WIKRT_OK \/ st = WIKRT_CXFULL) /\
  (st = WIKRT_OK ->
   list_at cx' (ptr_read cx' v' tl) (map wikrt_i2v bs) /\
   ct_bytes_alloc cx' = u64 (ct_bytes_alloc cx + 8 * Z.of_nat (length bs)) /\
   (forall x, ~ cx_free cx x -> tl_out tl x ->
              load8 (memory cx') x = load8 (memory cx) x)).
Proof.
  induction bs as [|e bs IH]; intros cx v tl st v' cx' Hwf Htl Hct Hbs E.
  - cbn [alloc_binary_loop] in E.
    assert (ct_bytes_alloc cx = u64 (ct_bytes_alloc cx + 8 * Z.of_nat 0)) as Hc0.
    { rewrite Z.mul_0_r, Z.add_0_r. symmetry. apply u64_small. exact Hct. }
    destruct tl as [|d|]; [| |contradiction]; cbn [ptr_write] in E;
      apply triple_inj in E; destruct E as (<- & <- & <-).
    + split; [exact Hwf|]. split; [auto|]. split; [congruence|].
      split; [reflexivity|]. split; [left; reflexivity|]. intros _.
      split; [reflexivity|]. split; [exact Hc0|reflexivity].
    + split; [exact Hwf|]. split; [auto|]. split; [reflexivity|].
      split; [reflexivity|]. split; [left; reflexivity|]. intros _.
      split; [|split; [exact Hc0|]].
      * cbn [list_at map ptr_read]. unfold set_memory; cbn [memory].
        rewrite load32_store32_same. reflexivity.
      * intros x _ Hx. cbn [tl_out] in Hx. unfold set_memory; cbn [memory].
        apply load8_store32_other. lia.
  - cbn [alloc_binary_loop] in E.
    assert (ptr_tag WIKRT_PL) as PL by (right; right; left; reflexivity).
    destruct (wikrt_alloc_cellval cx v tl WIKRT_PL (wikrt_i2v e) WIKRT_VOID)
      as [[ok v1] cx1] eqn:EA.
    destruct (alloc_cellval_tl _ _ _ _ _ _ _ _ _ Hwf PL Htl EA)
      as [(-> & -> & W1 & (M1 & F1) & A1 & Fr1)
         |(-> & a & Va & W1 & A1 & F1 & R1 & O1 & G0 & G1 & In1 & Fr1 & Fm1)].
    + apply triple_inj in E. destruct E as (<- & <- & <-).
      split; [exact W1|]. split; [exact Fr1|]. split; [reflexivity|].
      split; [exact F1|]. split; [right; reflexivity|]. discriminate.
    + rewrite R1, (vaddr_tag_addr _ _ PL Va) in E.
      assert (tl_ok cx1 (PtrMem (a + 4))) as Htl1.
      { intros x Hx. apply (In1 x). lia. }
      assert (0 <= ct_bytes_alloc cx1 < 2^64) as Hct1
          by (rewrite A1; apply u64_range).
      inversion Hbs as [|e' bs' He Hbs' Eq]; subst e' bs'.
      destruct (IH cx1 v1 (PtrMem (a + 4)) st v' cx' W1 Htl1 Hct1 Hbs' E)
        as (W' & Fr' & O' & F' & St & K).
      assert (v' = v1) as -> by (apply O'; discriminate).
      split; [exact W'|]. split; [auto|].
      split; [exact O1|]. split; [congruence|]. split; [exact St|].
      intros Hst. destruct (K Hst) as (L' & A' & Fm').
      assert (forall x, ~ cx_free cx x -> ~ (a <= x < a + 8)) as Hout.
      { intros x Hx C. exact (Hx (proj1 (In1 x C))). }
      assert (ptr_read cx' v1 tl = wikrt_tag_addr WIKRT_PL a) as R'.
      { destruct tl as [|d|]; [exact R1| |contradiction].
        cbn [ptr_read] in *. rewrite <- R1. apply load32_ext.
        intros x Hx. apply Fm'.
        - intros C. exact (Htl x Hx (Fr1 x C)).
        - cbn [tl_out]. pose proof (Hout x (Htl x Hx)). lia. }
      split; [|split].
      * cbn [map list_at]. rewrite R'.
        rewrite (vtag_tag_addr _ _ PL Va), (vaddr_tag_addr _ _ PL Va).
        split; [reflexivity|]. split; [destruct Va; lia|].
        split; [|exact L'].
        rewrite (pval_get_ext cx1 cx' a 0).
        -- rewrite G0. apply u32_small. apply i2v_range.
        -- intros x Hx. apply Fm'; [apply (In1 x); lia|cbn [tl_out]; lia].
      * rewrite A', A1, u64_add_idem. f_equal. cbn [length]. lia.
      * intros x Hx Ho. rewrite Fm'.
        -- apply Fm1; [apply Hout; exact Hx|exact Ho].
        -- intros C. exact (Hx (Fr1 x C)).
        -- cbn [tl_out]. pose proof (Hout x Hx). lia.
Qed.

End Binary.

Section BinaryClaims.
Context {FL : wikrt_flist}.

(** [_wikrt_alloc_binary] ends with OK or CXFULL.  After OK the result is
    the list of the bytes read, one cell each, as small integers; the
    allocation counter has grown by eight bytes per byte read, nothing was
    freed and no byte in use was changed.  Reading no byte gives the empty
    list, unit-in-right, and leaves the context alone. *)
Theorem alloc_binary_list cx v buff nBytes st v' cx' :
  cx_wf cx -> 0 <= ct_bytes_alloc cx < 2^64 ->
  Forall (fun e => 0 <= e <= 255) buff ->
  0 <= nBytes <= Z.of_nat (length buff) ->
  _wikrt_alloc_binary cx v buff nBytes = (st, v', cx') ->
  (st = WIKRT_OK \/ st = WIKRT_CXFULL) /\ cx_wf cx' /\
  ct_bytes_freed cx' = ct_bytes_freed cx /\
  (st = WIKRT_OK ->
   list_at cx' v' (map wikrt_i2v (firstn (Z.to_nat nBytes) buff)) /\
   ct_bytes_alloc cx' = u64 (ct_bytes_alloc cx + 8 * nBytes) /\
   (forall x, ~ cx_free cx x -> load8 (memory cx') x = load8 (memory cx) x)) /\
  (nBytes = 0 -> st = WIKRT_OK /\ v' = WIKRT_UNIT_INR /\ cx' = cx).
Proof.
  intros Hwf Hct Hb Hn E. unfold _wikrt_alloc_binary in E.
  assert (Forall (fun e => 0 <= e <= 255) (firstn (Z.to_nat nBytes) buff)) as Hf.
  { rewrite Forall_forall in *. intros e He. apply Hb.
    rewrite <- (firstn_skipn (Z.to_nat nBytes) buff). apply in_or_app. left. exact He. }
  destruct (alloc_binary_loop_spec _ cx WIKRT_VOID PtrOut st v' cx' Hwf I Hct Hf E)
    as (W & _ & _ & F & St & K).
  split; [exact St|]. split; [exact W|]. split; [exact F|]. split.
  - intros Hst. destruct (K Hst) as (L & A & M). cbn [ptr_read] in L.
    split; [exact L|]. split.
    + rewrite A. rewrite length_firstn, Nat.min_l by lia. f_equal. lia.
    + intros x Hx. apply M; [exact Hx|exact I].
  - intros ->. change (Z.to_nat 0) with 0%nat in E. cbn in E.
    apply triple_inj in E. destruct E as (<- & <- & <-). auto.
Qed.

Lemma spine_length_from es : forall cx v ct,
  list_at cx v es -> 0 <= ct -> ct + Z.of_nat (length es) < 2^32 ->
  wikrt_spine_length (S (length es)) cx v ct = Some (ct + Z.of_nat (length es)).
Proof.
  induction es as [|e es IH]; intros cx v ct L Hc Hb.
  - cbn [list_at] in L. subst v. cbn [length wikrt_spine_length].
    change (0 =? wikrt_vaddr WIKRT_UNIT_INR) with true.
    rewrite andb_false_r. f_equal. cbn. lia.
  - destruct L as (Ht & Ha & _ & L). cbn [length] in *.
    change (wikrt_spine_length (S (S (length es))) cx v ct)
      with (if negb (WIKRT_O =? wikrt_vtag v) && negb (0 =? wikrt_vaddr v)
            then wikrt_spine_length (S (length es)) cx
                   (pval_get cx (wikrt_vaddr v) 1) (u32 (ct + 1))
            else Some ct).
    rewrite Ht. change (negb (WIKRT_O =? WIKRT_PL)) with true.
    destruct (Z.eqb_spec 0 (wikrt_vaddr v)); [congruence|]. cbn [negb andb].
    rewrite u32_small by lia. rewrite IH by (try assumption; lia).
    f_equal. lia.
Qed.

(** [wikrt_spine_length] of a list in the arena is the number of its
    elements; one iteration more than there are elements is enough. *)
Theorem spine_length_list cx v es :
  list_at cx v es -> Z.of_nat (length es) < 2^32 ->
  wikrt_spine_length (S (length es)) cx v 0 = Some (Z.of_nat (length es)).
Proof.
  intros L Hb. rewrite (spine_length_from es cx v 0 L) by lia. reflexivity.
Qed.

End BinaryClaims.

Lemma alloc_binary_list_witness :
  exists v' cx',
    _wikrt_alloc_binary cx0 WIKRT_VOID [1; 2; 3] 2 = (WIKRT_OK, v', cx') /\
    list_at cx' v' [wikrt_i2v 1; wikrt_i2v 2].
Proof.
  destruct (_wikrt_alloc_binary cx0 WIKRT_VOID [1; 2; 3] 2) as [[st v'] cx'] eqn:E.
  assert (st = WIKRT_OK) as Hst.
  { apply (f_equal (fun r => fst (fst r))) in E. vm_compute in E. congruence. }
  assert (0 <= ct_bytes_alloc cx0 < 2^64) as Hc by (vm_compute; split; congruence).
  assert (Forall (fun e => 0 <= e <= 255) [1; 2; 3]) as Hb
      by (repeat (apply Forall_cons; [lia|]); apply Forall_nil).
  assert (0 <= 2 <= Z.of_nat (length [1; 2; 3])) as Hn by (cbn; lia).
  destruct (alloc_binary_list cx0 WIKRT_VOID [1; 2; 3] 2 st v' cx' cx0_wf Hc Hb Hn E)
    as (_ & _ & _ & K & _).
  exists v', cx'. subst st. split; [reflexivity|exact (proj1 (K eq_refl))].
Defined.

Lemma spine_length_list_witness :
  exists v' cx',
    _wikrt_alloc_binary cx0 WIKRT_VOID [1; 2; 3] 2 = (WIKRT_OK, v', cx') /\
    wikrt_spine_length 3 cx' v' 0 = Some 2.
Proof.
  destruct (_wikrt_alloc_binary cx0 WIKRT_VOID [1; 2; 3] 2) as [[st v'] cx'] eqn:E.
  assert (st = WIKRT_OK) as Hst.
  { apply (f_equal (fun r => fst (fst r))) in E. vm_compute in E. congruence. }
  assert (0 <= ct_bytes_alloc cx0 < 2^64) as Hc by (vm_compute; split; congruence).
  assert (Forall (fun e => 0 <= e <= 255) [1; 2]) as Hb
      by (repeat (apply Forall_cons; [lia|]); apply Forall_nil).
  destruct (alloc_binary_loop_spec [1; 2] cx0 WIKRT_VOID PtrOut st v' cx'
              cx0_wf I Hc Hb E) as (_ & _ & _ & _ & _ & K).
  destruct (K Hst) as (L & _).
  assert (Z.of_nat (length (map wikrt_i2v [1; 2])) < 2^32) as Hl by (cbn; lia).
  exists v', cx'. subst st. split; [reflexivity|].
  exact (spine_length_list cx' v' (map wikrt_i2v [1; 2]) L Hl).
Defined.

(** ** More on copy and drop *)

Section CopyDropMore.
Context {FL : wikrt_flist}.

Lemma drop_step_next_alloc cx ldrop cx1 l1 v1 :
  wikrt_drop_step_next cx ldrop = Ret (cx1, l1, v1) ->
  ct_bytes_alloc cx1 = ct_bytes_alloc cx.
Proof.
  unfold wikrt_drop_step_next.
  destruct (0 =? wikrt_vaddr ldrop); [intros H; injection H as <- _ _; reflexivity|].
  destruct (WIKRT_PL =? wikrt_vtag ldrop); [|discriminate].
  intros H; injection H as <- _ _; reflexivity.
Qed.

Lemma drop_loop_alloc fuel : forall b cx v ldrop st cx',
  drop_loop fuel b cx v ldrop = Ret (st, cx') ->
  ct_bytes_alloc cx' = ct_bytes_alloc cx /\
  (st = WIKRT_OK \/ st = WIKRT_TYPE_ERROR \/ st = WIKRT_IMPL).
Proof.
  induction fuel as [|f IH]; intros b cx v ldrop st cx' H; [discriminate|].
  cbn [drop_loop] in H. cbv zeta in H.
  repeat match type of H with
         | context [if ?c then _ else _] => destruct c eqn:?
         | context [match drop_loop f true cx v WIKRT_UNIT_INR with _ => _ end] =>
             destruct (drop_loop f true cx v WIKRT_UNIT_INR) as [[[] cn]| |] eqn:EN
         | context [match wikrt_drop_step_next ?c ?l with _ => _ end] =>
             destruct (wikrt_drop_step_next c l) as [[[cs ls] vs]| |] eqn:ES
         end;
    try discriminate;
    try (injection H as <- <-; split; [reflexivity|tauto]);
    try (apply IH in EN; destruct EN as (EN & SN));
    try (apply drop_step_next_alloc in ES; cbn [wikrt_free ct_bytes_alloc] in ES);
    try (apply IH in H; destruct H as (H & S);
         cbn [wikrt_free pval_set set_memory ct_bytes_alloc] in H;
         split; [congruence|exact S]);
    try (injection H as <- <-; split; [congruence|first [exact SN|tauto]]).
Qed.

(** [_wikrt_drop] never allocates: whatever it is given, when it returns
    the allocation counter is as it was, and the status is OK, TYPE_ERROR
    or IMPL. *)
Theorem drop_never_allocates fuel b cx v st cx' :
  _wikrt_drop fuel cx v b = Ret (st, cx') ->
  ct_bytes_alloc cx' = ct_bytes_alloc cx /\
  (st = WIKRT_OK \/ st = WIKRT_TYPE_ERROR \/ st = WIKRT_IMPL).
Proof. apply drop_loop_alloc. Qed.

Lemma copy_drop_shallow_spec fuel b cx v :
  wikrt_copy_shallow v = true ->
  _wikrt_copy (S fuel) cx v b = Ret (WIKRT_OK, v, cx) /\
  _wikrt_drop (S fuel) cx v b = Ret (WIKRT_OK, cx).
Proof.
  intros H. unfold _wikrt_copy, _wikrt_drop. cbn [copy_loop drop_loop]. cbv zeta.
  cbn [ptr_read]. rewrite H. split; reflexivity.
Qed.

(** A value held entirely in its word (a small integer, unit, a sum of
    unit, void) is copied to the same word and dropped at no cost: the
    context is not touched, whatever the flag. *)
Theorem copy_drop_shallow fuel b cx v :
  wikrt_copy_shallow v = true ->
  _wikrt_copy (S fuel) cx v b = Ret (WIKRT_OK, v, cx) /\
  _wikrt_drop (S fuel) cx v b = Ret (WIKRT_OK, cx).
Proof. exact (copy_drop_shallow_spec fuel b cx v). Qed.

End CopyDropMore.

Lemma drop_never_allocates_witness :
  ct_bytes_alloc (wikrt_free (cx_blk WIKRT_OTAG_BLOCK) WIKRT_CELLSIZE (wikrt_vaddr v_blk))
  = ct_bytes_alloc (cx_blk WIKRT_OTAG_BLOCK).
Proof.
  assert (_wikrt_drop 2 (cx_blk WIKRT_OTAG_BLOCK) v_blk false
          = Ret (WIKRT_OK, wikrt_free (cx_blk WIKRT_OTAG_BLOCK) WIKRT_CELLSIZE
                                      (wikrt_vaddr v_blk))) as E.
  { apply drop_block_shallow_ops.
    - repeat split; vm_compute; reflexivity.
    - left. vm_compute. reflexivity.
    - vm_compute. reflexivity. }
  exact (proj1 (drop_never_allocates 2 false _ _ _ _ E)).
Defined.

Lemma copy_drop_shallow_witness :
  _wikrt_copy 1 cx0 (wikrt_i2v 5) false = Ret (WIKRT_OK, wikrt_i2v 5, cx0) /\
  _wikrt_drop 1 cx0 (wikrt_i2v 5) false = Ret (WIKRT_OK, cx0).
Proof.
  assert (wikrt_copy_shallow (wikrt_i2v 5) = true) as H by (vm_compute; reflexivity).
  exact (copy_drop_shallow 0 false cx0 (wikrt_i2v 5) H).
Defined.

(** ** Copying and dropping big integers *)

Section BigintCopy.
Context {FL : wikrt_flist}.

(** The bytes a big integer of [n] digits takes, as allocated. *)
Definition bigint_bytes (n : Z) : Z := WIKRT_CELLBUFF (4 + 4 * n).

(** A big integer whose block lies in the arena and is in use. *)
Definition bigint_in_use (cx : wikrt_cx) (v : wikrt_val) : Prop :=
  0 <= v < 2^32 /\ is_bigint cx v = true /\ bigint_ok cx v /\
  wikrt_vaddr v + bigint_bytes (bigint_nDigits cx v) <= 2^32 /\
  (forall x, wikrt_vaddr v <= x < wikrt_vaddr v + bigint_bytes (bigint_nDigits cx v) ->
             ~ cx_free cx x).

Lemma is_bigint_parts cx v :
  is_bigint cx v = true ->
  wikrt_i v = false /\ wikrt_vtag v = WIKRT_O /\ wikrt_vaddr v <> 0 /\
  LOBYTE (pval_get cx (wikrt_vaddr v) 0) = WIKRT_OTAG_BIGINT.
Proof.
  unfold is_bigint, wikrt_otag_bigint. rewrite !andb_true_iff.
  intros (((Hi & Ht) & Ha) & Ho).
  apply negb_true_iff in Hi, Ha. apply Z.eqb_eq in Ht, Ho. apply Z.eqb_neq in Ha.
  auto.
Qed.

Lemma nDigits_bound cx v : 0 <= bigint_nDigits cx v < 2^23.
Proof.
  unfold bigint_nDigits. rewrite Z.shiftr_div_pow2 by lia.
  pose proof (pval_get_range cx (wikrt_vaddr v) 0).
  split; [apply Z.div_pos; lia|apply Z.div_lt_upper_bound; lia].
Qed.

Lemma bigint_szAlloc cx v :
  u32 (4 + u32 (bigint_nDigits cx v * 4)) = 4 + 4 * bigint_nDigits cx v /\
  0 < 4 + 4 * bigint_nDigits cx v < 2^30.
Proof.
  pose proof (nDigits_bound cx v) as H.
  rewrite (u32_small (_ * 4)) by lia. rewrite u32_small by lia. lia.
Qed.

(** Words that agree give the same big integer. *)
Lemma bigint_transfer cx v cx' v' :
  is_bigint cx v = true -> wikrt_i v' = false -> wikrt_vtag v' = WIKRT_O ->
  wikrt_vaddr v' <> 0 ->
  (forall i, 0 <= i <= bigint_nDigits cx v ->
             pval_get cx' (wikrt_vaddr v') i = pval_get cx (wikrt_vaddr v) i) ->
  is_bigint cx' v' = true /\
  bigint_nDigits cx' v' = bigint_nDigits cx v /\
  bigint_positive cx' v' = bigint_positive cx v /\
  bigint_digits cx' v' = bigint_digits cx v.
Proof.
  intros Hb Hi Ht Ha Hw. pose proof (nDigits_bound cx v) as Hn.
  destruct (is_bigint_parts _ _ Hb) as (_ & _ & _ & Ho).
  assert (pval_get cx' (wikrt_vaddr v') 0 = pval_get cx (wikrt_vaddr v) 0) as H0
      by (apply Hw; lia).
  assert (bigint_nDigits cx' v' = bigint_nDigits cx v) as EN
      by (unfold bigint_nDigits; rewrite H0; reflexivity).
  split.
  { unfold is_bigint, wikrt_otag_bigint. rewrite Hi, Ht, H0, Ho.
    destruct (Z.eqb_spec 0 (wikrt_vaddr v')); [congruence|]. reflexivity. }
  split; [exact EN|]. split; [unfold bigint_positive; rewrite H0; reflexivity|].
  unfold bigint_digits. rewrite EN. apply map_ext_in.
  intros i Hin. apply in_seq in Hin. apply Hw. lia.
Qed.

Lemma pval_get_index_ext cx cx' a a' i :
  (forall k, 0 <= k < 4 ->
             load8 (memory cx') (a' + 4 * i + k) = load8 (memory cx) (a + 4 * i + k)) ->
  pval_get cx' a' i = pval_get cx a i.
Proof.
  intros H. unfold pval_get, load32.
  rewrite <- (Z.add_0_r (a' + 4 * i)) at 1. rewrite <- (Z.add_0_r (a + 4 * i)) at 1.
  rewrite !H by lia. reflexivity.
Qed.

Lemma int_value_transfer cx v cx' v' :
  is_bigint cx v = true -> is_bigint cx' v' = true ->
  bigint_positive cx' v' = bigint_positive cx v ->
  bigint_digits cx' v' = bigint_digits cx v ->
  int_value cx' v' = int_value cx v.
Proof.
  intros H H' P D. rewrite !int_value_bigint by assumption.
  unfold bigint_value. rewrite P, D. reflexivity.
Qed.

End BigintCopy.

Section BigintCopyClaims.
Context {FL : wikrt_flist}.

Lemma bigint_bytes_bounds cx v :
  2 <= bigint_nDigits cx v ->
  bigint_bytes (bigint_nDigits cx v) mod 8 = 0 /\
  4 + 4 * bigint_nDigits cx v <= bigint_bytes (bigint_nDigits cx v)
  /\ 12 <= bigint_bytes (bigint_nDigits cx v).
Proof.
  intros H2. pose proof (nDigits_bound cx v) as Hn. unfold bigint_bytes.
  destruct (cellbuff_bounds (4 + 4 * bigint_nDigits cx v) ltac:(lia)) as (M & L).
  split; [exact M|]. lia.
Qed.

Lemma copy_bigint_frame fuel b cx v :
  cx_wf cx -> bigint_in_use cx v ->
  exists st v2 cx2,
    _wikrt_copy (S (S fuel)) cx v b = Ret (st, v2, cx2) /\
    ((st = WIKRT_CXFULL /\ v2 = v /\ same_store cx cx2 /\ cx_wf cx2) \/
     (st = WIKRT_OK /\ cx_wf cx2 /\ v2 <> v /\
      bigint_in_use cx2 v2 /\ bigint_in_use cx2 v /\
      int_value cx2 v2 = int_value cx v /\ int_value cx2 v = int_value cx v /\
      bigint_nDigits cx2 v2 = bigint_nDigits cx v /\
      bigint_nDigits cx2 v = bigint_nDigits cx v /\
      (wikrt_vaddr v2 + bigint_bytes (bigint_nDigits cx v) <= wikrt_vaddr v \/
       wikrt_vaddr v + bigint_bytes (bigint_nDigits cx v) <= wikrt_vaddr v2) /\
      ct_bytes_alloc cx2 =
        u64 (ct_bytes_alloc cx + bigint_bytes (bigint_nDigits cx v)) /\
      ct_bytes_freed cx2 = ct_bytes_freed cx)) /\
    (forall x, ~ cx_free cx x -> load8 (memory cx2) x = load8 (memory cx) x) /\
    (forall x, cx_free cx2 x -> cx_free cx x) /\
    (st = WIKRT_CXFULL -> ct_bytes_alloc cx2 = ct_bytes_alloc cx).
Proof.
  intros Hwf (Hr & Hb & Hok & Hbd & Hnf).
  destruct (is_bigint_parts _ _ Hb) as (Hi & Ht & Ha & Ho).
  destruct (bigint_szAlloc cx v) as (Esz & Rsz).
  destruct Hok as (H2 & Hdig).
  destruct (bigint_bytes_bounds cx v H2) as (M8 & Lsz & L12).
  pose proof (vaddr_aligned v Hr) as (Pa & Ma & _).
  assert (wikrt_copy_shallow v = false) as Hsh.
  { unfold wikrt_copy_shallow. rewrite Hi.
    destruct (Z.eqb_spec 0 (wikrt_vaddr v)); [congruence|reflexivity]. }
  unfold _wikrt_copy. cbn [copy_loop]. cbv zeta. cbn [ptr_read].
  rewrite Hsh, Ht, Ho.
  change (negb (WIKRT_O =? WIKRT_O)) with false.
  change ((WIKRT_OTAG_BIGINT =? WIKRT_OTAG_SEAL_SM)
          || (WIKRT_OTAG_BIGINT =? WIKRT_OTAG_DEEPSUM)) with false.
  change (WIKRT_OTAG_BIGINT =? WIKRT_OTAG_BLOCK) with false.
  change (WIKRT_OTAG_BIGINT =? WIKRT_OTAG_OPVAL) with false.
  change (WIKRT_OTAG_BIGINT =? WIKRT_OTAG_ARRAY) with false.
  change (WIKRT_OTAG_BIGINT =? WIKRT_OTAG_BIGINT) with true. cbv iota.
  change (Z.shiftr (pval_get cx (wikrt_vaddr v) 0) 9) with (bigint_nDigits cx v).
  rewrite Esz.
  destruct (wikrt_alloc cx (4 + 4 * bigint_nDigits cx v)) as [[c|] cx1] eqn:EA.
  - destruct (wikrt_alloc_some _ _ _ _ Hwf Rsz EA)
      as (W1 & (M1 & F1) & A1 & Pc & Mc & Bc & In1 & Fr1).
    fold (bigint_bytes (bigint_nDigits cx v)) in A1, Bc, In1.
    cbn [ptr_write]. rewrite copy_step_next_done.
    change (WIKRT_UNIT_INR =? WIKRT_UNIT_INR) with true. cbv iota.
    set (cx2 := set_memory cx1 _).
    exists WIKRT_OK, (wikrt_tag_addr WIKRT_O c), cx2. split; [reflexivity|].
    assert (forall x, ~ cx_free cx x ->
                      load8 (memory cx2) x = load8 (memory cx) x) as Km.
    { intros x Nx. unfold cx2, set_memory; cbn [memory].
      rewrite load8_memcpy_out; [rewrite M1; reflexivity|lia|].
      destruct (Z_lt_ge_dec x c) as [|G1]; [left; assumption|].
      destruct (Z_le_gt_dec (c + (4 + 4 * bigint_nDigits cx v)) x) as [|G2];
        [right; assumption|].
      exfalso. apply Nx. apply (In1 x). lia. }
    split; [|split; [exact Km|split; [exact Fr1|discriminate]]].
    right. split; [reflexivity|]. split; [exact W1|].
    assert (valid_addr c) as Vc by (unfold valid_addr; lia).
    assert (ptr_tag WIKRT_O) as PO by (left; reflexivity).
    pose proof (vaddr_tag_addr _ _ PO Vc) as Ec.
    assert (c <> wikrt_vaddr v) as Hne.
    { intros C. destruct (In1 c ltac:(lia)) as (Y & _).
      apply (Hnf c); [lia|exact Y]. }
    assert (forall x, wikrt_vaddr v <= x <
                      wikrt_vaddr v + bigint_bytes (bigint_nDigits cx v) ->
                      ~ (c <= x < c + bigint_bytes (bigint_nDigits cx v))) as Hap.
    { intros x Hx C. exact (Hnf x Hx (proj1 (In1 x C))). }
    assert (forall i, 0 <= i <= bigint_nDigits cx v ->
                      pval_get cx2 c i = pval_get cx (wikrt_vaddr v) i) as Wc.
    { intros i Hi'. apply pval_get_index_ext. intros k Hk.
      unfold cx2, set_memory; cbn [memory].
      rewrite <- !Z.add_assoc. rewrite load8_memcpy_in by lia.
      rewrite M1. reflexivity. }
    assert (forall i, 0 <= i <= bigint_nDigits cx v ->
                      pval_get cx2 (wikrt_vaddr v) i = pval_get cx (wikrt_vaddr v) i)
      as Wv.
    { intros i Hi'. apply pval_get_index_ext. intros k Hk.
      unfold cx2, set_memory; cbn [memory].
      rewrite load8_memcpy_out; [rewrite M1; reflexivity|lia|].
      pose proof (Hap (wikrt_vaddr v + 4 * i + k) ltac:(lia)). lia. }
    destruct (bigint_transfer cx v cx2 (wikrt_tag_addr WIKRT_O c) Hb
                (wikrt_i_tag_addr _ _ PO Vc) (vtag_tag_addr _ _ PO Vc))
      as (B2 & N2 & P2 & D2);
      [rewrite Ec; lia|rewrite Ec; exact Wc|].
    destruct (bigint_transfer cx v cx2 v Hb Hi Ht Ha Wv) as (B3 & N3 & P3 & D3).
    split.
    { intros C. apply Hne. rewrite <- Ec, C. reflexivity. }
    split.
    { split; [apply tag_addr_range; assumption|]. split; [exact B2|].
      split; [split; [rewrite N2; exact H2|rewrite D2; exact Hdig]|].
      rewrite N2, Ec. split; [exact Bc|].
      intros x Hx. exact (proj2 (In1 x Hx)). }
    split.
    { split; [exact Hr|]. split; [exact B3|].
      split; [split; [rewrite N3; exact H2|rewrite D3; exact Hdig]|].
      rewrite N3. split; [exact Hbd|].
      intros x Hx C. exact (Hnf x Hx (Fr1 x C)). }
    split; [apply int_value_transfer; assumption|].
    split; [apply int_value_transfer; assumption|].
    split; [exact N2|]. split; [exact N3|].
    split; [|split; [exact A1|exact F1]].
    rewrite Ec.
    destruct (Z_le_gt_dec (c + bigint_bytes (bigint_nDigits cx v)) (wikrt_vaddr v));
      [left; assumption|].
    destruct (Z_le_gt_dec (wikrt_vaddr v + bigint_bytes (bigint_nDigits cx v)) c);
      [right; assumption|].
    exfalso. apply (Hap (Z.max c (wikrt_vaddr v))); lia.
  - destruct (wikrt_alloc_none _ _ _ Hwf Rsz EA) as (W1 & S1 & A1 & Fr1).
    exists WIKRT_CXFULL, v, cx1. split; [reflexivity|].
    split; [left; auto|].
    split; [intros x _; rewrite (proj1 S1); reflexivity|].
    split; [exact Fr1|intros _; exact A1].
Qed.

Lemma copy_bigint_spec fuel b cx v :
  cx_wf cx -> bigint_in_use cx v ->
  exists st v2 cx2,
    _wikrt_copy (S (S fuel)) cx v b = Ret (st, v2, cx2) /\
    ((st = WIKRT_CXFULL /\ v2 = v /\ same_store cx cx2 /\ cx_wf cx2) \/
     (st = WIKRT_OK /\ cx_wf cx2 /\ v2 <> v /\
      bigint_in_use cx2 v2 /\ bigint_in_use cx2 v /\
      int_value cx2 v2 = int_value cx v /\ int_value cx2 v = int_value cx v /\
      bigint_nDigits cx2 v2 = bigint_nDigits cx v /\
      bigint_nDigits cx2 v = bigint_nDigits cx v /\
      (wikrt_vaddr v2 + bigint_bytes (bigint_nDigits cx v) <= wikrt_vaddr v \/
       wikrt_vaddr v + bigint_bytes (bigint_nDigits cx v) <= wikrt_vaddr v2) /\
      ct_bytes_alloc cx2 =
        u64 (ct_bytes_alloc cx + bigint_bytes (bigint_nDigits cx v)) /\
      ct_bytes_freed cx2 = ct_bytes_freed cx)).
Proof.
  intros Hwf Hu.
  destruct (copy_bigint_frame fuel b cx v Hwf Hu) as (st & v2 & cx2 & E & D & _).
  exists st, v2, cx2. split; assumption.
Qed.

(** Copying a big integer whose block is in use leaves every byte in use
    as it was, makes no byte free and frees nothing.  It either finds the
    context full, returning the value it was given with the allocation
    counter as it was, or returns a different object that is a big integer
    of the same value, the original being as it was; the copy costs the
    buffered size of the integer. *)
Theorem copy_bigint fuel b cx v :
  cx_wf cx -> bigint_in_use cx v ->
  exists st v2 cx2,
    _wikrt_copy (S (S fuel)) cx v b = Ret (st, v2, cx2) /\
    cx_wf cx2 /\
    (forall x, ~ cx_free cx x -> load8 (memory cx2) x = load8 (memory cx) x) /\
    (forall x, cx_free cx2 x -> cx_free cx x) /\
    ct_bytes_freed cx2 = ct_bytes_freed cx /\
    ((st = WIKRT_CXFULL /\ v2 = v /\ ct_bytes_alloc cx2 = ct_bytes_alloc cx) \/
     (st = WIKRT_OK /\ v2 <> v /\
      bigint_in_use cx2 v2 /\ bigint_in_use cx2 v /\
      int_value cx2 v2 = int_value cx v /\ int_value cx2 v = int_value cx v /\
      bigint_nDigits cx2 v2 = bigint_nDigits cx v /\
      bigint_nDigits cx2 v = bigint_nDigits cx v /\
      (wikrt_vaddr v2 + bigint_bytes (bigint_nDigits cx v) <= wikrt_vaddr v \/
       wikrt_vaddr v + bigint_bytes (bigint_nDigits cx v) <= wikrt_vaddr v2) /\
      ct_bytes_alloc cx2 =
        u64 (ct_bytes_alloc cx + bigint_bytes (bigint_nDigits cx v)))).
Proof.
  intros Hwf Hu.
  destruct (copy_bigint_frame fuel b cx v Hwf Hu)
    as (st & v2 & cx2 & E & D & Km & Fr & Ca).
  exists st, v2, cx2. split; [exact E|].
  destruct D as [(-> & -> & (M & F) & W)|
                 (-> & W & Hne & U2 & U1 & I2 & I1 & N2 & N1 & Ap & A & F)].
  - split; [exact W|]. split; [exact Km|]. split; [exact Fr|].
    split; [exact F|]. left. auto.
  - split; [exact W|]. split; [exact Km|]. split; [exact Fr|].
    split; [exact F|]. right. auto 12.
Qed.

Lemma drop_bigint_spec fuel b cx v :
  cx_wf cx -> bigint_in_use cx v ->
  let cx' := wikrt_free cx (4 + 4 * bigint_nDigits cx v) (wikrt_vaddr v) in
  _wikrt_drop (S (S fuel)) cx v b = Ret (WIKRT_OK, cx') /\
  cx_wf cx' /\ memory cx' = memory cx /\
  ct_bytes_alloc cx' = ct_bytes_alloc cx /\
  ct_bytes_freed cx' =
    u64 (ct_bytes_freed cx + bigint_bytes (bigint_nDigits cx v)).
Proof.
  intros Hwf (Hr & Hb & Hok & Hbd & Hnf). cbv zeta.
  destruct (is_bigint_parts _ _ Hb) as (Hi & Ht & Ha & Ho).
  destruct (bigint_szAlloc cx v) as (Esz & Rsz).
  pose proof (vaddr_aligned v Hr) as (Pa & Ma & _).
  assert (wikrt_copy_shallow v = false) as Hsh.
  { unfold wikrt_copy_shallow. rewrite Hi.
    destruct (Z.eqb_spec 0 (wikrt_vaddr v)); [congruence|reflexivity]. }
  split.
  - unfold _wikrt_drop. cbn [drop_loop]. cbv zeta.
    rewrite Hsh, Ht, Ho.
    change (negb (WIKRT_O =? WIKRT_O)) with false.
    change ((WIKRT_OTAG_BIGINT =? WIKRT_OTAG_SEAL_SM)
            || (WIKRT_OTAG_BIGINT =? WIKRT_OTAG_DEEPSUM)) with false.
    change (WIKRT_OTAG_BIGINT =? WIKRT_OTAG_BLOCK) with false.
    change (WIKRT_OTAG_BIGINT =? WIKRT_OTAG_OPVAL) with false.
    change (WIKRT_OTAG_BIGINT =? WIKRT_OTAG_ARRAY) with false.
    change (WIKRT_OTAG_BIGINT =? WIKRT_OTAG_BIGINT) with true. cbv iota.
    change (Z.shiftr (pval_get cx (wikrt_vaddr v) 0) 9) with (bigint_nDigits cx v).
    rewrite Esz, drop_step_next_done. reflexivity.
  - assert (0 < 4 + 4 * bigint_nDigits cx v < 2^31) as R31 by lia.
    assert (0 < wikrt_vaddr v) as Pv by lia.
    destruct (wikrt_free_block cx (4 + 4 * bigint_nDigits cx v) (wikrt_vaddr v)
                Hwf R31 Pv Ma Hbd Hnf) as (W & M & A & F & _).
    auto.
Qed.

(** Dropping a big integer whose block is in use succeeds: the bytes in
    use outside the block and the allocation counter stay, the count of
    bytes freed grows by the buffered size of the integer, and no byte
    outside the block becomes free. *)
Theorem drop_bigint fuel b cx v :
  cx_wf cx -> bigint_in_use cx v ->
  exists cx',
    _wikrt_drop (S (S fuel)) cx v b = Ret (WIKRT_OK, cx') /\
    cx_wf cx' /\
    (forall x, ~ cx_free cx x ->
               x < wikrt_vaddr v \/
               wikrt_vaddr v + bigint_bytes (bigint_nDigits cx v) <= x ->
               load8 (memory cx') x = load8 (memory cx) x) /\
    (forall x, cx_free cx' x ->
               cx_free cx x \/
               wikrt_vaddr v <= x
                 < wikrt_vaddr v + bigint_bytes (bigint_nDigits cx v)) /\
    ct_bytes_alloc cx' = ct_bytes_alloc cx /\
    ct_bytes_freed cx' =
      u64 (ct_bytes_freed cx + bigint_bytes (bigint_nDigits cx v)).
Proof.
  intros Hwf Hu.
  destruct (drop_bigint_spec fuel b cx v Hwf Hu) as (E & W & M & A & F).
  destruct Hu as (Hr & Hb & Hok & Hbd & Hnf).
  destruct (bigint_szAlloc cx v) as (Esz & Rsz).
  pose proof (vaddr_aligned v Hr) as (Pa & Ma & _).
  destruct (is_bigint_parts _ _ Hb) as (_ & _ & Ha & _).
  assert (0 < 4 + 4 * bigint_nDigits cx v < 2^31) as R31 by lia.
  assert (0 < wikrt_vaddr v) as Pv by lia.
  destruct (wikrt_free_block cx (4 + 4 * bigint_nDigits cx v) (wikrt_vaddr v)
              Hwf R31 Pv Ma Hbd Hnf) as (_ & _ & _ & _ & Fr).
  eexists. split; [exact E|]. split; [exact W|].
  split; [intros x _ _; rewrite M; reflexivity|].
  split; [exact Fr|]. split; [exact A|exact F].
Qed.

End BigintCopyClaims.

Section IntegerLifeCycle.
Context {FL : wikrt_flist}.

Lemma alloc_medint_block cx v p d0 d1 d2 v1 cx1 :
  cx_wf cx ->
  wikrt_alloc_medint cx v p d0 d1 d2 = (WIKRT_OK, v1, cx1) ->
  wikrt_vaddr v1 + 16 <= 2^32 /\
  (forall x, wikrt_vaddr v1 <= x < wikrt_vaddr v1 + 16 -> ~ cx_free cx1 x).
Proof.
  intros Hwf. unfold wikrt_alloc_medint.
  assert (0 < bigint_size 2 < 2^30) as S2 by (vm_compute; split; reflexivity).
  assert (0 < bigint_size 3 < 2^30) as S3 by (vm_compute; split; reflexivity).
  assert (ptr_tag WIKRT_O) as PO by (left; reflexivity).
  destruct (d2 =? 0).
  - destruct (wikrt_alloc cx (bigint_size 2)) as [[a|] c1] eqn:E; intros H;
      apply triple_inj in H; destruct H as (Hst & <- & <-); [|discriminate Hst].
    destruct (wikrt_alloc_some _ _ _ _ Hwf S2 E) as (_ & _ & _ & Ha & Hm & Hb & In & _).
    change (WIKRT_CELLBUFF (bigint_size 2)) with 16 in *.
    rewrite vaddr_tag_addr by (try assumption; unfold valid_addr; lia).
    split; [exact Hb|]. intros x Hx. exact (proj2 (In x Hx)).
  - destruct (wikrt_alloc cx (bigint_size 3)) as [[a|] c1] eqn:E; intros H;
      apply triple_inj in H; destruct H as (Hst & <- & <-); [|discriminate Hst].
    destruct (wikrt_alloc_some _ _ _ _ Hwf S3 E) as (_ & _ & _ & Ha & Hm & Hb & In & _).
    change (WIKRT_CELLBUFF (bigint_size 3)) with 16 in *.
    rewrite vaddr_tag_addr by (try assumption; unfold valid_addr; lia).
    split; [exact Hb|]. intros x Hx. exact (proj2 (In x Hx)).
Qed.

Lemma alloc_i64_in_use cx v n v1 cx1 :
  cx_wf cx -> INT64_MIN <= n <= INT64_MAX -> in_smallint n = false ->
  _wikrt_alloc_i64 cx v n = (WIKRT_OK, v1, cx1) ->
  bigint_in_use cx1 v1 /\ cx_wf cx1 /\ bigint_nDigits cx1 v1 <= 3 /\
  bigint_value cx1 v1 = n /\
  bigint_bytes (bigint_nDigits cx1 v1) = 16 /\
  ct_bytes_alloc cx1 = u64 (ct_bytes_alloc cx + 16) /\
  ct_bytes_freed cx1 = ct_bytes_freed cx.
Proof.
  intros Hwf Hn Hs E.
  destruct (alloc_i64_spec _ _ _ _ _ _ Hwf Hn E) as [(C & _)|(_ & M)];
    [discriminate|].
  destruct M as [(C & _)|(_ & W & A & F & Hr & _ & Hb & Hok & H23 & Hv)];
    [congruence|].
  assert (wikrt_vaddr v1 + 16 <= 2^32 /\
          (forall x, wikrt_vaddr v1 <= x < wikrt_vaddr v1 + 16 -> ~ cx_free cx1 x))
    as (Hb16 & Hnf).
  { unfold _wikrt_alloc_i64 in E. rewrite Hs in E.
    destruct (negb (n =? INT64_MIN)); exact (alloc_medint_block _ _ _ _ _ _ _ _ Hwf E). }
  assert (bigint_bytes (bigint_nDigits cx1 v1) = 16) as E16.
  { assert (bigint_nDigits cx1 v1 = 2 \/ bigint_nDigits cx1 v1 = 3) as [-> | ->]
        by lia; reflexivity. }
  split; [|split; [exact W|split; [lia|auto]]].
  split; [exact Hr|]. split; [exact Hb|]. split; [exact Hok|].
  rewrite E16. split; [exact Hb16|exact Hnf].
Qed.

Lemma bigint_in_use_peek_i64 cx v n :
  bigint_in_use cx v -> bigint_nDigits cx v <= 3 ->
  int_value cx v = Some n -> INT64_MIN <= n <= INT64_MAX ->
  _wikrt_peek_i64 cx v = (WIKRT_OK, n, cx).
Proof.
  intros (_ & Hb & Hok & _) H3 Hv Hn.
  rewrite int_value_bigint in Hv by assumption. injection Hv as Hv.
  rewrite peek_i64_bigint by assumption. rewrite Hv.
  destruct (Z.leb_spec (bigint_nDigits cx v) 3); [|lia].
  destruct (Z.leb_spec INT64_MIN n); [|lia].
  destruct (Z.leb_spec n INT64_MAX); [|lia]. reflexivity.
Qed.

Lemma u64_balance a f k :
  u64 (u64 (u64 (a + k) + k) - a) = u64 (u64 (u64 (f + k) + k) - f).
Proof.
  unfold u64.
  rewrite !Zplus_mod_idemp_l. rewrite !Zminus_mod_idemp_l.
  f_equal. lia.
Qed.

(** The life of an integer as the tests run it: after [_wikrt_alloc_i64]
    of [n], copying returns OK or CXFULL; after OK both the original and
    the copy read back as [n], both can be dropped, and then as many bytes
    have been freed as were allocated since the start. *)
Theorem i64_copy_peek_drop fuel b cx v n v1 cx1 :
  cx_wf cx -> INT64_MIN <= n <= INT64_MAX ->
  _wikrt_alloc_i64 cx v n = (WIKRT_OK, v1, cx1) ->
  exists st v2 cx2,
    _wikrt_copy (S (S fuel)) cx1 v1 b = Ret (st, v2, cx2) /\
    (st = WIKRT_OK \/ st = WIKRT_CXFULL) /\
    (st = WIKRT_OK ->
     _wikrt_peek_i64 cx2 v1 = (WIKRT_OK, n, cx2) /\
     _wikrt_peek_i64 cx2 v2 = (WIKRT_OK, n, cx2) /\
     exists cx3 cx4,
       _wikrt_drop (S (S fuel)) cx2 v2 b = Ret (WIKRT_OK, cx3) /\
       _wikrt_drop (S (S fuel)) cx3 v1 b = Ret (WIKRT_OK, cx4) /\
       cx_wf cx4 /\
       u64 (ct_bytes_alloc cx4 - ct_bytes_alloc cx)
       = u64 (ct_bytes_freed cx4 - ct_bytes_freed cx)).
Proof.
  intros Hwf Hn E. destruct (in_smallint n) eqn:Hs.
  - destruct (alloc_i64_spec _ _ _ _ _ _ Hwf Hn E) as [(C & _)|(_ & M)];
      [discriminate|].
    pose proof (int_made_peek_i64 _ _ _ _ Hn M) as Pk.
    destruct M as [(_ & -> & ->)|(C & _)]; [|congruence].
    apply smallint_range in Hs.
    assert (wikrt_copy_shallow (wikrt_i2v n) = true) as Sh
        by (apply copy_shallow_i2v; lia).
    destruct (copy_drop_shallow_spec (S fuel) b cx _ Sh) as (Ec & Ed).
    exists WIKRT_OK, (wikrt_i2v n), cx. split; [exact Ec|]. split; [auto|].
    intros _. split; [exact Pk|]. split; [exact Pk|].
    exists cx, cx. split; [exact Ed|]. split; [exact Ed|]. split; [exact Hwf|].
    rewrite !Z.sub_diag. reflexivity.
  - destruct (alloc_i64_in_use _ _ _ _ _ Hwf Hn Hs E)
      as (U1 & W1 & N1 & V1 & B1 & A1 & F1).
    destruct (copy_bigint_spec fuel b cx1 v1 W1 U1)
      as (st & v2 & cx2 & Ec & [(-> & _)|(-> & W2 & Ne & U2 & U2' & I2 & I2' & N2
                                           & N2' & Ap & A2 & F2)]).
    + exists WIKRT_CXFULL, v2, cx2. split; [exact Ec|]. split; [auto|]. discriminate.
    + exists WIKRT_OK, v2, cx2. split; [exact Ec|]. split; [auto|]. intros _.
      assert (int_value cx1 v1 = Some n) as Iv.
      { destruct U1 as (_ & Hb & _). rewrite int_value_bigint by assumption.
        rewrite V1. reflexivity. }
      split; [apply bigint_in_use_peek_i64; try assumption; [lia|congruence]|].
      split; [apply bigint_in_use_peek_i64; try assumption; [lia|congruence]|].
      destruct (drop_bigint_spec fuel b cx2 v2 W2 U2) as (Ed & W3 & M3 & A3 & F3).
      set (cx3 := wikrt_free cx2 _ (wikrt_vaddr v2)) in *.
      assert (bigint_in_use cx3 v1) as U3.
      { destruct U2' as (Hr & Hb & Hok & Hbd & Hnf).
        assert (forall i, pval_get cx3 (wikrt_vaddr v1) i
                          = pval_get cx2 (wikrt_vaddr v1) i) as Wd
            by (intros i; unfold pval_get; rewrite M3; reflexivity).
        destruct (is_bigint_parts _ _ Hb) as (Hi & Ht & Ha & _).
        destruct (bigint_transfer cx2 v1 cx3 v1 Hb Hi Ht Ha (fun i _ => Wd i))
          as (B3 & N3 & P3 & D3).
        split; [exact Hr|]. split; [exact B3|].
        split; [destruct Hok; split; [rewrite N3|rewrite D3]; assumption|].
        rewrite N3. split; [exact Hbd|].
        intros x Hx C.
        assert (cx_free cx2 x \/
                wikrt_vaddr v2 <= x < wikrt_vaddr v2
                  + bigint_bytes (bigint_nDigits cx2 v2)) as [C2|C2].
        { destruct U2 as (Hr2 & Hb2 & (H22 & _) & Hbd2 & Hnf2).
          pose proof (vaddr_aligned v2 Hr2) as (Pa & Ma & _).
          destruct (is_bigint_parts _ _ Hb2) as (_ & _ & Ha2 & _).
          destruct (bigint_szAlloc cx2 v2) as (_ & Rsz).
          assert (0 < 4 + 4 * bigint_nDigits cx2 v2 < 2^31) as R31 by lia.
          assert (0 < wikrt_vaddr v2) as Pv by lia.
          destruct (wikrt_free_block cx2 (4 + 4 * bigint_nDigits cx2 v2)
                      (wikrt_vaddr v2) W2 R31 Pv Ma Hbd2 Hnf2) as (_ & _ & _ & _ & Fr).
          exact (Fr x C). }
        - exact (Hnf x Hx C2).
        - rewrite N2 in C2. rewrite N2' in Hx. lia. }
      destruct (drop_bigint_spec fuel b cx3 v1 W3 U3) as (Ed' & W4 & M4 & A4 & F4).
      eexists cx3, _. split; [exact Ed|]. split; [exact Ed'|]. split; [exact W4|].
      assert (bigint_nDigits cx3 v1 = bigint_nDigits cx1 v1) as N31.
      { rewrite <- N2'. unfold bigint_nDigits, pval_get. rewrite M3. reflexivity. }
      assert (ct_bytes_alloc (wikrt_free cx3 (4 + 4 * bigint_nDigits cx3 v1)
                                         (wikrt_vaddr v1))
              = u64 (u64 (ct_bytes_alloc cx + 16) + 16)) as EA4.
      { rewrite A4, A3, A2, B1, A1. reflexivity. }
      assert (ct_bytes_freed (wikrt_free cx3 (4 + 4 * bigint_nDigits cx3 v1)
                                         (wikrt_vaddr v1))
              = u64 (u64 (ct_bytes_freed cx + 16) + 16)) as EF4.
      { rewrite F4, N31, B1, F3, N2, B1, F2, F1. reflexivity. }
      rewrite EA4, EF4. apply u64_balance.
Qed.

End IntegerLifeCycle.

Lemma alloc_2p31 :
  _wikrt_alloc_i64 cx0 WIKRT_VOID 2147483648 = (WIKRT_OK, v_2p31, cx_2p31).
Proof.
  unfold v_2p31, cx_2p31.
  destruct (_wikrt_alloc_i64 cx0 WIKRT_VOID 2147483648) as [[st v'] cx'] eqn:E.
  assert (st = WIKRT_OK) as ->.
  { apply (f_equal (fun r => fst (fst r))) in E. vm_compute in E. congruence. }
  reflexivity.
Qed.

Lemma in_use_2p31 : cx_wf cx_2p31 /\ bigint_in_use cx_2p31 v_2p31.
Proof.
  assert (INT64_MIN <= 2147483648 <= INT64_MAX) as Hn
      by (unfold INT64_MIN, INT64_MAX; lia).
  assert (in_smallint 2147483648 = false) as Hs by (vm_compute; reflexivity).
  destruct (alloc_i64_in_use cx0 WIKRT_VOID 2147483648 v_2p31 cx_2p31
              cx0_wf Hn Hs alloc_2p31) as (U & W & _).
  split; assumption.
Qed.

Lemma copy_bigint_witness :
  exists st v2 cx2, _wikrt_copy 2 cx_2p31 v_2p31 false = Ret (st, v2, cx2).
Proof.
  destruct (copy_bigint 0 false cx_2p31 v_2p31 (proj1 in_use_2p31) (proj2 in_use_2p31))
    as (st & v2 & cx2 & E & _).
  exists st, v2, cx2. exact E.
Defined.

Lemma drop_bigint_witness :
  exists cx', _wikrt_drop 2 cx_2p31 v_2p31 false = Ret (WIKRT_OK, cx').
Proof.
  destruct (drop_bigint 0 false cx_2p31 v_2p31
              (proj1 in_use_2p31) (proj2 in_use_2p31)) as (cx' & E & _).
  exists cx'. exact E.
Defined.

Lemma i64_copy_peek_drop_witness :
  exists st v2 cx2,
    _wikrt_copy 2 cx_2p31 v_2p31 true = Ret (st, v2, cx2) /\
    (st = WIKRT_OK \/ st = WIKRT_CXFULL).
Proof.
  assert (INT64_MIN <= 2147483648 <= INT64_MAX) as Hn
      by (unfold INT64_MIN, INT64_MAX; lia).
  destruct (i64_copy_peek_drop 0 true cx0 WIKRT_VOID 2147483648 v_2p31 cx_2p31
              cx0_wf Hn alloc_2p31) as (st & v2 & cx2 & E & S & _).
  exists st, v2, cx2. split; assumption.
Defined.

(** ** Integers as decimal strings (wikrt.c) *)

(** The [do ... while(n > 0)] loop of [wikrt_decimal_size]. *)
Fixpoint decimal_size_loop (fuel : nat) (n ct : Z) : run Z :=
  match fuel with
  | O => OutOfFuel
  | S fuel' =>
      let ct := ct + 1 in
      let n := cdiv n 10 in
      if 0 <? n then decimal_size_loop fuel' n ct else Ret ct
  end.

(** Every iteration divides the 32-bit [n] by ten, so ten are enough. *)
Definition wikrt_decimal_size (n : Z) : run Z := decimal_size_loop 10 n 0.

(** [WD(n)]: [*(--s) = '0' + n % 10; n /= 10], the buffer position [s]
    being an index. *)
Definition istr_WD (st : list Z * Z * Z) : list Z * Z * Z :=
  let '(buff, s, n) := st in
  let s := s - 1 in
  (buf_set buff (Z.to_nat s) (48 + cmod n 10), s, cdiv n 10).

Fixpoint istr_WD_times (k : nat) (st : list Z * Z * Z) : list Z * Z * Z :=
  match k with
  | O => st
  | S k' => istr_WD_times k' (istr_WD st)
  end.

Section PeekIstr.
Context {FL : wikrt_flist}.

(** The [for] loop over the inner digits [d[ii]], nine characters each. *)
Fixpoint istr_inner (ct : nat) (cx : wikrt_cx) (d ii : Z) (buff : list Z) (s : Z)
  : list Z * Z :=
  match ct with
  | O => (buff, s)
  | S ct' =>
      let n := load32 (memory cx) (d + 4 * ii) in
      let '(buff1, s1, _) := istr_WD_times 9 (buff, s, n) in
      istr_inner ct' cx d (ii + 1) buff1 s1
  end.

(** The [do { WD(upperDigit); } while(0 != upperDigit)] loop. *)
Fixpoint istr_upper (fuel : nat) (buff : list Z) (s n : Z) : run (list Z * Z) :=
  match fuel with
  | O => OutOfFuel
  | S fuel' =>
      let '(buff1, s1, n1) := istr_WD (buff, s, n) in
      if negb (0 =? n1) then istr_upper fuel' buff1 s1 n1 else Ret (buff1, s1)
  end.

(** The part of [_wikrt_peek_istr] after the sign and digits are found:
    the size check and the writing.  Result: status, the buffer,
    [*buffsz]. *)
Definition peek_istr_write (cx : wikrt_cx) (buff : list Z) (buffsz_avail : Z)
           (positive : bool) (upperDigit innerDigitCt d : Z)
  : run (wikrt_err * list Z * Z) :=
  match wikrt_decimal_size upperDigit with
  | Ret dsz =>
      let buffsz_min := (if positive then 0 else 1) + dsz + u32 (9 * innerDigitCt) in
      if buffsz_avail <? buffsz_min then Ret (WIKRT_BUFFSZ, buff, buffsz_min)
      else
        let s := buffsz_min in
        let '(buff1, s1) := istr_inner (Z.to_nat innerDigitCt) cx d 0 buff s in
        match istr_upper 10 buff1 s1 upperDigit with
        | Ret (buff2, s2) =>
            let buff3 :=
              if positive then buff2 else buf_set buff2 (Z.to_nat (s2 - 1)) 45 in
            Ret (WIKRT_OK, buff3, buffsz_min)
        | Aborted => Aborted
        | OutOfFuel => OutOfFuel
        end
  | Aborted => Aborted
  | OutOfFuel => OutOfFuel
  end.

Definition _wikrt_peek_istr (cx : wikrt_cx) (v : wikrt_val) (buff : list Z) (buffsz : Z)
  : run (wikrt_err * list Z * Z) :=
  if wikrt_i v then
    let i := wikrt_v2i v in
    let positive := 0 <=? i in
    peek_istr_write cx buff buffsz positive (u32 (if positive then i else - i)) 0 0
  else
    let tag := wikrt_vtag v in
    let addr := wikrt_vaddr v in
    let pv0 := pval_get cx addr 0 in
    let isBigInt := (WIKRT_O =? tag) && negb (0 =? addr) && wikrt_otag_bigint pv0 in
    if negb isBigInt then Ret (WIKRT_TYPE_ERROR, buff, buffsz)
    else
      let d := addr + 4 in
      let positive := 0 =? Z.land (Z.shiftl 1 8) pv0 in
      let innerDigitCt := u32 (Z.shiftr pv0 9 - 1) in
      let upperDigit := load32 (memory cx) (d + 4 * innerDigitCt) in
      peek_istr_write cx buff buffsz positive upperDigit innerDigitCt d.

End PeekIstr.

(** The decimal digits of [n], most significant first, as characters: a
    fixed number of them, and as many as [n] needs. *)
Fixpoint dec_fixed (k : nat) (n : Z) : list Z :=
  match k with
  | O => []
  | S k' => dec_fixed k' (n / 10) ++ [48 + n mod 10]
  end.

Fixpoint dec_var (fuel : nat) (n : Z) : list Z :=
  match fuel with
  | O => []
  | S fuel' =>
      (if 0 <? n / 10 then dec_var fuel' (n / 10) else []) ++ [48 + n mod 10]
  end.

(** The number a string of digit characters reads as. *)
Definition digits_value (cs : list Z) : Z :=
  fold_left (fun a c => 10 * a + (c - 48)) cs 0.

Definition is_digit (c : Z) : Prop := 48 <= c <= 57.

(** The integer a decimal string with an optional minus sign reads as. *)
Definition istr_value (cs : list Z) : Z :=
  match cs with
  | c :: r => if c =? 45 then - digits_value r else digits_value cs
  | [] => 0
  end.

Lemma cdiv_nonneg n : 0 <= n -> cdiv n 10 = n / 10 /\ cmod n 10 = n mod 10.
Proof.
  intros H. unfold cdiv, cmod.
  split; [apply Z.quot_div_nonneg; lia|apply Z.rem_mod_nonneg; lia].
Qed.

Lemma decimal_size_loop_spec fuel : forall n ct,
  (0 < fuel)%nat -> 0 <= n < 10 ^ Z.of_nat fuel ->
  decimal_size_loop fuel n ct = Ret (ct + Z.of_nat (length (dec_var fuel n))) /\
  (1 <= length (dec_var fuel n) <= fuel)%nat /\
  n < 10 ^ Z.of_nat (length (dec_var fuel n)) /\
  (0 < n -> 10 ^ (Z.of_nat (length (dec_var fuel n)) - 1) <= n).
Proof.
  induction fuel as [|f IH]; intros n ct Hf Hn; [lia|].
  - cbn [decimal_size_loop dec_var].
    destruct (cdiv_nonneg n ltac:(lia)) as (-> & _).
    rewrite Nat2Z.inj_succ, Z.pow_succ_r in Hn by lia.
    assert (0 <= n / 10 < 10 ^ Z.of_nat f) as Hq.
    { split; [apply Z.div_pos; lia|apply Z.div_lt_upper_bound; lia]. }
    destruct (Z.ltb_spec 0 (n / 10)) as [Hp|Hz].
    + assert (0 < f)%nat as Hf'.
      { destruct f; [change (10 ^ Z.of_nat 0) with 1 in Hq; lia|lia]. }
      destruct (IH (n / 10) (ct + 1) Hf' Hq) as (E & L & U & Lo).
      rewrite E, length_app. cbn [length].
      split; [f_equal; lia|]. split; [lia|].
      replace (Z.of_nat (length (dec_var f (n / 10)) + 1))
        with (Z.succ (Z.of_nat (length (dec_var f (n / 10))))) by lia.
      rewrite Z.pow_succ_r by lia.
      split; [Z.div_mod_to_equations; lia|]. intros _.
      replace (Z.succ (Z.of_nat (length (dec_var f (n / 10)))) - 1)
        with (Z.succ (Z.of_nat (length (dec_var f (n / 10))) - 1)) by lia.
      rewrite Z.pow_succ_r by lia. specialize (Lo Hp).
      Z.div_mod_to_equations. lia.
    + cbn [app length]. split; [f_equal; lia|]. split; [lia|].
      change (10 ^ Z.of_nat 1) with 10. change (10 ^ (Z.of_nat 1 - 1)) with 1.
      Z.div_mod_to_equations. lia.
Qed.

(** [wikrt_decimal_size] returns, for every 32-bit [n], the number of
    decimal digits of [n]: between one and ten, the least [k] with
    [n < 10^k]. *)
Theorem decimal_size_digits n :
  0 <= n < 2^32 ->
  exists k, wikrt_decimal_size n = Ret k /\ 1 <= k <= 10 /\
            n < 10 ^ k /\ (0 < n -> 10 ^ (k - 1) <= n).
Proof.
  intros Hn. unfold wikrt_decimal_size.
  assert (0 <= n < 10 ^ Z.of_nat 10) as Hn' by (change (10 ^ Z.of_nat 10) with 10000000000; lia).
  destruct (decimal_size_loop_spec 10 n 0 ltac:(lia) Hn') as (E & L & U & Lo).
  exists (Z.of_nat (length (dec_var 10 n))). rewrite E.
  split; [reflexivity|]. split; [lia|]. split; assumption.
Qed.

Lemma decimal_size_digits_witness :
  exists k, wikrt_decimal_size 4294967295 = Ret k /\ 1 <= k <= 10 /\
            4294967295 < 10 ^ k /\ (0 < 4294967295 -> 10 ^ (k - 1) <= 4294967295).
Proof.
  assert (0 <= 4294967295 < 2^32) as H by lia.
  exact (decimal_size_digits 4294967295 H).
Defined.

(** *** Writing digits backwards *)

Lemma buf_set_mid l1 x l2 c : buf_set (l1 ++ x :: l2) (length l1) c = l1 ++ c :: l2.
Proof. induction l1 as [|y l1 IH]; cbn; [reflexivity|]. rewrite IH. reflexivity. Qed.

Lemma buf_set_len b : forall i c, length (buf_set b i c) = length b.
Proof.
  induction b as [|x b IH]; intros i c; [reflexivity|].
  destruct i; cbn; [reflexivity|]. rewrite IH. reflexivity.
Qed.

Lemma istr_WD_step x P W n :
  0 <= n ->
  istr_WD (rev (x :: P) ++ W, Z.of_nat (length (x :: P)), n)
  = (rev P ++ (48 + n mod 10) :: W, Z.of_nat (length P), n / 10).
Proof.
  intros Hn. unfold istr_WD. destruct (cdiv_nonneg n Hn) as (-> & ->).
  cbn [length rev]. rewrite <- app_assoc. cbn [app].
  replace (Z.to_nat (Z.of_nat (S (length P)) - 1)) with (length (rev P))
    by (rewrite length_rev; lia).
  rewrite buf_set_mid. f_equal. f_equal. lia.
Qed.

Lemma istr_WD_times_spec k : forall P W n,
  0 <= n -> (k <= length P)%nat ->
  istr_WD_times k (rev P ++ W, Z.of_nat (length P), n)
  = (rev (skipn k P) ++ dec_fixed k n ++ W, Z.of_nat (length (skipn k P)),
     n / 10 ^ Z.of_nat k).
Proof.
  induction k as [|k IH]; intros P W n Hn Hk.
  - cbn. rewrite Z.div_1_r. reflexivity.
  - destruct P as [|x P]; [cbn in Hk; lia|]. cbn [istr_WD_times].
    rewrite istr_WD_step by assumption.
    rewrite IH by (try (apply Z.div_pos; lia); cbn in Hk; lia).
    cbn [skipn dec_fixed]. rewrite <- !app_assoc. cbn [app].
    f_equal. rewrite Nat2Z.inj_succ, Z.pow_succ_r by lia.
    rewrite Z.div_div by lia. reflexivity.
Qed.

Section IstrLoops.
Context {FL : wikrt_flist}.

(** The characters the inner loop leaves, in reading order. *)
Fixpoint inner_str (ct : nat) (cx : wikrt_cx) (d ii : Z) : list Z :=
  match ct with
  | O => []
  | S ct' =>
      inner_str ct' cx d (ii + 1) ++ dec_fixed 9 (load32 (memory cx) (d + 4 * ii))
  end.

Lemma istr_inner_spec ct : forall cx d ii P W,
  (9 * ct <= length P)%nat ->
  istr_inner ct cx d ii (rev P ++ W) (Z.of_nat (length P))
  = (rev (skipn (9 * ct) P) ++ inner_str ct cx d ii ++ W,
     Z.of_nat (length (skipn (9 * ct) P))).
Proof.
  induction ct as [|ct IH]; intros cx d ii P W Hl.
  - cbn. reflexivity.
  - cbn [istr_inner inner_str].
    rewrite istr_WD_times_spec by (try apply load32_range; lia).
    rewrite IH by (rewrite length_skipn; lia).
    rewrite skipn_skipn. replace (9 * ct + 9)%nat with (9 * S ct)%nat by lia.
    rewrite <- !app_assoc. reflexivity.
Qed.

End IstrLoops.

Lemma istr_upper_spec fuel : forall n P W,
  (0 < fuel)%nat -> 0 <= n < 10 ^ Z.of_nat fuel ->
  (length (dec_var fuel n) <= length P)%nat ->
  istr_upper fuel (rev P ++ W) (Z.of_nat (length P)) n
  = Ret (rev (skipn (length (dec_var fuel n)) P) ++ dec_var fuel n ++ W,
         Z.of_nat (length (skipn (length (dec_var fuel n)) P))).
Proof.
  induction fuel as [|f IH]; intros n P W Hf Hn Hl; [lia|].
  cbn [dec_var] in *. rewrite length_app in Hl. cbn [length] in Hl.
  destruct P as [|x P]; [cbn in Hl; lia|].
  cbn [istr_upper]. rewrite istr_WD_step by lia.
  rewrite Nat2Z.inj_succ, Z.pow_succ_r in Hn by lia.
  assert (0 <= n / 10 < 10 ^ Z.of_nat f) as Hq.
  { split; [apply Z.div_pos; lia|apply Z.div_lt_upper_bound; lia]. }
  rewrite length_app. cbn [length].
  destruct (Z.ltb_spec 0 (n / 10)) as [Hp|Hz].
  - destruct (Z.eqb_spec 0 (n / 10)); [lia|]. cbn [negb].
    assert (0 < f)%nat as Hf'.
    { destruct f; [change (10 ^ Z.of_nat 0) with 1 in Hq; lia|lia]. }
    rewrite IH by (try assumption; cbn [length] in Hl; lia).
    rewrite Nat.add_1_r. cbn [skipn]. rewrite <- !app_assoc. reflexivity.
  - destruct (Z.eqb_spec 0 (n / 10)); [|lia]. cbn [negb length app skipn].
    reflexivity.
Qed.

(** *** Reading digits *)

Lemma fold_digits_app a b acc :
  fold_left (fun x c => 10 * x + (c - 48)) (a ++ b) acc
  = fold_left (fun x c => 10 * x + (c - 48)) b
      (fold_left (fun x c => 10 * x + (c - 48)) a acc).
Proof. apply fold_left_app. Qed.

Lemma fold_digits_acc b : forall acc,
  fold_left (fun x c => 10 * x + (c - 48)) b acc
  = acc * 10 ^ Z.of_nat (length b) + fold_left (fun x c => 10 * x + (c - 48)) b 0.
Proof.
  induction b as [|c b IH]; intros acc.
  - cbn. lia.
  - cbn [fold_left length]. rewrite IH. rewrite (IH (10 * 0 + (c - 48))).
    rewrite Nat2Z.inj_succ, Z.pow_succ_r by lia. lia.
Qed.

Lemma digits_value_app a b :
  digits_value (a ++ b)
  = digits_value a * 10 ^ Z.of_nat (length b) + digits_value b.
Proof. unfold digits_value. rewrite fold_digits_app. apply fold_digits_acc. Qed.

Lemma dec_fixed_spec k : forall n,
  0 <= n ->
  length (dec_fixed k n) = k /\ Forall is_digit (dec_fixed k n) /\
  digits_value (dec_fixed k n) = n mod 10 ^ Z.of_nat k.
Proof.
  induction k as [|k IH]; intros n Hn.
  - cbn. split; [reflexivity|]. split; [constructor|]. rewrite Z.mod_1_r. reflexivity.
  - cbn [dec_fixed]. destruct (IH (n / 10) ltac:(apply Z.div_pos; lia)) as (L & D & V).
    split; [rewrite length_app, L; cbn; lia|]. split.
    + apply Forall_app. split; [exact D|]. constructor; [|constructor].
      unfold is_digit. pose proof (Z.mod_pos_bound n 10). lia.
    + rewrite digits_value_app, V. cbn [length].
      change (10 ^ Z.of_nat 1) with 10. unfold digits_value. cbn [fold_left].
      rewrite Nat2Z.inj_succ, Z.pow_succ_r by lia.
      assert (0 < 10 ^ Z.of_nat k) as Hp by (apply Z.pow_pos_nonneg; lia).
      rewrite Z.rem_mul_r by lia. lia.
Qed.

Lemma dec_var_spec fuel : forall n,
  (0 < fuel)%nat -> 0 <= n < 10 ^ Z.of_nat fuel ->
  Forall is_digit (dec_var fuel n) /\ digits_value (dec_var fuel n) = n /\
  dec_var fuel n <> [].
Proof.
  induction fuel as [|f IH]; intros n Hf Hn; [lia|].
  cbn [dec_var]. rewrite Nat2Z.inj_succ, Z.pow_succ_r in Hn by lia.
  assert (0 <= n / 10 < 10 ^ Z.of_nat f) as Hq.
  { split; [apply Z.div_pos; lia|apply Z.div_lt_upper_bound; lia]. }
  assert (is_digit (48 + n mod 10)) as Hd.
  { unfold is_digit. pose proof (Z.mod_pos_bound n 10). lia. }
  split; [|split].
  - apply Forall_app. split; [|constructor; [exact Hd|constructor]].
    destruct (Z.ltb_spec 0 (n / 10)) as [Hp|Hz]; [|constructor].
    assert (0 < f)%nat as Hf'.
    { destruct f; [change (10 ^ Z.of_nat 0) with 1 in Hq; lia|lia]. }
    exact (proj1 (IH _ Hf' Hq)).
  - rewrite digits_value_app. cbn [length]. change (10 ^ Z.of_nat 1) with 10.
    unfold digits_value at 2. cbn [fold_left].
    destruct (Z.ltb_spec 0 (n / 10)) as [Hp|Hz].
    + assert (0 < f)%nat as Hf'.
      { destruct f; [change (10 ^ Z.of_nat 0) with 1 in Hq; lia|lia]. }
      destruct (IH _ Hf' Hq) as (_ & V & _). rewrite V.
      Z.div_mod_to_equations. lia.
    + unfold digits_value. cbn [fold_left]. Z.div_mod_to_equations. lia.
  - intros C. apply app_eq_nil in C. destruct C as (_ & C). discriminate C.
Qed.

Section IstrProps.
Context {FL : wikrt_flist}.

Lemma inner_str_spec ct : forall cx d ii,
  (forall j, (j < ct)%nat ->
             load32 (memory cx) (d + 4 * (ii + Z.of_nat j)) < WIKRT_BIGINT_DIGIT) ->
  length (inner_str ct cx d ii) = (9 * ct)%nat /\
  Forall is_digit (inner_str ct cx d ii) /\
  digits_value (inner_str ct cx d ii)
  = le_value (map (fun j => load32 (memory cx) (d + 4 * (ii + Z.of_nat j))) (seq 0 ct)).
Proof.
  induction ct as [|ct IH]; intros cx d ii Hd.
  - cbn. split; [reflexivity|]. split; [constructor|reflexivity].
  - cbn [inner_str].
    destruct (IH cx d (ii + 1)) as (L & D & V).
    { intros j Hj. replace (ii + 1 + Z.of_nat j) with (ii + Z.of_nat (S j)) by lia.
      apply Hd. lia. }
    pose proof (load32_range (memory cx) (d + 4 * ii)) as Hr.
    destruct (dec_fixed_spec 9 (load32 (memory cx) (d + 4 * ii)) ltac:(lia))
      as (L9 & D9 & V9).
    split; [rewrite length_app, L, L9; lia|].
    split; [apply Forall_app; split; assumption|].
    rewrite digits_value_app, V, V9, L9.
    cbn [seq map le_value]. rewrite <- seq_shift, map_map.
    replace (ii + Z.of_nat 0) with ii by lia.
    specialize (Hd 0%nat ltac:(lia)). replace (ii + Z.of_nat 0) with ii in Hd by lia.
    change (10 ^ Z.of_nat 9) with 1000000000. unfold WIKRT_BIGINT_DIGIT in *.
    rewrite Z.mod_small by lia.
    rewrite (map_ext (fun x => load32 (memory cx) (d + 4 * (ii + Z.of_nat (S x))))
                     (fun j => load32 (memory cx) (d + 4 * (ii + 1 + Z.of_nat j)))).
    + lia.
    + intros j. f_equal. lia.
Qed.

Lemma peek_istr_write_spec cx buff avail (positive : bool) up ct d :
  0 <= up < 2^32 -> 0 <= ct < 2^23 -> 0 <= avail <= Z.of_nat (length buff) ->
  let m := ((if positive then O else S O) + length (dec_var 10 up)
            + 9 * Z.to_nat ct)%nat in
  (avail < Z.of_nat m ->
   peek_istr_write cx buff avail positive up ct d
   = Ret (WIKRT_BUFFSZ, buff, Z.of_nat m)) /\
  (Z.of_nat m <= avail ->
   peek_istr_write cx buff avail positive up ct d
   = Ret (WIKRT_OK,
          (if positive then [] else [45]) ++ dec_var 10 up
            ++ inner_str (Z.to_nat ct) cx d 0 ++ skipn m buff,
          Z.of_nat m)).
Proof.
  intros Hu Hc Ha. cbv zeta.
  assert (0 <= up < 10 ^ Z.of_nat 10) as Hu'
      by (change (10 ^ Z.of_nat 10) with 10000000000; lia).
  destruct (decimal_size_loop_spec 10 up 0 ltac:(lia) Hu') as (E & L & _).
  set (ds := length (dec_var 10 up)) in *.
  set (sg := if positive then O else S O).
  assert ((if positive then 0 else 1) + (0 + Z.of_nat ds) + u32 (9 * ct)
          = Z.of_nat (sg + ds + 9 * Z.to_nat ct)) as Em.
  { rewrite u32_small by lia. subst sg. destruct positive; lia. }
  unfold peek_istr_write, wikrt_decimal_size. rewrite E. cbv zeta. rewrite Em.
  set (m := (sg + ds + 9 * Z.to_nat ct)%nat) in *.
  split; intros Hm.
  - destruct (Z.ltb_spec avail (Z.of_nat m)); [reflexivity|lia].
  - destruct (Z.ltb_spec avail (Z.of_nat m)); [lia|].
    set (P := rev (firstn m buff)). set (W := skipn m buff).
    assert (length P = m) as LP.
    { unfold P. rewrite length_rev, length_firstn. lia. }
    assert (buff = rev P ++ W) as EB.
    { unfold P, W. rewrite rev_involutive, firstn_skipn. reflexivity. }
    rewrite EB at 1. rewrite <- LP at 1.
    rewrite istr_inner_spec by lia.
    set (P1 := skipn (9 * Z.to_nat ct) P).
    assert (length P1 = (sg + ds)%nat) as LP1.
    { unfold P1. rewrite length_skipn. lia. }
    rewrite istr_upper_spec by (try assumption; fold ds; lia).
    fold ds. set (P2 := skipn ds P1).
    assert (length P2 = sg) as LP2.
    { unfold P2. rewrite length_skipn. lia. }
    unfold sg in *. destruct positive.
    + destruct P2; [|discriminate LP2]. reflexivity.
    + destruct P2 as [|x [|y P2]]; try discriminate LP2.
      cbn [length rev app]. change (Z.to_nat (Z.of_nat 1 - 1)) with 0%nat.
      reflexivity.
Qed.

End IstrProps.

Lemma le_value_app a b :
  le_value (a ++ b)
  = le_value a + WIKRT_BIGINT_DIGIT ^ Z.of_nat (length a) * le_value b.
Proof.
  induction a as [|x a IH]; [cbn [app length le_value]; lia|].
  cbn [app length le_value]. rewrite IH, Nat2Z.inj_succ, Z.pow_succ_r by lia. lia.
Qed.

Lemma istr_value_digits c r :
  is_digit c -> istr_value (c :: r) = digits_value (c :: r).
Proof.
  intros H. unfold istr_value, is_digit in *.
  destruct (Z.eqb_spec c 45); [lia|reflexivity].
Qed.

Section IstrClaims.
Context {FL : wikrt_flist}.

(** [_wikrt_peek_istr] on a value that is no integer is a type error that
    leaves buffer and size alone.  On an integer [n] (a small one, or a big
    one with every digit below 10^9) the size reported is that of a
    decimal string: an optional minus sign and at least one digit, which
    read as [n].  With less room than that the call returns BUFFSZ and the
    buffer is untouched; otherwise it returns OK with the string at the
    start of the buffer and the rest of the buffer as it was. *)
Theorem peek_istr_decimal cx v buff buffsz :
  0 <= v < 2^32 -> 0 <= buffsz <= Z.of_nat (length buff) ->
  (int_value cx v = None ->
   _wikrt_peek_istr cx v buff buffsz = Ret (WIKRT_TYPE_ERROR, buff, buffsz)) /\
  (forall n, int_value cx v = Some n ->
     (wikrt_i v = false -> bigint_ok cx v) ->
     exists sign digs,
       (sign = [] \/ sign = [45]) /\ digs <> [] /\ Forall is_digit digs /\
       istr_value (sign ++ digs) = n /\
       (buffsz < Z.of_nat (length (sign ++ digs)) ->
        _wikrt_peek_istr cx v buff buffsz
        = Ret (WIKRT_BUFFSZ, buff, Z.of_nat (length (sign ++ digs)))) /\
       (Z.of_nat (length (sign ++ digs)) <= buffsz ->
        _wikrt_peek_istr cx v buff buffsz
        = Ret (WIKRT_OK, sign ++ digs ++ skipn (length (sign ++ digs)) buff,
               Z.of_nat (length (sign ++ digs))))).
Proof.
  intros Hv Hb. split.
  - unfold int_value, _wikrt_peek_istr. destruct (wikrt_i v) eqn:Hi; [discriminate|].
    destruct (is_bigint cx v) eqn:Hbig; [discriminate|]. intros _.
    unfold is_bigint in Hbig. rewrite Hi in Hbig. cbn [negb andb] in Hbig.
    cbv zeta. rewrite Hbig. reflexivity.
  - intros n Hn Hok. unfold int_value in Hn. unfold _wikrt_peek_istr.
    destruct (wikrt_i v) eqn:Hi.
    + injection Hn as <-. pose proof (v2i_range v Hv) as Hr.
      cbv zeta. set (n := wikrt_v2i v) in *.
      set (positive := 0 <=? n).
      assert (u32 (if positive then n else - n) = Z.abs n) as Eu.
      { subst positive. destruct (Z.leb_spec 0 n); rewrite u32_small; lia. }
      rewrite Eu.
      assert (0 <= Z.abs n < 2^32) as Ru by lia.
      assert (0 <= Z.abs n < 10 ^ Z.of_nat 10) as Ru'
          by (change (10 ^ Z.of_nat 10) with 10000000000; lia).
      destruct (dec_var_spec 10 (Z.abs n) ltac:(lia) Ru') as (Dd & Dv & Dn).
      destruct (peek_istr_write_spec cx buff buffsz positive (Z.abs n) 0 0 Ru
                  ltac:(lia) Hb) as (W1 & W2).
      change (Z.to_nat 0) with 0%nat in W1, W2. cbn [inner_str app] in W2.
      rewrite Nat.mul_0_r, Nat.add_0_r in W1, W2.
      exists (if positive then [] else [45]), (dec_var 10 (Z.abs n)).
      assert (length ((if positive then [] else [45]) ++ dec_var 10 (Z.abs n))
              = ((if positive then O else S O) + length (dec_var 10 (Z.abs n)))%nat)
        as El by (rewrite length_app; destruct positive; reflexivity).
      rewrite El.
      split; [destruct positive; auto|]. split; [exact Dn|]. split; [exact Dd|].
      split; [|split; assumption].
      subst positive. destruct (Z.leb_spec 0 n).
      * cbn [app]. destruct (dec_var 10 (Z.abs n)) as [|c r] eqn:Ed; [congruence|].
        rewrite istr_value_digits by exact (Forall_inv Dd). lia.
      * cbn [app istr_value]. rewrite Z.eqb_refl, Dv. lia.
    + destruct (is_bigint cx v) eqn:Hbig; [|discriminate]. injection Hn as Hn.
      destruct (is_bigint_parts _ _ Hbig) as (_ & Ht & Ha & Ho).
      destruct (Hok eq_refl) as (H2 & Hd).
      pose proof (nDigits_bound cx v) as Hnd.
      cbv zeta. rewrite Ht.
      change (WIKRT_O =? WIKRT_O) with true.
      destruct (Z.eqb_spec 0 (wikrt_vaddr v)); [congruence|].
      unfold wikrt_otag_bigint. rewrite Ho.
      change (WIKRT_OTAG_BIGINT =? WIKRT_OTAG_BIGINT) with true. cbn [negb andb].
      change (Z.shiftr (pval_get cx (wikrt_vaddr v) 0) 9) with (bigint_nDigits cx v).
      change (0 =? Z.land (Z.shiftl 1 8) (pval_get cx (wikrt_vaddr v) 0))
        with (bigint_positive cx v).
      set (nD := bigint_nDigits cx v) in *.
      rewrite (u32_small (nD - 1)) by lia.
      set (ct := Z.to_nat (nD - 1)).
      set (a := wikrt_vaddr v) in *.
      set (up := load32 (memory cx) (a + 4 + 4 * (nD - 1))).
      assert (bigint_digits cx v
              = map (fun j => load32 (memory cx) (a + 4 + 4 * (0 + Z.of_nat j)))
                    (seq 0 ct) ++ [up]) as ED.
      { unfold bigint_digits. fold nD. fold a.
        replace (Z.to_nat nD) with (S ct) by (subst ct; lia).
        rewrite seq_S, map_app. cbn [map Nat.add]. f_equal.
        - apply map_ext. intros j. unfold pval_get. f_equal. lia.
        - unfold pval_get, up. f_equal. f_equal. subst ct. lia. }
      rewrite ED in Hd. apply Forall_app in Hd. destruct Hd as (Hdi & Hdu).
      pose proof (Forall_inv Hdu) as Hup. cbv beta in Hup.
      pose proof (load32_range (memory cx) (a + 4 + 4 * (nD - 1))) as Rup.
      fold up in Rup.
      assert (0 <= up < 10 ^ Z.of_nat 10) as Ru'
          by (change (10 ^ Z.of_nat 10) with 10000000000;
              unfold WIKRT_BIGINT_DIGIT in Hup; lia).
      destruct (dec_var_spec 10 up ltac:(lia) Ru') as (Dd & Dv & Dn).
      destruct (inner_str_spec ct cx (a + 4) 0) as (Li & Di & Vi).
      { intros j Hj. rewrite Forall_forall in Hdi. apply Hdi.
        apply in_map_iff. exists j. split; [reflexivity|]. apply in_seq. lia. }
      destruct (peek_istr_write_spec cx buff buffsz (bigint_positive cx v) up (nD - 1)
                  (a + 4) Rup ltac:(lia) Hb) as (W1 & W2).
      fold ct in W1, W2.
      exists (if bigint_positive cx v then [] else [45]),
             (dec_var 10 up ++ inner_str ct cx (a + 4) 0).
      assert (length ((if bigint_positive cx v then [] else [45])
                      ++ dec_var 10 up ++ inner_str ct cx (a + 4) 0)
              = ((if bigint_positive cx v then O else S O)
                 + length (dec_var 10 up) + 9 * ct)%nat) as El.
      { rewrite !length_app, Li. destruct (bigint_positive cx v); cbn [length]; lia. }
      rewrite El. rewrite <- !app_assoc.
      split; [destruct (bigint_positive cx v); auto|].
      split; [intros C; apply app_eq_nil in C; destruct C; contradiction|].
      split; [apply Forall_app; split; assumption|].
      split; [|split; assumption].
      assert (digits_value (dec_var 10 up ++ inner_str ct cx (a + 4) 0)
              = le_value (bigint_digits cx v)) as EV.
      { rewrite digits_value_app, Dv, Vi, Li, ED, le_value_app, length_map, length_seq.
        cbn [le_value]. unfold WIKRT_BIGINT_DIGIT.
        replace (Z.of_nat (9 * ct)) with (9 * Z.of_nat ct) by lia.
        rewrite Z.pow_mul_r by lia. change (10 ^ 9) with 1000000000. lia. }
      rewrite <- Hn. destruct (bigint_positive cx v).
      * cbn [app]. destruct (dec_var 10 up) as [|c r] eqn:Ed; [congruence|].
        cbn [app] in *.
        rewrite istr_value_digits by exact (Forall_inv Dd). exact EV.
      * cbn [app istr_value]. rewrite Z.eqb_refl, EV. reflexivity.
Qed.

End IstrClaims.

Lemma peek_istr_decimal_witness :
  exists sign digs,
    istr_value (sign ++ digs) = 2147483648 /\
    (Z.of_nat (length (sign ++ digs)) <= 12 ->
     _wikrt_peek_istr cx_2p31 v_2p31 (repeat 0 12) 12
     = Ret (WIKRT_OK, sign ++ digs ++ skipn (length (sign ++ digs)) (repeat 0 12),
            Z.of_nat (length (sign ++ digs)))).
Proof.
  assert (0 <= v_2p31 < 2^32) as Hr by (vm_compute; split; congruence).
  assert (0 <= 12 <= Z.of_nat (length (repeat 0 12))) as Hb by (cbn; lia).
  assert (int_value cx_2p31 v_2p31 = Some 2147483648) as HV by (vm_compute; reflexivity).
  assert (wikrt_i v_2p31 = false -> bigint_ok cx_2p31 v_2p31) as Hok.
  { intros _. split; [vm_compute; congruence|].
    assert (bigint_digits cx_2p31 v_2p31 = [147483648; 2]) as D
      by (vm_compute; reflexivity).
    rewrite D.
    repeat (apply Forall_cons; [unfold WIKRT_BIGINT_DIGIT; lia|]). apply Forall_nil. }
  destruct (peek_istr_decimal cx_2p31 v_2p31 (repeat 0 12) 12 Hr Hb) as (_ & H).
  destruct (H 2147483648 HV Hok) as (sign & digs & _ & _ & _ & V & _ & W).
  exists sign, digs. split; [exact V|exact W].
Defined.

(** ** Medium integers and value words *)

Section MedintRoundTrip.
Context {FL : wikrt_flist}.

Lemma medint_words a (positive : bool) nD :
  valid_addr a -> a + 16 <= 2^32 -> nD = 2 \/ nD = 3 ->
  forall cxf,
    pval_get cxf a 0 = wikrt_mkotag_bigint positive nD ->
    is_bigint cxf (wikrt_tag_addr WIKRT_O a) = true /\
    bigint_nDigits cxf (wikrt_tag_addr WIKRT_O a) = nD /\
    bigint_positive cxf (wikrt_tag_addr WIKRT_O a) = positive.
Proof.
  intros Va Hb HnD cxf G0.
  assert (ptr_tag WIKRT_O) as PO by (left; reflexivity).
  unfold is_bigint, bigint_nDigits, bigint_positive.
  rewrite wikrt_i_tag_addr, vtag_tag_addr, vaddr_tag_addr, G0 by assumption.
  destruct Va as (Pa & _).
  replace (0 =? a) with false by (symmetry; apply Z.eqb_neq; lia).
  destruct HnD as [-> | ->]; destruct positive; repeat split; reflexivity.
Qed.

(** Three 32-bit digits and a sign stored by [wikrt_alloc_medint] are the
    ones [wikrt_peek_medint] reads back (the third digit, when zero, is not
    stored: two digits are).  On a small integer [wikrt_peek_medint]
    gives the sign and the two digits of the magnitude in base 10^9. *)
Theorem medint_round_trip cx v positive d0 d1 d2 st v' cx' :
  cx_wf cx -> 0 <= d0 < 2^32 -> 0 <= d1 < 2^32 -> 0 <= d2 < 2^32 ->
  wikrt_alloc_medint cx v positive d0 d1 d2 = (st, v', cx') ->
  (st = WIKRT_OK \/ (st = WIKRT_CXFULL /\ v' = v)) /\
  (st = WIKRT_OK ->
   wikrt_peek_medint cx' v' = (WIKRT_OK, positive, d0, d1, d2)) /\
  (forall n, - 2^30 < n < 2^30 ->
     wikrt_peek_medint cx (wikrt_i2v n)
     = (WIKRT_OK, 0 <=? n, Z.abs n mod WIKRT_BIGINT_DIGIT,
        Z.abs n / WIKRT_BIGINT_DIGIT, 0)).
Proof.
  intros Hwf R0 R1 R2 E. split; [|split].
  - unfold wikrt_alloc_medint in E.
    destruct (d2 =? 0);
      match type of E with
      | context [wikrt_alloc cx ?s] => destruct (wikrt_alloc cx s) as [[a|] c1]
      end; apply triple_inj in E; destruct E as (<- & <- & _); auto.
  - intros ->. unfold wikrt_alloc_medint in E.
    assert (0 < bigint_size 2 < 2^30) as S2 by (vm_compute; split; reflexivity).
    assert (0 < bigint_size 3 < 2^30) as S3 by (vm_compute; split; reflexivity).
    destruct (Z.eqb_spec d2 0) as [Z2|Z2].
    + destruct (wikrt_alloc cx (bigint_size 2)) as [[a|] c1] eqn:EA;
        apply triple_inj in E; destruct E as (Hst & <- & <-); [|discriminate Hst].
      destruct (wikrt_alloc_some _ _ _ _ Hwf S2 EA) as (_ & _ & _ & Ha & Hm & Hb & _).
      change (WIKRT_CELLBUFF (bigint_size 2)) with 16 in Hb.
      assert (valid_addr a) as Va by (unfold valid_addr; lia).
      set (cxf := pval_set _ a 2 d1).
      assert (pval_get cxf a 0 = wikrt_mkotag_bigint positive 2) as G0.
      { unfold cxf. rewrite !pval_get_set_other by lia. rewrite pval_get_set_same.
        apply u32_small. destruct positive; vm_compute; split; congruence. }
      destruct (medint_words a positive 2 Va Hb (or_introl eq_refl) cxf G0)
        as (B & N & P).
      rewrite peek_medint_bigint by exact B. rewrite N, P.
      rewrite vaddr_tag_addr by (try assumption; left; reflexivity).
      unfold cxf. rewrite pval_get_set_same, pval_get_set_other, pval_get_set_same by lia.
      rewrite !u32_small by lia. subst d2. reflexivity.
    + destruct (wikrt_alloc cx (bigint_size 3)) as [[a|] c1] eqn:EA;
        apply triple_inj in E; destruct E as (Hst & <- & <-); [|discriminate Hst].
      destruct (wikrt_alloc_some _ _ _ _ Hwf S3 EA) as (_ & _ & _ & Ha & Hm & Hb & _).
      change (WIKRT_CELLBUFF (bigint_size 3)) with 16 in Hb.
      assert (valid_addr a) as Va by (unfold valid_addr; lia).
      set (cxf := pval_set _ a 3 d2).
      assert (pval_get cxf a 0 = wikrt_mkotag_bigint positive 3) as G0.
      { unfold cxf. rewrite !pval_get_set_other by lia. rewrite pval_get_set_same.
        apply u32_small. destruct positive; vm_compute; split; congruence. }
      destruct (medint_words a positive 3 Va Hb (or_intror eq_refl) cxf G0)
        as (B & N & P).
      rewrite peek_medint_bigint by exact B. rewrite N, P.
      rewrite vaddr_tag_addr by (try assumption; left; reflexivity).
      unfold cxf.
      rewrite pval_get_set_same.
      rewrite (pval_get_set_other _ a 3 d2 a 2) by lia. rewrite pval_get_set_same.
      rewrite (pval_get_set_other _ a 3 d2 a 1) by lia.
      rewrite (pval_get_set_other _ a 2 d1 a 1) by lia. rewrite pval_get_set_same.
      rewrite !u32_small by lia. reflexivity.
  - intros n Hn. unfold wikrt_peek_medint.
    rewrite wikrt_i_i2v, v2i_i2v by lia.
    destruct (Z.leb_spec 0 n) as [Hp|Hneg].
    + unfold cmod, cdiv, WIKRT_BIGINT_DIGIT.
      rewrite Z.rem_mod_nonneg, Z.quot_div_nonneg by lia.
      rewrite Z.abs_eq by lia.
      rewrite !u32_small; [reflexivity| |];
        (Z.div_mod_to_equations; lia).
    + rewrite i32_small by lia. unfold cmod, cdiv, WIKRT_BIGINT_DIGIT.
      rewrite Z.rem_mod_nonneg, Z.quot_div_nonneg by lia.
      rewrite Z.abs_neq by lia.
      rewrite !u32_small; [reflexivity| |];
        (Z.div_mod_to_equations; lia).
Qed.

End MedintRoundTrip.

Lemma medint_round_trip_witness :
  exists v' cx',
    wikrt_alloc_medint cx0 WIKRT_VOID false 5 6 7 = (WIKRT_OK, v', cx') /\
    wikrt_peek_medint cx' v' = (WIKRT_OK, false, 5, 6, 7).
Proof.
  destruct (wikrt_alloc_medint cx0 WIKRT_VOID false 5 6 7) as [[st v'] cx'] eqn:E.
  assert (st = WIKRT_OK) as Hst.
  { apply (f_equal (fun r => fst (fst r))) in E. vm_compute in E. congruence. }
  assert (0 <= 5 < 2^32) as R5 by lia.
  assert (0 <= 6 < 2^32) as R6 by lia.
  assert (0 <= 7 < 2^32) as R7 by lia.
  destruct (medint_round_trip cx0 WIKRT_VOID false 5 6 7 st v' cx' cx0_wf R5 R6 R7 E)
    as (_ & H & _).
  exists v', cx'. subst st. split; [reflexivity|exact (H eq_refl)].
Defined.

(** Value words (wikrt.h): a tag and a cell-aligned address are read back
    from the word that packs them, and such a word is never taken for a
    small integer; a small integer is read back from its word, which is
    never taken for a tagged address. *)
Theorem value_word_round_trip :
  (forall t a, ptr_tag t -> aligned_addr a ->
     wikrt_vtag (wikrt_tag_addr t a) = t /\
     wikrt_vaddr (wikrt_tag_addr t a) = a /\
     wikrt_i (wikrt_tag_addr t a) = false) /\
  (forall n, WIKRT_SMALLINT_MIN <= n <= WIKRT_SMALLINT_MAX ->
     wikrt_i (wikrt_i2v n) = true /\ wikrt_v2i (wikrt_i2v n) = n /\
     0 <= wikrt_i2v n < 2^32 /\
     forall t a, ptr_tag t -> aligned_addr a -> wikrt_tag_addr t a <> wikrt_i2v n).
Proof.
  split.
  - intros t a Ht Ha.
    pose proof (vtag_tag_addr_al t a Ht Ha) as E.
    split; [exact E|]. split; [apply vaddr_tag_addr_al; assumption|].
    apply ptr_tag_not_i. rewrite E. exact Ht.
  - intros n Hn. unfold WIKRT_SMALLINT_MIN, WIKRT_SMALLINT_MAX in Hn.
    change (Z.shiftl 1 30) with (2^30) in Hn.
    pose proof (wikrt_i_i2v n ltac:(lia)) as Hi.
    split; [exact Hi|]. split; [apply v2i_i2v; lia|]. split; [apply i2v_range|].
    intros t a Ht Ha C.
    pose proof (vtag_tag_addr_al t a Ht Ha) as E.
    assert (wikrt_i (wikrt_tag_addr t a) = false) as F
        by (apply ptr_tag_not_i; rewrite E; exact Ht).
    rewrite C in F. congruence.
Qed.

Lemma value_word_round_trip_witness :
  wikrt_vtag (wikrt_tag_addr WIKRT_PL 4096) = WIKRT_PL /\
  wikrt_v2i (wikrt_i2v (-5)) = -5.
Proof.
  destruct value_word_round_trip as (A & B).
  assert (ptr_tag WIKRT_PL) as Ht by (right; right; left; reflexivity).
  assert (aligned_addr 4096) as Ha by (vm_compute; repeat split; congruence).
  assert (WIKRT_SMALLINT_MIN <= -5 <= WIKRT_SMALLINT_MAX) as Hn
      by (vm_compute; split; congruence).
  split; [exact (proj1 (A WIKRT_PL 4096 Ht Ha))|exact (proj1 (proj2 (B (-5) Hn)))].
Defined.

(** * The register table (wikrt_reg.c) *)

(** A table of registers: open addressing with linear probing.  The two
    arrays behind [rtb->ids] and [rtb->data] are separate objects of the
    context; they are modelled as maps from slot index to element.  A
    slot is empty when its data word is zero.  The integer types
    [wikrt_r] and [wikrt_z] come from a header that is not among the
    sources: their moduli [MR] and [MZ] are parameters. *)
Record wikrt_rtb : Type := mk_rtb {
  rtb_ids : Z -> Z;
  rtb_data : Z -> Z;
  rtb_size : Z;
  rtb_fill : Z
}.

Definition arr_set (f : Z -> Z) (i v : Z) : Z -> Z :=
  fun x => if x =? i then v else f x.

Section RegTable.
Variables MR MZ : Z.

(** The [do ... while(1)] loop of [rtb_index], from slot [ix]. *)
Fixpoint rtb_index_loop (fuel : nat) (rtb : wikrt_rtb) (r ix : Z) : run Z :=
  match fuel with
  | O => OutOfFuel
  | S fuel' =>
      let matched := (r =? rtb_ids rtb ix) || (0 =? rtb_data rtb ix) in
      if matched then Ret ix
      else rtb_index_loop fuel' rtb r (((ix + 1) mod MZ) mod rtb_size rtb)
  end.

Definition rtb_index (fuel : nat) (rtb : wikrt_rtb) (r : Z) : run Z :=
  rtb_index_loop fuel rtb r (((r * 4567) mod MR) mod rtb_size rtb).

(** The second loop of [rtb_clear]: shift entries that collided into the
    emptied slot. *)
Fixpoint rtb_clear_loop (fuel ifuel : nat) (rtb : wikrt_rtb) (ix : Z) : run wikrt_rtb :=
  match fuel with
  | O => OutOfFuel
  | S fuel' =>
      let ix := ((ix + 1) mod MZ) mod rtb_size rtb in
      if 0 =? rtb_data rtb ix then Ret rtb
      else
        match rtb_index ifuel rtb (rtb_ids rtb ix) with
        | Ret new_ix =>
            if negb (new_ix =? ix) then
              let ids1 := arr_set (rtb_ids rtb) new_ix (rtb_ids rtb ix) in
              let data1 := arr_set (rtb_data rtb) new_ix (rtb_data rtb ix) in
              let data2 := arr_set data1 ix 0 in
              rtb_clear_loop fuel' ifuel
                (mk_rtb ids1 data2 (rtb_size rtb) (rtb_fill rtb)) ix
            else rtb_clear_loop fuel' ifuel rtb ix
        | Aborted => Aborted
        | OutOfFuel => OutOfFuel
        end
  end.

(** [rtb_clear] and [rtb_write]; a failed [assert] is [Aborted]. *)
Definition rtb_clear (fuel : nat) (rtb : wikrt_rtb) (r : Z) : run wikrt_rtb :=
  if 0 =? rtb_size rtb then Aborted
  else
    match rtb_index fuel rtb r with
    | Ret ix =>
        if 0 =? rtb_data rtb ix then Ret rtb
        else
          let rtb1 := mk_rtb (rtb_ids rtb) (arr_set (rtb_data rtb) ix 0)
                             (rtb_size rtb) ((rtb_fill rtb - 1) mod MZ) in
          rtb_clear_loop fuel fuel rtb1 ix
    | Aborted => Aborted
    | OutOfFuel => OutOfFuel
    end.

Definition rtb_write (fuel : nat) (rtb : wikrt_rtb) (r v : Z) : run wikrt_rtb :=
  if negb (rtb_size rtb >? rtb_fill rtb) then Aborted
  else
    match rtb_index fuel rtb r with
    | Ret ix =>
        if 0 =? rtb_data rtb ix then
          Ret (mk_rtb (arr_set (rtb_ids rtb) ix r) (arr_set (rtb_data rtb) ix v)
                      (rtb_size rtb) ((rtb_fill rtb + 1) mod MZ))
        else
          Ret (mk_rtb (rtb_ids rtb) (arr_set (rtb_data rtb) ix v)
                      (rtb_size rtb) (rtb_fill rtb))
    | Aborted => Aborted
    | OutOfFuel => OutOfFuel
    end.

(** [wikrt_reg_set] and [wikrt_reg_get] on the table of the context. *)
Definition wikrt_reg_set (fuel : nat) (rtb : wikrt_rtb) (r v : Z) : run wikrt_rtb :=
  if 0 =? v then rtb_clear fuel rtb r else rtb_write fuel rtb r v.

Definition wikrt_reg_get (fuel : nat) (rtb : wikrt_rtb) (r : Z) : run Z :=
  match rtb_index fuel rtb r with
  | Ret ix => Ret (rtb_data rtb ix)
  | Aborted => Aborted
  | OutOfFuel => OutOfFuel
  end.

(** *** The probing invariant *)

Definition rtb_hash (rtb : wikrt_rtb) (r : Z) : Z :=
  ((r * 4567) mod MR) mod rtb_size rtb.

Definition rtb_slot (rtb : wikrt_rtb) (h j : Z) : Z := (h + j) mod rtb_size rtb.

Definition rtb_stop (rtb : wikrt_rtb) (r i : Z) : bool :=
  (r =? rtb_ids rtb i) || (0 =? rtb_data rtb i).

(** Every entry is reached from the slot its register hashes to without
    crossing an empty slot or a slot of the same register, and there is an
    empty slot. *)
Definition rtb_inv (rtb : wikrt_rtb) : Prop :=
  0 < rtb_size rtb < MZ /\
  (exists e, 0 <= e < rtb_size rtb /\ rtb_data rtb e = 0) /\
  forall i, 0 <= i < rtb_size rtb -> rtb_data rtb i <> 0 ->
    forall j, 0 <= j < (i - rtb_hash rtb (rtb_ids rtb i)) mod rtb_size rtb ->
      rtb_stop rtb (rtb_ids rtb i) (rtb_slot rtb (rtb_hash rtb (rtb_ids rtb i)) j)
      = false.

(** What the table maps a register to: its data word, or zero. *)
Definition rtb_maps (rtb : wikrt_rtb) (r x : Z) : Prop :=
  (x <> 0 /\ exists i, 0 <= i < rtb_size rtb /\ rtb_ids rtb i = r /\ rtb_data rtb i = x)
  \/ (x = 0 /\ forall i, 0 <= i < rtb_size rtb -> rtb_data rtb i <> 0 ->
                         rtb_ids rtb i <> r).

End RegTable.

Section RegProps.
Variables MR MZ : Z.

Lemma rtb_hash_range rtb r : 0 < rtb_size rtb -> 0 <= rtb_hash MR rtb r < rtb_size rtb.
Proof. intros H. unfold rtb_hash. apply Z.mod_pos_bound. exact H. Qed.

Lemma rtb_slot_range rtb h j : 0 < rtb_size rtb -> 0 <= rtb_slot rtb h j < rtb_size rtb.
Proof. intros H. unfold rtb_slot. apply Z.mod_pos_bound. exact H. Qed.

Lemma rtb_slot_0 rtb h : 0 <= h < rtb_size rtb -> rtb_slot rtb h 0 = h.
Proof. intros H. unfold rtb_slot. rewrite Z.add_0_r. apply Z.mod_small. exact H. Qed.

Lemma rtb_slot_next rtb h j :
  0 < rtb_size rtb < MZ ->
  ((rtb_slot rtb h j + 1) mod MZ) mod rtb_size rtb = rtb_slot rtb h (j + 1).
Proof.
  intros H. pose proof (rtb_slot_range rtb h j ltac:(lia)) as R.
  rewrite (Z.mod_small (_ + 1) MZ) by lia.
  unfold rtb_slot. rewrite Zplus_mod_idemp_l. f_equal. lia.
Qed.

Lemma rtb_slot_back rtb h i :
  0 <= i < rtb_size rtb -> rtb_slot rtb h ((i - h) mod rtb_size rtb) = i.
Proof.
  intros H. unfold rtb_slot. rewrite Zplus_mod_idemp_r.
  replace (h + (i - h)) with i by lia. apply Z.mod_small. exact H.
Qed.

Lemma rtb_slot_inj rtb h j1 j2 :
  0 <= j1 < rtb_size rtb -> 0 <= j2 < rtb_size rtb ->
  rtb_slot rtb h j1 = rtb_slot rtb h j2 -> j1 = j2.
Proof.
  unfold rtb_slot. intros H1 H2 E.
  assert ((j1 - j2) mod rtb_size rtb = 0) as D.
  { replace (j1 - j2) with ((h + j1) - (h + j2)) by lia.
    rewrite Zminus_mod, E, Z.sub_diag. apply Z.mod_0_l. lia. }
  apply Z.mod_divide in D; [|lia]. destruct D as (q & D).
  assert (q = 0) by nia. lia.
Qed.

Lemma rtb_slot_add rtb h j k :
  rtb_slot rtb (rtb_slot rtb h j) k = rtb_slot rtb h (j + k).
Proof. unfold rtb_slot. rewrite Zplus_mod_idemp_l. f_equal. lia. Qed.

(** The loop of [rtb_index] stops at the first slot, in probing order,
    that holds the register or is empty. *)
Lemma rtb_index_loop_run k : forall fuel rtb r h j,
  0 < rtb_size rtb < MZ ->
  (forall j', j <= j' < j + Z.of_nat k ->
              rtb_stop rtb r (rtb_slot rtb h j') = false) ->
  rtb_stop rtb r (rtb_slot rtb h (j + Z.of_nat k)) = true ->
  (k < fuel)%nat ->
  rtb_index_loop MZ fuel rtb r (rtb_slot rtb h j)
  = Ret (rtb_slot rtb h (j + Z.of_nat k)).
Proof.
  induction k as [|k IH]; intros fuel rtb r h j Hn Hb Hs Hf;
    (destruct fuel as [|fuel]; [lia|]); cbn [rtb_index_loop].
  - rewrite Z.add_0_r in Hs. unfold rtb_stop in Hs. rewrite Hs.
    rewrite Z.add_0_r. reflexivity.
  - pose proof (Hb j ltac:(lia)) as H0. unfold rtb_stop in H0. rewrite H0.
    rewrite rtb_slot_next by assumption.
    rewrite (IH fuel rtb r h (j + 1)); try assumption.
    + f_equal. f_equal. lia.
    + intros j' Hj'. apply Hb. lia.
    + replace (j + 1 + Z.of_nat k) with (j + Z.of_nat (S k)) by lia. exact Hs.
    + lia.
Qed.

Lemma first_stop rtb r h (k : nat) :
  rtb_stop rtb r (rtb_slot rtb h (Z.of_nat k)) = true ->
  exists k0, (k0 <= k)%nat /\
    rtb_stop rtb r (rtb_slot rtb h (Z.of_nat k0)) = true /\
    forall j, 0 <= j < Z.of_nat k0 -> rtb_stop rtb r (rtb_slot rtb h j) = false.
Proof.
  induction k as [|k IH]; intros Hs.
  - exists 0%nat. split; [lia|]. split; [exact Hs|]. intros j Hj. lia.
  - destruct (rtb_stop rtb r (rtb_slot rtb h (Z.of_nat k))) eqn:Ek.
    + destruct (IH eq_refl) as (k0 & L & S0 & B). exists k0. split; [lia|]. auto.
    + clear IH.
      assert (forall m : nat, (m <= S k)%nat ->
                (exists k0, (k0 < m)%nat /\
                   rtb_stop rtb r (rtb_slot rtb h (Z.of_nat k0)) = true /\
                   forall j, 0 <= j < Z.of_nat k0 ->
                             rtb_stop rtb r (rtb_slot rtb h j) = false)
                \/ (forall j, 0 <= j < Z.of_nat m ->
                              rtb_stop rtb r (rtb_slot rtb h j) = false)) as Hm.
      { induction m as [|m IHm]; intros Lm.
        - right. intros j Hj. lia.
        - destruct (IHm ltac:(lia)) as [(k0 & L0 & S0 & B0)|Hall].
          + left. exists k0. split; [lia|]. auto.
          + destruct (rtb_stop rtb r (rtb_slot rtb h (Z.of_nat m))) eqn:Em.
            * left. exists m. split; [lia|]. auto.
            * right. intros j Hj.
              destruct (Z.eq_dec j (Z.of_nat m)) as [->|]; [exact Em|].
              apply Hall. lia. }
      destruct (Hm (S k) ltac:(lia)) as [(k0 & L0 & S0 & B0)|Hall].
      * exists k0. split; [lia|]. auto.
      * exists (S k). split; [lia|]. split; [exact Hs|exact Hall].
Qed.

(** [rtb_index] returns, with the table's size as bound on the iterations:
    the slot is in the table, it holds the register or is empty, and no
    slot probed before it does. *)
Lemma rtb_index_total fuel rtb r :
  rtb_inv MR MZ rtb -> (Z.to_nat (rtb_size rtb) <= fuel)%nat ->
  exists j0, 0 <= j0 < rtb_size rtb /\
    rtb_index MR MZ fuel rtb r = Ret (rtb_slot rtb (rtb_hash MR rtb r) j0) /\
    rtb_stop rtb r (rtb_slot rtb (rtb_hash MR rtb r) j0) = true /\
    forall j, 0 <= j < j0 -> rtb_stop rtb r (rtb_slot rtb (rtb_hash MR rtb r) j) = false.
Proof.
  intros (Hn & (e & He & De) & _) Hf.
  pose proof (rtb_hash_range rtb r ltac:(lia)) as Hh.
  set (h := rtb_hash MR rtb r) in *.
  set (ke := Z.to_nat ((e - h) mod rtb_size rtb)).
  pose proof (Z.mod_pos_bound (e - h) (rtb_size rtb) ltac:(lia)) as Hke.
  assert (rtb_stop rtb r (rtb_slot rtb h (Z.of_nat ke)) = true) as Se.
  { unfold ke. rewrite Z2Nat.id by lia. rewrite rtb_slot_back by assumption.
    unfold rtb_stop. rewrite De. apply orb_true_r. }
  destruct (first_stop rtb r h ke Se) as (k0 & L0 & S0 & B0).
  exists (Z.of_nat k0). split; [lia|]. split; [|split; assumption].
  unfold rtb_index. fold (rtb_hash MR rtb r). fold h.
  rewrite <- (rtb_slot_0 rtb h Hh) at 1.
  assert (rtb_index_loop MZ fuel rtb r (rtb_slot rtb h 0)
          = Ret (rtb_slot rtb h (0 + Z.of_nat k0))) as E.
  { apply rtb_index_loop_run; [exact Hn| |exact S0|lia].
    intros j' Hj'. apply B0. lia. }
  rewrite E. reflexivity.
Qed.

End RegProps.

Section RegLookup.
Variables MR MZ : Z.

Lemma rtb_slot_index rtb h j :
  0 <= h < rtb_size rtb -> 0 <= j < rtb_size rtb ->
  (rtb_slot rtb h j - h) mod rtb_size rtb = j.
Proof.
  intros Hh Hj. apply (rtb_slot_inj rtb h).
  - apply Z.mod_pos_bound. lia.
  - exact Hj.
  - apply rtb_slot_back. apply rtb_slot_range. lia.
Qed.

Lemma rtb_stop_false rtb r i :
  rtb_stop rtb r i = false <-> rtb_ids rtb i <> r /\ rtb_data rtb i <> 0.
Proof.
  unfold rtb_stop. rewrite orb_false_iff, !Z.eqb_neq. intuition congruence.
Qed.

(** A register that is in the table is found at its slot. *)
Lemma rtb_index_present fuel rtb r i :
  rtb_inv MR MZ rtb -> (Z.to_nat (rtb_size rtb) <= fuel)%nat ->
  0 <= i < rtb_size rtb -> rtb_data rtb i <> 0 -> rtb_ids rtb i = r ->
  rtb_index MR MZ fuel rtb r = Ret i.
Proof.
  intros Hinv Hf Hi Hd Hr.
  destruct (rtb_index_total MR MZ fuel rtb r Hinv Hf) as (j0 & Hj0 & E & S0 & B0).
  destruct Hinv as (Hn & _ & H3).
  pose proof (rtb_hash_range MR rtb r ltac:(lia)) as Hh.
  set (h := rtb_hash MR rtb r) in *.
  set (ji := (i - h) mod rtb_size rtb).
  pose proof (Z.mod_pos_bound (i - h) (rtb_size rtb) ltac:(lia)) as Hji. fold ji in Hji.
  assert (rtb_slot rtb h ji = i) as Ei by (apply rtb_slot_back; exact Hi).
  assert (j0 = ji) as ->.
  { destruct (Z.lt_trichotomy j0 ji) as [L|[L|L]]; [|exact L|].
    - specialize (H3 i Hi Hd). rewrite Hr in H3. fold h in H3. fold ji in H3.
      rewrite (H3 j0 ltac:(lia)) in S0. discriminate S0.
    - specialize (B0 ji ltac:(lia)). rewrite Ei in B0.
      apply rtb_stop_false in B0. tauto. }
  rewrite E, Ei. reflexivity.
Qed.

(** What [wikrt_reg_get] returns is what the table maps the register to. *)
Lemma rtb_get_maps fuel rtb r :
  rtb_inv MR MZ rtb -> (Z.to_nat (rtb_size rtb) <= fuel)%nat ->
  exists x, wikrt_reg_get MR MZ fuel rtb r = Ret x /\ rtb_maps rtb r x.
Proof.
  intros Hinv Hf.
  destruct (rtb_index_total MR MZ fuel rtb r Hinv Hf) as (j0 & Hj0 & E & S0 & B0).
  pose proof Hinv as (Hn & _ & _).
  set (ix := rtb_slot rtb (rtb_hash MR rtb r) j0) in *.
  pose proof (rtb_slot_range rtb (rtb_hash MR rtb r) j0 ltac:(lia)) as Hix. fold ix in Hix.
  exists (rtb_data rtb ix). unfold wikrt_reg_get. rewrite E. split; [reflexivity|].
  destruct (Z.eq_dec (rtb_data rtb ix) 0) as [Z0|NZ].
  - right. split; [exact Z0|]. intros i Hi Hd Hr.
    pose proof (rtb_index_present fuel rtb r i Hinv Hf Hi Hd Hr) as E'.
    rewrite E in E'. injection E' as E'. congruence.
  - left. split; [exact NZ|]. exists ix. split; [exact Hix|]. split; [|reflexivity].
    unfold rtb_stop in S0. apply orb_true_iff in S0.
    destruct S0 as [S0|S0]; apply Z.eqb_eq in S0; congruence.
Qed.

Lemma rtb_maps_unique rtb r x y :
  rtb_inv MR MZ rtb -> rtb_maps rtb r x -> rtb_maps rtb r y -> x = y.
Proof.
  intros Hinv [(Nx & i & Hi & Ri & Di)|(-> & Ax)] [(Ny & k & Hk & Rk & Dk)|(-> & Ay)].
  - assert (rtb_data rtb i <> 0) as Oi by congruence.
    assert (rtb_data rtb k <> 0) as Ok by congruence.
    pose proof (rtb_index_present _ rtb r i Hinv (Nat.le_refl _) Hi Oi Ri) as E1.
    pose proof (rtb_index_present _ rtb r k Hinv (Nat.le_refl _) Hk Ok Rk) as E2.
    rewrite E1 in E2. injection E2 as E2. congruence.
  - exfalso. apply (Ay i Hi); congruence.
  - exfalso. apply (Ax k Hk); congruence.
  - reflexivity.
Qed.

Lemma rtb_get_of_maps fuel rtb r x :
  rtb_inv MR MZ rtb -> (Z.to_nat (rtb_size rtb) <= fuel)%nat ->
  rtb_maps rtb r x -> wikrt_reg_get MR MZ fuel rtb r = Ret x.
Proof.
  intros Hinv Hf Hm. destruct (rtb_get_maps fuel rtb r Hinv Hf) as (y & E & My).
  rewrite E. f_equal. exact (rtb_maps_unique rtb r y x Hinv My Hm).
Qed.

(** In a table with no entry every register reads as zero. *)
Theorem reg_get_empty fuel rtb r :
  0 < rtb_size rtb < MZ -> (Z.to_nat (rtb_size rtb) <= fuel)%nat ->
  (forall i, 0 <= i < rtb_size rtb -> rtb_data rtb i = 0) ->
  rtb_inv MR MZ rtb /\ wikrt_reg_get MR MZ fuel rtb r = Ret 0.
Proof.
  intros Hn Hf He.
  assert (rtb_inv MR MZ rtb) as Hinv.
  { split; [exact Hn|]. split.
    - exists 0. split; [lia|apply He; lia].
    - intros i Hi Hd. exfalso. apply Hd, He, Hi. }
  split; [exact Hinv|]. apply rtb_get_of_maps; try assumption.
  right. split; [reflexivity|]. intros i Hi Hd. exfalso. apply Hd, He, Hi.
Qed.

End RegLookup.

(** *** The fill counter *)

(** The number of occupied slots, which [rtb->fill] is to hold. *)
Definition rtb_used (x : Z) : Z := if x =? 0 then 0 else 1.

Fixpoint count_upto (data : Z -> Z) (k : nat) : Z :=
  match k with
  | O => 0
  | S k' => count_upto data k' + rtb_used (data (Z.of_nat k'))
  end.

Definition rtb_count (rtb : wikrt_rtb) : Z :=
  count_upto (rtb_data rtb) (Z.to_nat (rtb_size rtb)).

Lemma count_upto_ext f g k :
  (forall i, 0 <= i < Z.of_nat k -> f i = g i) -> count_upto f k = count_upto g k.
Proof.
  induction k as [|k IH]; intros H; [reflexivity|].
  cbn [count_upto]. rewrite IH by (intros i Hi; apply H; lia).
  rewrite (H (Z.of_nat k)) by lia. reflexivity.
Qed.

Lemma count_upto_range f k : 0 <= count_upto f k <= Z.of_nat k.
Proof.
  induction k as [|k IH]; cbn [count_upto]; [lia|].
  unfold rtb_used. destruct (f (Z.of_nat k) =? 0); lia.
Qed.

Lemma count_upto_set f ix v k :
  0 <= ix < Z.of_nat k ->
  count_upto (fun x => if x =? ix then v else f x) k
  = count_upto f k - rtb_used (f ix) + rtb_used v.
Proof.
  induction k as [|k IH]; intros H; [lia|]. cbn [count_upto].
  destruct (Z.eqb_spec (Z.of_nat k) ix) as [E|N].
  - rewrite (count_upto_ext _ f k).
    + rewrite E. lia.
    + intros i Hi. destruct (Z.eqb_spec i ix); [lia|reflexivity].
  - rewrite IH by lia. lia.
Qed.

Lemma rtb_count_set rtb rtb' ix v :
  0 <= ix < rtb_size rtb -> rtb_size rtb' = rtb_size rtb ->
  (forall x, rtb_data rtb' x = arr_set (rtb_data rtb) ix v x) ->
  rtb_count rtb' = rtb_count rtb - rtb_used (rtb_data rtb ix) + rtb_used v.
Proof.
  intros Hix Hsz Hd. unfold rtb_count. rewrite Hsz.
  rewrite (count_upto_ext _ (arr_set (rtb_data rtb) ix v))
    by (intros i _; apply Hd).
  apply count_upto_set. lia.
Qed.

Lemma rtb_count_range rtb : 0 <= rtb_count rtb <= rtb_size rtb \/ rtb_size rtb < 0.
Proof.
  unfold rtb_count. pose proof (count_upto_range (rtb_data rtb) (Z.to_nat (rtb_size rtb))).
  lia.
Qed.

Lemma rtb_count_lt rtb e :
  0 <= e < rtb_size rtb -> rtb_data rtb e = 0 -> rtb_count rtb < rtb_size rtb.
Proof.
  intros He De.
  set (rtb' := mk_rtb (rtb_ids rtb) (arr_set (rtb_data rtb) e 1)
                      (rtb_size rtb) (rtb_fill rtb)).
  pose proof (rtb_count_set rtb rtb' e 1 He eq_refl (fun x => eq_refl)) as C.
  pose proof (rtb_count_range rtb') as R. cbn [rtb' rtb_size] in R. fold rtb' in R.
  rewrite C, De in R. change (rtb_used 0) with 0 in R. change (rtb_used 1) with 1 in R.
  lia.
Qed.

Section RegWrite.
Variables MR MZ : Z.

Lemma arr_set_same f i v : arr_set f i v i = v.
Proof. unfold arr_set. rewrite Z.eqb_refl. reflexivity. Qed.

Lemma arr_set_other f i v x : x <> i -> arr_set f i v x = f x.
Proof. intros H. unfold arr_set. destruct (Z.eqb_spec x i); [contradiction|reflexivity]. Qed.

(** Storing register [r] with a non-zero word at the slot [rtb_index]
    finds for it. *)
Lemma rtb_update_spec rtb rtb' r v j0 :
  rtb_inv MR MZ rtb -> rtb_size rtb' = rtb_size rtb -> v <> 0 ->
  0 <= j0 < rtb_size rtb ->
  let ix := rtb_slot rtb (rtb_hash MR rtb r) j0 in
  rtb_stop rtb r ix = true ->
  (forall j, 0 <= j < j0 ->
             rtb_stop rtb r (rtb_slot rtb (rtb_hash MR rtb r) j) = false) ->
  rtb_ids rtb' ix = r -> rtb_data rtb' ix = v ->
  (forall x, x <> ix -> rtb_ids rtb' x = rtb_ids rtb x) ->
  (forall x, x <> ix -> rtb_data rtb' x = rtb_data rtb x) ->
  rtb_data rtb ix <> 0 \/
  (exists e', e' <> ix /\ 0 <= e' < rtb_size rtb /\ rtb_data rtb e' = 0) ->
  rtb_inv MR MZ rtb' /\ rtb_maps rtb' r v /\
  (forall r' x, r' <> r -> rtb_maps rtb' r' x -> rtb_maps rtb r' x).
Proof.
  intros Hinv Hsz Hv Hj0 ix S0 B0 Iix Dix Io Do Hroom.
  pose proof Hinv as (Hn & (e & He & De) & H3).
  pose proof (rtb_hash_range MR rtb r ltac:(lia)) as Hh.
  pose proof (rtb_slot_range rtb (rtb_hash MR rtb r) j0 ltac:(lia)) as Hix.
  fold ix in Hix.
  assert (forall k, rtb_hash MR rtb' k = rtb_hash MR rtb k) as Hhash
      by (intros k; unfold rtb_hash; rewrite Hsz; reflexivity).
  assert (forall h j, rtb_slot rtb' h j = rtb_slot rtb h j) as Hslot
      by (intros h j; unfold rtb_slot; rewrite Hsz; reflexivity).
  assert (rtb_data rtb ix <> 0 -> rtb_ids rtb ix = r) as Occ.
  { intros Hd. unfold rtb_stop in S0. apply orb_true_iff in S0.
    destruct S0 as [S0|S0]; apply Z.eqb_eq in S0; congruence. }
  split; [|split].
  - split; [rewrite Hsz; exact Hn|]. rewrite Hsz. split.
    + destruct Hroom as [Hd|(e' & Ne' & He' & De')].
      * exists e. split; [exact He|]. rewrite Do by congruence. exact De.
      * exists e'. split; [exact He'|]. rewrite Do by exact Ne'. exact De'.
    + intros i Hi Hd j Hj. apply rtb_stop_false. rewrite Hhash, Hslot in *.
      destruct (Z.eq_dec i ix) as [Ei|Ni].
      * rewrite Ei in *. rewrite Iix in *.
        unfold ix in Hj. rewrite rtb_slot_index in Hj by lia.
        pose proof (B0 j Hj) as Bj. apply rtb_stop_false in Bj.
        assert (rtb_slot rtb (rtb_hash MR rtb r) j <> ix) as Ns.
        { intros C. apply (rtb_slot_inj rtb _ j j0) in C; lia. }
        rewrite Io, Do by exact Ns. exact Bj.
      * rewrite (Io i Ni) in *. rewrite (Do i Ni) in Hd.
        pose proof (H3 i Hi Hd j Hj) as Bj. apply rtb_stop_false in Bj.
        set (s := rtb_slot rtb (rtb_hash MR rtb (rtb_ids rtb i)) j) in *.
        destruct (Z.eq_dec s ix) as [Es|Ns].
        -- rewrite Es in *. rewrite Iix, Dix. split; [|exact Hv].
           rewrite <- (Occ (proj2 Bj)). exact (proj1 Bj).
        -- rewrite Io, Do by exact Ns. exact Bj.
  - left. split; [exact Hv|]. exists ix. rewrite Hsz. auto.
  - intros r' x Nr [(Nx & i & Hi & Ri & Di)|(-> & Ax)]; rewrite Hsz in *.
    + assert (i <> ix) as Ni by (intros C; rewrite C in Ri; congruence).
      rewrite (Io i Ni) in Ri. rewrite (Do i Ni) in Di.
      left. split; [exact Nx|]. exists i. auto.
    + right. split; [reflexivity|]. intros i Hi Hd.
      destruct (Z.eq_dec i ix) as [Ei|Ni].
      * rewrite Ei in *. rewrite (Occ Hd). congruence.
      * rewrite <- (Io i Ni). apply Ax; [exact Hi|]. rewrite (Do i Ni). exact Hd.
Qed.

Lemma rtb_write_spec fuel rtb r v :
  rtb_inv MR MZ rtb -> (Z.to_nat (rtb_size rtb) <= fuel)%nat -> v <> 0 ->
  rtb_fill rtb < rtb_size rtb ->
  (exists i, 0 <= i < rtb_size rtb /\ rtb_data rtb i <> 0 /\ rtb_ids rtb i = r) \/
  (exists e1 e2, e1 <> e2 /\ 0 <= e1 < rtb_size rtb /\ 0 <= e2 < rtb_size rtb /\
                 rtb_data rtb e1 = 0 /\ rtb_data rtb e2 = 0) ->
  exists rtb',
    rtb_write MR MZ fuel rtb r v = Ret rtb' /\
    rtb_inv MR MZ rtb' /\ rtb_size rtb' = rtb_size rtb /\
    rtb_maps rtb' r v /\
    (forall r' x, r' <> r -> rtb_maps rtb' r' x -> rtb_maps rtb r' x) /\
    (rtb_fill rtb = rtb_count rtb -> rtb_fill rtb' = rtb_count rtb') /\
    exists x, wikrt_reg_get MR MZ fuel rtb r = Ret x /\
              rtb_count rtb' = rtb_count rtb - rtb_used x + rtb_used v.
Proof.
  intros Hinv Hf Hv Hlt Hroom.
  destruct (rtb_index_total MR MZ fuel rtb r Hinv Hf) as (j0 & Hj0 & E & S0 & B0).
  pose proof Hinv as (Hn & _ & _).
  pose proof (rtb_slot_range rtb (rtb_hash MR rtb r) j0 ltac:(lia)) as Hix.
  set (ix := rtb_slot rtb (rtb_hash MR rtb r) j0) in *.
  assert (rtb_used v = 1) as Uv
      by (unfold rtb_used; destruct (Z.eqb_spec v 0); [contradiction|reflexivity]).
  assert (rtb_data rtb ix <> 0 \/
          (exists e', e' <> ix /\ 0 <= e' < rtb_size rtb /\ rtb_data rtb e' = 0))
    as Hroom'.
  { destruct (Z.eq_dec (rtb_data rtb ix) 0) as [Z0|NZ]; [right|left; exact NZ].
    destruct Hroom as [(i & Hi & Hd & Hr)|(e1 & e2 & Ne & He1 & He2 & D1 & D2)].
    - pose proof (rtb_index_present MR MZ fuel rtb r i Hinv Hf Hi Hd Hr) as E'.
      rewrite E in E'. injection E' as E'. congruence.
    - destruct (Z.eq_dec e1 ix); [exists e2|exists e1]; repeat split; try lia; congruence. }
  unfold rtb_write.
  destruct (Z.gtb_spec (rtb_size rtb) (rtb_fill rtb)) as [_|C]; [|lia].
  cbn [negb]. rewrite E.
  destruct (0 =? rtb_data rtb ix) eqn:D0; eexists; (split; [reflexivity|]).
  - destruct (rtb_update_spec rtb
                (mk_rtb (arr_set (rtb_ids rtb) ix r) (arr_set (rtb_data rtb) ix v)
                        (rtb_size rtb) ((rtb_fill rtb + 1) mod MZ))
                r v j0 Hinv eq_refl Hv Hj0 S0 B0) as (I' & M' & T');
      cbn [rtb_ids rtb_data]; fold ix;
      try apply arr_set_same; try (intros x Hx; apply arr_set_other; exact Hx);
      try exact Hroom'.
    split; [exact I'|]. split; [reflexivity|]. split; [exact M'|].
    split; [exact T'|].
    match goal with |- (_ -> _ = rtb_count ?R) /\ _ =>
      pose proof (rtb_count_set rtb R ix v Hix eq_refl (fun x => eq_refl)) as C;
      pose proof (rtb_count_range R) as Rg
    end.
    split; [|exists (rtb_data rtb ix); split;
             [unfold wikrt_reg_get; rewrite E; reflexivity|exact C]].
    intros F. cbn [rtb_fill].
    cbn [rtb_size] in Rg. rewrite C in Rg |- *.
    apply Z.eqb_eq in D0. rewrite <- D0 in Rg |- *.
    change (rtb_used 0) with 0 in Rg |- *. rewrite Uv in Rg |- *.
    rewrite F, Z.mod_small by lia. lia.
  - assert (rtb_ids rtb ix = r) as Rix.
    { unfold rtb_stop in S0. rewrite D0, orb_false_r in S0.
      apply Z.eqb_eq in S0. congruence. }
    destruct (rtb_update_spec rtb
                (mk_rtb (rtb_ids rtb) (arr_set (rtb_data rtb) ix v)
                        (rtb_size rtb) (rtb_fill rtb))
                r v j0 Hinv eq_refl Hv Hj0 S0 B0) as (I' & M' & T');
      cbn [rtb_ids rtb_data]; fold ix;
      try exact Rix; try reflexivity;
      try apply arr_set_same; try (intros x Hx; apply arr_set_other; exact Hx);
      try exact Hroom'.
    split; [exact I'|]. split; [reflexivity|]. split; [exact M'|].
    split; [exact T'|].
    match goal with |- (_ -> _ = rtb_count ?R) /\ _ =>
      pose proof (rtb_count_set rtb R ix v Hix eq_refl (fun x => eq_refl)) as C
    end.
    split; [|exists (rtb_data rtb ix); split;
             [unfold wikrt_reg_get; rewrite E; reflexivity|exact C]].
    intros F. cbn [rtb_fill].
    rewrite C, Uv, F. unfold rtb_used. rewrite Z.eqb_sym, D0. lia.
Qed.

End RegWrite.

Section RegClear.
Variables MR MZ : Z.

(** Register [r] has the entry [x] in the table. *)
Definition rtb_entry (rtb : wikrt_rtb) (r x : Z) : Prop :=
  x <> 0 /\ exists i, 0 <= i < rtb_size rtb /\ rtb_ids rtb i = r /\ rtb_data rtb i = x.

(** The state of the second loop of [rtb_clear]: slot [h] has been
    emptied, the [t] slots after it have been looked at and are occupied,
    and only entries further on may still have [h] on their probing path. *)
Definition rtb_hole_inv (rtb : wikrt_rtb) (h t : Z) : Prop :=
  0 < rtb_size rtb < MZ /\ 0 <= h < rtb_size rtb /\ 0 <= t < rtb_size rtb /\
  rtb_data rtb h = 0 /\
  (forall j, 1 <= j <= t -> rtb_data rtb (rtb_slot rtb h j) <> 0) /\
  forall i, 0 <= i < rtb_size rtb -> rtb_data rtb i <> 0 ->
    forall j, 0 <= j < (i - rtb_hash MR rtb (rtb_ids rtb i)) mod rtb_size rtb ->
      (rtb_slot rtb (rtb_hash MR rtb (rtb_ids rtb i)) j <> h ->
       rtb_stop rtb (rtb_ids rtb i)
                (rtb_slot rtb (rtb_hash MR rtb (rtb_ids rtb i)) j) = false) /\
      (rtb_slot rtb (rtb_hash MR rtb (rtb_ids rtb i)) j = h ->
       t < (i - h) mod rtb_size rtb).

Lemma rtb_slot_split rtb hk i j :
  0 <= hk < rtb_size rtb -> 0 <= i < rtb_size rtb ->
  0 <= j < (i - hk) mod rtb_size rtb ->
  (i - rtb_slot rtb hk j) mod rtb_size rtb = (i - hk) mod rtb_size rtb - j.
Proof.
  intros Hh Hi Hj.
  pose proof (Z.mod_pos_bound (i - hk) (rtb_size rtb) ltac:(lia)) as Hd.
  apply (rtb_slot_inj rtb (rtb_slot rtb hk j)).
  - apply Z.mod_pos_bound; lia.
  - lia.
  - rewrite rtb_slot_back by exact Hi. rewrite rtb_slot_add.
    replace (j + ((i - hk) mod rtb_size rtb - j)) with ((i - hk) mod rtb_size rtb) by lia.
    symmetry. apply rtb_slot_back. exact Hi.
Qed.

Lemma rtb_dist_0 rtb a b :
  0 <= a < rtb_size rtb -> 0 <= b < rtb_size rtb ->
  (b - a) mod rtb_size rtb = 0 -> a = b.
Proof.
  intros Ha Hb E. rewrite <- (rtb_slot_back rtb a b Hb), E. symmetry.
  apply rtb_slot_0. exact Ha.
Qed.

Lemma rtb_hole_unique rtb h t i1 i2 :
  rtb_hole_inv rtb h t ->
  0 <= i1 < rtb_size rtb -> 0 <= i2 < rtb_size rtb ->
  rtb_data rtb i1 <> 0 -> rtb_data rtb i2 <> 0 ->
  rtb_ids rtb i1 = rtb_ids rtb i2 -> i1 = i2.
Proof.
  intros (Hn & Hh & Ht & Dh & Hb & Hd) H1 H2 D1 D2 E.
  pose proof (rtb_hash_range MR rtb (rtb_ids rtb i1) ltac:(lia)) as Hhk.
  pose proof (Hd i1 H1 D1) as P1. pose proof (Hd i2 H2 D2) as P2.
  rewrite <- E in P2.
  set (hk := rtb_hash MR rtb (rtb_ids rtb i1)) in *.
  pose proof (Z.mod_pos_bound (i1 - hk) (rtb_size rtb) ltac:(lia)) as R1.
  pose proof (Z.mod_pos_bound (i2 - hk) (rtb_size rtb) ltac:(lia)) as R2.
  pose proof (rtb_slot_back rtb hk i1 H1) as B1.
  pose proof (rtb_slot_back rtb hk i2 H2) as B2.
  destruct (Z.lt_trichotomy ((i1 - hk) mod rtb_size rtb) ((i2 - hk) mod rtb_size rtb))
    as [L|[L|L]].
  - destruct (P2 _ (conj (proj1 R1) L)) as (A & _). rewrite B1 in A.
    assert (i1 <> h) as N by congruence.
    apply A, rtb_stop_false in N. destruct N as (N & _). congruence.
  - rewrite <- B1, <- B2, L. reflexivity.
  - destruct (P1 _ (conj (proj1 R2) L)) as (A & _). rewrite B2 in A.
    assert (i2 <> h) as N by congruence.
    apply A, rtb_stop_false in N. destruct N as (N & _). congruence.
Qed.

(** In that state a look-up of an entry's register finds the entry, or
    the emptied slot when that lies on the entry's probing path. *)
Lemma rtb_hole_index fuel rtb h t i :
  rtb_hole_inv rtb h t -> (Z.to_nat (rtb_size rtb) <= fuel)%nat ->
  0 <= i < rtb_size rtb -> rtb_data rtb i <> 0 ->
  (rtb_index MR MZ fuel rtb (rtb_ids rtb i) = Ret i /\
   forall j, 0 <= j < (i - rtb_hash MR rtb (rtb_ids rtb i)) mod rtb_size rtb ->
             rtb_slot rtb (rtb_hash MR rtb (rtb_ids rtb i)) j <> h) \/
  (rtb_index MR MZ fuel rtb (rtb_ids rtb i) = Ret h /\
   exists jh, 0 <= jh < (i - rtb_hash MR rtb (rtb_ids rtb i)) mod rtb_size rtb /\
              rtb_slot rtb (rtb_hash MR rtb (rtb_ids rtb i)) jh = h).
Proof.
  intros (Hn & Hh & Ht & Dh & Hb & Hd) Hf Hi Di.
  pose proof (rtb_hash_range MR rtb (rtb_ids rtb i) ltac:(lia)) as Hhk.
  pose proof (Hd i Hi Di) as P.
  set (hk := rtb_hash MR rtb (rtb_ids rtb i)) in *.
  pose proof (Z.mod_pos_bound (i - hk) (rtb_size rtb) ltac:(lia)) as Ri.
  pose proof (Z.mod_pos_bound (h - hk) (rtb_size rtb) ltac:(lia)) as Rh.
  pose proof (rtb_slot_back rtb hk i Hi) as Bi.
  pose proof (rtb_slot_back rtb hk h Hh) as Bh.
  change (rtb_index MR MZ fuel rtb (rtb_ids rtb i))
    with (rtb_index_loop MZ fuel rtb (rtb_ids rtb i) hk).
  destruct (Z_lt_dec ((h - hk) mod rtb_size rtb) ((i - hk) mod rtb_size rtb)) as [L|L].
  - right. split; [|exists ((h - hk) mod rtb_size rtb); split; [lia|exact Bh]].
    assert (rtb_index_loop MZ fuel rtb (rtb_ids rtb i) (rtb_slot rtb hk 0)
            = Ret (rtb_slot rtb hk
                     (0 + Z.of_nat (Z.to_nat ((h - hk) mod rtb_size rtb))))) as E.
    { apply rtb_index_loop_run; [exact Hn| | |lia].
      - intros j' Hj'. apply P; [lia|]. intros C. rewrite <- Bh in C.
        apply rtb_slot_inj in C; lia.
      - rewrite Z.add_0_l, Z2Nat.id, Bh by lia. unfold rtb_stop.
        rewrite Dh. apply orb_true_r. }
    rewrite (rtb_slot_0 rtb hk Hhk), Z.add_0_l, Z2Nat.id, Bh in E by lia. exact E.
  - assert (forall j, 0 <= j < (i - hk) mod rtb_size rtb -> rtb_slot rtb hk j <> h) as Av.
    { intros j Hj C. rewrite <- Bh in C. apply rtb_slot_inj in C; lia. }
    left. split; [|exact Av].
    assert (rtb_index_loop MZ fuel rtb (rtb_ids rtb i) (rtb_slot rtb hk 0)
            = Ret (rtb_slot rtb hk
                     (0 + Z.of_nat (Z.to_nat ((i - hk) mod rtb_size rtb))))) as E.
    { apply rtb_index_loop_run; [exact Hn| | |lia].
      - intros j' Hj'. apply P; [lia|]. apply Av. lia.
      - rewrite Z.add_0_l, Z2Nat.id, Bi by lia. unfold rtb_stop.
        rewrite Z.eqb_refl. reflexivity. }
    rewrite (rtb_slot_0 rtb hk Hhk), Z.add_0_l, Z2Nat.id, Bi in E by lia. exact E.
Qed.

(** Emptying the slot of an entry starts the loop's state. *)
Lemma rtb_hole_init rtb rtb' ix :
  rtb_inv MR MZ rtb -> 0 <= ix < rtb_size rtb ->
  rtb_size rtb' = rtb_size rtb -> rtb_data rtb' ix = 0 ->
  (forall x, rtb_ids rtb' x = rtb_ids rtb x) ->
  (forall x, x <> ix -> rtb_data rtb' x = rtb_data rtb x) ->
  rtb_hole_inv rtb' ix 0.
Proof.
  intros (Hn & _ & H3) Hix Hsz Dix Io Do.
  assert (forall k, rtb_hash MR rtb' k = rtb_hash MR rtb k) as Hhash
      by (intros k; unfold rtb_hash; rewrite Hsz; reflexivity).
  assert (forall h j, rtb_slot rtb' h j = rtb_slot rtb h j) as Hslot
      by (intros h j; unfold rtb_slot; rewrite Hsz; reflexivity).
  unfold rtb_hole_inv. rewrite Hsz.
  split; [exact Hn|]. split; [exact Hix|]. split; [lia|]. split; [exact Dix|].
  split; [intros j Hj; lia|].
  intros i Hi Hd j Hj. rewrite Io, Hhash, Hslot in *.
  assert (i <> ix) as Ni by congruence.
  split.
  - intros Ns. rewrite (Do i Ni) in Hd.
    pose proof (H3 i Hi Hd j Hj) as Bj. apply rtb_stop_false in Bj.
    apply rtb_stop_false. rewrite Io, (Do _ Ns). exact Bj.
  - intros _.
    pose proof (Z.mod_pos_bound (i - ix) (rtb_size rtb) ltac:(lia)) as R.
    destruct (Z.eq_dec ((i - ix) mod rtb_size rtb) 0) as [C|C]; [|lia].
    apply rtb_dist_0 in C; [congruence|lia|lia].
Qed.

(** An entry found at its own slot stays; the cursor moves on. *)
Lemma rtb_hole_skip rtb h t :
  rtb_hole_inv rtb h t ->
  rtb_data rtb (rtb_slot rtb h (t + 1)) <> 0 ->
  (forall j, 0 <= j < (rtb_slot rtb h (t + 1)
                       - rtb_hash MR rtb (rtb_ids rtb (rtb_slot rtb h (t + 1))))
                      mod rtb_size rtb ->
     rtb_slot rtb (rtb_hash MR rtb (rtb_ids rtb (rtb_slot rtb h (t + 1)))) j <> h) ->
  rtb_hole_inv rtb h (t + 1).
Proof.
  intros (Hn & Hh & Ht & Dh & Hb & Hd) Dx Av.
  assert (t + 1 < rtb_size rtb) as Ht'.
  { destruct (Z.eq_dec (t + 1) (rtb_size rtb)) as [C|C]; [|lia].
    exfalso. apply Dx. rewrite C. unfold rtb_slot.
    rewrite <- (Z.mul_1_l (rtb_size rtb)) at 1.
    rewrite Z.mod_add, Z.mod_small by lia. exact Dh. }
  unfold rtb_hole_inv.
  split; [exact Hn|]. split; [exact Hh|]. split; [lia|]. split; [exact Dh|].
  split.
  - intros j Hj. destruct (Z.eq_dec j (t + 1)) as [->|N]; [exact Dx|].
    apply Hb. lia.
  - intros i Hi Di j Hj. split; [apply (Hd i Hi Di j Hj)|]. intros Es.
    pose proof (proj2 (Hd i Hi Di j Hj) Es) as Lt.
    destruct (Z.eq_dec ((i - h) mod rtb_size rtb) (t + 1)) as [C|C]; [|lia].
    exfalso. pose proof (rtb_slot_back rtb h i Hi) as Bi. rewrite C in Bi.
    rewrite <- Bi in Hj, Es. exact (Av j Hj Es).
Qed.

(** When the cursor reaches an empty slot the table is in order again. *)
Lemma rtb_hole_exit rtb h t :
  rtb_hole_inv rtb h t ->
  rtb_data rtb (rtb_slot rtb h (t + 1)) = 0 ->
  rtb_inv MR MZ rtb.
Proof.
  intros (Hn & Hh & Ht & Dh & Hb & Hd) Dx.
  split; [exact Hn|]. split; [exists h; auto|].
  intros i Hi Di j Hj.
  pose proof (rtb_hash_range MR rtb (rtb_ids rtb i) ltac:(lia)) as Hhk.
  pose proof (Hd i Hi Di) as P.
  set (hk := rtb_hash MR rtb (rtb_ids rtb i)) in *.
  pose proof (Z.mod_pos_bound (i - hk) (rtb_size rtb) ltac:(lia)) as Ri.
  destruct (Z.eq_dec (rtb_slot rtb hk j) h) as [Es|Ns]; [|apply (P j Hj); exact Ns].
  exfalso.
  pose proof (proj2 (P j Hj) Es) as Lt.
  pose proof (rtb_slot_split rtb hk i j Hhk Hi Hj) as Sp. rewrite Es in Sp.
  assert ((i - h) mod rtb_size rtb <> t + 1) as N1.
  { intros C. pose proof (rtb_slot_back rtb h i Hi) as Bi. rewrite C in Bi.
    congruence. }
  assert (0 <= j + (t + 1) < (i - hk) mod rtb_size rtb) as Hj' by lia.
  destruct (P _ Hj') as (A & _).
  rewrite <- rtb_slot_add, Es in A.
  assert (rtb_slot rtb h (t + 1) <> h) as Nh.
  { intros C. rewrite <- (rtb_slot_0 rtb h Hh) in C at 2.
    apply rtb_slot_inj in C; lia. }
  apply A, rtb_stop_false in Nh. tauto.
Qed.

(** An entry that has the emptied slot on its probing path moves into
    it; its old slot is the emptied one from then on, and the table has
    the same entries. *)
Lemma rtb_hole_move rtb rtb' h t ix jh :
  rtb_hole_inv rtb h t -> 0 <= ix < rtb_size rtb -> rtb_data rtb ix <> 0 ->
  0 <= jh < (ix - rtb_hash MR rtb (rtb_ids rtb ix)) mod rtb_size rtb ->
  rtb_slot rtb (rtb_hash MR rtb (rtb_ids rtb ix)) jh = h ->
  rtb_size rtb' = rtb_size rtb ->
  rtb_ids rtb' h = rtb_ids rtb ix -> rtb_data rtb' h = rtb_data rtb ix ->
  rtb_data rtb' ix = 0 ->
  (forall x, x <> h -> rtb_ids rtb' x = rtb_ids rtb x) ->
  (forall x, x <> h -> x <> ix -> rtb_data rtb' x = rtb_data rtb x) ->
  rtb_hole_inv rtb' ix 0 /\
  (forall r x, rtb_entry rtb' r x <-> rtb_entry rtb r x).
Proof.
  intros HI Hix Dx Hjh Eh Hsz Ih Dh' Dix Io Do.
  pose proof HI as (Hn & Hh & Ht & Dh & Hb & Hd).
  assert (forall k, rtb_hash MR rtb' k = rtb_hash MR rtb k) as Hhash
      by (intros k; unfold rtb_hash; rewrite Hsz; reflexivity).
  assert (forall a j, rtb_slot rtb' a j = rtb_slot rtb a j) as Hslot
      by (intros a j; unfold rtb_slot; rewrite Hsz; reflexivity).
  assert (ix <> h) as Nxh by congruence.
  pose proof (rtb_hash_range MR rtb (rtb_ids rtb ix) ltac:(lia)) as Hhk.
  pose proof (Z.mod_pos_bound (ix - rtb_hash MR rtb (rtb_ids rtb ix)) (rtb_size rtb)
                ltac:(lia)) as Rx.
  split.
  - unfold rtb_hole_inv. rewrite Hsz.
    split; [exact Hn|]. split; [exact Hix|]. split; [lia|]. split; [exact Dix|].
    split; [intros j Hj; lia|].
    intros i Hi Di j Hj.
    assert (i <> ix) as Ni by congruence.
    split.
    + rewrite Hhash, Hslot in *. intros Ns. apply rtb_stop_false.
      destruct (Z.eq_dec i h) as [Ei|Nih].
      * rewrite Ei in *. rewrite Ih in *.
        set (hk := rtb_hash MR rtb (rtb_ids rtb ix)) in *.
        assert ((h - hk) mod rtb_size rtb = jh) as Ej.
        { rewrite <- Eh. apply rtb_slot_index; lia. }
        rewrite Ej in Hj.
        assert (rtb_slot rtb hk j <> h) as Nsh.
        { intros C. rewrite <- Eh in C. apply rtb_slot_inj in C; lia. }
        assert (0 <= j < (ix - hk) mod rtb_size rtb) as Hj' by lia.
        destruct (Hd ix Hix Dx j Hj') as (A & _). fold hk in A.
        rewrite (Io _ Nsh), (Do _ Nsh Ns).
        apply A, rtb_stop_false in Nsh. exact Nsh.
      * rewrite (Io i Nih) in *. rewrite (Do i Nih Ni) in Di.
        destruct (Hd i Hi Di j Hj) as (A & _).
        set (s := rtb_slot rtb (rtb_hash MR rtb (rtb_ids rtb i)) j) in *.
        destruct (Z.eq_dec s h) as [Es|Nsh].
        -- rewrite Es, Ih, Dh'. split; [|exact Dx].
           intros C. apply Ni. symmetry.
           apply (rtb_hole_unique rtb h t ix i HI Hix Hi Dx Di C).
        -- rewrite (Io s Nsh), (Do s Nsh Ns).
           apply A, rtb_stop_false in Nsh. exact Nsh.
    + intros _.
      pose proof (Z.mod_pos_bound (i - ix) (rtb_size rtb) ltac:(lia)) as R.
      destruct (Z.eq_dec ((i - ix) mod rtb_size rtb) 0) as [C|C]; [|lia].
      apply rtb_dist_0 in C; [congruence|lia|lia].
  - intros r x. unfold rtb_entry. rewrite Hsz. split.
    + intros (Nx & i & Hi & Ri & Di). split; [exact Nx|].
      assert (i <> ix) as Ni by congruence.
      destruct (Z.eq_dec i h) as [Ei|Nih].
      * exists ix. rewrite Ei in *. split; [exact Hix|]. split; congruence.
      * exists i. rewrite (Io i Nih) in Ri. rewrite (Do i Nih Ni) in Di. auto.
    + intros (Nx & i & Hi & Ri & Di). split; [exact Nx|].
      assert (i <> h) as Nih by congruence.
      destruct (Z.eq_dec i ix) as [Ei|Ni].
      * exists h. rewrite Ei in *. split; [exact Hh|]. split; congruence.
      * exists i. rewrite (Io i Nih), (Do i Nih Ni). auto.
Qed.

Lemma rtb_hole_cursor rtb h t e :
  rtb_hole_inv rtb h t -> e <> h -> rtb_data rtb e = 0 -> rtb_slot rtb h t <> e.
Proof.
  intros (Hn & Hh & Ht & Dh & Hb & Hd) Ne De C.
  destruct (Z.eq_dec t 0) as [->|Nt].
  - rewrite rtb_slot_0 in C by exact Hh. congruence.
  - apply (Hb t ltac:(lia)). rewrite C. exact De.
Qed.

(** The second loop of [rtb_clear] returns, with a table that is in order
    and has the entries it started with. *)
Lemma rtb_clear_loop_spec ifuel : forall fuel rtb h t e,
  rtb_hole_inv rtb h t -> (Z.to_nat (rtb_size rtb) <= ifuel)%nat ->
  0 <= e < rtb_size rtb -> e <> h -> rtb_data rtb e = 0 ->
  (e - rtb_slot rtb h t) mod rtb_size rtb <= Z.of_nat fuel ->
  exists rtb',
    rtb_clear_loop MR MZ fuel ifuel rtb (rtb_slot rtb h t) = Ret rtb' /\
    rtb_inv MR MZ rtb' /\ rtb_size rtb' = rtb_size rtb /\
    (forall r x, rtb_entry rtb' r x <-> rtb_entry rtb r x) /\
    rtb_fill rtb' = rtb_fill rtb /\ rtb_count rtb' = rtb_count rtb.
Proof.
  induction fuel as [|fuel IH]; intros rtb h t e HI Hif He Ne De Hm;
    pose proof HI as (Hn & Hh & Ht & Dh & Hb & Hd);
    pose proof (rtb_hole_cursor rtb h t e HI Ne De) as Nc;
    pose proof (rtb_slot_range rtb h t ltac:(lia)) as Hc;
    pose proof (Z.mod_pos_bound (e - rtb_slot rtb h t) (rtb_size rtb) ltac:(lia)) as Rc;
    assert ((e - rtb_slot rtb h t) mod rtb_size rtb <> 0) as Nz
      by (intros C; apply rtb_dist_0 in C; [congruence|lia|lia]).
  - lia.
  - cbn [rtb_clear_loop]. rewrite rtb_slot_next by exact Hn.
    pose proof (rtb_slot_range rtb h (t + 1) ltac:(lia)) as Hix.
    set (ix := rtb_slot rtb h (t + 1)) in *.
    destruct (0 =? rtb_data rtb ix) eqn:D0.
    + apply Z.eqb_eq in D0. exists rtb. split; [reflexivity|].
      split; [apply (rtb_hole_exit rtb h t HI); symmetry; exact D0|].
      split; [reflexivity|]. split; [intros r x; reflexivity|]. split; reflexivity.
    + apply Z.eqb_neq in D0.
      assert (rtb_data rtb ix <> 0) as Dx by congruence.
      assert (ix <> e) as Nxe by congruence.
      assert ((e - ix) mod rtb_size rtb <= Z.of_nat fuel) as Hm'.
      { unfold ix. rewrite <- rtb_slot_add.
        rewrite rtb_slot_split; [lia|lia|lia|].
        destruct (Z.eq_dec ((e - rtb_slot rtb h t) mod rtb_size rtb) 1) as [C|C]; [|lia].
        exfalso. apply Nxe. unfold ix.
        rewrite <- (rtb_slot_back rtb (rtb_slot rtb h t) e He), C, rtb_slot_add.
        reflexivity. }
      destruct (rtb_hole_index ifuel rtb h t ix HI Hif Hix Dx)
        as [(E & Av)|(E & jh & Hjh & Ejh)]; rewrite E.
      * rewrite Z.eqb_refl. cbn [negb].
        apply (IH rtb h (t + 1) e); try assumption.
        apply rtb_hole_skip; assumption.
      * assert (h <> ix) as Nhx by congruence.
        destruct (Z.eqb_spec h ix) as [C|_]; [contradiction|]. cbn [negb].
        set (rtb' := mk_rtb (arr_set (rtb_ids rtb) h (rtb_ids rtb ix))
                            (arr_set (arr_set (rtb_data rtb) h (rtb_data rtb ix)) ix 0)
                            (rtb_size rtb) (rtb_fill rtb)).
        destruct (rtb_hole_move rtb rtb' h t ix jh HI Hix Dx Hjh Ejh eq_refl)
          as (HI' & En').
        { apply arr_set_same. }
        { cbn [rtb' rtb_data]. rewrite arr_set_other by exact Nhx. apply arr_set_same. }
        { apply arr_set_same. }
        { intros x Hx. apply arr_set_other. exact Hx. }
        { intros x Hx1 Hx2. cbn [rtb' rtb_data]. rewrite !arr_set_other by assumption.
          reflexivity. }
        destruct (IH rtb' ix 0 e HI' Hif He ltac:(congruence))
          as (rtb2 & E2 & I2 & S2 & En2 & F2 & C2).
        { cbn [rtb' rtb_data]. rewrite !arr_set_other by congruence. exact De. }
        { rewrite rtb_slot_0 by exact Hix. exact Hm'. }
        rewrite rtb_slot_0 in E2 by exact Hix.
        exists rtb2. split; [exact E2|]. split; [exact I2|]. split; [exact S2|].
        split; [intros r x; rewrite En2; apply En'|]. split; [exact F2|].
        rewrite C2.
        set (rtbm := mk_rtb (rtb_ids rtb) (arr_set (rtb_data rtb) h (rtb_data rtb ix))
                            (rtb_size rtb) (rtb_fill rtb)).
        rewrite (rtb_count_set rtbm rtb' ix 0 Hix eq_refl (fun x => eq_refl)).
        rewrite (rtb_count_set rtb rtbm h (rtb_data rtb ix) Hh eq_refl
                   (fun x => eq_refl)).
        cbn [rtbm rtb_data]. rewrite arr_set_other by congruence.
        rewrite Dh. change (rtb_used 0) with 0. lia.
Qed.

(** [rtb_clear] returns: the register has no entry afterwards, and the
    other registers have the entries they had. *)
Lemma rtb_clear_spec fuel rtb r :
  rtb_inv MR MZ rtb -> (Z.to_nat (rtb_size rtb) <= fuel)%nat ->
  exists rtb',
    rtb_clear MR MZ fuel rtb r = Ret rtb' /\
    rtb_inv MR MZ rtb' /\ rtb_size rtb' = rtb_size rtb /\
    rtb_maps rtb' r 0 /\
    (forall r' x, r' <> r -> rtb_maps rtb' r' x -> rtb_maps rtb r' x) /\
    (rtb_fill rtb = rtb_count rtb -> rtb_fill rtb' = rtb_count rtb') /\
    exists x, wikrt_reg_get MR MZ fuel rtb r = Ret x /\
              rtb_count rtb' = rtb_count rtb - rtb_used x + rtb_used 0.
Proof.
  intros Hinv Hf.
  destruct (rtb_index_total MR MZ fuel rtb r Hinv Hf) as (j0 & Hj0 & E & S0 & B0).
  pose proof Hinv as (Hn & (e & He & De) & H3).
  pose proof (rtb_slot_range rtb (rtb_hash MR rtb r) j0 ltac:(lia)) as Hix.
  set (ix := rtb_slot rtb (rtb_hash MR rtb r) j0) in *.
  unfold rtb_clear.
  destruct (Z.eqb_spec 0 (rtb_size rtb)) as [C|_]; [lia|]. rewrite E.
  destruct (0 =? rtb_data rtb ix) eqn:D0.
  - apply Z.eqb_eq in D0. exists rtb. split; [reflexivity|]. split; [exact Hinv|].
    split; [reflexivity|].
    split; [|split; [intros r' x _ M; exact M|split; [auto|]]].
    2:{ exists (rtb_data rtb ix). split; [unfold wikrt_reg_get; rewrite E; reflexivity|].
        rewrite <- D0. change (rtb_used 0) with 0. lia. }
    destruct (rtb_get_maps MR MZ fuel rtb r Hinv Hf) as (x & G & M).
    unfold wikrt_reg_get in G. rewrite E in G. injection G as G.
    rewrite <- G, <- D0 in M. exact M.
  - apply Z.eqb_neq in D0.
    assert (rtb_data rtb ix <> 0) as Dx by congruence.
    assert (rtb_ids rtb ix = r) as Rx.
    { unfold rtb_stop in S0. apply orb_true_iff in S0.
      destruct S0 as [S0|S0]; apply Z.eqb_eq in S0; congruence. }
    set (rtb1 := mk_rtb (rtb_ids rtb) (arr_set (rtb_data rtb) ix 0)
                        (rtb_size rtb) ((rtb_fill rtb - 1) mod MZ)).
    assert (rtb_hole_inv rtb1 ix 0) as HI.
    { apply (rtb_hole_init rtb rtb1 ix Hinv Hix eq_refl).
      - apply arr_set_same.
      - intros x. reflexivity.
      - intros x Hx. apply arr_set_other. exact Hx. }
    assert (e <> ix) as Ne by congruence.
    pose proof (Z.mod_pos_bound (e - ix) (rtb_size rtb) ltac:(lia)) as Rm.
    destruct (rtb_clear_loop_spec fuel fuel rtb1 ix 0 e HI Hf He Ne)
      as (rtb2 & E2 & I2 & S2 & En2 & F2 & C2).
    { cbn [rtb1 rtb_data]. rewrite arr_set_other by exact Ne. exact De. }
    { rewrite rtb_slot_0 by exact Hix. cbn [rtb1 rtb_size]. lia. }
    rewrite rtb_slot_0 in E2 by exact Hix.
    assert (forall r' x, rtb_entry rtb1 r' x <-> rtb_entry rtb r' x /\ r' <> r) as En1.
    { intros r' x. unfold rtb_entry. cbn [rtb1 rtb_size rtb_ids rtb_data]. split.
      - intros (Nx & i & Hi & Ri & Di).
        assert (i <> ix) as Ni.
        { intros C. rewrite C, arr_set_same in Di. congruence. }
        rewrite arr_set_other in Di by exact Ni.
        split; [split; [exact Nx|exists i; auto]|].
        intros C. apply Ni.
        assert (rtb_data rtb i <> 0) as Oi by congruence.
        pose proof (rtb_index_present MR MZ fuel rtb r i Hinv Hf Hi Oi
                      ltac:(congruence)) as E'.
        rewrite E in E'. injection E' as E'. congruence.
      - intros ((Nx & i & Hi & Ri & Di) & Nr). split; [exact Nx|].
        assert (i <> ix) as Ni by congruence.
        exists i. rewrite arr_set_other by exact Ni. auto. }
    exists rtb2. split; [exact E2|]. split; [exact I2|].
    pose proof (rtb_count_set rtb rtb1 ix 0 Hix eq_refl (fun x => eq_refl)) as C1.
    split; [rewrite S2; reflexivity|]. split; [|split; [|split]].
    4:{ exists (rtb_data rtb ix). split; [unfold wikrt_reg_get; rewrite E; reflexivity|].
        rewrite C2. exact C1. }
    3:{ intros F. rewrite F2, C2. cbn [rtb1 rtb_fill].
        pose proof (rtb_count_range rtb1) as Rg. cbn [rtb1 rtb_size] in Rg.
        fold rtb1 in Rg. rewrite C1 in Rg |- *.
        assert (rtb_used (rtb_data rtb ix) = 1) as U
            by (unfold rtb_used; destruct (Z.eqb_spec (rtb_data rtb ix) 0);
                [contradiction|reflexivity]).
        rewrite U in Rg |- *. change (rtb_used 0) with 0 in Rg |- *.
        rewrite F, Z.mod_small by lia. lia. }
    + right. split; [reflexivity|]. intros i Hi Di Ri.
      assert (rtb_entry rtb2 r (rtb_data rtb2 i)) as En
          by (split; [exact Di|exists i; auto]).
      apply (proj1 (En2 _ _)) in En. apply (proj1 (En1 _ _)) in En.
      destruct En as (_ & C). apply C. reflexivity.
    + intros r' x Nr [En|(-> & Ax)].
      * left. apply (proj1 (En2 _ _)) in En. apply (proj1 (En1 _ _)) in En.
        exact (proj1 En).
      * right. split; [reflexivity|]. intros i Hi Di Ri.
        assert (rtb_entry rtb2 r' (rtb_data rtb i)) as En.
        { apply (proj2 (En2 _ _)), (proj2 (En1 _ _)). split; [|exact Nr].
          split; [exact Di|exists i; auto]. }
        destruct En as (_ & i2 & Hi2 & Ri2 & Di2).
        apply (Ax i2 Hi2); congruence.
Qed.

Lemma rtb_get_transfer fuel rtb rtb' r :
  rtb_inv MR MZ rtb -> rtb_inv MR MZ rtb' -> rtb_size rtb' = rtb_size rtb ->
  (Z.to_nat (rtb_size rtb) <= fuel)%nat ->
  (forall x, rtb_maps rtb' r x -> rtb_maps rtb r x) ->
  wikrt_reg_get MR MZ fuel rtb' r = wikrt_reg_get MR MZ fuel rtb r.
Proof.
  intros I I' Hsz Hf T.
  destruct (rtb_get_maps MR MZ fuel rtb' r I' ltac:(rewrite Hsz; exact Hf))
    as (x & G & M).
  rewrite G. symmetry. apply rtb_get_of_maps; auto.
Qed.

(** Setting a register to a non-zero word, in a table that is in
    order, whose fill counter is the number of its entries, and that has
    the register or two empty slots: the assertion of [rtb_write] holds,
    [wikrt_reg_set] returns, the table is in order and its counter
    right, [wikrt_reg_get] of the register returns the word, and every
    other register reads as before. *)
Theorem reg_set_get fuel rtb r v :
  rtb_inv MR MZ rtb -> (Z.to_nat (rtb_size rtb) <= fuel)%nat -> v <> 0 ->
  rtb_fill rtb = rtb_count rtb ->
  (exists i, 0 <= i < rtb_size rtb /\ rtb_data rtb i <> 0 /\ rtb_ids rtb i = r) \/
  (exists e1 e2, e1 <> e2 /\ 0 <= e1 < rtb_size rtb /\ 0 <= e2 < rtb_size rtb /\
                 rtb_data rtb e1 = 0 /\ rtb_data rtb e2 = 0) ->
  exists rtb',
    wikrt_reg_set MR MZ fuel rtb r v = Ret rtb' /\
    rtb_inv MR MZ rtb' /\ rtb_size rtb' = rtb_size rtb /\
    rtb_fill rtb' = rtb_count rtb' /\
    wikrt_reg_get MR MZ fuel rtb' r = Ret v /\
    (forall r', r' <> r ->
       wikrt_reg_get MR MZ fuel rtb' r' = wikrt_reg_get MR MZ fuel rtb r').
Proof.
  intros Hinv Hf Hv Hfill Hroom.
  assert (rtb_fill rtb < rtb_size rtb) as Hlt.
  { destruct Hinv as (_ & (e & He & De) & _). rewrite Hfill.
    exact (rtb_count_lt rtb e He De). }
  destruct (rtb_write_spec MR MZ fuel rtb r v Hinv Hf Hv Hlt Hroom)
    as (rtb' & E & I' & S' & M & T & F' & _).
  exists rtb'. unfold wikrt_reg_set.
  destruct (Z.eqb_spec 0 v) as [C|_]; [congruence|].
  split; [exact E|]. split; [exact I'|]. split; [exact S'|].
  split; [exact (F' Hfill)|]. split.
  - apply rtb_get_of_maps; [exact I'|rewrite S'; exact Hf|exact M].
  - intros r' Nr. apply rtb_get_transfer; try assumption.
    intros x. apply T. exact Nr.
Qed.

(** Setting a register to zero removes it: [wikrt_reg_set] returns,
    the table is in order, [wikrt_reg_get] of the register returns zero,
    and every other register reads as before. *)
Theorem reg_clear_get fuel rtb r :
  rtb_inv MR MZ rtb -> (Z.to_nat (rtb_size rtb) <= fuel)%nat ->
  exists rtb',
    wikrt_reg_set MR MZ fuel rtb r 0 = Ret rtb' /\
    rtb_inv MR MZ rtb' /\ rtb_size rtb' = rtb_size rtb /\
    wikrt_reg_get MR MZ fuel rtb' r = Ret 0 /\
    (forall r', r' <> r ->
       wikrt_reg_get MR MZ fuel rtb' r' = wikrt_reg_get MR MZ fuel rtb r').
Proof.
  intros Hinv Hf.
  destruct (rtb_clear_spec fuel rtb r Hinv Hf) as (rtb' & E & I' & S' & M & T & _ & _).
  exists rtb'. unfold wikrt_reg_set. rewrite Z.eqb_refl.
  split; [exact E|]. split; [exact I'|]. split; [exact S'|]. split.
  - apply rtb_get_of_maps; [exact I'|rewrite S'; exact Hf|exact M].
  - intros r' Nr. apply rtb_get_transfer; try assumption.
    intros x. apply T. exact Nr.
Qed.

(** The fill counter: when [rtb->fill] is the number of occupied slots
    before [wikrt_reg_set], it is afterwards.  That number goes up by one
    when a register that read as zero is given a word, down by one when a
    register that had a word is cleared, and is unchanged otherwise. *)
Theorem reg_set_fill fuel rtb r v :
  rtb_inv MR MZ rtb -> (Z.to_nat (rtb_size rtb) <= fuel)%nat ->
  rtb_fill rtb = rtb_count rtb ->
  v = 0 \/
  (exists i, 0 <= i < rtb_size rtb /\ rtb_data rtb i <> 0 /\ rtb_ids rtb i = r) \/
  (exists e1 e2, e1 <> e2 /\ 0 <= e1 < rtb_size rtb /\ 0 <= e2 < rtb_size rtb /\
                 rtb_data rtb e1 = 0 /\ rtb_data rtb e2 = 0) ->
  exists rtb' x,
    wikrt_reg_set MR MZ fuel rtb r v = Ret rtb' /\
    wikrt_reg_get MR MZ fuel rtb r = Ret x /\
    rtb_fill rtb' = rtb_count rtb' /\
    rtb_count rtb' = rtb_count rtb - rtb_used x + rtb_used v.
Proof.
  intros Hinv Hf F Hv. unfold wikrt_reg_set.
  destruct (Z.eqb_spec 0 v) as [<-|Nv].
  - destruct (rtb_clear_spec fuel rtb r Hinv Hf)
      as (rtb' & E & _ & _ & _ & _ & F' & x & G & C).
    exists rtb', x. auto.
  - destruct Hv as [Hv|Hroom]; [congruence|].
    assert (rtb_fill rtb < rtb_size rtb) as Hlt.
    { destruct Hinv as (_ & (e & He & De) & _). rewrite F.
      exact (rtb_count_lt rtb e He De). }
    assert (v <> 0) as Hv0 by congruence.
    destruct (rtb_write_spec MR MZ fuel rtb r v Hinv Hf Hv0 Hlt Hroom)
      as (rtb' & E & _ & _ & _ & _ & F' & x & G & C).
    exists rtb', x. auto.
Qed.

End RegClear.

(** A table of four slots in which registers 1 and 5 collide: both hash
    to slot 3, register 5 went on to slot 0. *)
Definition rtb_none : wikrt_rtb := mk_rtb (fun _ => 0) (fun _ => 0) 4 0.

Definition rtb_two : wikrt_rtb :=
  mk_rtb (arr_set (arr_set (fun _ => 0) 3 1) 0 5)
         (arr_set (arr_set (fun _ => 0) 3 11) 0 55) 4 2.

Lemma rtb_two_inv : rtb_inv (2 ^ 64) (2 ^ 64) rtb_two.
Proof.
  split; [cbn; lia|]. split; [exists 1; split; [cbn; lia|reflexivity]|].
  intros i Hi Hd j Hj. cbn [rtb_two rtb_size] in Hi.
  assert (i = 0 \/ i = 1 \/ i = 2 \/ i = 3) as Ci by lia.
  destruct Ci as [Ci|[Ci|[Ci|Ci]]]; rewrite Ci in *; clear Ci.
  - assert ((0 - rtb_hash (2 ^ 64) rtb_two (rtb_ids rtb_two 0)) mod rtb_size rtb_two = 1)
      as E by reflexivity.
    rewrite E in Hj. assert (j = 0) as -> by lia. reflexivity.
  - exfalso. apply Hd. reflexivity.
  - exfalso. apply Hd. reflexivity.
  - assert ((3 - rtb_hash (2 ^ 64) rtb_two (rtb_ids rtb_two 3)) mod rtb_size rtb_two = 0)
      as E by reflexivity.
    rewrite E in Hj. lia.
Qed.

Lemma reg_get_empty_witness :
  rtb_inv (2 ^ 64) (2 ^ 64) rtb_none /\
  wikrt_reg_get (2 ^ 64) (2 ^ 64) 4 rtb_none 7 = Ret 0.
Proof.
  apply reg_get_empty.
  - cbn. lia.
  - cbn. lia.
  - intros i Hi. reflexivity.
Defined.

Lemma reg_set_get_witness :
  exists rtb',
    wikrt_reg_set (2 ^ 64) (2 ^ 64) 4 rtb_two 9 99 = Ret rtb' /\
    rtb_inv (2 ^ 64) (2 ^ 64) rtb' /\ rtb_size rtb' = rtb_size rtb_two /\
    rtb_fill rtb' = rtb_count rtb' /\
    wikrt_reg_get (2 ^ 64) (2 ^ 64) 4 rtb' 9 = Ret 99 /\
    (forall r', r' <> 9 ->
       wikrt_reg_get (2 ^ 64) (2 ^ 64) 4 rtb' r'
       = wikrt_reg_get (2 ^ 64) (2 ^ 64) 4 rtb_two r').
Proof.
  apply reg_set_get.
  - exact rtb_two_inv.
  - cbn. lia.
  - lia.
  - reflexivity.
  - right. exists 1, 2. cbn. repeat split; lia.
Defined.

Lemma reg_clear_get_witness :
  exists rtb',
    wikrt_reg_set (2 ^ 64) (2 ^ 64) 4 rtb_two 1 0 = Ret rtb' /\
    rtb_inv (2 ^ 64) (2 ^ 64) rtb' /\ rtb_size rtb' = rtb_size rtb_two /\
    wikrt_reg_get (2 ^ 64) (2 ^ 64) 4 rtb' 1 = Ret 0 /\
    (forall r', r' <> 1 ->
       wikrt_reg_get (2 ^ 64) (2 ^ 64) 4 rtb' r'
       = wikrt_reg_get (2 ^ 64) (2 ^ 64) 4 rtb_two r').
Proof.
  apply reg_clear_get.
  - exact rtb_two_inv.
  - cbn. lia.
Defined.

Lemma reg_set_fill_witness :
  exists rtb' x,
    wikrt_reg_set (2 ^ 64) (2 ^ 64) 4 rtb_two 1 0 = Ret rtb' /\
    wikrt_reg_get (2 ^ 64) (2 ^ 64) 4 rtb_two 1 = Ret x /\
    rtb_fill rtb' = rtb_count rtb' /\
    rtb_count rtb' = rtb_count rtb_two - rtb_used x + rtb_used 0.
Proof.
  apply reg_set_fill.
  - exact rtb_two_inv.
  - cbn. lia.
  - reflexivity.
  - left. reflexivity.
Defined.

(** * Dropping a list *)

Section ListDrop.
Context {FL : wikrt_flist}.

(** A list in the arena with its cells named: in-left cells at the
    addresses [cs], all in use, holding the elements [es], ended by
    unit-in-right. *)
Fixpoint list_cells (cx : wikrt_cx) (v : wikrt_val) (cs : list Z)
         (es : list wikrt_val) : Prop :=
  match cs, es with
  | [], [] => v = WIKRT_UNIT_INR
  | c :: cs', e :: es' =>
      v = wikrt_tag_addr WIKRT_PL c /\ valid_addr c /\
      (forall x, c <= x < c + 8 -> ~ cx_free cx x) /\
      pval_get cx c 0 = e /\
      list_cells cx (pval_get cx c 1) cs' es'
  | _, _ => False
  end.

Definition in_cells (cs : list Z) (x : Z) : Prop :=
  exists c, In c cs /\ c <= x < c + 8.

Lemma in_cells_cons c cs x : in_cells (c :: cs) x <-> c <= x < c + 8 \/ in_cells cs x.
Proof.
  unfold in_cells. split.
  - intros (c' & [<-|Hc] & Hx); [left; exact Hx|right; exists c'; auto].
  - intros [Hx|(c' & Hc & Hx)]; [exists c|exists c']; cbn [In]; auto.
Qed.

Lemma in_cells_app cs1 cs2 x : in_cells (cs1 ++ cs2) x <-> in_cells cs1 x \/ in_cells cs2 x.
Proof.
  unfold in_cells. split.
  - intros (c & Hc & Hx). apply in_app_or in Hc.
    destruct Hc; [left|right]; exists c; auto.
  - intros [(c & Hc & Hx)|(c & Hc & Hx)]; exists c; (split; [|exact Hx]);
      apply in_or_app; auto.
Qed.

Lemma in_cells_rev cs x : in_cells (rev cs) x <-> in_cells cs x.
Proof.
  unfold in_cells. split; intros (c & Hc & Hx); exists c; (split; [|exact Hx]).
  - apply in_rev. exact Hc.
  - apply in_rev in Hc. exact Hc.
Qed.

Lemma list_cells_frame cx cx' : forall cs es v,
  list_cells cx v cs es ->
  (forall x, in_cells cs x -> load8 (memory cx') x = load8 (memory cx) x) ->
  (forall x, in_cells cs x -> cx_free cx' x -> cx_free cx x) ->
  list_cells cx' v cs es.
Proof.
  induction cs as [|c cs IH]; intros [|e es] v L Hm Hf; cbn [list_cells] in *;
    try assumption.
  destruct L as (Ev & Vc & Uc & E0 & Lr).
  assert (forall x, c <= x < c + 8 -> in_cells (c :: cs) x) as Ic
      by (intros x Hx; apply in_cells_cons; left; exact Hx).
  split; [exact Ev|]. split; [exact Vc|]. split.
  - intros x Hx C. exact (Uc x Hx (Hf x (Ic x Hx) C)).
  - split.
    + rewrite (pval_get_ext cx cx' c 0); [exact E0|].
      intros x Hx. apply Hm, Ic. lia.
    + rewrite (pval_get_ext cx cx' c 1) by (intros x Hx; apply Hm, Ic; lia).
      apply IH; [exact Lr| |]; intros x Hx.
      * apply Hm, in_cells_cons. right. exact Hx.
      * apply Hf, in_cells_cons. right. exact Hx.
Qed.

Lemma list_cells_facts cx : forall cs es v,
  list_cells cx v cs es ->
  length cs = length es /\ Forall valid_addr cs /\ 0 <= v < 2^32 /\
  list_at cx v es.
Proof.
  assert (ptr_tag WIKRT_PL) as PL by (right; right; left; reflexivity).
  induction cs as [|c cs IH]; intros [|e es] v L; cbn [list_cells] in L;
    try contradiction.
  - subst v. split; [reflexivity|]. split; [constructor|].
    split; [vm_compute; split; congruence|reflexivity].
  - destruct L as (-> & Vc & Uc & E0 & Lr).
    destruct (IH es _ Lr) as (Hl & Hv & Hr & La).
    split; [cbn [length]; congruence|]. split; [constructor; assumption|].
    split; [apply tag_addr_range; assumption|].
    cbn [list_at]. rewrite (vtag_tag_addr _ _ PL Vc), (vaddr_tag_addr _ _ PL Vc).
    split; [reflexivity|]. split; [destruct Vc; lia|]. split; assumption.
Qed.

Lemma cell_not_in_cells c cs x :
  valid_addr c -> Forall valid_addr cs -> ~ In c cs ->
  c <= x < c + 8 -> ~ in_cells cs x.
Proof.
  intros Vc Vs Nc Hx (c' & Hc' & Hx').
  assert (valid_addr c') as Vc' by (rewrite Forall_forall in Vs; apply Vs; exact Hc').
  assert (c <> c') as N by congruence.
  destruct (aligned_cells_apart c c' Vc Vc' N); lia.
Qed.

Lemma unit_inr_shallow : wikrt_copy_shallow WIKRT_UNIT_INR = true.
Proof. reflexivity. Qed.

Lemma cell_word_not_shallow c :
  valid_addr c ->
  wikrt_copy_shallow (wikrt_tag_addr WIKRT_PL c) = false /\
  wikrt_tag_addr WIKRT_PL c <> WIKRT_UNIT_INR.
Proof.
  intros Vc.
  assert (ptr_tag WIKRT_PL) as PL by (right; right; left; reflexivity).
  split.
  - unfold wikrt_copy_shallow.
    rewrite (wikrt_i_tag_addr _ _ PL Vc), (vaddr_tag_addr _ _ PL Vc).
    destruct (Z.eqb_spec 0 c) as [E|_]; [destruct Vc; lia|reflexivity].
  - intros C. apply (f_equal wikrt_vaddr) in C.
    rewrite (vaddr_tag_addr _ _ PL Vc) in C.
    change (wikrt_vaddr WIKRT_UNIT_INR) with 0 in C. destruct Vc; lia.
Qed.

(** The second phase: a shallow value in hand and a work list of cells
    with shallow elements; each turn of the loop releases one cell. *)
Lemma drop_stack_spec b : forall cs es fuel cx v ldrop,
  cx_wf cx -> 0 <= ct_bytes_freed cx < 2^64 ->
  wikrt_copy_shallow v = true ->
  list_cells cx ldrop cs es -> NoDup cs ->
  Forall (fun e => wikrt_copy_shallow e = true) es ->
  (length cs < fuel)%nat ->
  exists cx',
    drop_loop fuel b cx v ldrop = Ret (WIKRT_OK, cx') /\
    cx_wf cx' /\ memory cx' = memory cx /\
    ct_bytes_alloc cx' = ct_bytes_alloc cx /\
    ct_bytes_freed cx' = u64 (ct_bytes_freed cx + 8 * Z.of_nat (length cs)) /\
    (forall x, cx_free cx' x -> cx_free cx x \/ in_cells cs x).
Proof.
  assert (ptr_tag WIKRT_PL) as PL by (right; right; left; reflexivity).
  induction cs as [|c cs IH]; intros [|e es] fuel cx v ldrop Hwf Hfr Hv L Nd Hs Hf;
    cbn [list_cells] in L; try contradiction;
    (destruct fuel as [|fuel]; [cbn [length] in Hf; lia|]);
    cbn [drop_loop]; cbv zeta; rewrite Hv.
  - subst ldrop. rewrite Z.eqb_refl. exists cx.
    split; [reflexivity|]. split; [exact Hwf|]. split; [reflexivity|].
    split; [reflexivity|]. split; [|auto].
    cbn [length]. rewrite Z.mul_0_r, Z.add_0_r. symmetry. apply u64_small. exact Hfr.
  - destruct L as (-> & Vc & Uc & E0 & Lr).
    destruct (cell_word_not_shallow c Vc) as (_ & Nu).
    destruct (Z.eqb_spec WIKRT_UNIT_INR (wikrt_tag_addr WIKRT_PL c)) as [C|_];
      [congruence|].
    unfold wikrt_drop_step_next.
    rewrite (vtag_tag_addr _ _ PL Vc), (vaddr_tag_addr _ _ PL Vc).
    destruct (Z.eqb_spec 0 c) as [C|_]; [destruct Vc; lia|].
    rewrite Z.eqb_refl. rewrite E0.
    destruct (wikrt_free_cell cx c Hwf Vc Uc) as (W1 & M1 & A1 & F1 & Fr1).
    set (cx1 := wikrt_free cx WIKRT_CELLSIZE c) in *.
    destruct (list_cells_facts cx cs es _ Lr) as (_ & Vs & _ & _).
    inversion Nd as [|c' cs' Nc Nd' Eq]; subst c' cs'.
    inversion Hs as [|e' es' He Hs' Eq]; subst e' es'.
    assert (list_cells cx1 (pval_get cx c 1) cs es) as L1.
    { apply (list_cells_frame cx cx1); [exact Lr| |].
      - intros x _. rewrite M1. reflexivity.
      - intros x Hx C. destruct (Fr1 x C) as [Y|Y]; [exact Y|].
        exfalso. exact (cell_not_in_cells c cs x Vc Vs Nc Y Hx). }
    assert (0 <= ct_bytes_freed cx1 < 2^64) as Hfr1 by (rewrite F1; apply u64_range).
    destruct (IH es fuel cx1 e (pval_get cx c 1) W1 Hfr1 He L1 Nd' Hs'
                ltac:(cbn [length] in Hf; lia))
      as (cx' & E' & W' & M' & A' & F' & Fr').
    exists cx'. split; [exact E'|]. split; [exact W'|].
    split; [congruence|]. split; [congruence|]. split.
    + rewrite F', F1, u64_add_idem. f_equal. cbn [length].
      unfold WIKRT_CELLSIZE. lia.
    + intros x C. rewrite in_cells_cons.
      destruct (Fr' x C) as [Y|Y]; [|auto].
      destruct (Fr1 x Y); auto.
Qed.

(** The first phase: the loop goes down the spine, turning each cell it
    passes into a node of the work list. *)
Lemma drop_spine_spec b : forall cs2 es2 fuel cx v ldrop cs1 es1,
  list_cells cx v cs2 es2 -> list_cells cx ldrop cs1 es1 ->
  NoDup (rev cs1 ++ cs2) ->
  exists cx1 ldrop1,
    drop_loop (length cs2 + fuel) b cx v ldrop
    = drop_loop fuel b cx1 WIKRT_UNIT_INR ldrop1 /\
    list_cells cx1 ldrop1 (rev cs2 ++ cs1) (rev es2 ++ es1) /\
    fl cx1 = fl cx /\ cxm_fl cx1 = cxm_fl cx /\
    ct_bytes_alloc cx1 = ct_bytes_alloc cx /\
    ct_bytes_freed cx1 = ct_bytes_freed cx /\
    (forall x, ~ in_cells cs2 x -> load8 (memory cx1) x = load8 (memory cx) x).
Proof.
  assert (ptr_tag WIKRT_PL) as PL by (right; right; left; reflexivity).
  induction cs2 as [|c cs2 IH]; intros [|e es2] fuel cx v ldrop cs1 es1 L2 L1 Nd;
    cbn [list_cells] in L2; try contradiction.
  - subst v. exists cx, ldrop. cbn [length rev app Nat.add]. auto 10.
  - destruct L2 as (-> & Vc & Uc & E0 & Lr).
    destruct (cell_word_not_shallow c Vc) as (Hsh & _).
    destruct (list_cells_facts cx cs2 es2 _ Lr) as (_ & Vs2 & _ & _).
    destruct (list_cells_facts cx cs1 es1 _ L1) as (_ & Vs1 & Rl & _).
    pose proof (NoDup_remove_2 _ _ _ Nd) as Nc.
    assert (~ In c cs1) as Nc1
        by (intros C; apply Nc, in_or_app; left; apply in_rev in C; exact C).
    assert (~ In c cs2) as Nc2 by (intros C; apply Nc, in_or_app; right; exact C).
    cbn [length Nat.add drop_loop]. cbv zeta. rewrite Hsh.
    rewrite (vtag_tag_addr _ _ PL Vc), (vaddr_tag_addr _ _ PL Vc).
    change (negb (WIKRT_O =? WIKRT_PL)) with true. cbv iota.
    set (cx' := pval_set cx c 1 ldrop).
    destruct (pval_set_fl cx c 1 ldrop) as (Fl' & Cm' & A' & F'). fold cx' in Fl', Cm', A', F'.
    assert (forall x, ~ (c <= x < c + 8) -> load8 (memory cx') x = load8 (memory cx) x)
      as Mo.
    { intros x Hx. unfold cx', pval_set, set_memory. cbn [memory].
      apply load8_store32_other. lia. }
    assert (forall cs es l, list_cells cx l cs es -> Forall valid_addr cs -> ~ In c cs ->
                            list_cells cx' l cs es) as Fr.
    { intros cs es l L Vs N. apply (list_cells_frame cx cx'); [exact L| |].
      - intros x Hx. apply Mo. intros C.
        exact (cell_not_in_cells c cs x Vc Vs N C Hx).
      - intros x _ C. apply pval_set_free in C. exact C. }
    destruct (IH es2 fuel cx' (pval_get cx c 1) (wikrt_tag_addr WIKRT_PL c)
                 (c :: cs1) (e :: es1)) as (cx1 & l1 & E1 & L' & Fl1 & Cm1 & A1 & F1 & M1).
    + apply Fr; assumption.
    + cbn [list_cells]. split; [reflexivity|]. split; [exact Vc|]. split; [|split].
      * intros x Hx C. apply pval_set_free in C. exact (Uc x Hx C).
      * unfold cx'. rewrite pval_get_set_other by lia. exact E0.
      * unfold cx' at 2. rewrite pval_get_set_same, u32_small by exact Rl.
        apply Fr; assumption.
    + cbn [rev]. rewrite <- app_assoc. exact Nd.
    + exists cx1, l1. split; [exact E1|]. split.
      * cbn [rev]. rewrite <- !app_assoc. exact L'.
      * split; [congruence|]. split; [congruence|]. split; [congruence|].
        split; [congruence|]. intros x Hx. rewrite in_cells_cons in Hx.
        rewrite M1 by tauto. apply Mo. tauto.
Qed.

Lemma drop_list_spec fuel b cx v cs es :
  cx_wf cx -> 0 <= ct_bytes_freed cx < 2^64 ->
  list_cells cx v cs es -> NoDup cs ->
  Forall (fun e => wikrt_copy_shallow e = true) es ->
  (2 * length cs + 1 <= fuel)%nat ->
  exists cx',
    _wikrt_drop fuel cx v b = Ret (WIKRT_OK, cx') /\
    cx_wf cx' /\
    ct_bytes_alloc cx' = ct_bytes_alloc cx /\
    ct_bytes_freed cx' = u64 (ct_bytes_freed cx + 8 * Z.of_nat (length cs)) /\
    (forall x, cx_free cx' x -> cx_free cx x \/ in_cells cs x) /\
    (forall x, ~ in_cells cs x -> load8 (memory cx') x = load8 (memory cx) x).
Proof.
  intros Hwf Hfr L Nd Hs Hf. unfold _wikrt_drop.
  replace fuel with (length cs + (fuel - length cs))%nat by lia.
  destruct (drop_spine_spec b cs es (fuel - length cs) cx v WIKRT_UNIT_INR [] [])
    as (cx1 & l1 & E1 & L1 & Fl1 & Cm1 & A1 & F1 & M1).
  - exact L.
  - reflexivity.
  - exact Nd.
  - rewrite E1. rewrite !app_nil_r in L1.
    assert (cx_wf cx1) as W1.
    { unfold cx_wf in *. rewrite Fl1, Cm1. exact Hwf. }
    assert (forall x, cx_free cx1 x <-> cx_free cx x) as Fr1.
    { intros x. unfold cx_free. rewrite Fl1, Cm1. reflexivity. }
    destruct (drop_stack_spec b (rev cs) (rev es) (fuel - length cs) cx1
                WIKRT_UNIT_INR l1 W1 ltac:(rewrite F1; exact Hfr) unit_inr_shallow L1)
      as (cx' & E' & W' & M' & A' & F' & Fr').
    + apply NoDup_rev. exact Nd.
    + apply Forall_rev. exact Hs.
    + rewrite length_rev. lia.
    + exists cx'. split; [exact E'|]. split; [exact W'|]. split; [congruence|].
      split; [rewrite F', F1, length_rev; reflexivity|]. split.
      * intros x C. destruct (Fr' x C) as [Y|Y].
        -- left. apply Fr1. exact Y.
        -- right. apply in_cells_rev. exact Y.
      * intros x Hx. rewrite M'. apply M1. exact Hx.
Qed.

(** Dropping a list of shallow values (small integers, units) whose
    cells are distinct and in use: the loop returns OK after going down
    the spine and back, eight bytes are freed per cell, only bytes of the
    cells can have become free, and no byte outside the cells is
    written. *)
Theorem drop_list fuel b cx v cs es :
  cx_wf cx -> 0 <= ct_bytes_freed cx < 2^64 ->
  list_cells cx v cs es -> NoDup cs ->
  Forall (fun e => wikrt_copy_shallow e = true) es ->
  (2 * length cs + 1 <= fuel)%nat ->
  exists cx',
    _wikrt_drop fuel cx v b = Ret (WIKRT_OK, cx') /\
    cx_wf cx' /\
    ct_bytes_alloc cx' = ct_bytes_alloc cx /\
    ct_bytes_freed cx' = u64 (ct_bytes_freed cx + 8 * Z.of_nat (length cs)) /\
    (forall x, cx_free cx' x -> cx_free cx x \/ in_cells cs x) /\
    (forall x, ~ in_cells cs x -> load8 (memory cx') x = load8 (memory cx) x).
Proof. exact (drop_list_spec fuel b cx v cs es). Qed.

(** The cells of a binary made by [alloc_binary_loop]: taken one by one
    from the free bytes, hence distinct. *)
Lemma alloc_binary_loop_cells bs : forall cx v tl v' cx',
  cx_wf cx -> tl_ok cx tl -> 0 <= ct_bytes_alloc cx < 2^64 ->
  Forall (fun e => 0 <= e <= 255) bs ->
  alloc_binary_loop cx v tl bs = (WIKRT_OK, v', cx') ->
  exists cs,
    list_cells cx' (ptr_read cx' v' tl) cs (map wikrt_i2v bs) /\
    NoDup cs /\ (forall x, in_cells cs x -> cx_free cx x).
Proof.
  induction bs as [|e bs IH]; intros cx v tl v' cx' Hwf Htl Hct Hbs E.
  - destruct (alloc_binary_loop_spec _ cx v tl _ v' cx' Hwf Htl Hct Hbs E)
      as (_ & _ & _ & _ & _ & K).
    destruct (K eq_refl) as (L & _ & _). cbn [map list_at] in L.
    exists []. split; [exact L|]. split; [constructor|].
    intros x (c & [] & _).
  - cbn [alloc_binary_loop] in E.
    assert (ptr_tag WIKRT_PL) as PL by (right; right; left; reflexivity).
    destruct (wikrt_alloc_cellval cx v tl WIKRT_PL (wikrt_i2v e) WIKRT_VOID)
      as [[ok v1] cx1] eqn:EA.
    destruct (alloc_cellval_tl _ _ _ _ _ _ _ _ _ Hwf PL Htl EA)
      as [(-> & _)
         |(-> & a & Va & W1 & A1 & F1 & R1 & O1 & G0 & G1 & In1 & Fr1 & Fm1)];
      [discriminate E|].
    rewrite R1, (vaddr_tag_addr _ _ PL Va) in E.
    assert (tl_ok cx1 (PtrMem (a + 4))) as Htl1.
    { intros x Hx. apply (In1 x). lia. }
    assert (0 <= ct_bytes_alloc cx1 < 2^64) as Hct1
        by (rewrite A1; apply u64_range).
    inversion Hbs as [|e' bs' He Hbs' Eq]; subst e' bs'.
    destruct (alloc_binary_loop_spec _ cx1 v1 (PtrMem (a + 4)) _ v' cx'
                W1 Htl1 Hct1 Hbs' E) as (_ & Fr' & O' & _ & _ & K).
    destruct (K eq_refl) as (_ & _ & Fm').
    destruct (IH cx1 v1 (PtrMem (a + 4)) v' cx' W1 Htl1 Hct1 Hbs' E)
      as (cs & L' & Nd' & Fc').
    assert (v' = v1) as -> by (apply O'; discriminate).
    assert (forall x, ~ cx_free cx x -> ~ (a <= x < a + 8)) as Hout.
    { intros x Hx C. exact (Hx (proj1 (In1 x C))). }
    assert (ptr_read cx' v1 tl = wikrt_tag_addr WIKRT_PL a) as R'.
    { destruct tl as [|d|]; [exact R1| |contradiction].
      cbn [ptr_read] in *. rewrite <- R1. apply load32_ext.
      intros x Hx. apply Fm'.
      - intros C. exact (Htl x Hx (Fr1 x C)).
      - cbn [tl_out]. pose proof (Hout x (Htl x Hx)). lia. }
    exists (a :: cs). split; [|split].
    + cbn [map list_cells]. split; [exact R'|]. split; [exact Va|]. split; [|split].
      * intros x Hx C. exact (proj2 (In1 x Hx) (Fr' x C)).
      * rewrite (pval_get_ext cx1 cx' a 0).
        -- rewrite G0. apply u32_small. apply i2v_range.
        -- intros x Hx. apply Fm'; [apply (In1 x); lia|cbn [tl_out]; lia].
      * cbn [ptr_read] in L'. unfold pval_get.
        replace (a + 4 * 1) with (a + 4) by lia. exact L'.
    + constructor; [|exact Nd']. intros C.
      assert (in_cells cs a) as Ia by (exists a; split; [exact C|lia]).
      exact (proj2 (In1 a ltac:(lia)) (Fc' a Ia)).
    + intros x Hx. apply in_cells_cons in Hx. destruct Hx as [Hx|Hx].
      * exact (proj1 (In1 x Hx)).
      * apply Fr1, Fc'. exact Hx.
Qed.

(** A binary made by [_wikrt_alloc_binary] and then dropped: the drop
    returns OK, as many bytes are freed as were allocated (eight per byte
    of the binary), no byte is free afterwards that was not free before
    the binary was made, and the bytes in use before are as they were. *)
Theorem binary_alloc_drop fuel b cx v buff nBytes v' cx' :
  cx_wf cx -> 0 <= ct_bytes_alloc cx < 2^64 -> 0 <= ct_bytes_freed cx < 2^64 ->
  Forall (fun e => 0 <= e <= 255) buff ->
  0 <= nBytes <= Z.of_nat (length buff) ->
  _wikrt_alloc_binary cx v buff nBytes = (WIKRT_OK, v', cx') ->
  (2 * Z.to_nat nBytes + 1 <= fuel)%nat ->
  exists cx2,
    _wikrt_drop fuel cx' v' b = Ret (WIKRT_OK, cx2) /\
    cx_wf cx2 /\
    ct_bytes_alloc cx2 = u64 (ct_bytes_alloc cx + 8 * nBytes) /\
    ct_bytes_freed cx2 = u64 (ct_bytes_freed cx + 8 * nBytes) /\
    (forall x, cx_free cx2 x -> cx_free cx x) /\
    (forall x, ~ cx_free cx x -> load8 (memory cx2) x = load8 (memory cx) x).
Proof.
  intros Hwf Hct Hfr Hb Hn E Hf. unfold _wikrt_alloc_binary in E.
  set (bs := firstn (Z.to_nat nBytes) buff) in *.
  assert (Forall (fun e => 0 <= e <= 255) bs) as Hbs.
  { rewrite Forall_forall in *. intros e He. apply Hb.
    rewrite <- (firstn_skipn (Z.to_nat nBytes) buff). apply in_or_app. left. exact He. }
  assert (length bs = Z.to_nat nBytes) as Hl
      by (unfold bs; rewrite length_firstn, Nat.min_l by lia; reflexivity).
  destruct (alloc_binary_loop_spec _ cx WIKRT_VOID PtrOut _ v' cx' Hwf I Hct Hbs E)
    as (W' & Fr' & _ & F' & _ & K).
  destruct (K eq_refl) as (_ & A' & M').
  destruct (alloc_binary_loop_cells _ cx WIKRT_VOID PtrOut v' cx' Hwf I Hct Hbs E)
    as (cs & L & Nd & Fc).
  cbn [ptr_read] in L.
  destruct (list_cells_facts cx' cs _ _ L) as (Lc & _).
  rewrite length_map, Hl in Lc.
  assert (Forall (fun e => wikrt_copy_shallow e = true) (map wikrt_i2v bs)) as Hs.
  { apply Forall_map. rewrite Forall_forall in *. intros e He.
    apply copy_shallow_i2v. specialize (Hbs e He). lia. }
  destruct (drop_list_spec fuel b cx' v' cs _ W' ltac:(rewrite F'; exact Hfr) L Nd Hs
              ltac:(rewrite Lc; exact Hf))
    as (cx2 & E2 & W2 & A2 & F2 & Fr2 & M2).
  exists cx2. split; [exact E2|]. split; [exact W2|]. split; [|split; [|split]].
  - rewrite A2, A'. f_equal. lia.
  - rewrite F2, F', Lc. f_equal. lia.
  - intros x C. destruct (Fr2 x C) as [Y|Y]; [exact (Fr' x Y)|exact (Fc x Y)].
  - intros x Hx. rewrite M2.
    + apply M'; [exact Hx|exact I].
    + intros C. exact (Hx (Fc x C)).
Qed.

End ListDrop.

Lemma drop_list_witness :
  exists v' cx' cx2,
    _wikrt_alloc_binary cx0 WIKRT_VOID [1; 2; 3] 2 = (WIKRT_OK, v', cx') /\
    _wikrt_drop 5 cx' v' false = Ret (WIKRT_OK, cx2) /\
    ct_bytes_freed cx2 = u64 (ct_bytes_freed cx' + 8 * 2).
Proof.
  destruct (_wikrt_alloc_binary cx0 WIKRT_VOID [1; 2; 3] 2) as [[st v'] cx'] eqn:E.
  assert (st = WIKRT_OK) as Hst.
  { apply (f_equal (fun r => fst (fst r))) in E. vm_compute in E. congruence. }
  subst st. unfold _wikrt_alloc_binary in E.
  change (firstn (Z.to_nat 2) [1; 2; 3]) with [1; 2] in E.
  assert (0 <= ct_bytes_alloc cx0 < 2^64) as Hc by (vm_compute; split; congruence).
  assert (Forall (fun e => 0 <= e <= 255) [1; 2]) as Hb
      by (repeat (apply Forall_cons; [lia|]); apply Forall_nil).
  destruct (alloc_binary_loop_spec _ cx0 WIKRT_VOID PtrOut _ v' cx' cx0_wf I Hc Hb E)
    as (W' & _ & _ & F' & _ & _).
  destruct (alloc_binary_loop_cells _ cx0 WIKRT_VOID PtrOut v' cx' cx0_wf I Hc Hb E)
    as (cs & L & Nd & _).
  cbn [ptr_read] in L.
  destruct (list_cells_facts cx' cs _ _ L) as (Lc & _). cbn [map length] in Lc.
  assert (0 <= ct_bytes_freed cx' < 2^64) as Hf'
      by (rewrite F'; vm_compute; split; congruence).
  assert (Forall (fun e => wikrt_copy_shallow e = true) (map wikrt_i2v [1; 2])) as Hs
      by (repeat (apply Forall_cons; [reflexivity|]); apply Forall_nil).
  destruct (drop_list 5 false cx' v' cs _ W' Hf' L Nd Hs ltac:(rewrite Lc; cbn; lia))
    as (cx2 & E2 & _ & _ & F2 & _).
  exists v', cx', cx2. split; [reflexivity|]. split; [exact E2|].
  rewrite F2, Lc. reflexivity.
Defined.

Lemma binary_alloc_drop_witness :
  exists v' cx' cx2,
    _wikrt_alloc_binary cx0 WIKRT_VOID [1; 2; 3] 2 = (WIKRT_OK, v', cx') /\
    _wikrt_drop 5 cx' v' false = Ret (WIKRT_OK, cx2) /\
    ct_bytes_alloc cx2 = u64 (ct_bytes_alloc cx0 + 8 * 2) /\
    ct_bytes_freed cx2 = u64 (ct_bytes_freed cx0 + 8 * 2).
Proof.
  destruct (_wikrt_alloc_binary cx0 WIKRT_VOID [1; 2; 3] 2) as [[st v'] cx'] eqn:E.
  assert (st = WIKRT_OK) as Hst.
  { apply (f_equal (fun r => fst (fst r))) in E. vm_compute in E. congruence. }
  subst st.
  assert (0 <= ct_bytes_alloc cx0 < 2^64) as Hc by (vm_compute; split; congruence).
  assert (0 <= ct_bytes_freed cx0 < 2^64) as Hf by (vm_compute; split; congruence).
  assert (Forall (fun e => 0 <= e <= 255) [1; 2; 3]) as Hb
      by (repeat (apply Forall_cons; [lia|]); apply Forall_nil).
  assert (0 <= 2 <= Z.of_nat (length [1; 2; 3])) as Hn by (cbn; lia).
  assert (2 * Z.to_nat 2 + 1 <= 5)%nat as H5 by (cbn; lia).
  destruct (binary_alloc_drop 5 false cx0 WIKRT_VOID [1; 2; 3] 2 v' cx'
              cx0_wf Hc Hf Hb Hn E H5) as (cx2 & E2 & _ & A2 & F2 & _).
  exists v', cx', cx2. auto.
Defined.

(** * Copying a list *)

Section ListCopy.
Context {FL : wikrt_flist}.

(** The cells of a spine allocated in one block. *)
Fixpoint seq_cells (p : Z) (n : nat) : list Z :=
  match n with
  | O => []
  | S n' => p :: seq_cells (p + 8) n'
  end.

Lemma seq_cells_length p n : length (seq_cells p n) = n.
Proof. revert p. induction n as [|n IH]; intros p; cbn; [reflexivity|]. rewrite IH. reflexivity. Qed.

Lemma seq_cells_in n : forall p c,
  In c (seq_cells p n) -> p <= c /\ c + 8 <= p + 8 * Z.of_nat n /\ (c - p) mod 8 = 0.
Proof.
  induction n as [|n IH]; intros p c H; cbn [seq_cells In] in H; [contradiction|].
  destruct H as [<-|H].
  - rewrite Z.sub_diag. split; [lia|]. split; [lia|reflexivity].
  - destruct (IH _ _ H) as (H1 & H2 & H3). split; [lia|]. split; [lia|].
    replace (c - p) with (c - (p + 8) + 1 * 8) by lia.
    rewrite Z.mod_add by lia. exact H3.
Qed.

Lemma seq_cells_NoDup n : forall p, NoDup (seq_cells p n).
Proof.
  induction n as [|n IH]; intros p; cbn [seq_cells]; constructor.
  - intros C. apply seq_cells_in in C. lia.
  - apply IH.
Qed.

Lemma in_seq_cells n p x :
  in_cells (seq_cells p n) x -> p <= x < p + 8 * Z.of_nat n.
Proof.
  intros (c & Hc & Hx). apply seq_cells_in in Hc. lia.
Qed.

Lemma spine_length_fuel es : forall fuel cx v ct,
  list_at cx v es -> 0 <= ct -> ct + Z.of_nat (length es) < 2^32 ->
  (length es < fuel)%nat ->
  wikrt_spine_length fuel cx v ct = Some (ct + Z.of_nat (length es)).
Proof.
  induction es as [|e es IH]; intros fuel cx v ct L Hc Hb Hf;
    (destruct fuel as [|fuel]; [lia|]); cbn [wikrt_spine_length].
  - cbn [list_at] in L. subst v.
    change (0 =? wikrt_vaddr WIKRT_UNIT_INR) with true.
    rewrite andb_false_r. f_equal. cbn. lia.
  - destruct L as (Ht & Ha & _ & L). cbn [length] in *.
    rewrite Ht. change (negb (WIKRT_O =? WIKRT_PL)) with true.
    destruct (Z.eqb_spec 0 (wikrt_vaddr v)); [congruence|]. cbn [negb andb].
    rewrite u32_small by lia. rewrite IH by (try assumption; lia).
    f_equal. lia.
Qed.

(** The spine loop of the pair case and the two stores after it: the new
    cells repeat the list, cell after cell. *)
Lemma spine_copy_spec : forall cs es cx c p,
  list_cells cx (wikrt_tag_addr WIKRT_PL c) (c :: cs) es ->
  0 < p -> p mod 8 = 0 -> p + 8 * Z.of_nat (S (length cs)) <= 2^32 ->
  (forall x, p <= x < p + 8 * Z.of_nat (S (length cs)) ->
             ~ cx_free cx x /\ ~ in_cells (c :: cs) x) ->
  exists cx4 hd,
    copy_spine_fill (length cs) cx c p = (cx4, hd, p + 8 * Z.of_nat (length cs)) /\
    let q := p + 8 * Z.of_nat (length cs) in
    let cx5 := pval_set cx4 q 0 (pval_get cx4 hd 0) in
    let cx6 := pval_set cx5 q 1 (pval_get cx5 hd 1) in
    list_cells cx6 (wikrt_tag_addr WIKRT_PL p) (seq_cells p (S (length cs))) es /\
    pval_get cx6 q 1 = WIKRT_UNIT_INR /\
    fl cx6 = fl cx /\ cxm_fl cx6 = cxm_fl cx /\
    ct_bytes_alloc cx6 = ct_bytes_alloc cx /\
    ct_bytes_freed cx6 = ct_bytes_freed cx /\
    (forall x, ~ (p <= x < p + 8 * Z.of_nat (S (length cs))) ->
               load8 (memory cx6) x = load8 (memory cx) x).
Proof.
  assert (ptr_tag WIKRT_PL) as PL by (right; right; left; reflexivity).
  induction cs as [|c' cs IH]; intros [|e es] cx c p L Hp Hm Hb Hr;
    cbn [list_cells] in L; try contradiction;
    destruct L as (_ & Vc & Uc & E0 & Lr).
  - destruct es as [|? ?]; cbn [list_cells] in Lr; [|contradiction].
    cbn [length] in *. exists cx, c. cbn [copy_spine_fill].
    replace (p + 8 * Z.of_nat 0) with p by lia.
    split; [reflexivity|]. cbv zeta.
    assert (valid_addr p) as Vp by (unfold valid_addr; lia).
    assert (pval_get (pval_set cx p 0 (pval_get cx c 0)) c 1 = WIKRT_UNIT_INR) as E1.
    { rewrite pval_get_set_other; [exact Lr|].
      destruct (Z_le_gt_dec (c + 8) p); [lia|].
      destruct (Z_le_gt_dec (p + 8) c); [lia|]. exfalso.
      apply (proj2 (Hr (Z.max p c) ltac:(lia))). apply in_cells_cons. left. lia. }
    rewrite E1.
    split; [|split; [apply pval_get_set_same|]].
    + cbn [seq_cells list_cells]. split; [reflexivity|]. split; [exact Vp|].
      split; [|split].
      * intros x Hx C. apply pval_set_free, pval_set_free in C.
        exact (proj1 (Hr x ltac:(lia)) C).
      * rewrite pval_get_set_other by lia. rewrite pval_get_set_same.
        rewrite E0. apply u32_small. rewrite <- E0. apply pval_get_range.
      * rewrite pval_get_set_same. reflexivity.
    + destruct (pval_set_fl (pval_set cx p 0 (pval_get cx c 0)) p 1 WIKRT_UNIT_INR)
        as (-> & -> & -> & ->).
      destruct (pval_set_fl cx p 0 (pval_get cx c 0)) as (-> & -> & -> & ->).
      repeat (split; [reflexivity|]).
      intros x Hx. unfold pval_set, set_memory. cbn [memory].
      rewrite !load8_store32_other by lia. reflexivity.
  - destruct es as [|e' es]; cbn [list_cells] in Lr; [contradiction|].
    pose proof Lr as (E1 & Vc' & _).
    cbn [length] in *.
    set (n := length cs) in *.
    assert (valid_addr p) as Vp by (unfold valid_addr; lia).
    assert (valid_addr (p + 8)) as Vp8.
    { unfold valid_addr. split; [lia|]. split; [|lia].
      replace (p + 8) with (p + 1 * 8) by lia. rewrite Z.mod_add by lia. exact Hm. }
    assert (c + 8 <= p \/ p + 8 <= c) as Dc.
    { destruct (Z_le_gt_dec (c + 8) p); [lia|].
      destruct (Z_le_gt_dec (p + 8) c); [lia|]. exfalso.
      apply (proj2 (Hr (Z.max p c) ltac:(lia))). apply in_cells_cons. left. lia. }
    set (cx1 := pval_set cx p 0 (pval_get cx c 0)).
    assert (pval_get cx1 c 1 = wikrt_tag_addr WIKRT_PL c') as G1
        by (unfold cx1; rewrite pval_get_set_other by lia; exact E1).
    set (cx2 := pval_set cx1 p 1 (wikrt_tag_addr WIKRT_PL (p + 8))).
    assert (pval_get cx2 c 1 = wikrt_tag_addr WIKRT_PL c') as G2
        by (unfold cx2; rewrite pval_get_set_other by lia; exact G1).
    assert (forall x, cx_free cx2 x <-> cx_free cx x) as Fr2.
    { intros x. unfold cx2, cx1. rewrite !pval_set_free. reflexivity. }
    assert (forall x, ~ (p <= x < p + 8) -> load8 (memory cx2) x = load8 (memory cx) x)
      as M2.
    { intros x Hx. unfold cx2, cx1, pval_set, set_memory. cbn [memory].
      rewrite !load8_store32_other by lia. reflexivity. }
    assert (list_cells cx2 (wikrt_tag_addr WIKRT_PL c') (c' :: cs) (e' :: es)) as L2.
    { apply (list_cells_frame cx cx2).
      - cbn [list_cells]. split; [reflexivity|exact (proj2 Lr)].
      - intros x Hx. apply M2. intros C.
        apply (proj2 (Hr x ltac:(lia))). apply in_cells_cons. right. exact Hx.
      - intros x _ C. apply Fr2. exact C. }
    destruct (IH (e' :: es) cx2 c' (p + 8) L2 ltac:(lia) (proj1 (proj2 Vp8)) ltac:(fold n; lia))
      as (cx4 & hd & E4 & K).
    { intros x Hx. fold n in Hx. split.
      - intros C. apply Fr2 in C. exact (proj1 (Hr x ltac:(lia)) C).
      - intros C. apply (proj2 (Hr x ltac:(lia))). apply in_cells_cons. right. exact C. }
    fold n in E4, K. cbv zeta in K.
    replace (p + 8 + 8 * Z.of_nat n) with (p + 8 * Z.of_nat (S n)) in E4, K by lia.
    destruct K as (L6 & U6 & Fl6 & Cm6 & A6 & F6 & M6).
    exists cx4, hd. split.
    + cbn [copy_spine_fill]. cbv zeta. unfold WIKRT_CELLSIZE.
      rewrite (u32_small (p + 8)) by lia.
      fold cx1. rewrite G1, (vtag_tag_addr _ _ PL Vc'). fold cx2.
      rewrite G2, (vaddr_tag_addr _ _ PL Vc'). exact E4.
    + cbv zeta. split; [|split; [exact U6|]].
      * change (seq_cells p (S (S n))) with (p :: seq_cells (p + 8) (S n)).
        cbn [list_cells]. split; [reflexivity|]. split; [exact Vp|].
        split; [|split].
        -- intros x Hx C. unfold cx_free in C. rewrite Fl6, Cm6 in C.
           apply Fr2 in C. exact (proj1 (Hr x ltac:(lia)) C).
        -- rewrite (pval_get_ext cx2 _ p 0)
             by (intros x Hx; apply M6; lia).
           unfold cx2. rewrite pval_get_set_other by lia.
           unfold cx1. rewrite pval_get_set_same, E0.
           apply u32_small. rewrite <- E0. apply pval_get_range.
        -- rewrite (pval_get_ext cx2 _ p 1)
             by (intros x Hx; apply M6; lia).
           unfold cx2. rewrite pval_get_set_same.
           rewrite u32_small by (apply tag_addr_range; assumption).
           exact L6.
      * unfold cx2, cx1 in Fl6, Cm6, A6, F6.
        destruct (pval_set_fl (pval_set cx p 0 (pval_get cx c 0)) p 1
                    (wikrt_tag_addr WIKRT_PL (p + 8))) as (Y1 & Y2 & Y3 & Y4).
        destruct (pval_set_fl cx p 0 (pval_get cx c 0)) as (Y5 & Y6 & Y7 & Y8).
        split; [congruence|]. split; [congruence|]. split; [congruence|].
        split; [congruence|].
        intros x Hx. rewrite M6 by lia. apply M2. lia.
Qed.

(** The entry that [wikrt_copy_add_arraytask] puts on the work list for
    a spine of [n] cells at [spine]: a cell for one element, a double
    cell with step and count for more.  [sz] is the size of its block. *)
Definition copy_task (cx : wikrt_cx) (lcpy : wikrt_val) (t sz spine n : Z) : Prop :=
  0 < t /\ t mod 8 = 0 /\ t + sz <= 2^32 /\
  (forall x, t <= x < t + sz -> ~ cx_free cx x) /\
  pval_get cx t 0 = spine /\
  ((n = 1 /\ sz = 8 /\ lcpy = wikrt_tag_addr WIKRT_PL t /\
    pval_get cx t 1 = WIKRT_UNIT_INR) \/
   (1 < n /\ sz = 16 /\ lcpy = wikrt_tag_addr WIKRT_O t /\
    pval_get cx t 1 = 8 /\ pval_get cx t 2 = n /\
    pval_get cx t 3 = WIKRT_UNIT_INR)).

Lemma copy_task_frame cx cx' lcpy t sz spine n :
  copy_task cx lcpy t sz spine n ->
  (forall x, t <= x < t + sz -> load8 (memory cx') x = load8 (memory cx) x) ->
  (forall x, t <= x < t + sz -> cx_free cx' x -> cx_free cx x) ->
  copy_task cx' lcpy t sz spine n.
Proof.
  intros (Ht & Hm & Hb & Hu & E0 & K) M F.
  split; [exact Ht|]. split; [exact Hm|]. split; [exact Hb|]. split.
  - intros x Hx C. exact (Hu x Hx (F x Hx C)).
  - split.
    + rewrite (pval_get_ext cx cx' t 0); [exact E0|].
      intros x Hx. apply M. destruct K as [(_ & -> & _)|(_ & -> & _)]; lia.
    + destruct K as [(Hn & -> & El & E1)|(Hn & -> & El & E1 & E2 & E3)]; [left|right].
      * split; [exact Hn|]. split; [reflexivity|]. split; [exact El|].
        rewrite (pval_get_ext cx cx' t 1); [exact E1|]. intros x Hx. apply M. lia.
      * split; [exact Hn|]. split; [reflexivity|]. split; [exact El|].
        rewrite (pval_get_ext cx cx' t 1) by (intros x Hx; apply M; lia).
        rewrite (pval_get_ext cx cx' t 2) by (intros x Hx; apply M; lia).
        rewrite (pval_get_ext cx cx' t 3) by (intros x Hx; apply M; lia).
        auto.
Qed.

Lemma add_arraytask_spec cx spine n ok lcpy1 cx' :
  cx_wf cx -> 1 <= n < 2^32 -> 0 <= spine < 2^32 ->
  wikrt_copy_add_arraytask cx WIKRT_UNIT_INR spine WIKRT_CELLSIZE n = (ok, lcpy1, cx') ->
  cx_wf cx' /\ ct_bytes_freed cx' = ct_bytes_freed cx /\
  (forall x, cx_free cx' x -> cx_free cx x) /\
  (forall x, ~ cx_free cx x -> load8 (memory cx') x = load8 (memory cx) x) /\
  (ok = true ->
   exists t sz,
     copy_task cx' lcpy1 t sz spine n /\
     ct_bytes_alloc cx' = u64 (ct_bytes_alloc cx + sz) /\
     (forall x, t <= x < t + sz -> cx_free cx x)).
Proof.
  intros Hwf Hn Hs. unfold wikrt_copy_add_arraytask.
  assert (ptr_tag WIKRT_PL) as PL by (right; right; left; reflexivity).
  assert (ptr_tag WIKRT_O) as PO by (left; reflexivity).
  destruct (Z.eqb_spec 1 n) as [<-|N1].
  - unfold wikrt_copy_add_task. intros E.
    assert (tl_ok cx PtrOut) as To by exact I.
    destruct (alloc_cellval_tl _ _ _ _ _ _ _ _ _ Hwf PL To E)
      as [(-> & _ & W & (M & F) & A & Fr)
         |(-> & t & Vt & W & A & F & R & _ & G0 & G1 & In1 & Fr & Fm)].
    + split; [exact W|]. split; [exact F|]. split; [exact Fr|].
      split; [intros x _; rewrite M; reflexivity|]. discriminate.
    + split; [exact W|]. split; [exact F|]. split; [exact Fr|]. split.
      * intros x Hx. apply Fm; [|exact I]. intros C. exact (Hx (proj1 (In1 x C))).
      * intros _. exists t, 8. cbn [ptr_read] in R.
        destruct Vt as (T1 & T2 & T3).
        split; [|split; [exact A|intros x Hx; exact (proj1 (In1 x Hx))]].
        split; [exact T1|]. split; [exact T2|]. split; [exact T3|].
        split; [intros x Hx; exact (proj2 (In1 x Hx))|].
        split; [rewrite G0; apply u32_small; exact Hs|].
        left. split; [reflexivity|]. split; [reflexivity|]. split; [exact R|].
        rewrite G1. reflexivity.
  - unfold wikrt_alloc_dcellval.
    assert (0 < 2 * WIKRT_CELLSIZE < 2^30) as S16 by (unfold WIKRT_CELLSIZE; lia).
    destruct (wikrt_alloc cx (2 * WIKRT_CELLSIZE)) as [[t|] cx1] eqn:EA.
    + destruct (wikrt_alloc_some _ _ _ _ Hwf S16 EA)
        as (W & (M & F) & A & Ha & Hma & Hb & Hin & Hout).
      change (WIKRT_CELLBUFF (2 * WIKRT_CELLSIZE)) with 16 in *.
      cbn [ptr_write]. intros E. apply triple_inj in E. destruct E as (<- & <- & <-).
      set (cx4 := pval_set _ t 3 _).
      assert (forall x, cx_free cx4 x <-> cx_free cx1 x) as Fr4
          by (intros x; unfold cx4; rewrite !pval_set_free; reflexivity).
      split.
      { unfold cx4. repeat apply pval_set_wf. exact W. }
      split.
      { unfold cx4.
        repeat match goal with
               | |- context [ct_bytes_freed (pval_set ?c ?a ?i ?v)] =>
                   rewrite (proj2 (proj2 (proj2 (pval_set_fl c a i v))))
               end. exact F. }
      split; [intros x C; apply Hout, Fr4; exact C|]. split.
      { intros x Hx.
        assert (~ (t <= x < t + 16)) as Nx
            by (intros C; exact (Hx (proj1 (Hin x C)))).
        unfold cx4, pval_set, set_memory. cbn [memory].
        rewrite !load8_store32_other by lia. rewrite M. reflexivity. }
      intros _. exists t, 16. split; [|split].
      * split; [exact Ha|]. split; [exact Hma|]. split; [exact Hb|].
        split; [intros x Hx C; apply Fr4 in C; exact (proj2 (Hin x Hx) C)|].
        split.
        { unfold cx4. rewrite !pval_get_set_other by lia.
          rewrite pval_get_set_same. apply u32_small. exact Hs. }
        right. split; [lia|]. split; [reflexivity|]. split; [reflexivity|].
        unfold cx4. split; [|split].
        -- rewrite !pval_get_set_other by lia. rewrite pval_get_set_same. reflexivity.
        -- rewrite !pval_get_set_other by lia. rewrite pval_get_set_same.
           apply u32_small. lia.
        -- rewrite pval_get_set_same. reflexivity.
      * unfold cx4.
        repeat match goal with
               | |- context [ct_bytes_alloc (pval_set ?c ?a ?i ?v)] =>
                   rewrite (proj1 (proj2 (proj2 (pval_set_fl c a i v))))
               end. exact A.
      * intros x Hx. exact (proj1 (Hin x Hx)).
    + destruct (wikrt_alloc_none _ _ _ Hwf S16 EA) as (W & (M & F) & A & Fr).
      intros E. apply triple_inj in E. destruct E as (<- & <- & <-).
      split; [exact W|]. split; [exact F|]. split; [exact Fr|].
      split; [intros x _; rewrite M; reflexivity|]. discriminate.
Qed.

(** One turn of the loop on a shallow value: it is left alone and the
    work list says where to go on. *)
Lemma copy_shallow_step fuel b cx out dst lcpy :
  wikrt_copy_shallow (ptr_read cx out dst) = true ->
  copy_loop (S fuel) b cx out dst lcpy =
  match wikrt_copy_step_next cx lcpy with
  | Ret (cx1, lcpy1, dst1) =>
      match dst1 with
      | PtrNull => if WIKRT_UNIT_INR =? lcpy1 then Ret (WIKRT_OK, out, cx1) else Aborted
      | _ => copy_loop fuel b cx1 out dst1 lcpy1
      end
  | Aborted => Aborted
  | OutOfFuel => OutOfFuel
  end.
Proof. intros H. cbn [copy_loop]. cbv zeta. rewrite H. reflexivity. Qed.

Lemma copy_last_step fuel b cx out d :
  wikrt_copy_shallow (load32 (memory cx) d) = true ->
  copy_loop (S fuel) b cx out (PtrMem d) WIKRT_UNIT_INR = Ret (WIKRT_OK, out, cx).
Proof.
  intros H. rewrite copy_shallow_step by exact H.
  rewrite copy_step_next_done. reflexivity.
Qed.

(** One step of the array task: the count in the task's double cell goes
    down, its address goes one cell up, and the double cell is released
    when the count is zero. *)
Lemma copy_task_step cx t q k :
  0 < t -> t mod 8 = 0 -> t + 16 <= 2^32 ->
  pval_get cx t 0 = q -> pval_get cx t 1 = 8 -> pval_get cx t 2 = k ->
  pval_get cx t 3 = WIKRT_UNIT_INR -> 1 <= k ->
  exists cx2,
    wikrt_copy_step_next cx (wikrt_tag_addr WIKRT_O t)
    = Ret (if 0 =? k - 1
           then (wikrt_free cx2 (2 * WIKRT_CELLSIZE) t, WIKRT_UNIT_INR, PtrMem q)
           else (cx2, wikrt_tag_addr WIKRT_O t, PtrMem q)) /\
    pval_get cx2 t 0 = u32 (q + 8) /\ pval_get cx2 t 1 = 8 /\
    pval_get cx2 t 2 = k - 1 /\ pval_get cx2 t 3 = WIKRT_UNIT_INR /\
    (cx_wf cx -> cx_wf cx2) /\
    (forall x, cx_free cx2 x <-> cx_free cx x) /\
    (forall x, ~ (t <= x < t + 16) -> load8 (memory cx2) x = load8 (memory cx) x) /\
    ct_bytes_alloc cx2 = ct_bytes_alloc cx /\ ct_bytes_freed cx2 = ct_bytes_freed cx.
Proof.
  intros Ht Hm Hb E0 E1 E2 E3 Hk.
  assert (ptr_tag WIKRT_O) as PO by (left; reflexivity).
  assert (valid_addr t) as Vt by (unfold valid_addr; lia).
  pose proof (pval_get_range cx t 2) as Rk. rewrite E2 in Rk.
  unfold wikrt_copy_step_next.
  rewrite (vaddr_tag_addr _ _ PO Vt), (vtag_tag_addr _ _ PO Vt).
  destruct (Z.eqb_spec 0 t) as [C|_]; [lia|].
  change (WIKRT_PL =? WIKRT_O) with false.
  change (WIKRT_O =? WIKRT_O) with true. cbv iota zeta.
  rewrite E0, E2.
  set (cx1 := pval_set cx t 2 _).
  assert (pval_get cx1 t 0 = q) as G0
      by (unfold cx1; rewrite pval_get_set_other by lia; exact E0).
  assert (pval_get cx1 t 1 = 8) as G1
      by (unfold cx1; rewrite pval_get_set_other by lia; exact E1).
  rewrite G0, G1.
  set (cx2 := pval_set cx1 t 0 _).
  assert (pval_get cx2 t 2 = k - 1) as G2.
  { unfold cx2. rewrite pval_get_set_other by lia.
    unfold cx1. rewrite pval_get_set_same.
    rewrite (u32_small (k - 1)) by lia. apply u32_small. lia. }
  assert (pval_get cx2 t 3 = WIKRT_UNIT_INR) as G3.
  { unfold cx2. rewrite pval_get_set_other by lia.
    unfold cx1. rewrite pval_get_set_other by lia. exact E3. }
  exists cx2. rewrite G2, G3. split.
  { destruct (0 =? k - 1); reflexivity. }
  split.
  { unfold cx2. rewrite pval_get_set_same. apply u32_small. apply u32_range. }
  split.
  { unfold cx2. rewrite pval_get_set_other by lia. exact G1. }
  split; [reflexivity|]. split; [reflexivity|]. split.
  { intros W. unfold cx2, cx1. repeat apply pval_set_wf. exact W. }
  split.
  { intros x. unfold cx2, cx1. rewrite !pval_set_free. reflexivity. }
  split.
  { intros x Hx. unfold cx2, cx1, pval_set, set_memory. cbn [memory].
    rewrite !load8_store32_other by lia. reflexivity. }
  split; reflexivity.
Qed.

(** The array task: the loop visits the first word of each spine cell and
    releases the task's double cell with the last one. *)
Lemma copy_task_many b : forall (m : nat) fuel cx out d t q,
  cx_wf cx -> 0 < t -> t mod 8 = 0 -> t + 16 <= 2^32 ->
  (forall x, t <= x < t + 16 -> ~ cx_free cx x) ->
  pval_get cx t 0 = q -> pval_get cx t 1 = 8 ->
  pval_get cx t 2 = Z.of_nat (S m) -> pval_get cx t 3 = WIKRT_UNIT_INR ->
  0 <= q -> q + 8 * Z.of_nat (S m) <= 2^32 ->
  q + 8 * Z.of_nat (S m) <= t \/ t + 16 <= q ->
  (forall i, 0 <= i < Z.of_nat (S m) ->
             wikrt_copy_shallow (load32 (memory cx) (q + 8 * i)) = true) ->
  wikrt_copy_shallow (load32 (memory cx) d) = true ->
  (S m < fuel)%nat ->
  exists cx',
    copy_loop fuel b cx out (PtrMem d) (wikrt_tag_addr WIKRT_O t)
    = Ret (WIKRT_OK, out, cx') /\
    cx_wf cx' /\ ct_bytes_alloc cx' = ct_bytes_alloc cx /\
    ct_bytes_freed cx' = u64 (ct_bytes_freed cx + 16) /\
    (forall x, ~ (t <= x < t + 16) -> load8 (memory cx') x = load8 (memory cx) x) /\
    (forall x, cx_free cx' x -> cx_free cx x \/ t <= x < t + 16).
Proof.
  induction m as [|m IH];
    intros fuel cx out d t q Hwf Ht Hm Hb Hu E0 E1 E2 E3 Hq Hqb Hd Hs Hsd Hf;
    (destruct fuel as [|fuel]; [lia|]);
    rewrite copy_shallow_step by exact Hsd;
    destruct (copy_task_step cx t q _ Ht Hm Hb E0 E1 E2 E3 ltac:(lia))
      as (cx2 & -> & G0 & G1 & G2 & G3 & W2 & Fr2 & M2 & A2 & F2);
    specialize (W2 Hwf);
    assert (wikrt_copy_shallow (load32 (memory cx2) q) = true) as Hsq
      by (rewrite (load32_ext (memory cx) (memory cx2));
          [specialize (Hs 0 ltac:(lia)); rewrite Z.mul_0_r, Z.add_0_r in Hs; exact Hs
          |intros x Hx; apply M2; lia]).
  - change (0 =? Z.of_nat 1 - 1) with true. cbv iota.
    assert (0 < 2 * WIKRT_CELLSIZE < 2^31) as S16 by (unfold WIKRT_CELLSIZE; lia).
    destruct (wikrt_free_block cx2 (2 * WIKRT_CELLSIZE) t W2 S16 Ht Hm)
      as (W3 & M3 & A3 & F3 & Fr3).
    { change (WIKRT_CELLBUFF (2 * WIKRT_CELLSIZE)) with 16. exact Hb. }
    { change (WIKRT_CELLBUFF (2 * WIKRT_CELLSIZE)) with 16.
      intros x Hx C. apply Fr2 in C. exact (Hu x Hx C). }
    change (WIKRT_CELLBUFF (2 * WIKRT_CELLSIZE)) with 16 in *.
    set (cx3 := wikrt_free cx2 (2 * WIKRT_CELLSIZE) t) in *.
    destruct fuel as [|fuel]; [lia|].
    rewrite copy_last_step by (rewrite M3; exact Hsq).
    exists cx3. split; [reflexivity|]. split; [exact W3|].
    split; [congruence|]. split; [congruence|]. split.
    + intros x Hx. rewrite M3. apply M2. exact Hx.
    + intros x C. destruct (Fr3 x C) as [Y|Y]; [left; apply Fr2; exact Y|right; exact Y].
  - destruct (Z.eqb_spec 0 (Z.of_nat (S (S m)) - 1)) as [C|_]; [lia|].
    rewrite u32_small in G0 by lia.
    destruct (IH fuel cx2 out q t (q + 8)) as (cx' & E' & W' & A' & F' & M' & Fr');
      try assumption; try lia.
    + intros x Hx C. apply Fr2 in C. exact (Hu x Hx C).
    + intros i Hi. rewrite (load32_ext (memory cx) (memory cx2)).
      * replace (q + 8 + 8 * i) with (q + 8 * (i + 1)) by lia. apply Hs. lia.
      * intros x Hx. apply M2. lia.
    + exists cx'. split; [exact E'|]. split; [exact W'|].
      split; [congruence|]. split; [congruence|]. split.
      * intros x Hx. rewrite M' by exact Hx. apply M2. exact Hx.
      * intros x C. destruct (Fr' x C) as [Y|Y]; [left; apply Fr2; exact Y|right; exact Y].
Qed.

(** The task of either form, run to its end. *)
Lemma copy_task_run b fuel cx out d lcpy t sz spine n :
  cx_wf cx -> copy_task cx lcpy t sz spine n ->
  1 <= n -> 0 <= spine -> spine + 8 * n <= 2^32 ->
  spine + 8 * n <= t \/ t + sz <= spine ->
  (forall i, 0 <= i < n ->
             wikrt_copy_shallow (load32 (memory cx) (spine + 8 * i)) = true) ->
  wikrt_copy_shallow (load32 (memory cx) d) = true ->
  (Z.to_nat n + 1 <= fuel)%nat ->
  exists cx',
    copy_loop fuel b cx out (PtrMem d) lcpy = Ret (WIKRT_OK, out, cx') /\
    cx_wf cx' /\ ct_bytes_alloc cx' = ct_bytes_alloc cx /\
    ct_bytes_freed cx' = u64 (ct_bytes_freed cx + sz) /\
    (forall x, ~ (t <= x < t + sz) -> load8 (memory cx') x = load8 (memory cx) x) /\
    (forall x, cx_free cx' x -> cx_free cx x \/ t <= x < t + sz).
Proof.
  intros Hwf (Ht & Hm & Hb & Hu & E0 & K) Hn Hs Hsb Hd Hsh Hsd Hf.
  destruct K as [(-> & -> & -> & E1)|(Hn1 & -> & -> & E1 & E2 & E3)].
  - assert (ptr_tag WIKRT_PL) as PL by (right; right; left; reflexivity).
    assert (valid_addr t) as Vt by (unfold valid_addr; lia).
    destruct fuel as [|fuel]; [cbn in Hf; lia|].
    rewrite copy_shallow_step by exact Hsd.
    unfold wikrt_copy_step_next.
    rewrite (vaddr_tag_addr _ _ PL Vt), (vtag_tag_addr _ _ PL Vt).
    destruct (Z.eqb_spec 0 t) as [C|_]; [lia|].
    rewrite Z.eqb_refl, E0, E1.
    destruct (wikrt_free_cell cx t Hwf Vt Hu) as (W1 & M1 & A1 & F1 & Fr1).
    set (cx1 := wikrt_free cx WIKRT_CELLSIZE t) in *.
    destruct fuel as [|fuel]; [cbn in Hf; lia|].
    rewrite copy_last_step.
    + exists cx1. split; [reflexivity|]. split; [exact W1|]. split; [exact A1|].
      split; [exact F1|]. split; [intros x _; rewrite M1; reflexivity|exact Fr1].
    + rewrite M1. specialize (Hsh 0 ltac:(lia)).
      rewrite Z.mul_0_r, Z.add_0_r in Hsh. exact Hsh.
  - assert (n = Z.of_nat (S (Z.to_nat n - 1))) as En by lia.
    rewrite En in E2, Hsb, Hd, Hsh.
    apply (copy_task_many b (Z.to_nat n - 1) fuel cx out d t spine); try assumption.
    lia.
Qed.

Lemma list_cells_in_use cx : forall cs es v x,
  list_cells cx v cs es -> in_cells cs x -> ~ cx_free cx x.
Proof.
  induction cs as [|c cs IH]; intros [|e es] v x L Hx; cbn [list_cells] in L;
    try contradiction.
  - destruct Hx as (c & [] & _).
  - destruct L as (_ & _ & Uc & _ & Lr). apply in_cells_cons in Hx.
    destruct Hx as [Hx|Hx]; [exact (Uc x Hx)|exact (IH _ _ _ Lr Hx)].
Qed.

Lemma list_cells_shallow cx : forall cs es v c,
  list_cells cx v cs es -> Forall (fun e => wikrt_copy_shallow e = true) es ->
  In c cs -> wikrt_copy_shallow (load32 (memory cx) c) = true.
Proof.
  induction cs as [|c0 cs IH]; intros [|e es] v c L Hs Hc; cbn [list_cells] in L;
    try contradiction.
  destruct L as (_ & _ & _ & E0 & Lr).
  inversion Hs as [|e' es' He Hs' Eq]; subst e' es'.
  destruct Hc as [<-|Hc]; [|exact (IH _ _ _ Lr Hs' Hc)].
  unfold pval_get in E0. rewrite Z.mul_0_r, Z.add_0_r in E0. rewrite E0. exact He.
Qed.

Lemma seq_cells_mem n : forall p i,
  0 <= i < Z.of_nat n -> In (p + 8 * i) (seq_cells p n).
Proof.
  induction n as [|n IH]; intros p i Hi; [lia|]. cbn [seq_cells In].
  destruct (Z.eq_dec i 0) as [->|N].
  - left. lia.
  - right. replace (p + 8 * i) with (p + 8 + 8 * (i - 1)) by lia. apply IH. lia.
Qed.

Lemma copy_list_spec fuel b cx v c cs es :
  cx_wf cx -> list_cells cx v (c :: cs) es ->
  Forall (fun e => wikrt_copy_shallow e = true) es ->
  Z.of_nat (S (length cs)) < 2^27 ->
  (length cs + 3 <= fuel)%nat ->
  exists st v' cx',
    _wikrt_copy fuel cx v b = Ret (st, v', cx') /\
    cx_wf cx' /\
    (forall x, ~ cx_free cx x -> load8 (memory cx') x = load8 (memory cx) x) /\
    (forall x, cx_free cx' x -> cx_free cx x) /\
    list_cells cx' v (c :: cs) es /\
    ((st = WIKRT_CXFULL /\ v' = v /\ ct_bytes_freed cx' = ct_bytes_freed cx) \/
     (st = WIKRT_OK /\
      exists p sz,
        v' = wikrt_tag_addr WIKRT_PL p /\
        list_cells cx' v' (seq_cells p (S (length cs))) es /\
        (forall x, in_cells (seq_cells p (S (length cs))) x -> cx_free cx x) /\
        sz = (if (length cs =? 0)%nat then 8 else 16) /\
        ct_bytes_alloc cx' =
          u64 (ct_bytes_alloc cx + 8 * Z.of_nat (S (length cs)) + sz) /\
        ct_bytes_freed cx' = u64 (ct_bytes_freed cx + sz))).
Proof.
  intros Hwf L Hs Hn Hf.
  assert (ptr_tag WIKRT_PL) as PL by (right; right; left; reflexivity).
  assert (forall cx', (forall x, ~ cx_free cx x ->
                        load8 (memory cx') x = load8 (memory cx) x) ->
                      (forall x, cx_free cx' x -> cx_free cx x) ->
                      list_cells cx' v (c :: cs) es) as Keep.
  { intros cx' M F. apply (list_cells_frame cx cx'); [exact L| |].
    - intros x Hx. apply M. exact (list_cells_in_use cx _ _ _ x L Hx).
    - intros x _ C. exact (F x C). }
  pose proof L as L0. destruct es as [|e es]; cbn [list_cells] in L0; [contradiction|].
  destruct L0 as (Ev & Vc & Uc & E0 & Lr).
  destruct (cell_word_not_shallow c Vc) as (Hsh & _).
  destruct (list_cells_facts cx cs es _ Lr) as (Hl & Vs & _ & La).
  destruct fuel as [|fuel]; [lia|].
  unfold _wikrt_copy. cbn [copy_loop]. cbv zeta. cbn [ptr_read].
  subst v. rewrite Hsh, (vtag_tag_addr _ _ PL Vc), (vaddr_tag_addr _ _ PL Vc).
  change (negb (WIKRT_O =? WIKRT_PL)) with true. cbv iota.
  rewrite (spine_length_fuel es fuel cx _ 0 La) by lia.
  replace (u32 (1 + (0 + Z.of_nat (length es)))) with (Z.of_nat (S (length cs)))
    by (rewrite <- Hl, u32_small by lia; lia).
  set (n := Z.of_nat (S (length cs))) in *.
  replace (u32 (WIKRT_CELLSIZE * n)) with (8 * n)
    by (symmetry; apply u32_small; unfold WIKRT_CELLSIZE; lia).
  replace (Z.to_nat (n - 1)) with (length cs) by lia.
  assert (0 < 8 * n < 2^30) as S8n by lia.
  assert (WIKRT_CELLBUFF (8 * n) = 8 * n) as Cb.
  { apply cellbuff_multiple; [lia|]. rewrite Z.mul_comm. apply Z.mod_mul. lia. }
  destruct (wikrt_alloc cx (8 * n)) as [[spine|] cx1] eqn:EA.
  2:{ destruct (wikrt_alloc_none _ _ _ Hwf S8n EA) as (W1 & (M1 & F1) & A1 & Fr1).
      exists WIKRT_CXFULL, (wikrt_tag_addr WIKRT_PL c), cx1.
      assert (forall x, ~ cx_free cx x -> load8 (memory cx1) x = load8 (memory cx) x)
        as M by (intros x _; rewrite M1; reflexivity).
      split; [reflexivity|]. split; [exact W1|]. split; [exact M|].
      split; [exact Fr1|]. split; [apply Keep; assumption|]. left. auto. }
  destruct (wikrt_alloc_some _ _ _ _ Hwf S8n EA)
    as (W1 & (M1 & F1) & A1 & Ha & Hma & Hb & Hin & Hout).
  rewrite Cb in A1, Hb, Hin.
  destruct (wikrt_copy_add_arraytask cx1 WIKRT_UNIT_INR spine WIKRT_CELLSIZE n)
    as [[ok lcpy1] cx2] eqn:ET.
  assert (1 <= n < 2^32) as Rn by lia.
  assert (0 <= spine < 2^32) as Rs by lia.
  destruct (add_arraytask_spec cx1 spine n ok lcpy1 cx2 W1 Rn Rs ET)
    as (W2 & F2 & Fr2 & M2 & K2).
  destruct ok.
  2:{ exists WIKRT_CXFULL, (wikrt_tag_addr WIKRT_PL c), cx2.
      assert (forall x, ~ cx_free cx x -> load8 (memory cx2) x = load8 (memory cx) x)
        as M.
      { intros x Hx. rewrite M2 by (intros C; exact (Hx (Hout x C))).
        rewrite M1. reflexivity. }
      assert (forall x, cx_free cx2 x -> cx_free cx x) as F
          by (intros x C; exact (Hout x (Fr2 x C))).
      split; [reflexivity|]. split; [exact W2|]. split; [exact M|].
      split; [exact F|]. split; [apply Keep; assumption|]. left.
      split; [reflexivity|]. split; [reflexivity|]. congruence. }
  destruct (K2 eq_refl) as (t & sz & Tk & A2 & Tf).
  cbv beta iota. cbn [ptr_write]. cbv beta iota.
  pose proof Tk as (Ht & Htm & Htb & Htu & _ & Tsz).
  assert (sz = 8 \/ sz = 16) as Hsz
      by (destruct Tsz as [(_ & -> & _)|(_ & -> & _)]; auto).
  assert (spine + 8 * n <= t \/ t + sz <= spine) as Dj.
  { destruct (Z_le_gt_dec (spine + 8 * n) t); [lia|].
    destruct (Z_le_gt_dec (t + sz) spine); [lia|]. exfalso.
    apply (proj2 (Hin (Z.max spine t) ltac:(lia))). apply Tf. lia. }
  assert (list_cells cx2 (wikrt_tag_addr WIKRT_PL c) (c :: cs) (e :: es)) as Lsrc.
  { apply (list_cells_frame cx cx2); [exact L| |].
    - intros x Hx. pose proof (list_cells_in_use cx _ _ _ x L Hx) as U.
      rewrite M2 by (intros C; exact (U (Hout x C))). rewrite M1. reflexivity.
    - intros x _ C. exact (Hout x (Fr2 x C)). }
  assert (spine + 8 * Z.of_nat (S (length cs)) <= 2^32) as Hb' by (fold n; lia).
  destruct (spine_copy_spec cs (e :: es) cx2 c spine Lsrc Ha Hma Hb')
    as (cx4 & hd & E4 & K4).
  { intros x Hx. fold n in Hx. split.
    - intros C. exact (proj2 (Hin x Hx) (Fr2 x C)).
    - intros C. exact (list_cells_in_use cx _ _ _ x L C (proj1 (Hin x Hx))). }
  change (@length wikrt_addr cs) with (@length Z cs) in E4, K4.
  rewrite E4. cbv zeta in K4. cbv beta iota.
  set (q := spine + 8 * Z.of_nat (length cs)) in *.
  set (cx6 := pval_set (pval_set cx4 q 0 _) q 1 _) in *.
  destruct K4 as (L6 & U6 & Fl6 & Cm6 & A6 & F6 & M6).
  fold n in M6, L6.
  assert (forall x, cx_free cx6 x <-> cx_free cx2 x) as Fr6
      by (intros x; unfold cx_free; rewrite Fl6, Cm6; reflexivity).
  assert (cx_wf cx6) as W6 by (unfold cx_wf in *; rewrite Fl6, Cm6; exact W2).
  assert (copy_task cx6 lcpy1 t sz spine n) as Tk6.
  { apply (copy_task_frame cx2 cx6); [exact Tk| |].
    - intros x Hx. apply M6. lia.
    - intros x _ C. apply Fr6. exact C. }
  assert (1 <= n) as N1 by lia.
  assert (0 <= spine) as N0 by lia.
  assert (spine + 8 * n <= 2^32) as Nb by lia.
  destruct (copy_task_run b fuel cx6 (wikrt_tag_addr WIKRT_PL spine) (q + 4) lcpy1
              t sz spine n W6 Tk6 N1 N0 Nb Dj)
    as (cx' & E' & W' & A' & F' & M' & Fr').
  { intros i Hi. apply (list_cells_shallow cx6 _ _ _ _ L6 Hs).
    apply seq_cells_mem. lia. }
  { unfold pval_get in U6. replace (q + 4 * 1) with (q + 4) in U6 by lia.
    rewrite U6. reflexivity. }
  { lia. }
  exists WIKRT_OK, (wikrt_tag_addr WIKRT_PL spine), cx'.
  split; [exact E'|]. split; [exact W'|].
  assert (forall x, ~ cx_free cx x -> load8 (memory cx') x = load8 (memory cx) x) as Mf.
  { intros x Hx.
    assert (~ (t <= x < t + sz)) as X1 by (intros C; exact (Hx (Hout x (Tf x C)))).
    assert (~ (spine <= x < spine + 8 * n)) as X2
        by (intros C; exact (Hx (proj1 (Hin x C)))).
    rewrite M' by exact X1. rewrite M6 by exact X2.
    rewrite M2 by (intros C; exact (Hx (Hout x C))). rewrite M1. reflexivity. }
  assert (forall x, cx_free cx' x -> cx_free cx x) as Ff.
  { intros x C. destruct (Fr' x C) as [Y|Y].
    - apply Hout, Fr2, Fr6. exact Y.
    - exact (Hout x (Tf x Y)). }
  split; [exact Mf|]. split; [exact Ff|]. split; [apply Keep; assumption|].
  right. split; [reflexivity|]. exists spine, sz. split; [reflexivity|].
  split; [|split; [|split; [|split]]].
  - apply (list_cells_frame cx6 cx'); [exact L6| |].
    + intros x Hx. apply M'. apply in_seq_cells in Hx. fold n in Hx. lia.
    + intros x Hx C. apply in_seq_cells in Hx. fold n in Hx.
      destruct (Fr' x C) as [Y|Y]; [exact Y|lia].
  - intros x Hx. apply in_seq_cells in Hx. exact (proj1 (Hin x Hx)).
  - destruct Tsz as [(X1 & -> & _)|(X1 & -> & _)];
      destruct (length cs) as [|k] eqn:Ek; cbn [Nat.eqb]; try reflexivity; lia.
  - rewrite A', A6, A2, A1, u64_add_idem. reflexivity.
  - rewrite F', F6, F2, F1. reflexivity.
Qed.

(** Copying a list of shallow values: [_wikrt_copy] returns CXFULL, with
    its argument, or OK with a list of the same elements whose cells lie
    next to each other in bytes that were free; the task it kept on the
    work list is released again; in both cases the original list is
    still there, no byte that was in use has changed and no byte has
    become free. *)
Theorem copy_list fuel b cx v c cs es :
  cx_wf cx -> list_cells cx v (c :: cs) es ->
  Forall (fun e => wikrt_copy_shallow e = true) es ->
  Z.of_nat (S (length cs)) < 2^27 ->
  (length cs + 3 <= fuel)%nat ->
  exists st v' cx',
    _wikrt_copy fuel cx v b = Ret (st, v', cx') /\
    cx_wf cx' /\
    (forall x, ~ cx_free cx x -> load8 (memory cx') x = load8 (memory cx) x) /\
    (forall x, cx_free cx' x -> cx_free cx x) /\
    list_cells cx' v (c :: cs) es /\
    ((st = WIKRT_CXFULL /\ v' = v /\ ct_bytes_freed cx' = ct_bytes_freed cx) \/
     (st = WIKRT_OK /\
      exists p sz,
        v' = wikrt_tag_addr WIKRT_PL p /\
        list_cells cx' v' (seq_cells p (S (length cs))) es /\
        (forall x, in_cells (seq_cells p (S (length cs))) x -> cx_free cx x) /\
        sz = (if (length cs =? 0)%nat then 8 else 16) /\
        ct_bytes_alloc cx' =
          u64 (ct_bytes_alloc cx + 8 * Z.of_nat (S (length cs)) + sz) /\
        ct_bytes_freed cx' = u64 (ct_bytes_freed cx + sz))).
Proof. exact (copy_list_spec fuel b cx v c cs es). Qed.


Lemma u64_sub_eq x a y f : x - a = y - f -> u64 (u64 x - a) = u64 (u64 y - f).
Proof. intros H. unfold u64. rewrite !Zminus_mod_idemp_l. f_equal. exact H. Qed.

(** A binary is made, copied, and both lists are dropped: the copy
    returns OK or CXFULL; after OK both values are lists of the binary's
    bytes, both drops return OK, and in the end as many bytes have been
    freed as were allocated since before the binary was made. *)
Theorem binary_copy_drop fuel b cx v buff nBytes v1 cx1 :
  cx_wf cx -> 0 <= ct_bytes_alloc cx < 2^64 ->
  Forall (fun e => 0 <= e <= 255) buff ->
  1 <= nBytes <= Z.of_nat (length buff) -> nBytes < 2^27 ->
  _wikrt_alloc_binary cx v buff nBytes = (WIKRT_OK, v1, cx1) ->
  (2 * Z.to_nat nBytes + 2 <= fuel)%nat ->
  exists st v2 cx2,
    _wikrt_copy fuel cx1 v1 b = Ret (st, v2, cx2) /\
    (st = WIKRT_OK \/ st = WIKRT_CXFULL) /\
    list_at cx2 v1 (map wikrt_i2v (firstn (Z.to_nat nBytes) buff)) /\
    (st = WIKRT_OK ->
     list_at cx2 v2 (map wikrt_i2v (firstn (Z.to_nat nBytes) buff)) /\
     exists cx3 cx4,
       _wikrt_drop fuel cx2 v2 b = Ret (WIKRT_OK, cx3) /\
       _wikrt_drop fuel cx3 v1 b = Ret (WIKRT_OK, cx4) /\
       cx_wf cx4 /\
       u64 (ct_bytes_alloc cx4 - ct_bytes_alloc cx)
       = u64 (ct_bytes_freed cx4 - ct_bytes_freed cx)).
Proof.
  intros Hwf Hct Hb Hn Hn27 E Hf. unfold _wikrt_alloc_binary in E.
  set (bs := firstn (Z.to_nat nBytes) buff) in *.
  assert (Forall (fun e => 0 <= e <= 255) bs) as Hbs.
  { rewrite Forall_forall in *. intros e He. apply Hb.
    rewrite <- (firstn_skipn (Z.to_nat nBytes) buff). apply in_or_app. left. exact He. }
  assert (length bs = Z.to_nat nBytes) as Hl
      by (unfold bs; rewrite length_firstn, Nat.min_l by lia; reflexivity).
  assert (tl_ok cx PtrOut) as To by exact I.
  destruct (alloc_binary_loop_spec _ cx WIKRT_VOID PtrOut _ v1 cx1 Hwf To Hct Hbs E)
    as (W1 & _ & _ & F1 & _ & K).
  destruct (K eq_refl) as (_ & A1 & _).
  destruct (alloc_binary_loop_cells _ cx WIKRT_VOID PtrOut v1 cx1 Hwf To Hct Hbs E)
    as (cs & L & Nd & _).
  cbn [ptr_read] in L.
  destruct (list_cells_facts cx1 cs _ _ L) as (Lc & _).
  rewrite length_map, Hl in Lc.
  destruct cs as [|c cs]; [cbn [length] in Lc; lia|]. cbn [length] in Lc.
  assert (Forall (fun e => wikrt_copy_shallow e = true) (map wikrt_i2v bs)) as Hs.
  { apply Forall_map. rewrite Forall_forall in *. intros e He.
    apply copy_shallow_i2v. specialize (Hbs e He). lia. }
  assert (Z.of_nat (S (length cs)) < 2^27) as H27 by lia.
  assert (length cs + 3 <= fuel)%nat as Hf3 by lia.
  destruct (copy_list_spec fuel b cx1 v1 c cs _ W1 L Hs H27 Hf3)
    as (st & v2 & cx2 & E2 & W2 & M2 & Fr2 & L1 & K2).
  exists st, v2, cx2. split; [exact E2|].
  split; [destruct K2 as [(-> & _)|(-> & _)]; auto|].
  split; [exact (proj2 (proj2 (proj2 (list_cells_facts cx2 _ _ _ L1))))|].
  intros Hst. destruct K2 as [(C & _)|(_ & p & sz & Ev2 & L2 & Fc2 & Esz & A2 & F2)];
    [congruence|].
  split; [exact (proj2 (proj2 (proj2 (list_cells_facts cx2 _ _ _ L2))))|].
  assert (0 <= ct_bytes_freed cx2 < 2^64) as R2 by (rewrite F2; apply u64_range).
  assert (2 * length (seq_cells p (S (length cs))) + 1 <= fuel)%nat as Hf2
      by (rewrite seq_cells_length; lia).
  destruct (drop_list_spec fuel b cx2 v2 _ _ W2 R2 L2 (seq_cells_NoDup _ _) Hs Hf2)
    as (cx3 & E3 & W3 & A3 & F3 & Fr3 & M3).
  assert (list_cells cx3 v1 (c :: cs) (map wikrt_i2v bs)) as L3.
  { apply (list_cells_frame cx2 cx3); [exact L1| |].
    - intros x Hx. apply M3. intros C.
      exact (list_cells_in_use cx1 _ _ _ x L Hx (Fc2 x C)).
    - intros x Hx C. destruct (Fr3 x C) as [Y|Y]; [exact Y|].
      exfalso. exact (list_cells_in_use cx1 _ _ _ x L Hx (Fc2 x Y)). }
  assert (0 <= ct_bytes_freed cx3 < 2^64) as R3 by (rewrite F3; apply u64_range).
  assert (2 * length (c :: cs) + 1 <= fuel)%nat as Hf4 by (cbn [length]; lia).
  destruct (drop_list_spec fuel b cx3 v1 _ _ W3 R3 L3 Nd Hs Hf4)
    as (cx4 & E4 & W4 & A4 & F4 & _).
  exists cx3, cx4. split; [exact E3|]. split; [exact E4|]. split; [exact W4|].
  rewrite A4, A3, A2, A1, F4, F3, F2, F1, seq_cells_length. cbn [length].
  rewrite Hl.
  assert (forall x y z, u64 (u64 x + y + z) = u64 (x + y + z)) as U3
      by (intros x y z; unfold u64;
          rewrite <- Z.add_assoc, Zplus_mod_idemp_l; f_equal; lia).
  repeat (rewrite u64_add_idem || rewrite U3).
  apply u64_sub_eq. lia.
Qed.

End ListCopy.

Lemma copy_list_witness :
  exists v1 cx1 st v2 cx2,
    _wikrt_alloc_binary cx0 WIKRT_VOID [1; 2; 3] 2 = (WIKRT_OK, v1, cx1) /\
    _wikrt_copy 4 cx1 v1 false = Ret (st, v2, cx2) /\
    list_at cx2 v1 [wikrt_i2v 1; wikrt_i2v 2].
Proof.
  destruct (_wikrt_alloc_binary cx0 WIKRT_VOID [1; 2; 3] 2) as [[st v1] cx1] eqn:E.
  assert (st = WIKRT_OK) as Hst.
  { apply (f_equal (fun r => fst (fst r))) in E. vm_compute in E. congruence. }
  subst st. unfold _wikrt_alloc_binary in E.
  change (firstn (Z.to_nat 2) [1; 2; 3]) with [1; 2] in E.
  assert (0 <= ct_bytes_alloc cx0 < 2^64) as Hc by (vm_compute; split; congruence).
  assert (Forall (fun e => 0 <= e <= 255) [1; 2]) as Hb
      by (repeat (apply Forall_cons; [lia|]); apply Forall_nil).
  assert (tl_ok cx0 PtrOut) as To by exact I.
  destruct (alloc_binary_loop_spec _ cx0 WIKRT_VOID PtrOut _ v1 cx1 cx0_wf To Hc Hb E)
    as (W1 & _).
  destruct (alloc_binary_loop_cells _ cx0 WIKRT_VOID PtrOut v1 cx1 cx0_wf To Hc Hb E)
    as (cs & L & _).
  cbn [ptr_read] in L.
  destruct (list_cells_facts cx1 cs _ _ L) as (Lc & _). cbn [map length] in Lc.
  destruct cs as [|c cs]; [discriminate Lc|]. cbn [length] in Lc.
  assert (Forall (fun e => wikrt_copy_shallow e = true) (map wikrt_i2v [1; 2])) as Hs
      by (repeat (apply Forall_cons; [reflexivity|]); apply Forall_nil).
  assert (Z.of_nat (S (length cs)) < 2^27) as H27 by lia.
  assert (length cs + 3 <= 4)%nat as Hf by lia.
  destruct (copy_list 4 false cx1 v1 c cs _ W1 L Hs H27 Hf)
    as (st & v2 & cx2 & E2 & _ & _ & _ & L1 & _).
  exists v1, cx1, st, v2, cx2. split; [reflexivity|]. split; [exact E2|].
  exact (proj2 (proj2 (proj2 (list_cells_facts cx2 _ _ _ L1)))).
Defined.

Lemma binary_copy_drop_witness :
  exists v1 cx1 st v2 cx2,
    _wikrt_alloc_binary cx0 WIKRT_VOID [1; 2; 3] 2 = (WIKRT_OK, v1, cx1) /\
    _wikrt_copy 6 cx1 v1 false = Ret (st, v2, cx2) /\
    (st = WIKRT_OK \/ st = WIKRT_CXFULL).
Proof.
  destruct (_wikrt_alloc_binary cx0 WIKRT_VOID [1; 2; 3] 2) as [[st v1] cx1] eqn:E.
  assert (st = WIKRT_OK) as Hst.
  { apply (f_equal (fun r => fst (fst r))) in E. vm_compute in E. congruence. }
  subst st.
  assert (0 <= ct_bytes_alloc cx0 < 2^64) as Hc by (vm_compute; split; congruence).
  assert (Forall (fun e => 0 <= e <= 255) [1; 2; 3]) as Hb
      by (repeat (apply Forall_cons; [lia|]); apply Forall_nil).
  assert (1 <= 2 <= Z.of_nat (length [1; 2; 3])) as Hn by (cbn; lia).
  assert (2 < 2^27) as H27 by lia.
  assert (2 * Z.to_nat 2 + 2 <= 6)%nat as H6 by (cbn; lia).
  destruct (binary_copy_drop 6 false cx0 WIKRT_VOID [1; 2; 3] 2 v1 cx1
              cx0_wf Hc Hb Hn H27 E H6) as (st & v2 & cx2 & E2 & St & _).
  exists v1, cx1, st, v2, cx2. auto.
Defined.
